(* ===== verification/_CoqProject ===== *)
-Q . S2P
Prelude.v
GoList.v
GoStr.v
Json.v
JsonObj.v
Etcd.v
Elect.v
EtcdCtl.v
Lru.v
Recorder.v
RecorderMgr.v
Crypto.v
HashRing.v
Auth.v
EventCtl.v
Proto.v
Caches.v
Server.v
Pool.v
LockConc.v
CliConc.v
Dash.v
Registry.v
DashConc.v
Proxy.v
ProxyConc.v
Util.v
Client.v
Shell.v
ShellMain.v
ShellConc.v
Start.v
Cert.v
Cluster.v
System.v
Boot.v
