(* ===== verification/Prelude.v ===== *)
(** * mysh: a verification development

    mysh keeps the bash history of its users on servers.  A shell wrapper
    (cmd/mysh) sends each command a user runs, and searches for old ones on
    control-R, through a proxy; the proxy asks the dash server which search server
    keeps the user's history and forwards the request there; a search server keeps
    the histories of its users in memory, the last recently used ones, and in etcd.
    The dash maps users to servers with a consistent hash ring that follows the
    registry of servers in etcd, and moves users when the ring changes.

    ** Files

    Each file models one part; the first comment of a file says what it holds.

    - Foundations: [Prelude] (outcomes of Go calls, errors, the monad of calls with
      a state, lemmas on lists), [GoList] (container/list), [GoStr] (strings, path
      and fmt functions), [Json] and [JsonObj] (encoding/json and unicode/utf8 as
      the code uses them), [Crypto] (MD5, SHA-256, CRC-32 as functions), [Proto]
      (the messages of proto/proto.pb.go and the grpc clients as class [Grpc]).
    - lru/lru.go: [Lru].  recorder/recorder.go: [Recorder] (recorders and storages)
      and [RecorderMgr] (the manager: an LRU cache of running recorders).
    - lib/etcd/etcd.go: [Etcd] (keys, prefixes, registration, locks), [LockConc] (the
      goroutines at a lock), [Elect] (leader election) and [EtcdCtl] (the event loop
      that nothing uses).
    - vendor/github.com/1071496910, the author's own packages: [HashRing] and
      [EventCtl].
    - auth/auth.go and db/db.go: [Auth].  util/util.go: [Util].
    - server/server.go: [Caches] (endpoint cache, client managers, suspended
      users), [CliConc] (goroutines that share a client manager), [Server]
      (SearchServer, SearchController), [Dash] (DashServer,
      DashController), [Registry] (the controller, its watch and the ring
      together), [DashConc] (the goroutines of a dash), [Proxy]
      (ProxyServer, ProxyController as calls), [ProxyConc] (the goroutines of a
      proxy), [Start] (the Run functions and the mains).  [Pool] holds what
      the files of goroutines share: pools, runs, invariants, progress.
    - util/client/client.go: [Client].  cmd/mysh, cmd/mysh-agent: [Shell] (what the
      goroutines and handlers do), [ShellMain] (the processes around it) and
      [ShellConc] (the goroutines of the shell over their buffers).
      cmd/mysh-cert-server: [Cert], with what pulls the certificate.
    - [Cluster] composes Server, RecorderMgr, Etcd and Dash: several servers that
      share one etcd, with a dash in front.  [System] puts proxies in front of that.  [Boot] starts
      the processes of a system, with the functions of [Start], over an empty etcd.

    ** How the code is rendered

    A Go call is a function of the state that returns an [outcome]: it returns
    ([Done]), panics, or blocks.  A function with results (T, error) returns a
    [result], or a [reply] where the code may return both or neither.  A struct is
    a record, a mutex-protected map a [gmap], a pointer with shared mutable state
    an identity in a heap (the recorders, the elements of container/list).
    Goroutines are step relations where their interleaving matters ([EventCtl],
    [Elect.Electors], [LockConc], [CliConc], [ProxyConc], [DashConc], [ShellConc]),
    and separate operations of the state machine in [Recorder] and [RecorderMgr] (the
    ticker and the stop channel of [Run]).
    Integers that wrap are taken modulo their width (proxyReqCount, the slots of
    the ring, durations in [Util]).

    What is not under src/ is a class with its laws: the etcd client
    ([EtcdClient], [EtcdLaws]: a healthy service applies operations atomically and
    keeps other keys), the SQL driver ([Sql]), grpc connections ([Grpc]), the
    operating system, terminal, clock and random numbers ([Os], [Terminal], [Tty], [Net],
    [Exec], [Clock], [Rand]).  Each class of laws has a concrete instance
    ([MemEtcd], [MemFile], [MemOs], the example networks), in which the witnesses
    of the theorems are evaluated.  Between the program's own components the
    interfaces are classes too: [RecorderManager] with [RecorderManagerLaws] is
    discharged by [RecorderMgr]; [Storage] by both storages; [DashServices], what
    the dash relies on, by the servers in [Cluster].

    ** What is shown

    - Histories.  [LruTheorems.run_refines]: the cache is a sequence ordered by
      recency.  [RMgrTheorems.manager_refines]: the manager is one bounded history
      per user, across evictions, reloads and ticks;
      [stopped_histories_are_stored]; [PRecTheorems.sync_then_load]: the round
      trip through JSON and the storage; [loaded_commands_are_text]: whatever bytes
      the storage holds, what a recorder loads is text and satisfies the invariant.
      [ServerTheorems.server_refines]: a server
      is login states and histories; [no_login_no_change].
      [DeploymentTheorems.deployment_refines]: several servers behind a dash that
      moves users are one server; [accepted_commands_are_found] follows.
    - Placement.  [RingTheorems]: adding terminates on the program's ring, lookups
      find the owner, adding and deleting move no other key.
      [DashTheorems.UidEndpoint_answers_and_records]: the answer is recorded and
      the two maps in etcd agree.  [CtlTheorems]: events are not lost, duplicated or
      reordered within a type, and all handled.
      [RegistryTheorems.ring_follows_registry]: the ring holds the registered
      servers.  [StartTheorems]: a started server registers and joins the ring.
    - Coordination.  [LockConcTheorems]: calls of AtomicMultiKVOp in any processes
      exclude each other, take effect one after the other and all end, and one that
      is not interrupted does what the sequential [Etcd.AtomicMultiKVOp] does, which
      [EtcdTheorems.AtomicMultiKVOp_applies] describes.  This is why the models of
      the dash make a transaction with its lock one step.
      [ElectTheorems.leader_holds_live_lease]: one leader, whose lease lives;
      [DashTheorems.only_the_leader_answers].  [DashConcTheorems]: the requests of
      one dash in any interleaving while the ring stands still: what they answer and
      record, that they all end, and agreement with the sequential handler.
    - Proxies.  [ProxyTheorems.forwarding_survives_connection_errors].
      [ProxyConcTheorems]: the count and the mutex in every reachable state, what a
      clean guarantees, no deadlock among the goroutines, and agreement of the
      goroutine with the sequential [doProxy].
      [SystemTheorems.proxies_are_transparent]: proxies in front of the deployment.
      [BootTheorems.cold_start]: a system that comes up from nothing gets into the
      states this theorem is about.
      [CliConcTheorems.one_client_per_endpoint]: the double check of
      ensureCliExists makes one client for each endpoint.
    - Login and client: [AuthTheorems], [ClientTheorems], [ShellTheorems],
      [UtilTheorems]; [ShellMainTheorems.main_ends]: what a shell leaves behind;
      [CertTheorems]: the certificate of a user is what the certificate server answered
      last, and no shell starts without one.  [ShellConcTheorems]: the goroutines of
      the shell are the sequential relay, and what is typed reaches bash.
    - Errors of the code, each with a proof: a failed load overwrites the stored
      history ([failed_load_overwrites]); a stopped goroutine undoes a command
      ([stale_tick_loses_command]); an elector that was late never leads again; the
      query for the users of a server never matches; a deletion can overtake its
      addition; a ring change between two requests of a user leaves an entry in the
      index ([ring_change_breaks_index]); a proxy keeps sending a moved user to the
      old server ([stale_proxy_loses_commands]); a lookup survives a clean; a dash
      that cleans the asking proxy deadlocks with it; a call that did not get the lock
      releases another's ([failed_lock_breaks_exclusion]); a call for a new endpoint
      races with the others ([map_race_ends_process]); an arrow key that arrives in two
      pieces ends the shell ([split_arrow_kills]); a shell that cannot start
      bash leaves its socket and its session ([main_ends]); and others.

    ** Bounds and fuel

    Loops that the code does not bound carry fuel, and a result "fuel was not
    enough" ([None] or [Block]) that is never an answer.  [HashRing.probe]: 17778
    rounds per virtual node suffice on 4096 slots while at least 1024 are free
    ([AddNode_terminates]); [HashRing.get_loop]: one turn of the ring
    ([GetNode_finds]), beyond which an empty ring never ends
    ([GetNode_empty_diverges]).  [Etcd.AtomicMultiKVOp] and the dash: the tries of
    the lock; one suffices when it is free.  [Proxy.doProxy]: one more round than
    connection errors ([forwarding_survives_connection_errors]).
    The ring has room for 128 servers
    ([RegistryRing.free_enough]), which is why [Boot] starts no more.  [Shell.search_loop] recurs on the keys typed.  In
    [LockConc], [ProxyConc] and [DashConc] a goroutine takes one step at a time; the
    length of a schedule that ends all goroutines is bounded by [total].

    ** Not modelled

    Generated code (marshalling, getters and stubs of proto/proto.pb.go); the
    TCP, TLS, HTTP and pty plumbing, the resizing of the pty; logging; the test function
    of lib/etcd; test/common and the empty packages dash and proxy.  [ShellMain.main] takes what the
    goroutines of the shell do while bash runs as an argument; [Shell] models each,
    [ShellConc] all of them, with a call on a buffer as one step.  A constructor that only fills a struct is the
    record's constructor.  In [Boot] no lease ends while the system comes up.  RPCs are atomic: in [ProxyConc] a call of the dash or of a
    search server is one step of the calling goroutine, between which the others
    run; in [DashConc] a transaction of etcd with its lock is one step, while
    [LockConc] takes it apart.  In
    [Cluster] the dash is asked before every request, as a proxy whose cache has no
    entry does; the caches of the proxies are in [System]. *)

From stdpp Require Export base tactics option list gmap strings pretty sets relations.
From Stdlib Require Export ZArith Lia.

(** ** Outcomes of a Go call

    A Go call returns, panics (or ends the process: [log.Fatal]), or blocks: on
    a channel, or in a loop that does not end. *)
Inductive outcome (A : Type) : Type :=
  | Done (a : A)
  | Panic (msg : string)
  | Block.
Arguments Done {A} _.
Arguments Panic {A} _.
Arguments Block {A}.

#[export] Instance outcome_ret : MRet outcome := @Done.
#[export] Instance outcome_bind : MBind outcome :=
  λ A B f x, match x with Done a => f a | Panic m => Panic m | Block => Block end.
#[export] Instance outcome_fmap : FMap outcome :=
  λ A B f x, match x with Done a => Done (f a) | Panic m => Panic m | Block => Block end.
#[export] Instance outcome_eq_dec {A} `{EqDecision A} : EqDecision (outcome A).
Proof. solve_decision. Defined.

(** ** Go errors

    A non-nil [error].  The two sentinel errors the program compares with are
    constructors of their own; any other error is known by its text. *)
Inductive error : Type :=
  | ErrEmptyValue            (* etcd.ETCD_ERROR_EMPTY_VALUE *)
  | ErrNotLeader             (* cons.ErrDashLeaderUnavailable *)
  | Errorf (text : string).
#[export] Instance error_eq_dec : EqDecision error.
Proof. solve_decision. Defined.

(** [err.Error()] *)
Definition error_text (e : error) : string :=
  match e with Errorf t => t | ErrEmptyValue => "Empty value" | ErrNotLeader => "not leader" end.

(** A pair [(T, error)] of which exactly one component is meaningful. *)
Inductive result (A : Type) : Type :=
  | Ok (a : A)
  | Err (e : error).
Arguments Ok {A} _.
Arguments Err {A} _.

#[export] Instance result_ret : MRet result := @Ok.
#[export] Instance result_bind : MBind result :=
  λ A B f x, match x with Ok a => f a | Err e => Err e end.
#[export] Instance result_fmap : FMap result :=
  λ A B f x, match x with Ok a => Ok (f a) | Err e => Err e end.
#[export] Instance result_eq_dec {A} `{EqDecision A} : EqDecision (result A).
Proof. solve_decision. Defined.

Definition is_ok {A} (r : result A) : bool :=
  match r with Ok _ => true | Err _ => false end.

(** ** Calls with a state

    [io W A]: a call that reads and changes the state [W] (the network
    services, the heap) and may panic or block. *)
Definition io (W A : Type) : Type := W → outcome (A * W).
#[export] Instance io_ret {W} : MRet (io W) := λ A a w, Done (a, w).
#[export] Instance io_bind {W} : MBind (io W) :=
  λ A B f c w, match c w with Done (a, w) => f a w | Panic m => Panic m | Block => Block end.
(** A call of a service: it always returns. *)
Definition call {W A} (f : W → A * W) : io W A := λ w, Done (f w).
Definition panic {W A} (msg : string) : io W A := λ _, Panic msg.
Definition block {W A} : io W A := λ _, Block.
Definition get_st {W} : io W W := λ w, Done (w, w).
Definition put_st {W} (w : W) : io W unit := λ _, Done (tt, w).
#[global] Arguments io_ret {W} A / _ _ : assert.

(** ** Time: the clock and [time.Sleep], in nanoseconds *)
Class Clock (W : Type) := { Now : W → Z; Sleep : Z → W → W }.
Definition Second : Z := 1000000000.

(** ** Notations *)
Declare Scope go_scope.
Delimit Scope go_scope with go.
(** [run x <- c ;; k]: sequence two Go calls. *)
Notation "'run' x <- c ;; k" := (mbind (M := outcome) (λ x, k) c)
  (at level 100, x pattern, c at next level, right associativity) : go_scope.
(** [do x <- c ;; k]: the same for calls with a state. *)
Notation "'do' x <- c ;; k" := (mbind (M := io _) (λ x, k) c)
  (at level 100, x pattern, c at next level, right associativity) : go_scope.
#[export] Set Default Goal Selector "!".
Open Scope go_scope.

(** A call that does not touch the state, but may panic or block. *)
Definition lift {W A} (o : outcome A) : io W A := λ w, run a <- o ;; Done (a, w).

Lemma io_bind_Done {W A B} (c : io W A) (f : A → io W B) w a w' :
  c w = Done (a, w') → (do x <- c ;; f x) w = f a w'.
Proof. intros Hc. unfold mbind, io_bind. by rewrite Hc. Qed.

(** The calls that return. *)
Lemma io_bind_inv {W A B} (c : io W A) (f : A → io W B) w b w' :
  (do x <- c ;; f x) w = Done (b, w') → ∃ a w1, c w = Done (a, w1) ∧ f a w1 = Done (b, w').
Proof. unfold mbind, io_bind. destruct (c w) as [[a w1]| |]; [|done|done]. eauto. Qed.

(** ** Automation *)
Create HintDb mysh.

(** Split every [match]/[if] of the goal or of the hypotheses, then simplify. *)
Ltac break :=
  repeat (case_match || case_decide); simplify_eq/=.

(** Turn boolean tests into propositions. *)
Ltac bool_prop :=
  repeat match goal with
  | H : _ && _ = true |- _ => apply andb_true_iff in H as [? ?]
  | H : _ || _ = false |- _ => apply orb_false_iff in H as [? ?]
  | H : negb _ = true |- _ => apply negb_true_iff in H
  | H : negb _ = false |- _ => apply negb_false_iff in H
  | H : bool_decide _ = true |- _ => apply bool_decide_eq_true in H
  | H : bool_decide _ = false |- _ => apply bool_decide_eq_false in H
  end.

(** ** Lists *)
Section lists.
Context {A B : Type}.
Implicit Types l : list A.

Lemma omap_filter_out (f : A → option B) (P : A → Prop) (Q : B → Prop)
    `{∀ x, Decision (P x)} `{∀ y, Decision (Q y)} l :
  (∀ x y, x ∈ l → f x = Some y → P x ↔ Q y) →
  (∀ x, x ∈ l → is_Some (f x)) →
  omap f (filter P l) = filter Q (omap f l).
Proof.
  intros HPQ Hsome. induction l as [|x l IH]; [done|].
  destruct (Hsome x) as [y Hy]; [set_solver|].
  assert (P x ↔ Q y) as Hiff by (apply HPQ; [set_solver|done]).
  assert (omap f (filter P l) = filter Q (omap f l)) as IH'.
  { apply IH; intros; [apply HPQ|apply Hsome]; set_solver. }
  rewrite filter_cons. csimpl. rewrite Hy, filter_cons.
  destruct (decide (P x)), (decide (Q y)); try tauto; csimpl; by rewrite ?Hy, IH'.
Qed.

Lemma omap_ext_in (f g : A → option B) l :
  (∀ x, x ∈ l → f x = g x) → omap f l = omap g l.
Proof.
  induction l as [|x l IH]; intros Hfg; csimpl; [done|].
  rewrite Hfg by set_solver. destruct (g x); rewrite IH; set_solver.
Qed.

Lemma length_omap_total (f : A → option B) l :
  (∀ x, x ∈ l → is_Some (f x)) → length (omap f l) = length l.
Proof.
  induction l as [|x l IH]; intros Hs; csimpl; [done|].
  destruct (Hs x) as [y ->]; [set_solver|]. csimpl. rewrite IH; set_solver.
Qed.

Lemma filter_true_id l (P : A → Prop) `{∀ x, Decision (P x)} :
  (∀ x, x ∈ l → P x) → filter P l = l.
Proof.
  induction l as [|x l IH]; intros HP; [done|].
  rewrite filter_cons_True by set_solver. rewrite IH; set_solver.
Qed.

Lemma length_filter_lt l (P : A → Prop) `{∀ x, Decision (P x)} x :
  x ∈ l → ¬ P x → length (filter P l) < length l.
Proof.
  induction l as [|y l IH]; [set_solver|]. intros Hin HnP.
  rewrite filter_cons. pose proof (length_filter P l) as Hle.
  apply elem_of_cons in Hin as [->|Hin].
  - destruct (decide (P y)); [done|]. simpl. lia.
  - specialize (IH Hin HnP). destruct (decide (P y)); simpl; lia.
Qed.
End lists.
