(* ===== verification/GoList.v ===== *)
(** * container/list

    The doubly linked list of Go's standard library, as the LRU cache uses it.
    An element is a pointer: it is known by an identity ([nat]) and its
    [Value] is a mutable cell.  [Remove] unlinks the element but leaves the
    cell, so a caller that still holds the pointer reads the value, as
    [lru.Add] does with the element it evicts. *)

From S2P Require Import Prelude.

Record dlist (V : Type) := DList {
  order : list nat;    (** the linked elements, front first *)
  cells : gmap nat V;  (** [Element.Value] of every element ever created *)
  fresh : nat;         (** the next identity *)
}.
Arguments DList {V} _ _ _.
Arguments order {V} _.
Arguments cells {V} _.
Arguments fresh {V} _.

Module GoList.
Section dlist.
Context {V : Type}.
Implicit Types l : dlist V.

Definition New : dlist V := DList [] ∅ 0.
Definition Len l : nat := length (order l).
Definition Front l : option nat := head (order l).
Definition Back l : option nat := last (order l).
Definition Value l (e : nat) : option V := cells l !! e.
(** [e.Value = v] *)
Definition SetValue l (e : nat) (v : V) : dlist V :=
  DList (order l) (<[e := v]> (cells l)) (fresh l).
Definition PushFront l (v : V) : nat * dlist V :=
  (fresh l, DList (fresh l :: order l) (<[fresh l := v]> (cells l)) (S (fresh l))).
(** Operations on an element that is not linked in the list do nothing. *)
Definition Remove l (e : nat) : dlist V :=
  DList (filter (λ x, x ≠ e) (order l)) (cells l) (fresh l).
Definition MoveToFront l (e : nat) : dlist V :=
  if decide (e ∈ order l)
  then DList (e :: filter (λ x, x ≠ e) (order l)) (cells l) (fresh l)
  else l.
Fixpoint insert_before (e mark : nat) (os : list nat) : list nat :=
  match os with
  | [] => []
  | x :: os => if decide (x = mark) then e :: x :: os else x :: insert_before e mark os
  end.
Definition MoveBefore l (e mark : nat) : dlist V :=
  if decide (e = mark ∨ e ∉ order l ∨ mark ∉ order l) then l
  else DList (insert_before e mark (filter (λ x, x ≠ e) (order l))) (cells l) (fresh l).

(** ** Well-formedness: the linked elements are distinct and have a cell. *)
Record wf l : Prop := {
  wf_nodup : NoDup (order l);
  wf_cells : ∀ e, e ∈ order l → is_Some (cells l !! e);
  wf_fresh : ∀ e, e ∈ order l → e < fresh l;
}.

Lemma wf_New : wf New.
Proof. split; simpl; [constructor|set_solver|set_solver]. Qed.
Lemma wf_SetValue l e v : wf l → wf (SetValue l e v).
Proof.
  intros [? Hc ?]; split; simpl; [done| |done]. intros x Hx.
  destruct (decide (e = x)) as [->|]; [rewrite lookup_insert_eq; eauto|].
  rewrite lookup_insert_ne by done. auto.
Qed.
Lemma wf_PushFront l v : wf l → wf (PushFront l v).2.
Proof.
  intros [? Hc Hf]; split; simpl.
  - constructor; [|done]. intros Hin. specialize (Hf _ Hin). lia.
  - intros x Hx. destruct (decide (fresh l = x)) as [->|]; [rewrite lookup_insert_eq; eauto|].
    rewrite lookup_insert_ne by done. apply Hc. set_solver.
  - intros x [->|Hx]%elem_of_cons; [lia|]. specialize (Hf _ Hx). lia.
Qed.
Lemma wf_Remove l e : wf l → wf (Remove l e).
Proof.
  intros [? Hc Hf]; split; simpl; [by apply NoDup_filter| |];
    intros x [_ Hx]%list_elem_of_filter; auto.
Qed.
Lemma wf_MoveToFront l e : wf l → wf (MoveToFront l e).
Proof.
  intros Hwf. unfold MoveToFront. case_decide as Hin; [|done]. destruct Hwf as [? Hc Hf].
  split; simpl.
  - constructor; [|by apply NoDup_filter]. intros [? _]%list_elem_of_filter; done.
  - intros x [->|[_ Hx]%list_elem_of_filter]%elem_of_cons; auto.
  - intros x [->|[_ Hx]%list_elem_of_filter]%elem_of_cons; auto.
Qed.

(** Moving an element before the front is moving it to the front. *)
Lemma MoveBefore_Front l e m :
  wf l → Front l = Some m → MoveBefore l e m = MoveToFront l e.
Proof.
  intros [Hnd _ _]. unfold Front, MoveBefore, MoveToFront.
  destruct l as [[|x os] c f]; simpl; [done|]. intros [= ->]. simpl in Hnd.
  apply NoDup_cons in Hnd as [Hm _]. destruct (decide (e = m)) as [->|Hne].
  - rewrite decide_True by tauto. rewrite decide_True by set_solver.
    rewrite filter_cons_False by tauto.
    rewrite (filter_true_id os) by set_solver. done.
  - destruct (decide (e ∈ m :: os)) as [Hin|Hin].
    + rewrite decide_False by set_solver.
      rewrite filter_cons_True by done. simpl. by rewrite decide_True.
    + by rewrite decide_True by set_solver.
Qed.

Lemma Back_is_Some l : 0 < Len l → is_Some (Back l).
Proof.
  unfold Len, Back. intros Hl. destruct (order l) as [|x os] using rev_ind; [simpl in Hl; lia|].
  rewrite last_snoc. eauto.
Qed.
Lemma Back_elem l e : Back l = Some e → e ∈ order l.
Proof. apply last_Some_elem_of. Qed.
Lemma Remove_Back l e :
  wf l → Back l = Some e → order (Remove l e) = removelast (order l).
Proof.
  intros [Hnd _ _]. unfold Back. simpl. destruct (order l) as [|x os] using rev_ind; [done|].
  rewrite last_snoc. intros [= ->]. rewrite removelast_last, filter_app.
  apply NoDup_app in Hnd as (_ & Hdisj & _).
  rewrite filter_cons_False by tauto. rewrite filter_nil, app_nil_r.
  apply filter_true_id. intros y Hy ->. by apply (Hdisj e); set_solver.
Qed.
End dlist.
End GoList.
