(* ===== verification/GoStr.v ===== *)
(** * Strings, formats and paths of Go's standard library

    What the program uses of [strings], [fmt], [strconv], [path/filepath] and
    [index/suffixarray], on Go strings (byte strings, [string] here).  The path
    functions are those of a system whose separator is ['/']. *)

From S2P Require Import Prelude.
From Stdlib Require Import Ascii.

Module GoStr.

(** ** strings *)
Fixpoint has_char (c : ascii) (s : string) : bool :=
  match s with "" => false | String a s => bool_decide (a = c) || has_char c s end.

(** [strings.HasPrefix(s, p)] *)
Definition HasPrefix (s p : string) : bool := String.prefix p s.
#[global] Arguments HasPrefix : simpl never.

(** [strings.Contains(s, sub)] *)
Fixpoint Contains (s sub : string) : bool :=
  HasPrefix s sub || match s with "" => false | String _ s => Contains s sub end.

(** [strings.Split(s, sep)] for a separator of one byte. *)
Fixpoint Split (s : string) (sep : ascii) : list string :=
  match s with
  | "" => [""]
  | String a s =>
    if decide (a = sep) then "" :: Split s sep
    else match Split s sep with
      | [] => [String a ""]
      | x :: xs => String a x :: xs
      end
  end.

(** [strings.Join(l, sep)] *)
Fixpoint Join_with (l : list string) (sep : string) : string :=
  match l with
  | [] => ""
  | [x] => x
  | x :: xs => x +:+ sep +:+ Join_with xs sep
  end.

(** [len(suffixarray.New([]byte(s)).Lookup([]byte(sub), 1)) > 0]: an empty
    pattern has no occurrence. *)
Definition Lookup_found (s sub : string) : bool :=
  negb (bool_decide (sub = "")) && Contains s sub.

(** [strconv.Itoa] *)
Definition Itoa (z : Z) : string := pretty z.

(** ** fmt.Sprintf, for formats whose only verb is [%v] and string operands.
    A verb without operand prints [%!v(MISSING)]; operands that are left over
    are listed at the end. *)
Definition extra_args (args : list string) : string :=
  match args with
  | [] => ""
  | _ => "%!(EXTRA " +:+ Join_with ((λ a, "string=" +:+ a) <$> args) ", " +:+ ")"
  end.
Fixpoint Sprintf (format : string) (args : list string) : string :=
  match format with
  | "" => extra_args args
  | String "%" (String "v" format) =>
    match args with
    | [] => "%!v(MISSING)" +:+ Sprintf format []
    | a :: args => a +:+ Sprintf format args
    end
  | String c format => String c (Sprintf format args)
  end.

(** ** path/filepath *)
Definition slash : ascii := "/".
Definition rooted (s : string) : bool :=
  match s with String a _ => bool_decide (a = slash) | "" => false end.

(** One path element; [st] is the stack of elements kept so far, last first. *)
Definition clean_step (is_rooted : bool) (st : list string) (seg : string) : list string :=
  if decide (seg = "" ∨ seg = ".") then st
  else if decide (seg = "..") then
    match st with
    | top :: st' => if decide (top = "..") then seg :: st else st'
    | [] => if is_rooted then [] else [seg]
    end
  else seg :: st.
Definition clean_segs (s : string) : list string :=
  reverse (foldl (clean_step (rooted s)) [] (Split s slash)).
Definition Clean (s : string) : string :=
  match rooted s, clean_segs s with
  | true, segs => String slash (Join_with segs "/")
  | false, [] => "."
  | false, segs => Join_with segs "/"
  end.

(** [filepath.Join]: leading empty elements are dropped, and the rest is
    joined and cleaned. *)
Fixpoint Join (elem : list string) : string :=
  match elem with
  | [] => ""
  | e :: es => if decide (e = "") then Join es else Clean (Join_with elem "/")
  end.

(** [filepath.Dir]: what precedes the last separator, cleaned. *)
Fixpoint upto_slash (s : string) : string :=
  match s with
  | "" => ""
  | String c s =>
    if has_char slash s then String c (upto_slash s)
    else if Ascii.eqb c slash then String c "" else ""
  end.
Definition Dir (path : string) : string := Clean (upto_slash path).

(** [filepath.Rel], element by element. *)
Fixpoint strip_common (b t : list string) : list string * list string :=
  match b, t with
  | x :: b', y :: t' => if decide (x = y) then strip_common b' t' else (b, t)
  | _, _ => (b, t)
  end.
Definition Rel (basepath targpath : string) : result string :=
  let fail := Err (Errorf ("Rel: can't make " +:+ targpath +:+ " relative to " +:+ basepath)) in
  if decide (Clean basepath = Clean targpath) then Ok "."
  else if negb (Bool.eqb (rooted basepath) (rooted targpath)) then fail
  else
    let '(b, t) := strip_common (clean_segs basepath) (clean_segs targpath) in
    if decide (head b = Some "..") then fail
    else Ok (Join_with (replicate (length b) ".." ++ t) "/").

(** ** Facts *)
(** Decimal printing, digit by digit. *)
(** Numbers are printed with digits only. *)
Lemma has_char_pretty c (n : N) : (∀ d, pretty_N_char d ≠ c) → has_char c (pretty n) = false.
Proof.
  intros Hc. assert (Hdigit : ∀ d s, has_char c s = false → has_char c (String (pretty_N_char d) s) = false).
  { intros d s Hs. simpl. rewrite Hs, orb_false_r. by apply bool_decide_eq_false_2. }
  assert (∀ x s, has_char c s = false → has_char c (pretty_N_go x s) = false) as Hgo.
  { intros x. induction (N.lt_wf_0 x) as [x _ IH]. intros s Hs.
    destruct (decide (x = 0%N)) as [->|Hx]; [by rewrite pretty_N_go_0|].
    rewrite pretty_N_go_step by lia. apply IH; [apply N.div_lt; lia|by apply Hdigit]. }
  unfold pretty, pretty_N. case_decide; [by apply (Hdigit 0%N "")|by apply Hgo].
Qed.
Ltac other_char := let d := fresh "d" in let q := fresh "q" in
  intros d; unfold pretty_N_char; destruct d as [|q]; [discriminate|];
  do 4 (destruct q as [q|q|]; try discriminate).
Lemma has_char_Itoa_slash z : has_char slash (Itoa z) = false.
Proof.
  unfold Itoa. destruct z as [|p|p]; [done|..]; change (pretty (Z.pos p)) with (pretty (N.pos p)).
  - apply has_char_pretty. other_char.
  - change (pretty (Z.neg p)) with ("-" +:+ pretty (N.pos p)). simpl. apply has_char_pretty. other_char.
Qed.
Lemma pretty_N_snoc x d : (0 < x)%N → (d < 10)%N →
  pretty (10 * x + d)%N = pretty x +:+ String (pretty_N_char d) "".
Proof.
  intros Hx Hd. unfold pretty, pretty_N. rewrite !decide_False by lia.
  rewrite pretty_N_go_step by lia.
  replace ((10 * x + d) `div` 10)%N with x by (apply N.div_unique with d; lia).
  replace ((10 * x + d) `mod` 10)%N with d by (apply N.mod_unique with x; lia).
  generalize (String (pretty_N_char d) ""). clear Hd.
  assert (∀ x s s', pretty_N_go x s +:+ s' = pretty_N_go x (s +:+ s')) as Hgo.
  { clear. intros x. induction (N.lt_wf_0 x) as [x _ IH]. intros s s'.
    destruct (decide (x = 0%N)) as [->|?]; [by rewrite !pretty_N_go_0|].
    rewrite (pretty_N_go_step x s), (pretty_N_go_step x (s +:+ s')) by lia.
    rewrite IH; [done|]. apply N.div_lt; lia. }
  intros s. by rewrite (Hgo x "" s).
Qed.
Lemma sapp_nil_r (s : string) : s +:+ "" = s.
Proof. induction s as [|a s IH]; [done|]. change (String a (s +:+ "") = String a s). by rewrite IH. Qed.
Lemma sapp_assoc (s1 s2 s3 : string) : (s1 +:+ s2) +:+ s3 = s1 +:+ s2 +:+ s3.
Proof.
  induction s1 as [|a s1 IH]; [done|].
  change (String a ((s1 +:+ s2) +:+ s3) = String a (s1 +:+ s2 +:+ s3)). by rewrite IH.
Qed.
Lemma sapp_cons a (s1 s2 : string) : String a s1 +:+ s2 = String a (s1 +:+ s2).
Proof. done. Qed.
Lemma slength_app (s1 s2 : string) :
  String.length (s1 +:+ s2) = String.length s1 + String.length s2.
Proof.
  induction s1 as [|a s1 IH]; [done|].
  change (S (String.length (s1 +:+ s2)) = S (String.length s1 + String.length s2)). by rewrite IH.
Qed.
Lemma has_char_app c s1 s2 : has_char c (s1 +:+ s2) = has_char c s1 || has_char c s2.
Proof.
  induction s1 as [|a s1 IH]; [done|]. rewrite sapp_cons. simpl. rewrite IH. by rewrite orb_assoc.
Qed.

Lemma app_inj_r (s s1 s2 : string) : s1 +:+ s = s2 +:+ s → s1 = s2.
Proof.
  revert s2. induction s1 as [|a s1 IH]; intros [|b s2] Heq; [done| | |].
  - apply (f_equal String.length) in Heq. rewrite !slength_app in Heq. simpl in Heq. lia.
  - apply (f_equal String.length) in Heq. rewrite !slength_app in Heq. simpl in Heq. lia.
  - rewrite !sapp_cons in Heq. injection Heq as -> Heq. f_equal. by apply IH.
Qed.

Lemma HasPrefix_app p s : HasPrefix (p +:+ s) p = true.
Proof.
  unfold HasPrefix. induction p as [|a p IH]; [by destruct s|].
  rewrite sapp_cons. simpl. by destruct (ascii_dec a a).
Qed.
Lemma HasPrefix_inv s p : HasPrefix s p = true → ∃ r, s = p +:+ r.
Proof.
  unfold HasPrefix. revert s. induction p as [|a p IH]; intros s Hp; [by exists s|].
  destruct s as [|b s]; simpl in Hp; [done|]. destruct (ascii_dec a b) as [->|]; [|done].
  destruct (IH s Hp) as [r ->]. by exists r.
Qed.
Lemma HasPrefix_spec s p : HasPrefix s p = true ↔ ∃ r, s = p +:+ r.
Proof. split; [apply HasPrefix_inv|intros [r ->]; apply HasPrefix_app]. Qed.

Lemma Contains_spec s sub : Contains s sub = true ↔ ∃ a b, s = a +:+ sub +:+ b.
Proof.
  induction s as [|c s IH]; simpl; rewrite orb_true_iff, HasPrefix_spec.
  - split; [intros [[r Hr]|]; [exists "", r; done|done]|]. intros (a & b & Heq). left.
    destruct a; [|done]. by exists b.
  - rewrite IH. split.
    + intros [[r Hr]|(a & b & ->)]; [by exists "", r|by exists (String c a), b].
    + intros (a & b & Heq). destruct a as [|c' a]; [left; by exists b|].
      rewrite sapp_cons in Heq. injection Heq as <- ->. right. by exists a, b.
Qed.

Lemma Split_ne s sep : Split s sep ≠ [].
Proof. destruct s; simpl; [done|]. case_decide; [done|]. by destruct (Split s sep). Qed.
Lemma Split_no_sep s sep : has_char sep s = false → Split s sep = [s].
Proof.
  induction s as [|a s IH]; simpl; [done|]. intros [Ha Hs]%orb_false_iff.
  apply bool_decide_eq_false in Ha. rewrite decide_False by done. by rewrite IH.
Qed.
Lemma Split_app s1 s2 sep :
  has_char sep s1 = false → Split (s1 +:+ String sep s2) sep = s1 :: Split s2 sep.
Proof.
  induction s1 as [|a s1 IH]; intros Hs.
  - change ("" +:+ String sep s2) with (String sep s2). simpl. by rewrite decide_True.
  - simpl in Hs. apply orb_false_iff in Hs as [Ha Hs]. apply bool_decide_eq_false in Ha.
    rewrite sapp_cons. simpl. rewrite decide_False by done. by rewrite IH.
Qed.
(** [Split] undoes [Join] on elements that do not hold the separator. *)
Lemma Split_Join_with l sep :
  l ≠ [] → Forall (λ x, has_char sep x = false) l →
  Split (Join_with l (String sep "")) sep = l.
Proof.
  intros Hne Hall. induction Hall as [|x l Hx Hl IH]; [done|].
  destruct l as [|y l]; [by apply Split_no_sep|].
  change (Join_with (x :: y :: l) (String sep ""))
    with (x +:+ String sep (Join_with (y :: l) (String sep ""))).
  rewrite Split_app by done. f_equal. by apply IH.
Qed.

(** ** Path elements

    A [name] is a path element that [Clean] keeps as it is. *)
Definition name_ok (x : string) : bool :=
  negb (bool_decide (x = "" ∨ x = "." ∨ x = "..")) && negb (has_char slash x).
(** An absolute directory, with the trailing slash the registry prefixes have. *)
Definition absdir (ds : list string) : string := String slash (Join_with ds "/" +:+ "/").
Definition abspath (ds : list string) : string := String slash (Join_with ds "/").

Lemma name_ok_spec x : name_ok x = true ↔
  x ≠ "" ∧ x ≠ "." ∧ x ≠ ".." ∧ has_char slash x = false.
Proof.
  unfold name_ok. rewrite andb_true_iff, !negb_true_iff, bool_decide_eq_false. tauto.
Qed.
Lemma clean_step_name r st x : name_ok x = true → clean_step r st x = x :: st.
Proof.
  intros (? & ? & ? & _)%name_ok_spec. unfold clean_step.
  rewrite decide_False by tauto. by rewrite decide_False.
Qed.
Lemma clean_step_empty r st : clean_step r st "" = st.
Proof. unfold clean_step. by rewrite decide_True by tauto. Qed.
Lemma foldl_clean_names r ds st :
  Forall (λ x, name_ok x = true) ds → foldl (clean_step r) st ds = reverse ds ++ st.
Proof.
  intros Hds. revert st. induction Hds as [|x ds Hx Hds IH]; intros st; [done|]. simpl.
  rewrite clean_step_name, IH by done. rewrite reverse_cons. by rewrite <- (assoc_L (++)).
Qed.
Lemma names_no_slash ds :
  Forall (λ x, name_ok x = true) ds → Forall (λ x, has_char slash x = false) ds.
Proof. intros Hds. eapply Forall_impl; [exact Hds|]. intros x Hx. apply name_ok_spec in Hx. tauto. Qed.

Lemma Split_join_app ds s :
  ds ≠ [] → Forall (λ x, has_char slash x = false) ds →
  Split (Join_with ds "/" +:+ String slash s) slash = ds ++ Split s slash.
Proof.
  intros Hne Hds. induction Hds as [|x ds Hx Hds IH]; [done|].
  destruct ds as [|y ds]; [simpl; by apply Split_app|].
  change (Join_with (x :: y :: ds) "/") with (x +:+ String slash (Join_with (y :: ds) "/")).
  rewrite sapp_assoc, sapp_cons, Split_app by done. csimpl. f_equal. by apply IH.
Qed.
Lemma Split_slash s : Split (String slash s) slash = "" :: Split s slash.
Proof. done. Qed.

Lemma clean_segs_abspath ds :
  ds ≠ [] → Forall (λ x, name_ok x = true) ds → clean_segs (abspath ds) = ds.
Proof.
  intros Hne Hds. unfold clean_segs, abspath. rewrite Split_slash. csimpl.
  rewrite Split_Join_with, clean_step_empty, foldl_clean_names by auto using names_no_slash.
  by rewrite (right_id_L [] (++)), reverse_involutive.
Qed.
Lemma clean_segs_absdir ds :
  ds ≠ [] → Forall (λ x, name_ok x = true) ds → clean_segs (absdir ds) = ds.
Proof.
  intros Hne Hds. unfold clean_segs, absdir. rewrite Split_slash. csimpl.
  change "/" with (String slash "") at 2.
  rewrite Split_join_app by auto using names_no_slash.
  rewrite foldl_app, clean_step_empty, (foldl_clean_names _ ds) by done.
  csimpl. rewrite clean_step_empty, (right_id_L [] (++)). apply reverse_involutive.
Qed.
Lemma Clean_abspath ds :
  ds ≠ [] → Forall (λ x, name_ok x = true) ds → Clean (abspath ds) = abspath ds.
Proof. intros Hne Hds. unfold Clean. by rewrite clean_segs_abspath. Qed.
Lemma Clean_absdir ds :
  ds ≠ [] → Forall (λ x, name_ok x = true) ds → Clean (absdir ds) = abspath ds.
Proof. intros Hne Hds. unfold Clean. by rewrite clean_segs_absdir. Qed.

Lemma absdir_app ds x :
  ds ≠ [] → absdir ds +:+ x = abspath (ds ++ [x]).
Proof.
  intros Hne. unfold absdir, abspath. rewrite sapp_cons. f_equal. rewrite sapp_assoc.
  induction ds as [|y ds IH]; [done|]. destruct ds as [|z ds]; [done|].
  change (Join_with (y :: z :: ds) "/") with (y +:+ String slash (Join_with (z :: ds) "/")).
  change (Join_with ((y :: z :: ds) ++ [x]) "/")
    with (y +:+ String slash (Join_with ((z :: ds) ++ [x]) "/")).
  rewrite sapp_assoc, sapp_cons. by rewrite IH.
Qed.

(** Joining a name to a directory appends it; so different names give
    different paths. *)
Lemma Join_absdir ds x :
  ds ≠ [] → Forall (λ x, name_ok x = true) ds → name_ok x = true →
  Join [absdir ds; x] = absdir ds +:+ x.
Proof.
  intros Hne Hds Hx. unfold Join. rewrite decide_False by done.
  change (Join_with [absdir ds; x] "/") with (absdir ds +:+ String slash x).
  assert (clean_segs (absdir ds +:+ String slash x) = ds ++ [x]) as Hs.
  { unfold clean_segs, absdir. rewrite sapp_cons, Split_slash. csimpl.
    rewrite sapp_assoc. change ("/" +:+ String slash x) with (String slash (String slash x)).
    rewrite Split_join_app, Split_slash by auto using names_no_slash.
    rewrite Split_no_sep by (apply name_ok_spec in Hx; tauto).
    rewrite clean_step_empty, foldl_app, (foldl_clean_names _ ds) by done.
    csimpl. rewrite clean_step_empty, clean_step_name by done.
    rewrite (right_id_L [] (++)), reverse_cons, reverse_involutive. done. }
  unfold Clean. by rewrite Hs, (absdir_app ds x).
Qed.

Lemma strip_common_app ds b t : strip_common (ds ++ b) (ds ++ t) = strip_common b t.
Proof. induction ds as [|x ds IH]; [done|]. csimpl. by rewrite decide_True. Qed.

(** [filepath.Rel] recovers the name that was appended to the directory. *)
Lemma Rel_absdir ds x :
  ds ≠ [] → Forall (λ x, name_ok x = true) ds → name_ok x = true →
  Rel (absdir ds) (absdir ds +:+ x) = Ok x.
Proof.
  intros Hne Hds Hx. rewrite absdir_app by done.
  assert (Forall (λ x, name_ok x = true) (ds ++ [x])) as Hall by (apply Forall_app; auto).
  assert (ds ++ [x] ≠ []) as Hne' by by destruct ds.
  unfold Rel. rewrite Clean_absdir, Clean_abspath, clean_segs_absdir, clean_segs_abspath by done.
  rewrite decide_False.
  - csimpl. rewrite <- (right_id_L [] (++) ds) at 1. rewrite strip_common_app. done.
  - intros Heq. apply (f_equal clean_segs) in Heq.
    rewrite !clean_segs_abspath in Heq by done.
    apply (f_equal length) in Heq. rewrite length_app in Heq. simpl in Heq. lia.
Qed.
End GoStr.

(** The behaviour of the path functions on the examples of their documentation
    and on the program's own prefixes. *)
Example Clean_ex : GoStr.Clean "a//b/./c/../d" = "a/b/d" ∧ GoStr.Clean "/../x" = "/x" ∧
  GoStr.Clean "" = "." ∧ GoStr.Clean "../../a" = "../../a".
Proof. vm_compute. done. Qed.
Example Join_ex : GoStr.Join ["/mysh/data/"; "../dash/leader"] = "/mysh/dash/leader" ∧
  GoStr.Join [""; "a"; ""; "b"] = "a/b".
Proof. vm_compute. done. Qed.
Example Dir_ex : GoStr.Dir "/foo/bar/baz.js" = "/foo/bar" ∧ GoStr.Dir "dev.txt" = "." ∧
  GoStr.Dir "/" = "/" ∧ GoStr.Dir "../todo.txt" = "..".
Proof. vm_compute. done. Qed.
Example Rel_ex : GoStr.Rel "/a" "/a/b/c" = Ok "b/c" ∧ GoStr.Rel "/a" "/b/c" = Ok "../b/c" ∧
  is_ok (GoStr.Rel "/a" "./b/c") = false ∧ GoStr.Rel "/mysh/server/" "/mysh/server/[::]:8084" = Ok "[::]:8084".
Proof. vm_compute. done. Qed.
Example Sprintf_ex :
  GoStr.Sprintf "/mysh/dash/endpoint/%v/uids/%v" ["e"] = "/mysh/dash/endpoint/e/uids/%!v(MISSING)".
Proof. vm_compute. done. Qed.
