(* ===== verification/Json.v ===== *)
(** * encoding/json and unicode/utf8, as the recorder uses them

    [json.Marshal] of a [[]string] and [json.Unmarshal] into a [[]string], on
    bytes ([Z] in 0..255).  Marshalling coerces every string to valid UTF-8, so
    the round trip is the identity exactly on valid strings. *)

From S2P Require Import Prelude.
From Stdlib Require Import Ascii.
#[local] Open Scope Z_scope.

(** ** Bytes of a Go string *)
Definition byte_of (a : ascii) : Z := Z.of_N (N_of_ascii a).
Definition ascii_of (b : Z) : ascii := ascii_of_N (Z.to_N b).
Fixpoint bytes_of (s : string) : list Z :=
  match s with "" => [] | String a s => byte_of a :: bytes_of s end.
Fixpoint string_of (bs : list Z) : string :=
  match bs with [] => "" | b :: bs => String (ascii_of b) (string_of bs) end.
Definition is_byte (b : Z) : Prop := 0 ≤ b < 256.

(** Check the bytes of an explicit list. *)
Ltac solve_bytes :=
  repeat (apply Forall_cons; split); try apply Forall_nil;
  first [assumption|unfold is_byte in *; lia].

Lemma byte_of_range a : is_byte (byte_of a).
Proof. unfold is_byte, byte_of. pose proof (N_ascii_bounded a). lia. Qed.
Lemma bytes_of_range s : Forall is_byte (bytes_of s).
Proof. induction s; constructor; auto using byte_of_range. Qed.
Lemma ascii_of_byte_of a : ascii_of (byte_of a) = a.
Proof. unfold ascii_of, byte_of. by rewrite N2Z.id, ascii_N_embedding. Qed.
Lemma byte_of_ascii_of b : is_byte b → byte_of (ascii_of b) = b.
Proof. unfold is_byte, ascii_of, byte_of. intros Hb. rewrite N_ascii_embedding; lia. Qed.
Lemma string_of_bytes_of s : string_of (bytes_of s) = s.
Proof. induction s as [|a s IH]; simpl; [done|]. by rewrite ascii_of_byte_of, IH. Qed.
Lemma bytes_of_app s1 s2 : bytes_of (s1 +:+ s2) = bytes_of s1 ++ bytes_of s2.
Proof. induction s1 as [|a s1 IH]; simpl; [done|]. by rewrite IH. Qed.
Lemma bytes_of_string_of bs : Forall is_byte bs → bytes_of (string_of bs) = bs.
Proof. induction 1; simpl; [done|]. by rewrite byte_of_ascii_of; f_equal. Qed.

(** ** unicode/utf8 *)
Module Utf8.
Definition RuneError : Z := 65533.
Definition RuneSelf : Z := 128.
Definition cont (b : Z) : bool := (128 <=? b) && (b <=? 191).
(** The range of the second byte after the first byte [p0] (the [acceptRanges]
    table). *)
Definition second_ok (p0 b : Z) : bool :=
  ((if p0 =? 224 then 160 else if p0 =? 240 then 144 else 128) <=? b) &&
  (b <=? (if p0 =? 237 then 159 else if p0 =? 244 then 143 else 191)).

(** [utf8.DecodeRune]: the rune and its width; [(RuneError, 1)] on an invalid
    or truncated encoding, [(RuneError, 0)] on the empty input. *)
Definition DecodeRune (p : list Z) : Z * nat :=
  match p with
  | [] => (RuneError, 0%nat)
  | p0 :: p =>
    if p0 <? 128 then (p0, 1%nat)
    else match p with
      | b1 :: p =>
        if (194 <=? p0) && (p0 <=? 223) then
          if cont b1 then ((p0 - 192) * 64 + (b1 - 128), 2%nat) else (RuneError, 1%nat)
        else match p with
          | b2 :: p =>
            if (224 <=? p0) && (p0 <=? 239) then
              if second_ok p0 b1 && cont b2
              then ((p0 - 224) * 4096 + (b1 - 128) * 64 + (b2 - 128), 3%nat)
              else (RuneError, 1%nat)
            else match p with
              | b3 :: _ =>
                if (240 <=? p0) && (p0 <=? 244) && second_ok p0 b1 && cont b2 && cont b3
                then ((p0 - 240) * 262144 + (b1 - 128) * 4096 + (b2 - 128) * 64 + (b3 - 128), 4%nat)
                else (RuneError, 1%nat)
              | [] => (RuneError, 1%nat)
              end
          | [] => (RuneError, 1%nat)
          end
      | [] => (RuneError, 1%nat)
      end
  end.

(** [utf8.EncodeRune] *)
Definition EncodeRune (r : Z) : list Z :=
  let r := if (r <? 0) || (1114111 <? r) || ((55296 <=? r) && (r <=? 57343)) then RuneError else r in
  if r <=? 127 then [r]
  else if r <=? 2047 then [192 + r / 64; 128 + r mod 64]
  else if r <=? 65535 then [224 + r / 4096; 128 + (r / 64) mod 64; 128 + r mod 64]
  else [240 + r / 262144; 128 + (r / 4096) mod 64; 128 + (r / 64) mod 64; 128 + r mod 64].

(** The first rune of [p] is validly encoded. *)
Definition valid_at (p : list Z) : bool :=
  negb ((DecodeRune p).1 =? RuneError) || negb (Nat.eqb (DecodeRune p).2 1).

Lemma DecodeRune_size p : p ≠ [] → (1 ≤ (DecodeRune p).2 ≤ length p)%nat.
Proof.
  unfold DecodeRune. intros Hp.
  repeat (case_match; simpl in *; try lia; try done).
Qed.

Lemma DecodeRune_size_pos p : p ≠ [] → (DecodeRune p).2 ≠ 0%nat.
Proof. intros Hp. pose proof (DecodeRune_size p Hp). lia. Qed.

(** Close a goal about one branch of [DecodeRune]: the byte ranges are
    comparisons, the rune is their weighted sum. *)
Ltac byte_ranges :=
  unfold second_ok, cont in *; bool_prop;
  repeat match goal with
  | H : (_ <=? _) = true |- _ => apply Z.leb_le in H
  | H : (_ <=? _) = false |- _ => apply Z.leb_gt in H
  | H : (_ <? _) = true |- _ => apply Z.ltb_lt in H
  | H : (_ <? _) = false |- _ => apply Z.ltb_ge in H
  | H : (_ =? _) = true |- _ => apply Z.eqb_eq in H
  | H : (_ =? _) = false |- _ => apply Z.eqb_neq in H
  end.

Lemma EncodeRune_1 r : 0 ≤ r ≤ 127 → EncodeRune r = [r].
Proof.
  intros Hr. unfold EncodeRune.
  destruct (Z.ltb_spec r 0), (Z.ltb_spec 1114111 r), (Z.leb_spec 55296 r); try lia. simpl.
  by destruct (Z.leb_spec r 127); try lia.
Qed.
Lemma EncodeRune_2 a b :
  2 ≤ a ≤ 31 → 0 ≤ b ≤ 63 → EncodeRune (a * 64 + b) = [192 + a; 128 + b].
Proof.
  intros Ha Hb. unfold EncodeRune. set (r := a * 64 + b).
  assert (r / 64 = a ∧ r mod 64 = b) as [Hd Hm] by (unfold r; Z.div_mod_to_equations; lia).
  destruct (Z.ltb_spec r 0), (Z.ltb_spec 1114111 r), (Z.leb_spec 55296 r); try (unfold r in *; lia).
  simpl. destruct (Z.leb_spec r 127), (Z.leb_spec r 2047); try (unfold r in *; lia).
  by rewrite Hd, Hm.
Qed.
Lemma EncodeRune_3 a b c :
  0 ≤ a ≤ 15 → 0 ≤ b ≤ 63 → 0 ≤ c ≤ 63 → (a = 0 → 32 ≤ b) → (a = 13 → b ≤ 31) →
  EncodeRune (a * 4096 + b * 64 + c) = [224 + a; 128 + b; 128 + c].
Proof.
  intros Ha Hb Hc H0 H13. unfold EncodeRune. set (r := a * 4096 + b * 64 + c).
  assert (r / 4096 = a ∧ (r / 64) mod 64 = b ∧ r mod 64 = c) as (Hd & He & Hm)
    by (unfold r; Z.div_mod_to_equations; lia).
  assert ((55296 <=? r) && (r <=? 57343) = false) as Hs.
  { destruct (Z.leb_spec 55296 r), (Z.leb_spec r 57343); try done. unfold r in *. lia. }
  rewrite Hs.
  destruct (Z.ltb_spec r 0), (Z.ltb_spec 1114111 r); try (unfold r in *; lia). simpl.
  destruct (Z.leb_spec r 127), (Z.leb_spec r 2047), (Z.leb_spec r 65535); try (unfold r in *; lia).
  by rewrite Hd, He, Hm.
Qed.
Lemma EncodeRune_4 a b c d :
  0 ≤ a ≤ 4 → 0 ≤ b ≤ 63 → 0 ≤ c ≤ 63 → 0 ≤ d ≤ 63 → (a = 0 → 16 ≤ b) → (a = 4 → b ≤ 15) →
  EncodeRune (a * 262144 + b * 4096 + c * 64 + d) = [240 + a; 128 + b; 128 + c; 128 + d].
Proof.
  intros Ha Hb Hc Hd0 H0 H4. unfold EncodeRune. set (r := a * 262144 + b * 4096 + c * 64 + d).
  assert (r / 262144 = a ∧ (r / 4096) mod 64 = b ∧ (r / 64) mod 64 = c ∧ r mod 64 = d)
    as (Hd & He & Hf & Hm) by (unfold r; Z.div_mod_to_equations; lia).
  destruct (Z.ltb_spec r 0), (Z.ltb_spec 1114111 r), (Z.leb_spec r 57343); try (unfold r in *; lia).
  rewrite andb_false_r. simpl.
  destruct (Z.leb_spec r 127), (Z.leb_spec r 2047), (Z.leb_spec r 65535); try (unfold r in *; lia).
  by rewrite Hd, He, Hf, Hm.
Qed.

(** Encoding the rune that was decoded gives back its bytes. *)
Lemma EncodeRune_DecodeRune p :
  Forall is_byte p → p ≠ [] → valid_at p = true →
  EncodeRune (DecodeRune p).1 = take (DecodeRune p).2 p.
Proof.
  unfold valid_at, DecodeRune. intros Hb Hne. destruct p as [|p0 p]; [done|].
  apply Forall_cons in Hb as [Hp0 _]. unfold is_byte in Hp0.
  destruct (p0 <? 128) eqn:H0; [intros _; simpl; byte_ranges; rewrite EncodeRune_1 by lia; done|].
  destruct p as [|b1 p]; [done|].
  destruct ((194 <=? p0) && (p0 <=? 223)) eqn:H2.
  { destruct (cont b1) eqn:Hc1; [intros _|done]. simpl. byte_ranges.
    rewrite EncodeRune_2 by lia. repeat f_equal; lia. }
  destruct p as [|b2 p]; [done|].
  destruct ((224 <=? p0) && (p0 <=? 239)) eqn:H3.
  { destruct (second_ok p0 b1 && cont b2) eqn:Hc; [intros _|done]. simpl. byte_ranges.
    repeat (case_match; byte_ranges); (rewrite EncodeRune_3 by lia; repeat f_equal; lia). }
  destruct p as [|b3 p]; [done|].
  destruct ((240 <=? p0) && (p0 <=? 244) && second_ok p0 b1 && cont b2 && cont b3) eqn:H4; [|done].
  intros _. simpl. byte_ranges.
  repeat (case_match; byte_ranges); (rewrite EncodeRune_4 by lia; repeat f_equal; lia).
Qed.

(** [DecodeRune] only looks at the bytes of the rune it finds. *)
Lemma DecodeRune_prefix p rest :
  p ≠ [] → valid_at p = true → DecodeRune (take (DecodeRune p).2 p ++ rest) = DecodeRune p.
Proof.
  unfold valid_at. intros Hne. destruct p as [|p0 p]; [done|]. unfold DecodeRune.
  destruct (p0 <? 128) eqn:H0; [simpl; by rewrite H0|].
  destruct p as [|b1 p]; [done|].
  destruct ((194 <=? p0) && (p0 <=? 223)) eqn:H2.
  { destruct (cont b1) eqn:Hc1; [intros _; simpl|done]. by rewrite H0, H2, Hc1. }
  destruct p as [|b2 p]; [done|].
  destruct ((224 <=? p0) && (p0 <=? 239)) eqn:H3.
  { destruct (second_ok p0 b1 && cont b2) eqn:Hc; [intros _; simpl|done].
    by rewrite H0, H2, H3, Hc. }
  destruct p as [|b3 p]; [done|].
  destruct ((240 <=? p0) && (p0 <=? 244) && second_ok p0 b1 && cont b2 && cont b3) eqn:H4; [|done].
  intros _. simpl. by rewrite H0, H2, H3, H4.
Qed.

(** A rune of several bytes starts with a byte outside ASCII, and so do the
    bytes that follow it. *)
Lemma DecodeRune_high p :
  p ≠ [] → Forall is_byte p → (128 <=? default 0 (head p)) = true → valid_at p = true →
  Forall (λ b, 128 ≤ b) (take (DecodeRune p).2 p).
Proof.
  unfold valid_at. intros Hne _ Hh. destruct p as [|p0 p]; [done|]. simpl in Hh. unfold DecodeRune.
  destruct (p0 <? 128) eqn:H0; [byte_ranges; lia|].
  destruct p as [|b1 p]; [done|].
  destruct ((194 <=? p0) && (p0 <=? 223)) eqn:H2.
  { destruct (cont b1) eqn:Hc1; [intros _; simpl|done]. byte_ranges. repeat constructor; lia. }
  destruct p as [|b2 p]; [done|].
  destruct ((224 <=? p0) && (p0 <=? 239)) eqn:H3.
  { destruct (second_ok p0 b1 && cont b2) eqn:Hc; [intros _; simpl|done]. byte_ranges.
    repeat constructor; repeat (case_match; byte_ranges); lia. }
  destruct p as [|b3 p]; [done|].
  destruct ((240 <=? p0) && (p0 <=? 244) && second_ok p0 b1 && cont b2 && cont b3) eqn:H4; [|done].
  intros _. simpl. byte_ranges. repeat constructor; repeat (case_match; byte_ranges); lia.
Qed.
(** Every rune, also a surrogate or a number that is no rune, encodes to the
    bytes of one valid rune. *)
Lemma EncodeRune_spec r t :
  Forall is_byte (EncodeRune r) ∧ valid_at (EncodeRune r ++ t) = true ∧
  (DecodeRune (EncodeRune r ++ t)).2 = length (EncodeRune r) ∧ EncodeRune r ≠ [].
Proof.
  unfold EncodeRune. set (q := if _ || _ then RuneError else r).
  assert (0 ≤ q ≤ 1114111 ∧ (q < 55296 ∨ 57343 < q)) as [Hq Hs].
  { unfold q, RuneError. repeat case_match; bool_prop; byte_ranges; lia. }
  clearbody q. clear r. unfold valid_at.
  destruct (Z.leb_spec q 127); [|destruct (Z.leb_spec q 2047); [|destruct (Z.leb_spec q 65535)]].
  - cbn [app DecodeRune]. destruct (Z.ltb_spec q 128); [|lia]. simpl. unfold RuneError.
    destruct (Z.eqb_spec q 65533); [lia|]. split; [solve_bytes|done].
  - assert (2 ≤ q / 64 ≤ 31 ∧ 0 ≤ q mod 64 ≤ 63) as [? ?] by (Z.div_mod_to_equations; lia).
    assert (DecodeRune ([192 + q / 64; 128 + q mod 64] ++ t) =
      ((192 + q / 64 - 192) * 64 + (128 + q mod 64 - 128), 2%nat)) as ->.
    { cbn [app DecodeRune]. unfold cont. repeat (case_match; byte_ranges); done || lia. }
    rewrite orb_true_r. split; [solve_bytes|done].
  - assert (0 ≤ q / 4096 ≤ 15 ∧ 0 ≤ (q / 64) mod 64 ≤ 63 ∧ 0 ≤ q mod 64 ≤ 63 ∧
      (q / 4096 = 0 → 32 ≤ (q / 64) mod 64) ∧ (q / 4096 = 13 → (q / 64) mod 64 ≤ 31))
      as (? & ? & ? & ? & ?) by (Z.div_mod_to_equations; lia).
    eassert (DecodeRune ([224 + q / 4096; 128 + (q / 64) mod 64; 128 + q mod 64] ++ t) =
      (_, 3%nat)) as ->.
    { cbn [app DecodeRune]. unfold second_ok, cont. repeat (case_match; byte_ranges); done || lia. }
    rewrite orb_true_r. split; [solve_bytes|done].
  - assert (0 ≤ q / 262144 ≤ 4 ∧ 0 ≤ (q / 4096) mod 64 ≤ 63 ∧ 0 ≤ (q / 64) mod 64 ≤ 63 ∧
      0 ≤ q mod 64 ≤ 63 ∧ (q / 262144 = 0 → 16 ≤ (q / 4096) mod 64) ∧
      (q / 262144 = 4 → (q / 4096) mod 64 ≤ 15))
      as (? & ? & ? & ? & ? & ?) by (Z.div_mod_to_equations; lia).
    eassert (DecodeRune ([240 + q / 262144; 128 + (q / 4096) mod 64; 128 + (q / 64) mod 64;
      128 + q mod 64] ++ t) = (_, 4%nat)) as ->.
    { cbn [app DecodeRune]. unfold second_ok, cont. repeat (case_match; byte_ranges); done || lia. }
    rewrite orb_true_r. split; [solve_bytes|done].
Qed.
End Utf8.
#[global] Arguments Utf8.DecodeRune : simpl never.
#[global] Arguments Utf8.valid_at : simpl never.
#[global] Arguments Utf8.EncodeRune : simpl never.

Module Json.
Import Utf8.

(** ** Marshal: [encodeState.string] with HTML escaping, as [json.Marshal]
    uses it *)
Definition htmlSafe (b : Z) : bool :=
  (32 <=? b) && (b <? 128) && negb (existsb (Z.eqb b) [34; 38; 60; 62; 92]).
Definition hex (n : Z) : Z := if n <? 10 then 48 + n else 87 + n.
Definition escape (b : Z) : list Z :=
  if (b =? 92) || (b =? 34) then [92; b]
  else if b =? 10 then [92; 110]
  else if b =? 13 then [92; 114]
  else if b =? 9 then [92; 116]
  else [92; 117; 48; 48; hex (b / 16); hex (b mod 16)].
Fixpoint encode_body (fuel : nat) (s : list Z) : list Z :=
  match fuel, s with
  | S fuel, b :: s' =>
    if b <? RuneSelf then (if htmlSafe b then [b] else escape b) ++ encode_body fuel s'
    else
      let '(c, size) := DecodeRune s in
      (if negb (valid_at s) then [92; 117; 102; 102; 102; 100]
       else if (c =? 8232) || (c =? 8233) then [92; 117; 50; 48; 50; hex (c mod 16)]
       else take size s) ++ encode_body fuel (drop size s)
  | _, _ => []
  end.
Definition encode_string (s : list Z) : list Z := 34 :: encode_body (length s) s ++ [34].
Fixpoint encode_elems (l : list (list Z)) : list Z :=
  match l with
  | [] => []
  | [s] => encode_string s
  | s :: l => encode_string s ++ 44 :: encode_elems l
  end.
Definition marshal (l : list (list Z)) : list Z := 91 :: encode_elems l ++ [93].

(** ** Unmarshal into a [[]string]

    [None] is a non-nil error: a syntax error, or a value that is neither a
    string nor [null] where a string is expected. *)
Definition hexval (b : Z) : option Z :=
  if (48 <=? b) && (b <=? 57) then Some (b - 48)
  else if (97 <=? b) && (b <=? 102) then Some (b - 87)
  else if (65 <=? b) && (b <=? 70) then Some (b - 55)
  else None.
Definition getu4 (s : list Z) : option Z :=
  match s with
  | 92 :: 117 :: a :: b :: c :: d :: _ =>
    a ← hexval a; b ← hexval b; c ← hexval c; d ← hexval d;
    Some (a * 4096 + b * 256 + c * 16 + d)
  | _ => None
  end.
Definition IsSurrogate (r : Z) : bool := (55296 <=? r) && (r <? 57344).
(** [utf16.DecodeRune] of a pair; [None] where it is the replacement rune. *)
Definition surrogate_pair (r1 r2 : Z) : option Z :=
  if (55296 <=? r1) && (r1 <? 56320) && (56320 <=? r2) && (r2 <? 57344)
  then Some ((r1 - 55296) * 1024 + (r2 - 56320) + 65536) else None.
(** One escape sequence: what it emits and the bytes it takes. *)
Definition unescape (s : list Z) : option (list Z * nat) :=
  match s with
  | 92 :: e :: _ =>
    if (e =? 34) || (e =? 92) || (e =? 47) then Some ([e], 2%nat)
    else if e =? 98 then Some ([8], 2%nat)
    else if e =? 102 then Some ([12], 2%nat)
    else if e =? 110 then Some ([10], 2%nat)
    else if e =? 114 then Some ([13], 2%nat)
    else if e =? 116 then Some ([9], 2%nat)
    else if e =? 117 then
      rr ← getu4 s;
      if IsSurrogate rr then
        match rr1 ← getu4 (drop 6 s); surrogate_pair rr rr1 with
        | Some dec => Some (EncodeRune dec, 12%nat)
        | None => Some (EncodeRune RuneError, 6%nat)
        end
      else Some (EncodeRune rr, 6%nat)
    else None
  | _ => None
  end.
Fixpoint decode_body (fuel : nat) (s : list Z) : option (list Z * list Z) :=
  match fuel, s with
  | S fuel, c :: s' =>
    if c =? 34 then Some ([], s')
    else if c =? 92 then
      '(out, n) ← unescape s;
      '(t, rest) ← decode_body fuel (drop n s); Some (out ++ t, rest)
    else if c <? 32 then None
    else if c <? RuneSelf then '(t, rest) ← decode_body fuel s'; Some (c :: t, rest)
    else
      let '(rr, size) := DecodeRune s in
      '(t, rest) ← decode_body fuel (drop size s); Some (EncodeRune rr ++ t, rest)
  | _, _ => None
  end.
Definition is_ws (b : Z) : bool := existsb (Z.eqb b) [32; 9; 13; 10].
Fixpoint skip_ws (s : list Z) : list Z :=
  match s with b :: s' => if is_ws b then skip_ws s' else s | [] => [] end.
(** An element of the array: a string, or [null], which leaves the zero value. *)
Definition decode_elem (s : list Z) : option (list Z * list Z) :=
  match s with
  | 34 :: s => decode_body (length s) s
  | 110 :: 117 :: 108 :: 108 :: s => Some ([], s)
  | _ => None
  end.
Fixpoint decode_elems (fuel : nat) (s : list Z) : option (list (list Z) * list Z) :=
  match fuel with
  | O => None
  | S fuel =>
    '(x, s) ← decode_elem (skip_ws s);
    match skip_ws s with
    | 44 :: s => '(l, s) ← decode_elems fuel s; Some (x :: l, s)
    | 93 :: s => Some ([x], s)
    | _ => None
    end
  end.
Definition at_end {A} (x : A) (s : list Z) : option A :=
  match skip_ws s with [] => Some x | _ => None end.
Definition unmarshal (s : list Z) : option (list (list Z)) :=
  match skip_ws s with
  | 91 :: s =>
    match skip_ws s with
    | 93 :: s => at_end [] s
    | s => '(l, s) ← decode_elems (length s) s; at_end l s
    end
  | 110 :: 117 :: 108 :: 108 :: s => at_end [] s
  | _ => None
  end.

(** The coercion to valid UTF-8: every byte that does not start a valid
    encoding becomes U+FFFD. *)
Fixpoint sanitize_go (fuel : nat) (s : list Z) : list Z :=
  match fuel, s with
  | S fuel, _ :: _ =>
    (if valid_at s then take (DecodeRune s).2 s else [239; 191; 189])
      ++ sanitize_go fuel (drop (DecodeRune s).2 s)
  | _, _ => []
  end.
Definition sanitize (s : list Z) : list Z := sanitize_go (length s) s.
Fixpoint valid_go (fuel : nat) (s : list Z) : bool :=
  match fuel, s with
  | S fuel, _ :: _ => valid_at s && valid_go fuel (drop (DecodeRune s).2 s)
  | _, _ => true
  end.
(** [utf8.Valid] *)
Definition Valid (s : list Z) : bool := valid_go (length s) s.

(** On Go strings. *)
Definition Marshal (l : list string) : string := string_of (marshal (bytes_of <$> l)).
Definition Unmarshal (s : string) : option (list string) :=
  match unmarshal (bytes_of s) with Some l => Some (string_of <$> l) | None => None end.
Definition Coerce (s : string) : string := string_of (sanitize (bytes_of s)).
Definition ValidString (s : string) : bool := Valid (bytes_of s).

Example Marshal_ex : Marshal ["ls <a>"; "cd"; ""] = "[" +:+ string_of [34] +:+ "ls \u003ca\u003e"
  +:+ string_of [34; 44; 34] +:+ "cd" +:+ string_of [34; 44; 34; 34; 93].
Proof. vm_compute. done. Qed.
Example Unmarshal_ex :
  unmarshal (bytes_of " [ null , " ++ [34; 92; 117; 100; 56; 51; 100; 92; 117; 100; 101; 48; 48; 34] ++ bytes_of "] ")
  = Some [[]; [240; 159; 152; 128]] ∧ Unmarshal "[1]" = None ∧ Unmarshal "null" = Some [].
Proof. vm_compute. done. Qed.

(** ** Round trip *)
Lemma valid_at_ascii b s : b < 128 → valid_at (b :: s) = true ∧ DecodeRune (b :: s) = (b, 1%nat).
Proof.
  intros Hb. unfold valid_at, DecodeRune. destruct (Z.ltb_spec b 128); [|lia]. simpl.
  unfold RuneError. by destruct (Z.eqb_spec b 65533); [lia|].
Qed.

Lemma unescape_escape b t :
  0 ≤ b < 128 → htmlSafe b = false →
  unescape (escape b ++ t) = Some ([b], length (escape b)).
Proof.
  intros Hb. assert (b ∈ seqZ 0 128) as Hin by (apply elem_of_seqZ; lia). clear Hb. revert b Hin.
  refine (proj1 (Forall_forall (λ b, htmlSafe b = false →
    unescape (escape b ++ t) = Some ([b], length (escape b))) _) _).
  repeat (constructor; [first [discriminate|reflexivity]|]). constructor.
Qed.
Lemma unescape_202 c t : c = 8232 ∨ c = 8233 →
  unescape ([92; 117; 50; 48; 50; hex (c mod 16)] ++ t) = Some (EncodeRune c, 6%nat).
Proof. by intros [-> | ->]. Qed.
Lemma escape_hd b t : ∃ s', escape b ++ t = 92 :: s'.
Proof. unfold escape. repeat case_match; eexists; reflexivity. Qed.

Lemma decode_body_escape fuel s e n t :
  (∃ s', s = 92 :: s') → unescape (s ++ t) = Some (e, n) → n = length s →
  decode_body (S fuel) (s ++ t) = '(x, r) ← decode_body fuel t; Some (e ++ x, r).
Proof.
  intros [s' ->] Hu ->. cbn [app decode_body]. change (92 =? 34) with false. cbn match.
  change (92 =? 92) with true. cbn match. change (92 :: s' ++ t) with ((92 :: s') ++ t).
  rewrite Hu. simpl. by rewrite drop_app_length.
Qed.

Lemma decode_body_rune fuel s t :
  s ≠ [] → (128 <=? default 0 (head s)) = true → valid_at s = true →
  decode_body (S fuel) (take (DecodeRune s).2 s ++ t) =
    '(x, r) ← decode_body fuel t; Some (EncodeRune (DecodeRune s).1 ++ x, r).
Proof.
  intros Hne Hh Hv. pose proof (DecodeRune_prefix s t Hne Hv) as Hp.
  pose proof (DecodeRune_size s Hne) as Hsz.
  destruct s as [|b s]; [done|]. simpl in Hh. apply Z.leb_le in Hh.
  destruct (DecodeRune (b :: s)) as [c size] eqn:Hd. simpl in Hsz, Hp |- *.
  destruct size as [|size]; [lia|]. cbn [take app] in Hp |- *. cbn [decode_body].
  destruct (Z.eqb_spec b 34), (Z.eqb_spec b 92), (Z.ltb_spec b 32); try lia. unfold RuneSelf.
  destruct (Z.ltb_spec b 128); [lia|]. rewrite Hp. cbn [drop].
  rewrite drop_app_length'; [done|]. rewrite length_take. simpl in Hsz. lia.
Qed.

Lemma Forall_drop_byte n s : Forall is_byte s → Forall is_byte (drop n s).
Proof. apply Forall_drop. Qed.

Lemma decode_body_plain fuel b t : 0 ≤ b < 128 → htmlSafe b = true →
  decode_body (S fuel) (b :: t) = '(x, r) ← decode_body fuel t; Some (b :: x, r).
Proof.
  intros Hb Hs. cbn [decode_body]. unfold htmlSafe in Hs. simpl in Hs. bool_prop.
  repeat match goal with
  | H : _ || _ = false |- _ => apply orb_false_iff in H as [? ?]
  | H : (_ =? _) = false |- _ => apply Z.eqb_neq in H
  end.
  destruct (Z.eqb_spec b 34), (Z.eqb_spec b 92), (Z.ltb_spec b 32); try lia; [].
  unfold RuneSelf. destruct (Z.ltb_spec b 128); [done|lia].
Qed.
Lemma decode_body_ascii fuel b t : 0 ≤ b < 128 → htmlSafe b = false →
  decode_body (S fuel) (escape b ++ t) = '(x, r) ← decode_body fuel t; Some (b :: x, r).
Proof.
  intros Hb Hs. rewrite (decode_body_escape fuel (escape b) [b] (length (escape b))).
  - by destruct (decode_body fuel t) as [[? ?]|].
  - destruct (escape_hd b []) as [s' Hs']. rewrite (right_id_L [] (++)) in Hs'. eauto.
  - by apply unescape_escape.
  - done.
Qed.
Lemma escape_nonempty b : (0 < length (escape b))%nat.
Proof. destruct (escape_hd b []) as [s' Hs']. rewrite (right_id_L [] (++)) in Hs'. rewrite Hs'. simpl. lia. Qed.

Lemma decode_encode_body n : ∀ s fe fs fuel rest,
  (length s ≤ n)%nat → (length s ≤ fe)%nat → (length s ≤ fs)%nat → Forall is_byte s →
  (length (encode_body fe s) < fuel)%nat →
  decode_body fuel (encode_body fe s ++ 34 :: rest) = Some (sanitize_go fs s, rest).
Proof.
  induction n as [|n IH]; intros s fe fs fuel rest Hn Hfe Hfs Hb Hfuel.
  - destruct s; [|simpl in Hn; lia]. destruct fuel; [lia|]. by destruct fe, fs.
  - destruct s as [|b s]; [destruct fuel; [lia|]; by destruct fe, fs|].
    destruct fe as [|fe]; [simpl in Hfe; lia|]. destruct fs as [|fs]; [simpl in Hfs; lia|].
    apply Forall_cons in Hb as [Hb Hbs]. unfold is_byte in Hb.
    pose proof (DecodeRune_size (b :: s) ltac:(done)) as Hsz. simpl length in *.
    cbn [encode_body sanitize_go] in *. unfold RuneSelf in *.
    destruct (Z.ltb_spec b 128) as [Hlt|Hge].
    + destruct (valid_at_ascii b s Hlt) as [Hv Hd]. rewrite Hv, Hd. cbn [snd take drop app].
      destruct (htmlSafe b) eqn:Hs.
      * destruct fuel as [|fuel]; [lia|]. cbn [app]. rewrite decode_body_plain by (done || lia).
        rewrite (IH s fe fs) by (try done; simpl in *; lia). done.
      * rewrite length_app in Hfuel. rewrite <- app_assoc. pose proof (escape_nonempty b).
        destruct fuel as [|fuel]; [lia|]. rewrite decode_body_ascii by (done || lia).
        rewrite (IH s fe fs); [done|done || lia..].
    + destruct (DecodeRune (b :: s)) as [c size] eqn:Hd. cbn [snd] in *. cbn beta match in *.
      rewrite length_app in Hfuel. rewrite <- app_assoc.
      assert (IHd : ∀ fuel, (length (encode_body fe (drop size (b :: s))) < fuel)%nat →
        decode_body fuel (encode_body fe (drop size (b :: s)) ++ 34 :: rest)
        = Some (sanitize_go fs (drop size (b :: s)), rest)).
      { intros fuel' Hf. apply IH; try done; try (rewrite length_drop; simpl; lia).
        apply Forall_drop_byte. by constructor. }
      destruct fuel as [|fuel]; [lia|].
      destruct (valid_at (b :: s)) eqn:Hv; simpl negb in *; cbn match in *.
      2: { rewrite (decode_body_escape fuel _ [239; 191; 189] 6); [|by eexists|done|done].
        rewrite IHd; [done|simpl in Hfuel; lia]. }
      assert (EncodeRune c = take size (b :: s)) as Henc.
      { pose proof (EncodeRune_DecodeRune (b :: s) ltac:(by constructor) ltac:(done) Hv) as He.
        by rewrite Hd in He. }
      destruct ((c =? 8232) || (c =? 8233)) eqn:H2028.
      * rewrite (decode_body_escape fuel _ (EncodeRune c) 6); [|by eexists| |done].
        { rewrite IHd; [|simpl in Hfuel; lia]. simpl. by rewrite Henc. }
        apply unescape_202. apply orb_true_iff in H2028 as [?%Z.eqb_eq|?%Z.eqb_eq]; tauto.
      * pose proof (decode_body_rune fuel (b :: s)
          (encode_body fe (drop size (b :: s)) ++ 34 :: rest) ltac:(done)
          ltac:(simpl; by apply Z.leb_le) Hv) as Hr.
        rewrite Hd in Hr. cbn [fst snd] in Hr. rewrite Hr.
        assert (length (take size (b :: s)) ≠ 0%nat) by (rewrite length_take; simpl; lia).
        rewrite IHd by lia. simpl. by rewrite Henc.
Qed.

Lemma decode_elem_encode s rest :
  Forall is_byte s → decode_elem (encode_string s ++ rest) = Some (sanitize s, rest).
Proof.
  intros Hb. unfold encode_string. cbn [app decode_elem]. rewrite <- app_assoc. cbn [app].
  apply (decode_encode_body (length s)); try done. rewrite length_app. simpl. lia.
Qed.
Lemma skip_ws_encode_string s rest : skip_ws (encode_string s ++ rest) = encode_string s ++ rest.
Proof. done. Qed.

Lemma skip_ws_cons b t : is_ws b = false → skip_ws (b :: t) = b :: t.
Proof. intros Hb. simpl. by rewrite Hb. Qed.

Lemma decode_encode_elems l : ∀ fuel rest,
  l ≠ [] → Forall (Forall is_byte) l → (length l ≤ fuel)%nat →
  decode_elems fuel (encode_elems l ++ 93 :: rest) = Some (sanitize <$> l, rest).
Proof.
  induction l as [|s l IH]; intros fuel rest Hne Hb Hfuel; [done|].
  apply Forall_cons in Hb as [Hs Hl]. destruct fuel as [|fuel]; [simpl in Hfuel; lia|].
  destruct l as [|s' l].
  - cbn [encode_elems decode_elems]. rewrite skip_ws_encode_string, decode_elem_encode by done.
    done.
  - change (encode_elems (s :: s' :: l)) with (encode_string s ++ 44 :: encode_elems (s' :: l)).
    cbn [decode_elems]. rewrite <- app_assoc, skip_ws_encode_string, decode_elem_encode by done.
    cbn [mbind option_bind app]. rewrite skip_ws_cons by done.
    rewrite IH by (try done; simpl in *; lia). done.
Qed.

Lemma length_encode_string s : (2 ≤ length (encode_string s))%nat.
Proof. unfold encode_string. simpl. rewrite length_app. simpl. lia. Qed.
Lemma length_encode_elems l : (length l ≤ length (encode_elems l))%nat.
Proof.
  induction l as [|s l IH]; [done|]. pose proof (length_encode_string s).
  destruct l as [|s' l]; [simpl in *; lia|].
  change (encode_elems (s :: s' :: l)) with (encode_string s ++ 44 :: encode_elems (s' :: l)).
  rewrite length_app. simpl length at 1 3. simpl length in IH. lia.
Qed.

Lemma unmarshal_marshal l :
  Forall (Forall is_byte) l → unmarshal (marshal l) = Some (sanitize <$> l).
Proof.
  intros Hb. unfold marshal, unmarshal. rewrite skip_ws_cons by done.
  destruct l as [|s l]; [done|].
  pose proof (decode_encode_elems (s :: l) (length (encode_elems (s :: l) ++ [93])) []
    ltac:(done) Hb) as Hd.
  rewrite length_app in Hd. pose proof (length_encode_elems (s :: l)).
  specialize (Hd ltac:(lia)). rewrite <- length_app in Hd.
  assert (∃ t, encode_elems (s :: l) ++ [93] = 34 :: t) as [t Ht]
    by (destruct l; by eexists).
  rewrite Ht in *. rewrite skip_ws_cons by done. by rewrite Hd.
Qed.

(** ** The coercion *)
Lemma length_sanitize_go n : ∀ s fuel,
  (length s ≤ n)%nat → (length s ≤ fuel)%nat →
  (length s ≤ length (sanitize_go fuel s))%nat ∧
  (valid_go fuel s = false → length s < length (sanitize_go fuel s))%nat.
Proof.
  induction n as [|n IH]; intros s fuel Hn Hf.
  - destruct s; [|simpl in Hn; lia]. by destruct fuel.
  - destruct s as [|b s]; [by destruct fuel|]. destruct fuel as [|fuel]; [simpl in Hf; lia|].
    pose proof (DecodeRune_size (b :: s) ltac:(done)) as Hsz.
    cbn [sanitize_go valid_go]. rewrite length_app.
    destruct (IH (drop (DecodeRune (b :: s)).2 (b :: s)) fuel) as [Hle Hlt];
      [rewrite length_drop; simpl in *; lia|rewrite length_drop; simpl in *; lia|].
    rewrite length_drop in Hle, Hlt. destruct (valid_at (b :: s)) eqn:Hv; simpl andb.
    + rewrite length_take. split; [lia|]. intros Hvg. specialize (Hlt Hvg). lia.
    + simpl length at 2 4.
      assert ((DecodeRune (b :: s)).2 = 1%nat) as H1.
      { unfold valid_at in Hv. apply orb_false_iff in Hv as [_ Hv].
        apply negb_false_iff, Nat.eqb_eq in Hv. done. }
      rewrite H1 in *. simpl length in *. lia.
Qed.
Lemma sanitize_go_valid n : ∀ s fuel,
  (length s ≤ n)%nat → (length s ≤ fuel)%nat → valid_go fuel s = true → sanitize_go fuel s = s.
Proof.
  induction n as [|n IH]; intros s fuel Hn Hf Hv.
  - destruct s; [|simpl in Hn; lia]. by destruct fuel.
  - destruct s as [|b s]; [by destruct fuel|]. destruct fuel as [|fuel]; [simpl in Hf; lia|].
    pose proof (DecodeRune_size (b :: s) ltac:(done)) as Hsz.
    cbn [sanitize_go valid_go] in *. apply andb_true_iff in Hv as [-> Hv].
    rewrite IH; [apply take_drop| | |done]; rewrite length_drop; simpl in *; lia.
Qed.
Lemma valid_sanitize_go n : ∀ s fuel fuel',
  (length s ≤ n)%nat → (length s ≤ fuel)%nat → (length (sanitize_go fuel s) ≤ fuel')%nat →
  valid_go fuel' (sanitize_go fuel s) = true.
Proof.
  induction n as [|n IH]; intros s fuel fuel' Hn Hf Hf'.
  - destruct s; [|simpl in Hn; lia]. destruct fuel; by destruct fuel'.
  - destruct s as [|b s]; [destruct fuel; by destruct fuel'|].
    destruct fuel as [|fuel]; [simpl in Hf; lia|].
    pose proof (DecodeRune_size (b :: s) ltac:(done)) as Hsz.
    pose proof (DecodeRune_prefix (b :: s)
      (sanitize_go fuel (drop (DecodeRune (b :: s)).2 (b :: s))) ltac:(done)) as Hp.
    cbn [sanitize_go] in *. rewrite length_app in Hf'.
    assert (IHd : ∀ fuel', (length (sanitize_go fuel (drop (DecodeRune (b :: s)).2 (b :: s))) ≤ fuel')%nat →
      valid_go fuel' (sanitize_go fuel (drop (DecodeRune (b :: s)).2 (b :: s))) = true).
    { intros f Hlen. apply IH; try done; rewrite length_drop; simpl in *; lia. }
    set (t := sanitize_go fuel (drop (DecodeRune (b :: s)).2 (b :: s))) in *.
    destruct (valid_at (b :: s)) eqn:Hv.
    + specialize (Hp eq_refl). rewrite length_take in Hf'.
      destruct fuel' as [|fuel']; [simpl in *; lia|].
      destruct (take (DecodeRune (b :: s)).2 (b :: s) ++ t) as [|x u] eqn:Hu.
      { apply (f_equal length) in Hu. rewrite length_app, length_take in Hu. simpl in *. lia. }
      cbn [valid_go]. unfold valid_at in Hv |- *. rewrite Hp, Hv, <- Hu. simpl andb.
      rewrite drop_app_length' by (rewrite length_take; simpl in *; lia).
      apply IHd. simpl in *. lia.
    + destruct fuel' as [|fuel']; [simpl in *; lia|]. cbn [app valid_go].
      change (valid_at (239 :: 191 :: 189 :: t)) with true.
      change ((DecodeRune (239 :: 191 :: 189 :: t)).2) with 3%nat. cbn [drop]. simpl andb.
      apply IHd. simpl in *. lia.
Qed.

Lemma string_of_inj l1 l2 :
  Forall is_byte l1 → Forall is_byte l2 → string_of l1 = string_of l2 → l1 = l2.
Proof.
  intros H1 H2 Heq. rewrite <- (bytes_of_string_of l1), <- (bytes_of_string_of l2) by done.
  by rewrite Heq.
Qed.
Lemma sanitize_go_byte fuel : ∀ s, Forall is_byte s → Forall is_byte (sanitize_go fuel s).
Proof.
  induction fuel as [|fuel IH]; intros s Hs; [constructor|]. destruct s as [|b s]; [constructor|].
  cbn [sanitize_go]. apply Forall_app; split; [|by apply IH, Forall_drop].
  case_match; [by apply Forall_take|solve_bytes].
Qed.

Lemma Coerce_valid s : ValidString (Coerce s) = true.
Proof.
  unfold ValidString, Coerce.
  rewrite bytes_of_string_of by apply sanitize_go_byte, bytes_of_range.
  by apply (valid_sanitize_go (length (bytes_of s))).
Qed.
Lemma Coerce_id s : ValidString s = true ↔ Coerce s = s.
Proof.
  unfold ValidString, Coerce, Valid, sanitize. split; intros Hv.
  - rewrite (sanitize_go_valid (length (bytes_of s))) by done. apply string_of_bytes_of.
  - destruct (valid_go _ _) eqn:Hvg; [done|].
    pose proof (length_sanitize_go (length (bytes_of s)) (bytes_of s) (length (bytes_of s))
      ltac:(done) ltac:(done)) as [_ Hlt].
    specialize (Hlt Hvg). apply (f_equal bytes_of) in Hv.
    rewrite bytes_of_string_of in Hv by apply sanitize_go_byte, bytes_of_range.
    rewrite Hv in Hlt. lia.
Qed.
Lemma Coerce_nonempty s : Coerce s = "" ↔ s = "".
Proof.
  split; [|by intros ->]. unfold Coerce. intros Hc. apply (f_equal bytes_of) in Hc.
  rewrite bytes_of_string_of in Hc by apply sanitize_go_byte, bytes_of_range.
  pose proof (length_sanitize_go (length (bytes_of s)) (bytes_of s) (length (bytes_of s))
      ltac:(done) ltac:(done)) as [Hle _].
  unfold sanitize in Hc. rewrite Hc in Hle. destruct s; [done|simpl in Hle; lia].
Qed.

Lemma hex_byte n : 0 ≤ n < 16 → is_byte (hex n).
Proof. unfold is_byte, hex. intros Hn. destruct (Z.ltb_spec n 10); lia. Qed.
Lemma escape_byte b : is_byte b → Forall is_byte (escape b).
Proof.
  intros Hb. unfold escape.
  assert (Forall is_byte [92; 117; 48; 48; hex (b / 16); hex (b mod 16)]) as H6.
  { unfold is_byte in Hb.
    repeat constructor; try (unfold is_byte; lia); try apply hex_byte; Z.div_mod_to_equations; lia. }
  repeat case_match; first [exact H6|solve_bytes].
Qed.
Lemma encode_body_byte fuel : ∀ s, Forall is_byte s → Forall is_byte (encode_body fuel s).
Proof.
  induction fuel as [|fuel IH]; intros s Hs; [constructor|]. destruct s as [|b s]; [constructor|].
  cbn [encode_body]. apply Forall_cons in Hs as Hs'. destruct Hs' as [Hb Hs'].
  destruct (b <? RuneSelf) eqn:Hlt.
  - apply Forall_app; split; [|by apply IH]. case_match; [by apply Forall_singleton|by apply escape_byte].
  - destruct (DecodeRune (b :: s)) as [c size]. apply Forall_app; split; [|by apply IH, Forall_drop].
    assert (is_byte (hex (c mod 16))) by (by apply hex_byte, Z.mod_pos_bound).
    repeat case_match; first [by apply Forall_take|solve_bytes].
Qed.
Lemma marshal_byte l : Forall (Forall is_byte) l → Forall is_byte (marshal l).
Proof.
  intros Hl. unfold marshal. constructor; [unfold is_byte; lia|].
  apply Forall_app; split; [|solve_bytes].
  assert (∀ s, Forall is_byte s → Forall is_byte (encode_string s)) as Hes.
  { intros s Hs. unfold encode_string. constructor; [unfold is_byte; lia|].
    apply Forall_app; split; [by apply encode_body_byte|solve_bytes]. }
  induction Hl as [|s l Hs Hl IH]; [constructor|]. destruct l as [|s' l]; [by apply Hes|].
  change (encode_elems (s :: s' :: l)) with (encode_string s ++ 44 :: encode_elems (s' :: l)).
  apply Forall_app; split; [by apply Hes|]. constructor; [unfold is_byte; lia|done].
Qed.

(** ** What is unmarshalled is text

    Whatever the input, the strings of the result are the encodings of lists of
    runes, so they are valid UTF-8. *)
Definition text (s : list Z) : Prop := ∃ rs, s = mjoin (EncodeRune <$> rs).

Lemma text_nil : text [].
Proof. by exists []. Qed.
Lemma text_rune r s : text s → text (EncodeRune r ++ s).
Proof. intros [rs ->]. by exists (r :: rs). Qed.
Lemma text_ascii b s : 0 ≤ b < 128 → text s → text (b :: s).
Proof. intros Hb Hs. change (text ([b] ++ s)). rewrite <- (EncodeRune_1 b) by lia. by apply text_rune. Qed.
Lemma text_byte s : text s → Forall is_byte s.
Proof.
  intros [rs ->]. induction rs as [|r rs IH]; [constructor|]. csimpl.
  apply Forall_app. split; [apply (EncodeRune_spec r [])|done].
Qed.
Lemma text_valid_go fuel : ∀ s, text s → (length s ≤ fuel)%nat → valid_go fuel s = true.
Proof.
  induction fuel as [|fuel IH]; [done|]. intros s [rs ->]. destruct rs as [|r rs]; [done|].
  csimpl. destruct (EncodeRune_spec r (mjoin (EncodeRune <$> rs))) as (_ & Hv & Hsz & Hne).
  destruct (EncodeRune r) as [|b e] eqn:He; [done|]. cbn [app valid_go] in *. rewrite Hv, Hsz.
  cbn [length]. rewrite length_app. intros Hlen. cbn [andb drop].
  rewrite drop_app_length. apply IH; [by exists rs|lia].
Qed.
Lemma text_Valid s : text s → ValidString (string_of s) = true.
Proof.
  intros Hs. unfold ValidString. rewrite bytes_of_string_of by by apply text_byte.
  by apply text_valid_go.
Qed.

Lemma unescape_text s out n t : unescape s = Some (out, n) → text t → text (out ++ t).
Proof.
  intros Hu Ht. assert (Ha : ∀ b, 0 ≤ b < 128 → text ([b] ++ t)) by (intros; by apply text_ascii).
  destruct s as [|c s]; [done|]. destruct (decide (c = 92)) as [->|Hc].
  2: { exfalso. revert Hu. unfold unescape. repeat case_match; subst; done. }
  destruct s as [|e s]; [done|]. revert Hu. cbn [unescape].
  repeat (case_match; [intros [= <- <-]; bool_prop; byte_ranges; apply Ha; lia|]).
  destruct (e =? 117); [|done]. destruct (getu4 (92 :: e :: s)) as [rr|]; [|done]. cbn [mbind option_bind].
  repeat case_match; intros [= <- <-]; by apply text_rune.
Qed.
Lemma decode_body_text fuel : ∀ s out rest, Forall is_byte s →
  decode_body fuel s = Some (out, rest) → text out ∧ Forall is_byte rest.
Proof.
  induction fuel as [|fuel IH]; [done|]. intros [|c s] out rest Hs; [done|]. cbn [decode_body].
  pose proof Hs as [Hc Hs']%Forall_cons. unfold is_byte in Hc.
  destruct (c =? 34); [intros [= <- <-]; split; [exact text_nil|done]|].
  destruct (c =? 92).
  { destruct (unescape _) as [[e n]|] eqn:Hu; [|done]. simpl.
    destruct (decode_body fuel _) as [[t r]|] eqn:Hd; [|done]. intros [= <- <-].
    apply IH in Hd as [??]; [|by apply Forall_drop]. split; [by eapply unescape_text|done]. }
  destruct (c <? 32); [done|]. unfold RuneSelf. destruct (Z.ltb_spec c 128).
  - destruct (decode_body fuel s) as [[t r]|] eqn:Hd; [|done]. intros [= <- <-].
    apply IH in Hd as [??]; [|done]. split; [apply text_ascii; [lia|done]|done].
  - destruct (DecodeRune _) as [rr size].
    destruct (decode_body fuel _) as [[t r]|] eqn:Hd; [|done]. intros [= <- <-].
    apply IH in Hd as [??]; [|by apply Forall_drop]. split; [by apply text_rune|done].
Qed.

Lemma skip_ws_byte s : Forall is_byte s → Forall is_byte (skip_ws s).
Proof. induction 1 as [|b s Hb Hs IH]; [constructor|]. simpl. case_match; [done|by constructor]. Qed.
Lemma decode_elem_text s out rest : Forall is_byte s →
  decode_elem s = Some (out, rest) → text out ∧ Forall is_byte rest.
Proof.
  intros Hs. destruct s as [|c s]; [done|]. pose proof Hs as [_ Hs']%Forall_cons.
  destruct (decide (c = 34)) as [->|H34]; [by apply decode_body_text|].
  destruct (decide (c = 110)) as [->|H110].
  2: { intros Hd. exfalso. revert Hd. unfold decode_elem. repeat case_match; subst; done. }
  unfold decode_elem. repeat (case_match; try done). intros [= <- <-]. subst.
  split; [exact text_nil|]. by repeat apply Forall_cons in Hs' as [_ Hs'].
Qed.
Lemma decode_elems_text fuel : ∀ s l rest, Forall is_byte s →
  decode_elems fuel s = Some (l, rest) → Forall text l ∧ Forall is_byte rest.
Proof.
  induction fuel as [|fuel IH]; [done|]. intros s l rest Hs. cbn [decode_elems].
  destruct (decode_elem _) as [[x s1]|] eqn:Hd; [|done]. cbn [mbind option_bind].
  apply decode_elem_text in Hd as [Hx Hs1]; [|by apply skip_ws_byte].
  apply skip_ws_byte in Hs1. destruct (skip_ws s1) as [|c s2]; [done|].
  apply Forall_cons in Hs1 as [_ Hs2]. destruct (decide (c = 44)) as [->|H44].
  { destruct (decode_elems fuel s2) as [[l' s3]|] eqn:Hl; [|done]. intros [= <- <-].
    apply IH in Hl as [??]; [|done]. split; [by constructor|done]. }
  destruct (decide (c = 93)) as [->|H93]; [intros [= <- <-]; by repeat constructor|].
  intros Hd. exfalso. revert Hd. repeat case_match; subst; done.
Qed.
Lemma unmarshal_text s l : Forall is_byte s → unmarshal s = Some l → Forall text l.
Proof.
  intros Hs. unfold unmarshal. apply skip_ws_byte in Hs.
  assert (Hend : ∀ (x l : list (list Z)) s, at_end x s = Some l → l = x)
    by (unfold at_end; intros x l' s'; case_match; congruence).
  destruct (skip_ws s) as [|c s1]; [done|]. apply Forall_cons in Hs as [_ Hs].
  destruct (decide (c = 91)) as [->|H91].
  - assert (Hd : ∀ s, Forall is_byte s →
      ('(l, s) ← decode_elems (length s) s; at_end l s) = Some l → Forall text l).
    { intros s' Hs'. destruct (decode_elems _ _) as [[l' s3]|] eqn:Hl; [|done].
      apply decode_elems_text in Hl as [Hl _]; [|done]. simpl. by intros ->%Hend. }
    apply skip_ws_byte in Hs. destruct (skip_ws s1) as [|c2 s2]; [by apply Hd|].
    repeat match goal with |- match ?x with _ => _ end = _ → _ => is_var x; destruct x end;
      first [by intros ->%Hend | by apply Hd].
  - intros Hu. assert (l = []) as ->; [|constructor]. revert Hu.
    repeat (case_match; try done); apply Hend.
Qed.
Lemma Unmarshal_valid s l :
  Unmarshal s = Some l → Forall (λ c, ValidString c = true) l.
Proof.
  unfold Unmarshal. destruct (unmarshal _) as [l'|] eqn:Hu; [|done]. intros [= <-].
  apply unmarshal_text in Hu; [|apply bytes_of_range]. apply Forall_fmap.
  eapply Forall_impl; [exact Hu|exact text_Valid].
Qed.

Lemma Unmarshal_Marshal l : Unmarshal (Marshal l) = Some (Coerce <$> l).
Proof.
  assert (Forall (Forall is_byte) (bytes_of <$> l)) as Hb
    by (apply Forall_fmap; apply Forall_true; intros; apply bytes_of_range).
  unfold Unmarshal, Marshal.
  rewrite bytes_of_string_of, unmarshal_marshal by auto using marshal_byte.
  f_equal. rewrite <- !list_fmap_compose. done.
Qed.
End Json.
