(* ===== verification/JsonObj.v ===== *)
(** * encoding/json: values, objects and times

    [json.Unmarshal] first checks the syntax of the whole text and then assigns
    the fields of a struct: [parse] is the value of a text, [string_field] what
    a string field of a struct is left with.  [time_text] is how [time.Time] is
    marshalled. *)

From S2P Require Import Prelude GoStr Json.
From Stdlib Require Import Ascii.
#[local] Open Scope Z_scope.

(** ** Values *)
Inductive jvalue :=
  | JNull
  | JBool (b : bool)
  | JNumber (text : list Z)
  | JString (s : list Z)
  | JArray (l : list jvalue)
  | JObject (l : list (list Z * jvalue)).

Module JsonObj.
Definition is_digit (b : Z) : bool := (48 <=? b) && (b <=? 57).
Fixpoint span_digits (s : list Z) : list Z * list Z :=
  match s with
  | b :: s' => if is_digit b then let '(ds, r) := span_digits s' in (b :: ds, r) else ([], s)
  | [] => ([], [])
  end.
(** At least one digit. *)
Definition digits1 (s : list Z) : option (list Z * list Z) :=
  match span_digits s with ([], _) => None | p => Some p end.
(** A number is a minus or nothing, an integer without leading zeros, and
    optionally a fraction and an exponent. *)
Definition sign (s : list Z) : list Z * list Z :=
  match s with 45 :: s => ([45], s) | _ => ([], s) end.
Definition int_part (s : list Z) : option (list Z * list Z) :=
  match s with 48 :: s => Some ([48], s) | _ => digits1 s end.
Definition frac_part (s : list Z) : option (list Z * list Z) :=
  match s with 46 :: s => '(ds, s) ← digits1 s; Some (46 :: ds, s) | _ => Some ([], s) end.
Definition exp_part (s : list Z) : option (list Z * list Z) :=
  match s with
  | e :: s' =>
    if (e =? 101) || (e =? 69) then
      let '(sg, s') := match s' with
        | b :: s'' => if (b =? 43) || (b =? 45) then ([b], s'') else ([], s')
        | [] => ([], []) end in
      '(ds, s') ← digits1 s'; Some (e :: sg ++ ds, s')
    else Some ([], s)
  | [] => Some ([], [])
  end.
Definition number (s : list Z) : option (list Z * list Z) :=
  let '(sg, s) := sign s in
  '(i, s) ← int_part s;
  '(f, s) ← frac_part s;
  '(e, s) ← exp_part s;
  Some (sg ++ i ++ f ++ e, s).

(** [fuel] bounds the calls; every call takes at least a byte of the text, or
    calls one of the others that does. *)
Fixpoint value (fuel : nat) (s : list Z) {struct fuel} : option (jvalue * list Z) :=
  match fuel with
  | O => None
  | S fuel =>
    match Json.skip_ws s with
    | 34 :: s => '(x, s) ← Json.decode_body (length s) s; Some (JString x, s)
    | 91 :: s =>
      match Json.skip_ws s with
      | 93 :: s => Some (JArray [], s)
      | s => '(l, s) ← elems fuel s; Some (JArray l, s)
      end
    | 123 :: s =>
      match Json.skip_ws s with
      | 125 :: s => Some (JObject [], s)
      | s => '(l, s) ← members fuel s; Some (JObject l, s)
      end
    | 116 :: 114 :: 117 :: 101 :: s => Some (JBool true, s)
    | 102 :: 97 :: 108 :: 115 :: 101 :: s => Some (JBool false, s)
    | 110 :: 117 :: 108 :: 108 :: s => Some (JNull, s)
    | s => '(n, s) ← number s; Some (JNumber n, s)
    end
  end
with elems (fuel : nat) (s : list Z) {struct fuel} : option (list jvalue * list Z) :=
  match fuel with
  | O => None
  | S fuel =>
    '(x, s) ← value fuel s;
    match Json.skip_ws s with
    | 44 :: s => '(l, s) ← elems fuel s; Some (x :: l, s)
    | 93 :: s => Some ([x], s)
    | _ => None
    end
  end
with members (fuel : nat) (s : list Z) {struct fuel} : option (list (list Z * jvalue) * list Z) :=
  match fuel with
  | O => None
  | S fuel =>
    match Json.skip_ws s with
    | 34 :: s =>
      '(k, s) ← Json.decode_body (length s) s;
      match Json.skip_ws s with
      | 58 :: s =>
        '(x, s) ← value fuel s;
        match Json.skip_ws s with
        | 44 :: s => '(l, s) ← members fuel s; Some ((k, x) :: l, s)
        | 125 :: s => Some ([(k, x)], s)
        | _ => None
        end
      | _ => None
      end
    | _ => None
    end
  end.
Definition parse (s : list Z) : option jvalue :=
  '(x, s) ← value (S (2 * length s)) s; Json.at_end x s.

(** ** Fields

    A key names a field up to the case of ASCII letters (the names used have
    neither K nor S, whose case folding has other members).  A later member
    overrides an earlier one; null and values of another type leave the field as
    it is. *)
Definition lower (b : Z) : Z := if (65 <=? b) && (b <=? 90) then b + 32 else b.
Definition names_field (name : string) (k : list Z) : bool :=
  bool_decide (lower <$> k = lower <$> bytes_of name).
Definition assign (name : string) (v : string) (m : list Z * jvalue) : string :=
  if names_field name m.1 then match m.2 with JString s => string_of s | _ => v end else v.
Definition string_field (name data : string) : string :=
  match parse (bytes_of data) with
  | Some (JObject l) => foldl (assign name) "" l
  | _ => ""
  end.

Example parse_ex :
  parse (bytes_of " {} ") = Some (JObject []) ∧
  parse (bytes_of "[-10.5e+3, [true] , null]") =
    Some (JArray [JNumber (bytes_of "-10.5e+3"); JArray [JBool true]; JNull]) ∧
  parse (bytes_of "[1,]") = None ∧ parse (bytes_of "[01]") = None ∧ parse (bytes_of "1 2") = None.
Proof. vm_compute. done. Qed.

(** ** Times

    A [time.Time] by its civil date and clock, with the zone in minutes east of
    UTC; RFC 3339 with nanoseconds, quoted.  A year of more than four digits is
    an error of [Marshal]. *)
Record time := Time
  { year : Z; month : Z; day : Z; hour : Z; minute : Z; second : Z; nsec : Z; zone : Z }.
(** The last [n] decimal digits. *)
Fixpoint padded (n : nat) (x : Z) : list Z :=
  match n with O => [] | S n => padded n (x / 10) ++ [48 + x mod 10] end.
Fixpoint drop_zeros (l : list Z) : list Z :=
  match l with b :: l' => if b =? 48 then drop_zeros l' else l | [] => [] end.
Definition frac_text (ns : Z) : list Z :=
  match reverse (drop_zeros (reverse (padded 9 ns))) with [] => [] | ds => 46 :: ds end.
Definition zone_text (z : Z) : list Z :=
  if z =? 0 then [90]
  else (if z <? 0 then 45 else 43) :: padded 2 (Z.abs z / 60) ++ 58 :: padded 2 (Z.abs z mod 60).
Definition year_ok (t : time) : bool := (0 <=? year t) && (year t <? 10000).
Definition time_body (t : time) : list Z :=
  padded 4 (year t) ++ 45 :: padded 2 (month t) ++ 45 :: padded 2 (day t) ++ 84 ::
  padded 2 (hour t) ++ 58 :: padded 2 (minute t) ++ 58 :: padded 2 (second t) ++
  frac_text (nsec t) ++ zone_text (zone t).
Definition time_text (t : time) : option (list Z) :=
  if year_ok t then Some (34 :: time_body t ++ [34]) else None.
Example time_ex :
  time_text (Time 2018 11 5 9 3 7 120000000 480) =
    Some (34 :: bytes_of "2018-11-05T09:03:07.12+08:00" ++ [34]).
Proof. vm_compute. done. Qed.

(** ** Facts *)

(** Text that stands for itself in a string. *)
Definition plain (b : Z) : Prop := 32 ≤ b < 128 ∧ b ≠ 34 ∧ b ≠ 92.
Definition is_plain (b : Z) : bool :=
  (32 <=? b) && (b <? 128) && negb (b =? 34) && negb (b =? 92).
Lemma plain_check l : forallb is_plain l = true → Forall plain l.
Proof.
  rewrite forallb_forall, Forall_forall. intros Hl b Hb%list_elem_of_In%Hl.
  unfold is_plain in Hb. bool_prop. unfold plain. lia.
Qed.
Lemma decode_plain l : ∀ fuel rest, Forall plain l → (length l < fuel)%nat →
  Json.decode_body fuel (l ++ 34 :: rest) = Some (l, rest).
Proof.
  induction l as [|b l IH]; intros fuel rest Hl Hf; (destruct fuel as [|fuel]; [simpl in Hf; lia|]).
  { done. }
  apply Forall_cons in Hl as [(Hb & H34 & H92) Hl]. cbn [app Json.decode_body].
  destruct (Z.eqb_spec b 34); [done|]. destruct (Z.eqb_spec b 92); [done|].
  destruct (Z.ltb_spec b 32); [lia|]. unfold Utf8.RuneSelf. destruct (Z.ltb_spec b 128); [|lia].
  rewrite IH; [done|done|simpl in Hf; lia].
Qed.

Lemma digit_of x : 48 ≤ 48 + x mod 10 ≤ 57.
Proof. pose proof (Z.mod_pos_bound x 10). lia. Qed.
Lemma padded_plain n : ∀ x, Forall plain (padded n x).
Proof.
  induction n as [|n IH]; intros x; simpl; [constructor|].
  apply Forall_app; split; [apply IH|]. constructor; [|constructor].
  pose proof (digit_of x). unfold plain. lia.
Qed.
Lemma drop_zeros_sub l : ∃ k, drop_zeros l = drop k l.
Proof.
  induction l as [|b l [k IH]]; [by exists 0%nat|]. simpl.
  destruct (b =? 48); [by exists (S k)|by exists 0%nat].
Qed.
Lemma frac_plain ns : Forall plain (frac_text ns).
Proof.
  unfold frac_text. destruct (drop_zeros_sub (reverse (padded 9 ns))) as [k ->].
  assert (Forall plain (reverse (drop k (reverse (padded 9 ns))))) as Hp.
  { apply Forall_reverse, Forall_drop, Forall_reverse, padded_plain. }
  destruct (reverse _) as [|b l]; [constructor|].
  apply Forall_cons; split; [unfold plain; lia|done].
Qed.
Lemma zone_plain z : Forall plain (zone_text z).
Proof.
  unfold zone_text. destruct (z =? 0); [constructor; [unfold plain; lia|constructor]|].
  constructor; [destruct (z <? 0); unfold plain; lia|].
  apply Forall_app; split; [apply padded_plain|]. constructor; [unfold plain; lia|apply padded_plain].
Qed.
Lemma time_plain t : Forall plain (time_body t).
Proof.
  unfold time_body.
  repeat (rewrite Forall_app || rewrite Forall_cons).
  split_and!; auto using padded_plain, frac_plain, zone_plain; unfold plain; lia.
Qed.

(** *** Integers are numbers *)
Lemma pretty_digits (n : N) : ∃ d ds, bytes_of (pretty n) = d :: ds ∧
  Forall (λ b, is_digit b = true) (d :: ds) ∧ (d = 48 → ds = []).
Proof.
  induction (N.lt_wf_0 n) as [n _ IH].
  assert (Hdig : ∀ k, (k < 10)%N → is_digit (byte_of (pretty_N_char k)) = true ∧
    (byte_of (pretty_N_char k) = 48 → k = 0%N)).
  { intros k Hk.
    assert (k = 0 ∨ k = 1 ∨ k = 2 ∨ k = 3 ∨ k = 4 ∨ k = 5 ∨ k = 6 ∨ k = 7 ∨ k = 8 ∨ k = 9)%N as Hc by lia.
    repeat destruct Hc as [->|Hc]; try subst k; done. }
  destruct (decide (n = 0%N)) as [->|Hn]; [by exists 48, []; repeat constructor|].
  destruct (decide (n < 10)%N) as [Hlt|Hge].
  - assert (pretty n = String (pretty_N_char n) "") as ->.
    { unfold pretty, pretty_N. rewrite decide_False by done. rewrite pretty_N_go_step by lia.
      rewrite N.div_small, N.mod_small by done. by rewrite pretty_N_go_0. }
    destruct (Hdig n Hlt) as [H1 H2]. exists (byte_of (pretty_N_char n)), []. repeat constructor; auto.
  - assert (n = 10 * (n `div` 10) + n `mod` 10)%N as Hsplit by (apply N.div_mod; lia).
    assert (0 < n `div` 10)%N by (apply N.div_str_pos; lia).
    assert (n `mod` 10 < 10)%N by (apply N.mod_lt; lia).
    destruct (IH (n `div` 10)%N) as (d & ds & He & Hf & Hz); [apply N.div_lt; lia|].
    rewrite Hsplit, GoStr.pretty_N_snoc by done. rewrite bytes_of_app, He.
    destruct (Hdig (n `mod` 10)%N) as [H1 _]; [done|].
    exists d, (ds ++ [byte_of (pretty_N_char (n `mod` 10))]). split; [done|]. split.
    + change (d :: ds ++ ?x) with ((d :: ds) ++ x). apply Forall_app; split; [done|].
      by repeat constructor.
    + intros Hd. exfalso. pose proof (Hz Hd) as ->.
      assert (pretty (n `div` 10)%N = pretty 0%N) as Heq%(inj pretty).
      { rewrite <- (string_of_bytes_of (pretty (n `div` 10)%N)), He, Hd. done. }
      lia.
Qed.

(** What may follow a number in an object. *)
Definition ends_number (s : list Z) : Prop :=
  match s with b :: _ => b = 44 ∨ b = 125 | [] => True end.
Lemma span_all ds rest : Forall (λ b, is_digit b = true) ds → ends_number rest →
  span_digits (ds ++ rest) = (ds, rest).
Proof.
  intros Hds Hr. induction Hds as [|d ds Hd Hds IH]; simpl.
  - destruct rest as [|b rest]; [done|]. simpl. by destruct Hr as [->| ->].
  - by rewrite Hd, IH.
Qed.
Lemma number_tail rest : ends_number rest → frac_part rest = Some ([], rest) ∧ exp_part rest = Some ([], rest).
Proof. destruct rest as [|b rest]; [done|]. by intros [->| ->]. Qed.
Lemma int_part_digits d ds rest : Forall (λ b, is_digit b = true) (d :: ds) → (d = 48 → ds = []) →
  ends_number rest → int_part (d :: ds ++ rest) = Some (d :: ds, rest).
Proof.
  intros Hf Hz Hr. destruct (decide (d = 48)) as [->|Hd]; [by rewrite (Hz eq_refl)|].
  assert (int_part (d :: ds ++ rest) = digits1 (d :: ds ++ rest)) as ->.
  { unfold int_part. destruct d as [|p|p]; try done. do 6 (destruct p as [p|p|]; try done). }
  unfold digits1. change (d :: ds ++ rest) with ((d :: ds) ++ rest). by rewrite span_all.
Qed.
Lemma number_Itoa z rest : ends_number rest →
  number (bytes_of (GoStr.Itoa z) ++ rest) = Some (bytes_of (GoStr.Itoa z), rest).
Proof.
  intros Hr. destruct (number_tail rest Hr) as [Hfr Hex].
  assert (Hpos : ∀ d ds sg, Forall (λ b, is_digit b = true) (d :: ds) → (d = 48 → ds = []) →
    ('(i, s) ← int_part (d :: ds ++ rest); '(f, s) ← frac_part s; '(e, s) ← exp_part s;
     Some (sg ++ i ++ f ++ e, s)) = Some (sg ++ d :: ds, rest)).
  { intros d ds sg Hf Hz. rewrite int_part_digits by done. csimpl. rewrite Hfr. csimpl. rewrite Hex.
    csimpl. by rewrite app_nil_r. }
  unfold GoStr.Itoa. destruct z as [|p|p].
  - by apply (Hpos 48 [] []); [repeat constructor|].
  - change (pretty (Z.pos p)) with (pretty (N.pos p)).
    destruct (pretty_digits (N.pos p)) as (d & ds & -> & Hf & Hz).
    unfold number. assert (sign ((d :: ds) ++ rest) = ([], (d :: ds) ++ rest)) as ->.
    { apply Forall_cons in Hf as [Hd _]. unfold is_digit in Hd. unfold sign. cbn [app].
      destruct d as [|q|q]; try done. do 6 (destruct q as [q|q|]; try done). }
    by apply Hpos.
  - change (bytes_of (pretty (Z.neg p))) with (45 :: bytes_of (pretty (N.pos p))).
    destruct (pretty_digits (N.pos p)) as (d & ds & -> & Hf & Hz).
    exact (Hpos d ds [45] Hf Hz).
Qed.

(** *** Members of an object *)
Lemma skip_ws_plain b s : Json.is_ws b = false → Json.skip_ws (b :: s) = b :: s.
Proof. apply Json.skip_ws_cons. Qed.
Lemma value_string fuel x rest : Forall is_byte x →
  value (S fuel) (Json.encode_string x ++ rest) = Some (JString (Json.sanitize x), rest).
Proof.
  intros Hx. cbn [value]. rewrite Json.skip_ws_encode_string.
  pose proof (Json.decode_elem_encode x rest Hx) as Hd. unfold Json.decode_elem in Hd.
  unfold Json.encode_string in *. cbn [app] in *. rewrite Hd. done.
Qed.
Lemma value_text fuel x rest : Forall plain x →
  value (S fuel) (34 :: x ++ 34 :: rest) = Some (JString x, rest).
Proof.
  intros Hx. cbn [value]. rewrite skip_ws_plain by done.
  rewrite decode_plain; [done|done|]. rewrite length_app. simpl. lia.
Qed.
Lemma value_number fuel z rest : ends_number rest →
  value (S fuel) (bytes_of (GoStr.Itoa z) ++ rest) = Some (JNumber (bytes_of (GoStr.Itoa z)), rest).
Proof.
  intros Hr. pose proof (number_Itoa z rest Hr) as Hn. cbn [value].
  assert (∃ b s, bytes_of (GoStr.Itoa z) ++ rest = b :: s ∧ (b = 45 ∨ is_digit b = true)) as (b & s & He & Hb).
  { unfold GoStr.Itoa. destruct z as [|p|p]; [by exists 48, rest; auto| |].
    - change (pretty (Z.pos p)) with (pretty (N.pos p)).
      destruct (pretty_digits (N.pos p)) as (d & ds & -> & Hf & _). apply Forall_cons in Hf as [? _].
      exists d, (ds ++ rest). auto.
    - change (bytes_of (pretty (Z.neg p))) with (45 :: bytes_of (pretty (N.pos p))).
      by exists 45, (bytes_of (pretty (N.pos p)) ++ rest); auto. }
  rewrite He in *. clear He.
  assert (45 ≤ b ≤ 57) as Hrange.
  { destruct Hb as [->|Hb]; [lia|]. unfold is_digit in Hb. bool_prop. lia. }
  assert (b = 45 ∨ b = 46 ∨ b = 47 ∨ b = 48 ∨ b = 49 ∨ b = 50 ∨ b = 51 ∨ b = 52 ∨ b = 53 ∨ b = 54 ∨
    b = 55 ∨ b = 56 ∨ b = 57) as Hcases by lia.
  clear Hb Hrange.
  repeat destruct Hcases as [->|Hcases]; try subst b; rewrite skip_ws_plain by done;
    cbv beta iota; by rewrite Hn.
Qed.
Lemma members_cons fuel k s x s1 : Forall plain k →
  value fuel s = Some (x, s1) →
  members (S fuel) (34 :: k ++ 34 :: 58 :: s) =
    match Json.skip_ws s1 with
    | 44 :: s => '(l, s) ← members fuel s; Some ((k, x) :: l, s)
    | 125 :: s => Some ([(k, x)], s)
    | _ => None
    end.
Proof.
  intros Hk Hv. cbn [members]. rewrite skip_ws_plain by done.
  rewrite decode_plain by (try done; rewrite length_app; simpl; lia). csimpl.
  by rewrite Hv.
Qed.
End JsonObj.
