(* ===== verification/Etcd.v ===== *)
(** * lib/etcd/etcd.go: the etcd helpers

    The etcd service is not part of the program.  It is the class
    [EtcdClient]: the client calls the code makes.  [EtcdLaws] states what the
    code relies on, on the service's view ([kvs], [live]); [MemEtcd] is a
    concrete service that satisfies the laws, for witnesses.  Module [Etcd] is
    the code of [lib/etcd]. *)

From S2P Require Import Prelude GoStr.

(** ** The client *)
Inductive etcd_op :=
  | OpPut (k v : string) (lease : Z)   (* lease 0: none *)
  | OpDelete (k : string).

Class EtcdClient (W : Type) := {
  cli_Put : string → string → Z → W → result unit * W;
  cli_Get : string → W → result (option string) * W;
  cli_GetPrefix : string → W → result (list (string * string)) * W;
  cli_DeletePrefix : string → W → result unit * W;
  (** [Txn().If(CreateRevision(k) = 0).Then(ops).Commit()], without condition
      when the key is [None]; the answer is [Succeeded]. *)
  cli_Txn : option string → list etcd_op → W → result bool * W;
  cli_Grant : Z → W → result Z * W;
  cli_Revoke : Z → W → result unit * W;
  cli_KeepAlive : Z → W → result unit * W;
  (** What happens during a [time.Sleep]. *)
  cli_Sleep : W → W;
}.

(** ** What the code relies on *)
Definition apply_op (m : gmap string (string * Z)) (o : etcd_op) : gmap string (string * Z) :=
  match o with
  | OpPut k v l => <[k := (v, l)]> m
  | OpDelete k => delete k m
  end.
(** A list of (key, value) is the content of the keys with a prefix. *)
Definition lists_prefix (m : gmap string (string * Z)) (p : string)
    (l : list (string * string)) : Prop :=
  NoDup l.*1 ∧
  ∀ k v, (k, v) ∈ l ↔ (GoStr.HasPrefix k p = true ∧ ∃ lease, m !! k = Some (v, lease)).

(** A call that returns nil has the documented effect; one that returns an
    error (a timeout, say) may or may not have had it. *)
Definition effect {W A} (view : W → gmap string (string * Z)) (r : result A) (w w' : W)
    (m' : gmap string (string * Z)) : Prop :=
  match r with Ok _ => view w' = m' | Err _ => view w' = view w ∨ view w' = m' end.

Class EtcdLaws (W : Type) `{EtcdClient W} := {
  kvs : W → gmap string (string * Z);   (* value and lease of every key *)
  live : W → gset Z;                    (* the leases granted and not gone *)
  healthy : W → Prop;                   (* the service answers *)
  law_Put k v l w : let '(r, w') := cli_Put k v l w in
    live w' = live w ∧ effect kvs r w w' (<[k := (v, l)]> (kvs w)) ∧
    (healthy w → healthy w' ∧ (l = 0%Z ∨ l ∈ live w → r = Ok tt));
  law_Get k w : let '(r, w') := cli_Get k w in
    live w' = live w ∧ kvs w' = kvs w ∧
    (∀ o, r = Ok o → o = (fst <$> (kvs w !! k))) ∧
    (∀ e, r = Err e → e ≠ ErrEmptyValue) ∧ (healthy w → healthy w' ∧ is_ok r = true);
  law_GetPrefix p w : let '(r, w') := cli_GetPrefix p w in
    live w' = live w ∧ kvs w' = kvs w ∧ (∀ l, r = Ok l → lists_prefix (kvs w) p l) ∧
    (healthy w → healthy w' ∧ is_ok r = true);
  law_Txn cond ops w : let '(r, w') := cli_Txn cond ops w in
    live w' = live w ∧
    (let cond_true := match cond with None => true | Some k => bool_decide (kvs w !! k = None) end in
     (∀ b, r = Ok b → b = cond_true) ∧
     effect kvs r w w' (if cond_true then foldl apply_op (kvs w) ops else kvs w)) ∧
    (healthy w → healthy w' ∧
      (Forall (λ o, match o with OpPut _ _ l => l = 0%Z ∨ l ∈ live w | OpDelete _ => True end) ops →
       is_ok r = true));
  (** A put with a lease that does not exist fails the transaction. *)
  law_Txn_lease cond k v l w : l ≠ 0%Z → (l ∉ live w) →
    match cond with None => True | Some k => kvs w !! k = None end →
    let '(r, w') := cli_Txn cond [OpPut k v l] w in
    (∃ e, r = Err e) ∧ kvs w' = kvs w ∧ live w' = live w;
  law_KeepAlive id w : let '(r, w') := cli_KeepAlive id w in
    live w' = live w ∧ kvs w' = kvs w ∧ (healthy w → healthy w' ∧ (id ∈ live w → r = Ok tt));
  law_Grant ttl w : let '(r, w') := cli_Grant ttl w in
    kvs w' = kvs w ∧
    (∀ id, r = Ok id → id ≠ 0%Z ∧ (id ∉ live w) ∧ live w' = ({[id]} ∪ live w) ∧
       (∀ k v, kvs w !! k ≠ Some (v, id))) ∧
    (∀ e, r = Err e → live w ⊆ live w') ∧ (healthy w → healthy w' ∧ is_ok r = true);
  law_Revoke id w : let '(r, w') := cli_Revoke id w in
    (r = Ok tt → live w' = live w ∖ {[id]} ∧
       kvs w' = filter (λ p : string * (string * Z), p.2.2 ≠ id) (kvs w)) ∧
    (healthy w → healthy w' ∧ (id ∈ live w → r = Ok tt));
}.

(** ** lib/etcd *)
Module Etcd.
Section etcd.
Context {W : Type} `{EtcdClient W}.

Definition PutKV (k v : string) (w : W) : result unit * W := cli_Put k v 0 w.

Definition GetKV (k : string) (w : W) : result string * W :=
  match cli_Get k w with
  | (Err e, w) => (Err e, w)
  | (Ok (Some v), w) => (Ok v, w)
  | (Ok None, w) => (Err ErrEmptyValue, w)
  end.

Definition ListKeyByPrefix (prefix : string) (w : W) : result (list string) * W :=
  match cli_GetPrefix prefix w with
  | (Err e, w) => (Err e, w)
  | (Ok l, w) => (Ok l.*1, w)
  end.

Definition DElKeysByPrefix (prefix : string) (w : W) : result unit * W :=
  cli_DeletePrefix prefix w.

(** [cons.LeaseTTL]; the error of [cli.Put] is dropped. *)
Definition LeaseTTL : Z := 1.
Definition Register (dir k : string) (w : W) : result unit * W :=
  match cli_Grant LeaseTTL w with
  | (Err e, w) => (Err e, w)
  | (Ok id, w) =>
    let '(_, w) := cli_Put (GoStr.Join [dir; k]) (GoStr.Itoa id) id w in
    cli_KeepAlive id w
  end.

(** *** The lock: [lockRecord] is a variable of the process. *)
Definition tryLock (leaseId : Z) (k : string) (w : W) : result bool * W :=
  match cli_Txn (Some k) [OpPut k (GoStr.Itoa leaseId) leaseId] w with
  | (Err e, w) => (Err e, w)
  | (Ok succeeded, w) => (Ok succeeded, w)
  end.

(** [for !lockSuccess]: at most [fuel] rounds; [None] when they do not suffice. *)
Fixpoint lock_loop (fuel : nat) (leaseId : Z) (k : string) (w : W) : option (result unit * W) :=
  match fuel with
  | O => None
  | S fuel =>
    match tryLock leaseId k w with
    | (Err e, w) => Some (Err e, w)
    | (Ok lockSuccess, w) =>
      let w := cli_Sleep w in
      if lockSuccess then Some (Ok tt, w) else lock_loop fuel leaseId k w
    end
  end.
Definition Lock (fuel : nat) (k : string) (lockRecord : gmap string Z) (w : W)
    : option (result unit * gmap string Z * W) :=
  match cli_Grant 10 w with
  | (Err e, w) => Some (Err e, lockRecord, w)
  | (Ok id, w) =>
    match lock_loop fuel id k w with
    | None => None
    | Some (Err e, w) => Some (Err e, lockRecord, w)
    | Some (Ok _, w) => Some (Ok tt, <[k := id]> lockRecord, w)
    end
  end.

Definition UnLock (k : string) (lockRecord : gmap string Z) (w : W)
    : result unit * gmap string Z * W :=
  let unlocked := Err (Errorf (k +:+ " is already unlocked")) in
  match lockRecord !! k with
  | Some lockId =>
    match cli_Revoke lockId w with
    | (Err e, w) => (Err e, lockRecord, w)
    | (Ok _, w) => (unlocked, delete k lockRecord, w)
    end
  | None => (unlocked, lockRecord, w)
  end.

Definition OP_PUT : Z := 0.
Definition OP_DEL : Z := 1.
Record KV := MkKV { Op : Z; Key : string; Value : string }.
(** The [switch] of the loop: other operations are skipped. *)
Definition etcd_op_of (kv : KV) : option etcd_op :=
  if decide (Op kv = OP_PUT) then Some (OpPut (Key kv) (Value kv) 0)
  else if decide (Op kv = OP_DEL) then Some (OpDelete (Key kv))
  else None.

(** The results of [Lock] and [UnLock] are dropped. *)
Definition AtomicMultiKVOp (fuel : nat) (lockId : string) (kvs : list KV)
    (lockRecord : gmap string Z) (w : W) : option (result unit * gmap string Z * W) :=
  match Lock fuel lockId lockRecord w with
  | None => None
  | Some (_, lockRecord, w) =>
    let '(r, w) := cli_Txn None (omap etcd_op_of kvs) w in
    let '(_, lockRecord, w) := UnLock lockId lockRecord w in
    match r with
    | Err e => Some (Err e, lockRecord, w)
    | Ok _ => Some (Ok tt, lockRecord, w)
    end
  end.
End etcd.
End Etcd.

(** ** A service in memory

    Each call takes the next entry of a script of faults; when the script is
    empty the service is healthy. *)
Module MemEtcd.
Inductive fault :=
  | FOk      (* the call succeeds *)
  | FDrop    (* the call is lost: an error, without effect *)
  | FLost.   (* the answer is lost: an error, with the effect *)
Record mem := Mem { mkvs : gmap string (string * Z); mlive : gset Z; script : list fault }.

Definition timeout : error := Errorf "context deadline exceeded".
Definition with_fault {A} (r : result A) (w' w : mem) : result A * mem :=
  match script w with
  | [] => (r, w')
  | FOk :: fs => (r, Mem (mkvs w') (mlive w') fs)
  | FDrop :: fs => (Err timeout, Mem (mkvs w) (mlive w) fs)
  | FLost :: fs => (Err timeout, Mem (mkvs w') (mlive w') fs)
  end.

Definition lease_ok (w : mem) (l : Z) : bool := bool_decide (l = 0%Z ∨ l ∈ mlive w).
Definition ops_ok (w : mem) (ops : list etcd_op) : bool :=
  forallb (λ o, match o with OpPut _ _ l => lease_ok w l | OpDelete _ => true end) ops.
Definition no_lease : error := Errorf "etcdserver: requested lease not found".
Definition used_leases (w : mem) : list Z :=
  elements (mlive w) ++ ((λ p, p.2.2) <$> map_to_list (mkvs w)).
Definition new_lease (w : mem) : Z := 1 + foldr Z.max 0%Z (used_leases w).

#[export] Instance mem_client : EtcdClient mem := {|
  cli_Put k v l w :=
    if lease_ok w l
    then with_fault (Ok tt) (Mem (<[k := (v, l)]> (mkvs w)) (mlive w) (script w)) w
    else with_fault (Err no_lease) w w;
  cli_Get k w := with_fault (Ok (fst <$> mkvs w !! k)) w w;
  cli_GetPrefix p w := with_fault (Ok (prod_map id fst <$>
    filter (λ q, GoStr.HasPrefix q.1 p = true) (map_to_list (mkvs w)))) w w;
  cli_DeletePrefix p w := with_fault (Ok tt)
    (Mem (filter (λ q : string * (string * Z), GoStr.HasPrefix q.1 p = false) (mkvs w))
      (mlive w) (script w)) w;
  cli_Txn cond ops w :=
    let b := match cond with None => true | Some k => bool_decide (mkvs w !! k = None) end in
    if ops_ok w ops || negb b
    then with_fault (Ok b)
      (if b then Mem (foldl apply_op (mkvs w) ops) (mlive w) (script w) else w) w
    else with_fault (Err no_lease) w w;
  cli_Grant _ w := with_fault (Ok (new_lease w))
    (Mem (mkvs w) ({[new_lease w]} ∪ mlive w) (script w)) w;
  cli_Revoke l w :=
    if decide (l ∈ mlive w)
    then with_fault (Ok tt)
      (Mem (filter (λ p : string * (string * Z), p.2.2 ≠ l) (mkvs w)) (mlive w ∖ {[l]}) (script w)) w
    else with_fault (Err no_lease) w w;
  cli_KeepAlive l w :=
    if decide (l ∈ mlive w) then with_fault (Ok tt) w w else with_fault (Err no_lease) w w;
  cli_Sleep w := w;
|}.

Definition mem_healthy (w : mem) : Prop := script w = [].

Lemma used_leases_max w l : l ∈ used_leases w → (l < new_lease w)%Z.
Proof.
  unfold new_lease. intros Hl. assert (l ≤ foldr Z.max 0 (used_leases w))%Z; [|lia].
  induction (used_leases w) as [|x ls IH]; [set_solver|]. simpl.
  apply elem_of_cons in Hl as [->|Hl]; [lia|]. specialize (IH Hl). lia.
Qed.
Lemma new_lease_pos w : (0 < new_lease w)%Z.
Proof.
  unfold new_lease. assert (0 ≤ foldr Z.max 0 (used_leases w))%Z; [|lia].
  induction (used_leases w); simpl; lia.
Qed.

Lemma new_lease_fresh w : (new_lease w ∉ mlive w) ∧ ∀ k v, mkvs w !! k ≠ Some (v, new_lease w).
Proof.
  assert (Hu : new_lease w ∉ used_leases w) by (intros Hu%used_leases_max; lia).
  unfold used_leases in Hu. rewrite elem_of_app, list_elem_of_fmap in Hu. split; [set_solver|].
  intros k v Hk. apply Hu. right. exists (k, (v, new_lease w)). by rewrite elem_of_map_to_list.
Qed.
Lemma mem_prefix (m : gmap string (string * Z)) p : lists_prefix m p (prod_map id fst <$>
  filter (λ q, GoStr.HasPrefix q.1 p = true) (map_to_list m)).
Proof.
  split.
  - rewrite <- list_fmap_compose.
    rewrite (list_fmap_ext (fst ∘ prod_map id fst) fst) by (by intros ? [? ?] _).
    eapply sublist_NoDup; [exact (NoDup_fst_map_to_list m)|]. apply fmap_sublist, sublist_filter.
  - intros k v. rewrite list_elem_of_fmap. split.
    + intros ([k' [v' l]] & Heq & [Hp Hin]%list_elem_of_filter). simplify_eq/=.
      apply elem_of_map_to_list in Hin. eauto.
    + intros (Hp & l & Hl). exists (k, (v, l)). split; [done|].
      rewrite list_elem_of_filter, elem_of_map_to_list. done.
Qed.
Lemma ops_ok_spec w ops : Forall (λ o, match o with OpPut _ _ l => l = 0%Z ∨ l ∈ mlive w | _ => True end) ops →
  ops_ok w ops = true.
Proof.
  intros Hall. unfold ops_ok. apply forallb_forall. intros o Ho%list_elem_of_In. rewrite Forall_forall in Hall.
  specialize (Hall o Ho). destruct o; [by apply bool_decide_eq_true|done].
Qed.

(** One case per head of the script. *)
Ltac faults w :=
  unfold with_fault; destruct w as [m lv [|[] fs]]; simpl in *.

#[export] Instance mem_laws : EtcdLaws mem.
Proof.
  refine {| kvs := mkvs; live := mlive; healthy := mem_healthy |}.
  - intros k v l w. simpl. unfold lease_ok.
    case_bool_decide as Hl; faults w; unfold mem_healthy; simpl; naive_solver.
  - intros k w. simpl. faults w; unfold mem_healthy, timeout; simpl; naive_solver.
  - intros p w. simpl.
    pose proof (mem_prefix (mkvs w) p).
    faults w; unfold mem_healthy; simpl; naive_solver.
  - intros cond ops w. simpl.
    set (b := match cond with None => true | Some k => bool_decide (mkvs w !! k = None) end).
    destruct (ops_ok w ops) eqn:Hok; simpl.
    + destruct b; faults w; unfold mem_healthy; simpl; naive_solver.
    + assert (¬ Forall (λ o, match o with OpPut _ _ l => l = 0%Z ∨ l ∈ mlive w | _ => True end) ops)
        by (intros ?%ops_ok_spec; congruence).
      destruct b; simpl; faults w; unfold mem_healthy; simpl; naive_solver.
  - intros cond k v l w Hl Hlive Hc. simpl.
    assert (lease_ok w l = false) as -> by (apply bool_decide_eq_false; tauto).
    assert (match cond with None => true | Some k => bool_decide (mkvs w !! k = None) end = true) as ->
      by (destruct cond; [by apply bool_decide_eq_true|done]).
    simpl. faults w; naive_solver.
  - intros id w. simpl. case_decide; faults w; unfold mem_healthy; simpl; naive_solver.
  - intros ttl w. simpl. pose proof (new_lease_pos w). destruct (new_lease_fresh w) as [? ?].
    set (n := new_lease w) in *. clearbody n.
    faults w; unfold mem_healthy; simpl; (split_and!; [done| | |naive_solver]);
      intros ? Heq; simplify_eq; split_and?; try done; try lia; set_solver.
  - intros l w. simpl. case_decide; faults w; unfold mem_healthy; simpl; naive_solver.
Defined.
End MemEtcd.

(** ** Facts about lib/etcd over any service that satisfies the laws *)
Module EtcdFacts.
Import Etcd.
Section facts.
Context {W : Type} `{EtcdLaws W}.

(** Use a law: name the answer of the call and what it says. *)
Ltac law L := match type of L with
  | context [let '(_, _) := ?c in _] => destruct c as [? ?] eqn:?
  end.

Lemma PutKV_healthy k v w : healthy w →
  ∃ w', PutKV k v w = (Ok tt, w') ∧ healthy w' ∧ kvs w' = <[k := (v, 0%Z)]> (kvs w) ∧
    live w' = live w.
Proof.
  intros Hh. unfold PutKV. pose proof (law_Put k v 0 w) as L.
  destruct (cli_Put k v 0 w) as [r w']. destruct L as (Hl & He & Hok).
  destruct (Hok Hh) as [? Hr]. rewrite (Hr (or_introl eq_refl)) in *. simpl in He. by exists w'.
Qed.

Lemma GetKV_healthy k w : healthy w →
  ∃ w', GetKV k w = (match kvs w !! k with Some (v, _) => Ok v | None => Err ErrEmptyValue end, w')
    ∧ healthy w' ∧ kvs w' = kvs w ∧ live w' = live w.
Proof.
  intros Hh. unfold GetKV. pose proof (law_Get k w) as L.
  destruct (cli_Get k w) as [r w']. destruct L as (Hl & Hk & Ho & _ & Hok).
  destruct (Hok Hh) as [? Hr]. destruct r as [o|e]; [|done]. rewrite (Ho o eq_refl).
  exists w'. by destruct (kvs w !! k) as [[v l]|].
Qed.

(** A read that fails leaves the data alone, and is not mistaken for a missing
    key. *)
Lemma GetKV_error k w e w' : GetKV k w = (Err e, w') →
  kvs w' = kvs w ∧ (e = ErrEmptyValue ↔ (kvs w !! k = None ∧ ∃ w'', cli_Get k w = (Ok None, w''))).
Proof.
  unfold GetKV. pose proof (law_Get k w) as L. destruct (cli_Get k w) as [r w1].
  destruct L as (Hl & Hk & Ho & He & _). destruct r as [[v|]|e']; intros ?; simplify_eq.
  - split; [done|]. split; [|done]. intros _. split; [|eauto].
    specialize (Ho None eq_refl). by destruct (kvs w !! k).
  - split; [done|]. split; [|naive_solver]. intros ->. by destruct (He _ eq_refl).
Qed.

(** The transaction of [AtomicMultiKVOp] under a lock key it does not touch. *)
Lemma apply_ops_frame k x id ops : ∀ m,
  m !! k = None → (∀ k' v, m !! k' ≠ Some (v, id)) → id ≠ 0%Z →
  Forall (λ o, match o with OpPut k' _ l => k' ≠ k ∧ l = 0%Z | OpDelete k' => k' ≠ k end) ops →
  filter (λ p : string * (string * Z), p.2.2 ≠ id) (foldl apply_op (<[k := (x, id)]> m) ops) =
  foldl apply_op m ops.
Proof.
  induction ops as [|o ops IH]; intros m Hk Hid Hid0 Hops; simpl.
  - rewrite map_filter_insert_False by (simpl; tauto). rewrite delete_id by done.
    apply map_filter_id. intros k' [v l] Hl ?; simplify_eq/=. by apply (Hid k' v).
  - apply Forall_cons in Hops as [Ho Hops].
    destruct o as [k' v l|k']; simpl.
    + destruct Ho as [Hne ->]. rewrite insert_insert_ne by done. apply IH; [| |done|done].
      * by rewrite lookup_insert_ne.
      * intros k2 v2. rewrite lookup_insert. case_decide; [naive_solver|apply Hid].
    + rewrite delete_insert_ne by done. apply IH; [| |done|done].
      * by rewrite lookup_delete_ne.
      * intros k2 v2. rewrite lookup_delete. case_decide; [naive_solver|apply Hid].
Qed.

Lemma tryLock_free id k w : healthy w → id ∈ live w → kvs w !! k = None →
  ∃ w', tryLock id k w = (Ok true, w') ∧ healthy w' ∧ live w' = live w ∧
    kvs w' = <[k := (GoStr.Itoa id, id)]> (kvs w).
Proof.
  intros Hh Hid Hk. unfold tryLock.
  pose proof (law_Txn (Some k) [OpPut k (GoStr.Itoa id) id] w) as L.
  destruct (cli_Txn _ _ _) as [r w']. destruct L as (Hl & [Hb He] & Hok).
  destruct (Hok Hh) as [Hh' Hr]. rewrite bool_decide_eq_true_2 in * by done.
  destruct r as [b|e]; [|by discriminate Hr; repeat constructor; auto].
  rewrite (Hb b eq_refl). simpl in He. by exists w'.
Qed.
(** While the key exists, an attempt fails and changes nothing. *)
Lemma tryLock_held id k w : kvs w !! k ≠ None →
  ∃ r w', tryLock id k w = (r, w') ∧ r ≠ Ok true ∧ kvs w' = kvs w.
Proof.
  intros Hk. unfold tryLock.
  pose proof (law_Txn (Some k) [OpPut k (GoStr.Itoa id) id] w) as L.
  destruct (cli_Txn _ _ _) as [r w']. destruct L as (Hl & [Hb He] & _).
  rewrite bool_decide_eq_false_2 in * by done.
  destruct r as [b|e]; simpl in *; do 2 eexists; (split; [done|]).
  - rewrite (Hb b eq_refl). done.
  - split; [done|]. by destruct He.
Qed.

Lemma Revoke_healthy id w : healthy w → id ∈ live w →
  ∃ w', cli_Revoke id w = (Ok tt, w') ∧ healthy w' ∧ live w' = live w ∖ {[id]} ∧
    kvs w' = filter (λ p : string * (string * Z), p.2.2 ≠ id) (kvs w).
Proof.
  intros Hh Hid. pose proof (law_Revoke id w) as L. destruct (cli_Revoke id w) as [r w'].
  destruct L as [Heff Hok]. destruct (Hok Hh) as [? Hr]. specialize (Hr Hid). subst r.
  destruct (Heff eq_refl). by exists w'.
Qed.

Lemma Txn_healthy ops w : healthy w →
  Forall (λ o, match o with OpPut _ _ l => l = 0%Z | OpDelete _ => True end) ops →
  ∃ w', cli_Txn None ops w = (Ok true, w') ∧ healthy w' ∧ live w' = live w ∧
    kvs w' = foldl apply_op (kvs w) ops.
Proof.
  intros Hh Hops. pose proof (law_Txn None ops w) as L.
  destruct (cli_Txn _ _ _) as [r w']. destruct L as (Hl & [Hb He] & Hok).
  destruct (Hok Hh) as [Hh' Hr].
  assert (is_ok r = true) as Hr'.
  { apply Hr. eapply Forall_impl; [exact Hops|]. intros [] ?; auto. }
  destruct r as [b|e]; [|done]. rewrite (Hb b eq_refl). simpl in He. by exists w'.
Qed.

Lemma etcd_op_of_lease kvl :
  Forall (λ o, match o with OpPut _ _ l => l = 0%Z | OpDelete _ => True end) (omap etcd_op_of kvl).
Proof.
  apply Forall_forall. intros o (kv & _ & Ho)%list_elem_of_omap. unfold etcd_op_of in Ho.
  repeat case_decide; by simplify_eq.
Qed.
Lemma AtomicMultiKVOp_spec fuel lockId kvl rec w :
  healthy w → (∀ w, cli_Sleep w = w) → kvs w !! lockId = None →
  Forall (λ kv, Key kv ≠ lockId) kvl →
  ∃ rec' w', AtomicMultiKVOp (S fuel) lockId kvl rec w = Some (Ok tt, rec', w') ∧
    kvs w' = foldl apply_op (kvs w) (omap etcd_op_of kvl) ∧
    rec' = delete lockId rec ∧ live w' = live w ∧ healthy w'.
Proof.
  intros Hh Hsleep Hfree Hkeys. unfold AtomicMultiKVOp, Lock.
  pose proof (law_Grant 10 w) as L. destruct (cli_Grant 10 w) as [r w1].
  destruct L as (Hk1 & Hg & _ & Hok). destruct (Hok Hh) as [Hh1 Hr].
  destruct r as [id|e]; [|done]. destruct (Hg id eq_refl) as (Hid0 & Hnl & Hl1 & Hnew).
  destruct (tryLock_free id lockId w1) as (w2 & Ht & Hh2 & Hl2 & Hk2);
    [done|rewrite Hl1; set_solver|by rewrite Hk1|].
  simpl. rewrite Ht, Hsleep. simpl.
  destruct (Txn_healthy (omap etcd_op_of kvl) w2 Hh2 (etcd_op_of_lease kvl))
    as (w3 & -> & Hh3 & Hl3 & Hk3).
  unfold UnLock. rewrite lookup_insert_eq.
  destruct (Revoke_healthy id w3) as (w4 & -> & Hh4 & Hl4 & Hk4);
    [done|rewrite Hl3, Hl2, Hl1; set_solver|].
  do 2 eexists. split; [done|]. split_and!; [|by rewrite delete_insert_eq| |done].
  - rewrite Hk4, Hk3, Hk2, Hk1. apply apply_ops_frame; [done|done|done|].
    apply Forall_forall. intros o (kv & Hkv & Ho)%list_elem_of_omap.
    rewrite Forall_forall in Hkeys. specialize (Hkeys kv Hkv). unfold etcd_op_of in Ho.
    repeat case_decide; by simplify_eq.
  - rewrite Hl4, Hl3, Hl2, Hl1. set_solver.
Qed.
End facts.
End EtcdFacts.

(** ** Theorems about lib/etcd *)
Module EtcdTheorems.
Import Etcd EtcdFacts.
Section theorems.
Context {W : Type} `{EtcdLaws W}.

(** [AtomicMultiKVOp] on a healthy service whose lock key is free: one
    attempt takes the lock, all operations are applied in order, the lock key
    and the lock record are gone afterwards, and nothing else changes. *)
Theorem AtomicMultiKVOp_applies fuel lockId kvl rec w :
  healthy w → (∀ w, cli_Sleep w = w) → kvs w !! lockId = None →
  Forall (λ kv, Key kv ≠ lockId) kvl →
  ∃ rec' w', AtomicMultiKVOp (S fuel) lockId kvl rec w = Some (Ok tt, rec', w') ∧
    kvs w' = foldl apply_op (kvs w) (omap etcd_op_of kvl) ∧
    rec' = delete lockId rec ∧ live w' = live w ∧ healthy w'.
Proof. apply AtomicMultiKVOp_spec. Qed.

(** [UnLock] never returns nil: also when it released the lock it answers
    "already unlocked". *)
Theorem UnLock_never_ok k rec (w : W) :
  ∃ e, (UnLock k rec w).1.1 = Err e.
Proof.
  unfold UnLock. destruct (rec !! k) as [id|]; [|by eexists].
  destruct (cli_Revoke id w) as [[]]; by eexists.
Qed.

(** [AtomicMultiKVOp] drops the error of [Lock].  When the lease of its own
    lock cannot be granted while another goroutine of the process holds the
    lock, it runs its operations all the same and then releases the other
    goroutine's lock: the lock key disappears. *)
Theorem AtomicMultiKVOp_breaks_lock fuel lockId kvl rec id e (w w1 : W) :
  cli_Grant 10 w = (Err e, w1) → healthy w1 →
  rec !! lockId = Some id → id ∈ live w → id ≠ 0%Z →
  kvs w !! lockId = Some (GoStr.Itoa id, id) →
  Forall (λ kv, Key kv ≠ lockId) kvl →
  ∃ rec' w', AtomicMultiKVOp fuel lockId kvl rec w = Some (Ok tt, rec', w') ∧
    kvs w' !! lockId = None ∧ (id ∉ live w') ∧
    kvs w' = filter (λ p : string * (string * Z), p.2.2 ≠ id)
               (foldl apply_op (kvs w) (omap etcd_op_of kvl)).
Proof.
  intros Hg Hh1 Hrec Hid Hid0 Hheld Hkeys. unfold AtomicMultiKVOp, Lock. rewrite Hg.
  pose proof (law_Grant 10 w) as L. rewrite Hg in L. destruct L as (Hk1 & _ & Hl & _).
  destruct (Txn_healthy (omap etcd_op_of kvl) w1 Hh1 (etcd_op_of_lease kvl))
    as (w3 & -> & Hh3 & Hl3 & Hk3).
  unfold UnLock. rewrite Hrec.
  destruct (Revoke_healthy id w3) as (w4 & -> & Hh4 & Hl4 & Hk4);
    [done|rewrite Hl3; by apply (Hl e)|].
  do 2 eexists. split; [done|]. rewrite Hk4, Hk3, Hk1. split_and!; [|rewrite Hl4; set_solver|done].
  apply map_lookup_filter_None. right. intros [v l] Hl'. simpl.
  assert (foldl apply_op (kvs w) (omap etcd_op_of kvl) !! lockId = kvs w !! lockId) as Hsame;
    [|rewrite Hsame, Hheld in Hl'; naive_solver].
  clear -Hkeys. revert Hkeys. generalize (kvs w).
  induction kvl as [|kv kvl IH]; intros m Hk; [done|]. apply Forall_cons in Hk as [Hkv Hk].
  csimpl. unfold etcd_op_of at 1. repeat case_decide; csimpl; rewrite IH by done; simpl.
  - by rewrite lookup_insert_ne.
  - by rewrite lookup_delete_ne.
  - done.
Qed.
End theorems.

(** *** Witnesses *)
Import MemEtcd.
Definition ex_kvl : list KV :=
  [MkKV OP_PUT "/mysh/dash/uid/u/endpoint" "e2"; MkKV OP_DEL "/mysh/dash/endpoint/e1/uids/u" "";
   MkKV OP_PUT "/mysh/dash/endpoint/e2/uids/u" ""].
Definition ex_store : MemEtcd.mem :=
  MemEtcd.Mem {["/mysh/dash/uid/u/endpoint" := ("e1", 0%Z);
                "/mysh/dash/endpoint/e1/uids/u" := ("", 0%Z)]} ∅ [].
(** The lock is held by another goroutine, and the next call fails. *)
Definition ex_locked : MemEtcd.mem :=
  MemEtcd.Mem {["/mysh/dash/eplock" := ("7", 7%Z)]} {[7%Z]} [MemEtcd.FDrop].

Lemma AtomicMultiKVOp_applies_witness :
  ∃ rec' w', AtomicMultiKVOp 1 "/mysh/dash/eplock" ex_kvl ∅ ex_store = Some (Ok tt, rec', w') ∧
    kvs w' = foldl apply_op (kvs ex_store) (omap etcd_op_of ex_kvl) ∧
    rec' = delete "/mysh/dash/eplock" (∅ : gmap string Z) ∧ live w' = live ex_store ∧ healthy w'.
Proof.
  apply AtomicMultiKVOp_applies; [reflexivity|done|reflexivity|repeat constructor; discriminate].
Defined.

Lemma AtomicMultiKVOp_breaks_lock_witness :
  ∃ rec' w', AtomicMultiKVOp 5 "/mysh/dash/eplock" ex_kvl {["/mysh/dash/eplock" := 7%Z]} ex_locked
      = Some (Ok tt, rec', w') ∧
    kvs w' !! "/mysh/dash/eplock" = None ∧ (7%Z ∉ live w') ∧
    kvs w' = filter (λ p : string * (string * Z), p.2.2 ≠ 7%Z)
               (foldl apply_op (kvs ex_locked) (omap etcd_op_of ex_kvl)).
Proof.
  eapply AtomicMultiKVOp_breaks_lock;
    [vm_compute; reflexivity|reflexivity|reflexivity|set_solver|done|reflexivity|].
  repeat constructor; discriminate.
Defined.
End EtcdTheorems.
