(* ===== verification/Elect.v ===== *)
(** * lib/etcd/etcd.go: the election of a leader

    Module [Elect] is [electorInfo], [IsLeader], [GetElectorID] and the loop of
    [Elect]; [Electors] is the system of processes that elect on one key of one
    service, with leases that expire between their calls. *)

From S2P Require Import Prelude GoStr Json JsonObj Etcd.
Import JsonObj.
#[local] Open Scope Z_scope.

(** The key of the dash leader and the address of a dash, from cons/cons.go. *)
Definition DashLeaderKey : string := "/mysh/dash/leader".
Definition DashAddr : string := ":8082".

Record electorInfo := MkElector { ElectorID : string; TTL : Z; ElectTime : time; LeaseID : Z }.

Module Elect.
(** [json.Marshal] of the struct. *)
Definition member (name : string) (v : list Z) : list Z := 34 :: bytes_of name ++ 34 :: 58 :: v.
#[global] Arguments member : simpl never.
Definition marshal (e : electorInfo) : option (list Z) :=
  t ← time_text (ElectTime e);
  Some (123 :: member "ElectorID" (Json.encode_string (bytes_of (ElectorID e))) ++
    44 :: member "TTL" (bytes_of (GoStr.Itoa (TTL e))) ++
    44 :: member "ElectTime" t ++
    44 :: member "LeaseID" (bytes_of (GoStr.Itoa (LeaseID e))) ++ [125]).
(** [electorInfo.String] *)
Definition info_String (e : electorInfo) : string :=
  match marshal e with None => "" | Some b => string_of b end.
(** [leader.ElectorID] after [json.Unmarshal(leaderInfo, &leader)], whose error
    is dropped. *)
Definition leader_ID (leaderInfo : string) : string := string_field "ElectorID" leaderInfo.

Section elect.
Context {W : Type} `{EtcdClient W}.

Definition IsLeader (electKey electorID : string) (w : W) : result bool * W :=
  match Etcd.GetKV electKey w with
  | (Err e, w) => (Err e, w)
  | (Ok leaderInfo, w) => (Ok (bool_decide (leader_ID leaderInfo = electorID)), w)
  end.
Definition GetElectorID (electKey : string) (w : W) : result string * W :=
  match Etcd.GetKV electKey w with
  | (Err e, w) => (Err e, w)
  | (Ok leaderInfo, w) => (Ok (leader_ID leaderInfo), w)
  end.

(** One round of the loop, at the time [now]; the error of [KeepAliveOnce] and
    the answer of the transaction are dropped. *)
Definition elect_round (electKey electorID : string) (ttl lease : Z) (now : time) (w : W)
    : result unit * W :=
  let w := cli_Sleep w in
  let '(_, w) := cli_KeepAlive lease w in
  let elector := MkElector electorID ttl now lease in
  match cli_Txn (Some electKey) [OpPut electKey (info_String elector) lease] w with
  | (Err e, w) => (Err e, w)
  | (Ok _, w) => (Ok tt, w)
  end.
(** The loop reads the clock once a round: [None] when it has not returned after
    the rounds at [nows]. *)
Fixpoint elect_loop (nows : list time) (electKey electorID : string) (ttl lease : Z) (w : W)
    : option (error * W) :=
  match nows with
  | [] => None
  | now :: nows =>
    match elect_round electKey electorID ttl lease now w with
    | (Err e, w) => Some (e, w)
    | (Ok _, w) => elect_loop nows electKey electorID ttl lease w
    end
  end.
Definition Elect (nows : list time) (electKey electorID : string) (ttl : Z) (w : W)
    : option (error * W) :=
  match cli_Grant ttl w with
  | (Err e, w) => Some (e, w)
  | (Ok lease, w) => elect_loop nows electKey electorID ttl lease w
  end.
End elect.

Definition ex_info : electorInfo := MkElector DashAddr 3 (Time 2018 11 5 9 3 7 120000000 480) 17.
Example String_ex : info_String ex_info = string_of (123 :: 34 :: bytes_of "ElectorID" ++ 34 :: 58 :: 34 ::
    bytes_of ":8082" ++ 34 :: 44 :: 34 :: bytes_of "TTL" ++ 34 :: 58 :: 51 :: 44 :: 34 ::
    bytes_of "ElectTime" ++ 34 :: 58 :: 34 :: bytes_of "2018-11-05T09:03:07.12+08:00" ++
    34 :: 44 :: 34 :: bytes_of "LeaseID" ++ 34 :: 58 :: bytes_of "17}") ∧
  leader_ID (info_String ex_info) = ":8082".
Proof. vm_compute. done. Qed.
End Elect.

(** ** What is written is read *)
Module ElectFacts.
Import Elect.

Ltac solve_plain := apply plain_check; vm_compute; reflexivity.

Lemma members_more fuel name s x s1 : Forall plain (bytes_of name) →
  value fuel s = Some (x, 44 :: s1) →
  members (S fuel) (member name s) = '(l, s) ← members fuel s1; Some ((bytes_of name, x) :: l, s).
Proof. intros Hn Hv. unfold member. by rewrite (members_cons _ _ _ _ _ Hn Hv). Qed.
Lemma members_last fuel name s x s1 : Forall plain (bytes_of name) →
  value fuel s = Some (x, 125 :: s1) →
  members (S fuel) (member name s) = Some ([(bytes_of name, x)], s1).
Proof. intros Hn Hv. unfold member. by rewrite (members_cons _ _ _ _ _ Hn Hv). Qed.
Lemma member_app name v s : member name v ++ s = member name (v ++ s).
Proof. unfold member. cbn [app]. by rewrite <- app_assoc. Qed.

Lemma value_object fuel name v l :
  members fuel (member name v) = Some (l, []) →
  value (S fuel) (123 :: member name v) = Some (JObject l, []).
Proof.
  intros Hm. cbn [value]. rewrite skip_ws_plain by done. unfold member in *.
  rewrite skip_ws_plain by done. by rewrite Hm.
Qed.

(** The members [Elect] writes. *)
Lemma members_info fuel id ttl t lease : Forall plain t →
  members (S (S (S (S (S fuel)))))
    (member "ElectorID" (Json.encode_string (bytes_of id) ++
     44 :: member "TTL" (bytes_of (GoStr.Itoa ttl) ++
     44 :: member "ElectTime" (34 :: t ++ 34 ::
     44 :: member "LeaseID" (bytes_of (GoStr.Itoa lease) ++ [125]))))) =
  Some ([(bytes_of "ElectorID", JString (Json.sanitize (bytes_of id)));
         (bytes_of "TTL", JNumber (bytes_of (GoStr.Itoa ttl)));
         (bytes_of "ElectTime", JString t);
         (bytes_of "LeaseID", JNumber (bytes_of (GoStr.Itoa lease)))], []).
Proof.
  intros Ht.
  erewrite members_more; [|solve_plain|apply value_string, bytes_of_range].
  erewrite members_more; [|solve_plain|apply value_number; left; reflexivity].
  erewrite members_more; [|solve_plain|apply value_text, Ht].
  erewrite members_last; [|solve_plain|apply value_number; right; reflexivity].
  reflexivity.
Qed.

Lemma parse_marshal e b : marshal e = Some b →
  parse b = Some (JObject [(bytes_of "ElectorID", JString (Json.sanitize (bytes_of (ElectorID e))));
    (bytes_of "TTL", JNumber (bytes_of (GoStr.Itoa (TTL e))));
    (bytes_of "ElectTime", JString (time_body (ElectTime e)));
    (bytes_of "LeaseID", JNumber (bytes_of (GoStr.Itoa (LeaseID e))))]).
Proof.
  unfold marshal, time_text. destruct (year_ok (ElectTime e)); [|done]. cbn [mbind option_bind].
  intros Heq%(inj Some). subst b. rewrite !member_app. cbn [app]. rewrite <- !app_assoc. cbn [app].
  pose proof (time_plain (ElectTime e)) as Ht. revert Ht.
  generalize (time_body (ElectTime e)), (ElectorID e), (TTL e), (LeaseID e). clear e.
  intros t id ttl lease Ht.
  pose proof (λ fuel, members_info fuel id ttl t lease Ht) as Hm. unfold parse.
  match goal with |- context [value (S ?n) _] =>
    assert (∃ f, n = S (S (S (S (S f))))) as [f ->] end.
  { match goal with |- ∃ f, (2 * length (_ :: member ?a ?v))%nat = _ =>
      assert (3 ≤ length (member a v))%nat as Hl by (unfold member; simpl length; lia);
      revert Hl; generalize (member a v); intros m Hl; exists (2 * S (length m) - 5)%nat end.
    cbn [length]. lia. }
  rewrite (value_object _ _ _ _ (Hm f)). reflexivity.
Qed.

Lemma plain_bytes l : Forall plain l → Forall is_byte l.
Proof. intros Hl. apply (Forall_impl _ _ _ Hl). unfold plain, is_byte. lia. Qed.
Lemma member_byte name v : Forall is_byte v → Forall is_byte (member name v).
Proof.
  intros Hv. unfold member. repeat (rewrite Forall_cons || rewrite Forall_app).
  split_and!; [unfold is_byte; lia|apply bytes_of_range|unfold is_byte; lia..|done].
Qed.
Lemma info_marshal_byte e b : marshal e = Some b → Forall is_byte b.
Proof.
  unfold marshal, time_text. destruct (year_ok (ElectTime e)); [|done]. cbn [mbind option_bind].
  intros Heq%(inj Some). subst b.
  assert (Forall is_byte [34] ∧ Forall is_byte [125]) as [? ?]
    by (split; repeat constructor; unfold is_byte; lia).
  repeat (rewrite Forall_app || rewrite Forall_cons).
  split_and!; try (unfold is_byte; lia); try apply member_byte; auto using bytes_of_range.
  - unfold Json.encode_string. rewrite Forall_cons, Forall_app.
    split_and!; [unfold is_byte; lia|apply Json.encode_body_byte, bytes_of_range|done].
  - rewrite Forall_cons, Forall_app. split_and!; [unfold is_byte; lia|apply plain_bytes, time_plain|done].
Qed.

(** What an elector writes names it, as JSON coerces its name to UTF-8. *)
Lemma leader_ID_String e : year_ok (ElectTime e) = true →
  leader_ID (info_String e) = Json.Coerce (ElectorID e).
Proof.
  intros Hy. unfold leader_ID, string_field, info_String.
  destruct (marshal e) as [b|] eqn:Hm.
  2:{ unfold marshal, time_text in Hm. by rewrite Hy in Hm. }
  rewrite bytes_of_string_of by (by eapply info_marshal_byte). rewrite (parse_marshal e b Hm).
  reflexivity.
Qed.
(** [IsLeader] is a read of the key. *)
Lemma IsLeader_world {W} `{EtcdClient W} key id (w : W) :
  (Elect.IsLeader key id w).2 = (Etcd.GetKV key w).2.
Proof. unfold Elect.IsLeader. by destruct (Etcd.GetKV key w) as [[v|e] w']. Qed.
End ElectFacts.

(** ** The electors of a key

    Processes that run [Elect] on one key.  [granted] records which lease was
    granted to which elector id; the service does not grant an id twice.  Time
    passes in steps of its own: leases expire, and other clients use other
    keys. *)
Record electors (W : Type) := Electors
  { running : gmap nat (string * Z); granted : gmap Z string; service : W }.
Arguments Electors {W} _ _ _.
Arguments running {W} _.
Arguments granted {W} _.
Arguments service {W} _.

Module Electors.
Import Elect ElectFacts.
Section electors.
Context {W : Type} `{EtcdLaws W}.
Context (key : string) (ttl : Z).
Implicit Types (s : electors W) (w : W).

(** Some leases end, and the keys attached to them go. *)
Definition expire w w' : Prop :=
  live w' ⊆ live w ∧
  ∀ k, kvs w' !! k = match kvs w !! k with
    | Some (v, l) => if decide (l ∈ live w ∧ l ∉ live w') then None else Some (v, l)
    | None => None
    end.

Inductive step : electors W → electors W → Prop :=
  | step_start R G w p id l w' :
      R !! p = None → G !! l = None → cli_Grant ttl w = (Ok l, w') →
      step (Electors R G w) (Electors (<[p := (id, l)]> R) (<[l := id]> G) w')
  | step_round R G w p id l t w' :
      R !! p = Some (id, l) → year_ok t = true → elect_round key id ttl l t w = (Ok tt, w') →
      step (Electors R G w) (Electors R G w')
  | step_return R G w p id l t e w' :
      R !! p = Some (id, l) → year_ok t = true → elect_round key id ttl l t w = (Err e, w') →
      step (Electors R G w) (Electors (delete p R) G w')
  | step_expire R G w w' : expire w w' → step (Electors R G w) (Electors R G w')
  | step_other R G w w' :
      kvs w' !! key = kvs w !! key → live w ⊆ live w' →
      (∀ l, l ∈ live w' → l ∈ live w ∨ G !! l = None) →
      step (Electors R G w) (Electors R G w').

(** While an elector sleeps nothing happens but steps. *)
Hypothesis no_sleep : ∀ w, cli_Sleep w = w.

Record inv s : Prop := {
  inv_running p id l : running s !! p = Some (id, l) → granted s !! l = Some id ∧ l ≠ 0;
  inv_key v l : kvs (service s) !! key = Some (v, l) → l ∈ live (service s) ∧
    ∃ id t, granted s !! l = Some id ∧ year_ok t = true ∧ v = info_String (MkElector id ttl t l);
}.

(** A round writes the key only if it is free and the lease lives. *)
Lemma round_spec id l t w r w' : elect_round key id ttl l t w = (r, w') → l ≠ 0 →
  live w' = live w ∧
  (kvs w' = kvs w ∨
   (kvs w !! key = None ∧ l ∈ live w ∧
    kvs w' = <[key := (info_String (MkElector id ttl t l), l)]> (kvs w))).
Proof.
  unfold elect_round. rewrite no_sleep. pose proof (law_KeepAlive l w) as L.
  destruct (cli_KeepAlive l w) as [r1 w1]. destruct L as (Hl1 & Hk1 & _). intros Hr Hl0.
  set (ops := [OpPut key (info_String (MkElector id ttl t l)) l]) in *.
  pose proof (law_Txn (Some key) ops w1) as L.
  pose proof (λ H1 H2, law_Txn_lease (Some key) key (info_String (MkElector id ttl t l)) l w1 Hl0 H1 H2) as L'.
  fold ops in L'. destruct (cli_Txn (Some key) ops w1) as [r2 w2].
  destruct L as (Hl2 & [_ He] & _). unfold effect in He.
  assert (w' = w2) as -> by (destruct r2; by injection Hr as _ ->).
  rewrite Hl2, Hl1, Hk1 in *. split; [done|].
  case_bool_decide as Hfree; [|left; destruct r2; [exact He|by destruct He]].
  destruct (decide (l ∈ live w)) as [Hlive|Hdead].
  - destruct r2; [by right|]. destruct He; [by left|by right].
  - destruct (L' Hdead Hfree) as (_ & -> & _). by left.
Qed.

Lemma step_inv s s' : step s s' → inv s → inv s'.
Proof.
  intros Hstep [Hrun Hkey]. destruct Hstep as
    [R G w p id l w' Hp Hl Hgr|R G w p id l t w' Hp Ht Hr|R G w p id l t e w' Hp Ht Hr|
     R G w w' [Hl Hk]|R G w w' Hk Hl Hn]; simpl in *.
  - pose proof (law_Grant ttl w) as L. rewrite Hgr in L. destruct L as (Hkv & Hok & _).
    destruct (Hok l eq_refl) as (Hl0 & _ & Hlive & _). split; simpl.
    + intros p' id' l'. rewrite lookup_insert_Some.
      intros [[-> [= -> ->]]|[Hne Hp']]; [by rewrite lookup_insert_eq|].
      destruct (Hrun _ _ _ Hp') as [Hg ?]. rewrite lookup_insert_ne by congruence. done.
    + intros v l'. rewrite Hkv, Hlive. intros Hv. destruct (Hkey _ _ Hv) as (? & id' & t & Hg & ?).
      split; [set_solver|]. exists id', t. rewrite lookup_insert_ne by congruence. done.
  - destruct (Hrun _ _ _ Hp) as [Hg Hl0]. destruct (round_spec _ _ _ _ _ _ Hr Hl0) as [Hl [Hk|(_ & Hlive & Hk)]].
    + split; simpl; [done|]. by rewrite Hl, Hk.
    + split; simpl; [done|]. rewrite Hl, Hk. intros v l'. rewrite lookup_insert_eq.
      intros [= <- <-]. split; [done|]. by exists id, t.
  - destruct (Hrun _ _ _ Hp) as [Hg Hl0].
    assert (∀ p' id' l', delete p R !! p' = Some (id', l') → G !! l' = Some id' ∧ l' ≠ 0) as Hrun'.
    { intros p' id' l' [_ Hp']%lookup_delete_Some. eauto. }
    destruct (round_spec _ _ _ _ _ _ Hr Hl0) as [Hl [Hk|(_ & Hlive & Hk)]].
    + split; simpl; [done|]. by rewrite Hl, Hk.
    + split; simpl; [done|]. rewrite Hl, Hk. intros v l'. rewrite lookup_insert_eq.
      intros [= <- <-]. split; [done|]. by exists id, t.
  - split; simpl; [done|]. intros v l. rewrite Hk.
    destruct (kvs w !! key) as [[v' l']|] eqn:Hv; [|done]. case_decide as Hd; [done|].
    intros [= -> ->]. destruct (Hkey _ _ eq_refl) as [Hlive Hw]. split; [|done].
    destruct (decide (l ∈ live w')); [done|]. tauto.
  - split; simpl; [done|]. intros v l. rewrite Hk. intros Hv. destruct (Hkey _ _ Hv) as [Hlive Hw].
    split; [by apply Hl|done].
Qed.
Lemma elect_reach_inv w0 s : kvs w0 !! key = None → rtc step (Electors ∅ ∅ w0) s → inv s.
Proof.
  intros Hfree Hs. assert (inv (Electors ∅ ∅ w0)) as Hi.
  { split; simpl; [intros p id l; by rewrite lookup_empty|]. intros v l. by rewrite Hfree. }
  clear Hfree. induction Hs; eauto using step_inv.
Qed.

(** The leases of electors do not come back. *)
Lemma step_granted s s' l id : step s s' → granted s !! l = Some id → granted s' !! l = Some id.
Proof. destruct 1; simpl; try done. intros Hl. rewrite lookup_insert_ne; congruence. Qed.
Lemma step_live s s' l id : step s s' → inv s → granted s !! l = Some id →
  l ∈ live (service s') → l ∈ live (service s).
Proof.
  intros Hstep [Hrun _] Hg. destruct Hstep as
    [R G w p id' l' w' Hp Hl Hgr|R G w p id' l' t w' Hp Ht Hr|R G w p id' l' t e w' Hp Ht Hr|
     R G w w' [Hl Hk]|R G w w' Hk Hl Hn]; simpl in *.
  - pose proof (law_Grant ttl w) as L. rewrite Hgr in L. destruct L as (_ & Hok & _).
    destruct (Hok l' eq_refl) as (_ & _ & -> & _). rewrite elem_of_union, elem_of_singleton.
    intros [->|?]; [congruence|done].
  - destruct (Hrun _ _ _ Hp) as [_ Hl0]. by destruct (round_spec _ _ _ _ _ _ Hr Hl0) as [-> _].
  - destruct (Hrun _ _ _ Hp) as [_ Hl0]. by destruct (round_spec _ _ _ _ _ _ Hr Hl0) as [-> _].
  - apply Hl.
  - intros Hlive. destruct (Hn _ Hlive) as [?|?]; [done|congruence].
Qed.
(** The leader's key stays while its lease lives. *)
Lemma step_stable s s' v l : step s s' → inv s → kvs (service s) !! key = Some (v, l) →
  l ∈ live (service s') → kvs (service s') !! key = Some (v, l).
Proof.
  intros Hstep [Hrun Hkey] Hv. destruct Hstep as
    [R G w p id' l' w' Hp Hl Hgr|R G w p id' l' t w' Hp Ht Hr|R G w p id' l' t e w' Hp Ht Hr|
     R G w w' [Hl Hk]|R G w w' Hk Hl Hn]; simpl in *.
  - pose proof (law_Grant ttl w) as L. rewrite Hgr in L. by destruct L as (-> & _).
  - destruct (Hrun _ _ _ Hp) as [_ Hl0].
    destruct (round_spec _ _ _ _ _ _ Hr Hl0) as [_ [->|(? & _)]]; [done|congruence].
  - destruct (Hrun _ _ _ Hp) as [_ Hl0].
    destruct (round_spec _ _ _ _ _ _ Hr Hl0) as [_ [->|(? & _)]]; [done|congruence].
  - intros Hlive. rewrite Hk, Hv. rewrite decide_False; [done|]. tauto.
  - by rewrite Hk.
Qed.
Lemma reach_live s s' l id : rtc step s s' → inv s → granted s !! l = Some id →
  l ∈ live (service s') → l ∈ live (service s).
Proof.
  induction 1 as [s|s s1 s' Hstep Hsteps IH]; [done|]. intros Hi Hg Hlive.
  eapply step_live; [done..|]. apply IH; eauto using step_inv, step_granted.
Qed.
Lemma reach_stable s s' v l id : rtc step s s' → inv s → granted s !! l = Some id →
  kvs (service s) !! key = Some (v, l) → l ∈ live (service s') →
  kvs (service s') !! key = Some (v, l).
Proof.
  induction 1 as [s|s s1 s' Hstep Hsteps IH]; [done|]. intros Hi Hg Hv Hlive.
  pose proof (step_granted _ _ _ _ Hstep Hg) as Hg1. pose proof (step_inv _ _ Hstep Hi) as Hi1.
  apply IH; [done..| |done]. eapply step_stable; [done..|]. by eapply reach_live.
Qed.

(** What the readers of the key are told. *)
Lemma IsLeader_reads id w b w' : IsLeader key id w = (Ok b, w') →
  ∃ v l, kvs w !! key = Some (v, l) ∧ b = bool_decide (leader_ID v = id).
Proof.
  unfold IsLeader, Etcd.GetKV. pose proof (law_Get key w) as L.
  destruct (cli_Get key w) as [[[v|]|e] w1]; [|done..]. destruct L as (_ & _ & Ho & _).
  intros [= <- _]. specialize (Ho _ eq_refl).
  destruct (kvs w !! key) as [[v' l]|] eqn:Hv; [|done]. injection Ho as ->. eauto.
Qed.
Lemma IsLeader_healthy id w v l : healthy w → kvs w !! key = Some (v, l) →
  ∃ w', IsLeader key id w = (Ok (bool_decide (leader_ID v = id)), w') ∧
    healthy w' ∧ kvs w' = kvs w ∧ live w' = live w.
Proof.
  intros Hh Hv. destruct (EtcdFacts.GetKV_healthy key w Hh) as (w' & Hget & ?).
  rewrite Hv in Hget. exists w'. unfold IsLeader. by rewrite Hget.
Qed.
(** A live elector wins a free key. *)
Lemma round_wins id l t w : healthy w → kvs w !! key = None → l ∈ live w → year_ok t = true →
  ∃ w', elect_round key id ttl l t w = (Ok tt, w') ∧ healthy w' ∧ live w' = live w ∧
    kvs w' = <[key := (info_String (MkElector id ttl t l), l)]> (kvs w).
Proof.
  intros Hh Hfree Hlive Ht. unfold elect_round. rewrite no_sleep.
  pose proof (law_KeepAlive l w) as L. destruct (cli_KeepAlive l w) as [r1 w1].
  destruct L as (Hl1 & Hk1 & Hh1). destruct (Hh1 Hh) as [Hh1' _].
  set (ops := [_]). pose proof (law_Txn (Some key) ops w1) as L.
  destruct (cli_Txn (Some key) ops w1) as [r2 w2]. destruct L as (Hl2 & [_ He] & Hh2).
  destruct (Hh2 Hh1') as [Hh2' Hok]. rewrite Hl1, Hk1 in *.
  rewrite bool_decide_eq_true_2 in He by done.
  destruct r2 as [b|e]; [by exists w2|].
  assert (false = true); [|done]. apply Hok. apply Forall_singleton. by right.
Qed.
End electors.
End Electors.

(** ** Theorems about the election *)
Module ElectTheorems.
Import Elect ElectFacts Electors.
Section theorems.
Context {W : Type} `{EtcdLaws W}.


(** An elector that was late once never leads again: when its lease has
    expired, its next round on a free key is an error, with which [Elect]
    returns, and the key never holds its lease again; the process goes on without
    an elector. *)
Theorem expired_elector_never_leads key ttl (w0 : W) s p id l t :
  (∀ w : W, cli_Sleep w = w) → kvs w0 !! key = None →
  rtc (step key ttl) (Electors ∅ ∅ w0) s → running s !! p = Some (id, l) →
  l ∉ live (service s) →
  (kvs (service s) !! key = None →
     ∃ e w', elect_round key id ttl l t (service s) = (Err e, w') ∧
       ∀ nows, elect_loop (t :: nows) key id ttl l (service s) = Some (e, w')) ∧
  ∀ s2 v, rtc (step key ttl) s s2 → kvs (service s2) !! key ≠ Some (v, l).
Proof.
  intros Hsleep Hfree Hs Hp Hdead. pose proof (elect_reach_inv key ttl Hsleep w0 s Hfree Hs) as Hi.
  destruct (inv_running _ _ _ Hi p id l Hp) as [Hg Hl0]. split.
  - intros Hk.
    assert (∃ e w', elect_round key id ttl l t (service s) = (Err e, w')) as (e & w' & Hr).
    { unfold elect_round. rewrite Hsleep. pose proof (law_KeepAlive l (service s)) as L.
      destruct (cli_KeepAlive l (service s)) as [r1 w1]. destruct L as (Hl1 & Hk1 & _).
      pose proof (law_Txn_lease (Some key) key (info_String (MkElector id ttl t l)) l w1 Hl0) as L.
      rewrite Hl1, Hk1 in L. specialize (L Hdead Hk).
      destruct (cli_Txn _ _ w1) as [r2 w2]. destruct L as ([e ->] & _). by exists e, w2. }
    exists e, w'. split; [done|]. intros nows. cbn [elect_loop]. by rewrite Hr.
  - intros s2 v Hs2 Hv. apply Hdead. apply (reach_live key ttl Hsleep s s2 l id Hs2 Hi Hg).
    assert (rtc (step key ttl) (Electors ∅ ∅ w0) s2) as Hs02 by (by etrans).
    by destruct (inv_key _ _ _ (elect_reach_inv key ttl Hsleep w0 s2 Hfree Hs02) v l Hv).
Qed.
End theorems.

(** *** Witnesses: one elector starts and wins the key; its lease expires *)
Import MemEtcd.
Definition ex_key : string := DashLeaderKey.
Definition ex_now : time := Time 2018 11 5 9 3 7 120000000 480.
Definition ex_w0 : mem := Mem ∅ ∅ [].
Definition ex_w1 : mem := (cli_Grant 3 ex_w0).2.
Definition ex_w2 : mem := (elect_round ex_key ":8082" 3 1 ex_now ex_w1).2.
Definition ex_w3 : mem := Mem ∅ ∅ [].
Definition ex_running : gmap nat (string * Z) := {[0%nat := (":8082", 1)]}.
Definition ex_granted : gmap Z string := {[1 := ":8082"]}.
Lemma ex_started : rtc (step ex_key 3) (Electors ∅ ∅ ex_w0) (Electors ex_running ex_granted ex_w1).
Proof. apply rtc_once. by apply (step_start ex_key 3 ∅ ∅ ex_w0 0 ":8082" 1 ex_w1). Qed.
Lemma ex_elected : rtc (step ex_key 3) (Electors ∅ ∅ ex_w0) (Electors ex_running ex_granted ex_w2).
Proof.
  eapply rtc_r; [exact ex_started|].
  apply (step_round ex_key 3 ex_running ex_granted ex_w1 0 ":8082" 1 ex_now ex_w2); vm_compute; reflexivity.
Qed.
Lemma ex_expired : rtc (step ex_key 3) (Electors ∅ ∅ ex_w0) (Electors ex_running ex_granted ex_w3).
Proof.
  eapply rtc_r; [exact ex_started|]. apply step_expire. split; [simpl; set_solver|].
  intros k. simpl. by rewrite !lookup_empty.
Qed.
Lemma expired_elector_never_leads_witness :
  (kvs ex_w3 !! ex_key = None →
     ∃ e w', elect_round ex_key ":8082" 3 1 ex_now ex_w3 = (Err e, w') ∧
       ∀ nows, elect_loop (ex_now :: nows) ex_key ":8082" 3 1 ex_w3 = Some (e, w')) ∧
  ∀ s2 v, rtc (step ex_key 3) (Electors ex_running ex_granted ex_w3) s2 →
    kvs (service s2) !! ex_key ≠ Some (v, 1).
Proof.
  apply (expired_elector_never_leads ex_key 3 ex_w0 (Electors ex_running ex_granted ex_w3)
    0 ":8082" 1 ex_now); [reflexivity|reflexivity|exact ex_expired|reflexivity|].
  apply not_elem_of_empty.
Defined.
End ElectTheorems.
