(* ===== verification/EtcdCtl.v ===== *)
(** * lib/etcd/etcd.go: [Controller]

    The event loop of lib/etcd.  Nothing in the repository makes one: its channel
    is unexported and no constructor sets it, so the channel is an [option] here
    ([None]: nil).  A channel is what was sent and is not yet received, and whether
    it is closed. *)

From S2P Require Import Prelude.
#[local] Open Scope Z_scope.

Definition EVENT_ADD : Z := 0.
Definition EVENT_UPDATE : Z := 1.
Definition EVENT_DEL : Z := 2.
Record event := MkEvent { key : string; val : string; et : Z }.
Record chan (A : Type) := Chan { queue : list A; closed : bool }.
Arguments Chan {A} _ _.
Arguments queue {A} _.
Arguments closed {A} _.

Module EtcdCtl.
Section controller.
(** What the callbacks read and write. *)
Context {S : Type}.
Abbreviation callback := (event → S → outcome (result unit * S)).
Record Controller := MkController {
  ctl_key : string;
  withPrefix : bool;
  eventCh : option (chan event);
  AddFunc : callback;
  UpdateFunc : callback;
  DelFunc : callback;
}.

Definition Stop (c : Controller) : outcome Controller :=
  match eventCh c with
  | None => Panic "close of nil channel"
  | Some ch =>
      if closed ch then Panic "close of closed channel"
      else Done (MkController (ctl_key c) (withPrefix c) (Some (Chan (queue ch) true))
                   (AddFunc c) (UpdateFunc c) (DelFunc c))
  end.
(** The switch of the loop; the error of a callback is logged. *)
Definition deal (c : Controller) (e : event) (s : S) : outcome S :=
  let call (f : callback) := run (_, s) <- f e s ;; Done s in
  if decide (et e = EVENT_ADD) then call (AddFunc c)
  else if decide (et e = EVENT_UPDATE) then call (UpdateFunc c)
  else if decide (et e = EVENT_DEL) then call (DelFunc c)
  else Done s.
Fixpoint receive (c : Controller) (es : list event) (s : S) : outcome S :=
  match es with
  | [] => Done s
  | e :: es => run s <- deal c e s ;; receive c es s
  end.
(** The loop ends when the channel is closed and empty, and waits when it is only
    empty. *)
Definition Run (c : Controller) (s : S) : outcome S :=
  match eventCh c with
  | None => Block
  | Some ch => run s <- receive c (queue ch) s ;; if closed ch then Done s else Block
  end.
End controller.
Arguments Controller : clear implicits.
End EtcdCtl.

(** ** Theorems *)
Module EtcdCtlTheorems.
Import EtcdCtl.
Section theorems.
Context {S : Type}.
Implicit Types (c : Controller S) (es : list event) (s : S).

Lemma stopped_receive c ch es s :
  receive (MkController (ctl_key c) (withPrefix c) ch (AddFunc c) (UpdateFunc c) (DelFunc c)) es s = receive c es s.
Proof.
  revert s. induction es as [|e es IH]; intros s; [done|]. cbn [receive].
  match goal with |- (run _ <- ?d ;; _) = _ => change d with (deal c e s) end.
  destruct (deal c e s) as [t| |]; [apply IH|done|done].
Qed.
(** After [Stop] the loop handles what was sent before it, in order and each event
    by the callback of its type, whatever errors the callbacks return; then [Run]
    returns. *)
Theorem Run_after_Stop c ch (handle : event → S → S) s : eventCh c = Some ch → closed ch = false →
  (∀ e s, ∃ r, AddFunc c e s = Done (r, handle e s)) →
  (∀ e s, ∃ r, UpdateFunc c e s = Done (r, handle e s)) →
  (∀ e s, ∃ r, DelFunc c e s = Done (r, handle e s)) →
  (∀ e s, e ∈ queue ch → et e ∉ [EVENT_ADD; EVENT_UPDATE; EVENT_DEL] → handle e s = s) →
  ∃ c', Stop c = Done c' ∧ Run c' s = Done (foldl (λ s e, handle e s) s (queue ch)) ∧ Run c s = Block.
Proof.
  intros Hch Hop Ha Hu Hd Hn. set (c' := MkController (ctl_key c) (withPrefix c) (Some (Chan (queue ch) true))
    (AddFunc c) (UpdateFunc c) (DelFunc c)).
  assert (Hdeal : ∀ e s, e ∈ queue ch → deal c e s = Done (handle e s)).
  { intros e t He. unfold deal. repeat case_decide.
    - by destruct (Ha e t) as [r ->].
    - by destruct (Hu e t) as [r ->].
    - by destruct (Hd e t) as [r ->].
    - rewrite Hn; [done|done|]. by intros [?|[?|[?|[]%elem_of_nil]%elem_of_cons]%elem_of_cons]%elem_of_cons. }
  assert (Hrec : ∀ es t, es ⊆ queue ch → receive c es t = Done (foldl (λ s e, handle e s) t es)).
  { induction es as [|e es IH]; intros t Hin; simpl; [done|].
    rewrite Hdeal by (apply Hin; by left). simpl. apply IH. intros x Hx. apply Hin. by right. }
  exists c'. unfold Stop, Run. rewrite Hch, Hop. split; [done|]. simpl.
  unfold c'. rewrite stopped_receive, Hrec by done. by simpl.
Qed.
End theorems.
End EtcdCtlTheorems.
