(* ===== verification/Lru.v ===== *)
(** * lru/lru.go: the LRU cache

    Module [Lru] is the cache as the code has it: a map from the printed key to
    a list element and a linked list of elements, most recent first.  Module
    [LruSpec] is what it promises: a sequence of (key, value) pairs ordered by
    recency.  The refinement theorems relate every operation of the interface
    to the specification, and [run_refines] whole histories. *)

From S2P Require Import Prelude GoList.

(** ** Keys

    A key is an [interface{}]: the code prints it with [fmt.Sprint], asserts it
    to a [string] in [Filter] ([as_string]; [None] is the failed assertion),
    and stores the printed key back as a key ([of_string]). *)
Class GoKey (K : Type) := {
  sprint : K → string;
  as_string : K → option string;
  of_string : string → K;
  sprint_of_string s : sprint (of_string s) = s;
  as_string_of_string s : as_string (of_string s) = Some s;
  as_string_sprint k s : as_string k = Some s → sprint k = s;
}.

#[export] Program Instance string_key : GoKey string := {|
  sprint s := s; as_string s := Some s; of_string s := s;
|}.
Solve Obligations with naive_solver.

(** Two dynamic types a caller may pass: a string and an [int]. *)
Inductive iface := IString (s : string) | IInt (z : Z).
#[export] Program Instance iface_key : GoKey iface := {|
  sprint k := match k with IString s => s | IInt z => pretty z end;
  as_string k := match k with IString s => Some s | IInt _ => None end;
  of_string := IString;
|}.
Next Obligation. done. Qed.
Next Obligation. done. Qed.
Next Obligation. intros [k|z] s; simpl; congruence. Qed.

Record node (K V : Type) := Node { key : K; value : V }.
Arguments Node {K V} _ _.
Arguments key {K V} _.
Arguments value {K V} _.

Record lru (K V : Type) := MkLru {
  lru_m : gmap string nat;
  lru_l : dlist (node K V);
  capacity : Z;
}.
Arguments MkLru {K V} _ _ _.
Arguments lru_m {K V} _.
Arguments lru_l {K V} _.
Arguments capacity {K V} _.

Module Lru.
Section lru.
Context {K V : Type} `{GoKey K}.
Implicit Types c : lru K V.

(** Every element the cache links holds a [*node]; reading the value of a
    pointer that is not one is a panic. *)
Definition deref {A} (o : option A) : outcome A :=
  match o with Some a => Done a | None => Panic "nil pointer dereference" end.
Definition elem_node c (e : nat) : outcome (node K V) := deref (GoList.Value (lru_l c) e).

Definition NewLRU (cap : Z) : outcome (lru K V) :=
  if (cap <? 1)%Z then Panic "capacity num is invalid"
  else Done (MkLru ∅ GoList.New cap).

Fixpoint filter_loop c (f : string → V → bool) (es : list nat)
    (kList : list string) (vList : list V) : outcome (list string * list V) :=
  match es with
  | [] => Done (kList, vList)
  | e :: es =>
    run n <- elem_node c e ;;
    match as_string (key n) with
    | None => Panic "interface conversion"
    | Some k => if f k (value n)
        then filter_loop c f es (kList ++ [k]) (vList ++ [value n])
        else filter_loop c f es kList vList
    end
  end.
Definition Filter c (f : string → V → bool) : outcome (list string * list V) :=
  filter_loop c f (order (lru_l c)) [] [].

(** [for _, f := range evictionFuncs { f(v.value) }], with the state [W] the
    callbacks change. *)
Fixpoint run_evictions {W} (fs : list (V → W → outcome W)) (v : V) (w : W) : outcome W :=
  match fs with
  | [] => Done w
  | f :: fs => run w <- f v w ;; run_evictions fs v w
  end.

Definition Add {W} c (k : K) (v : V) (evictionFuncs : list (V → W → outcome W)) (w : W)
    : outcome (bool * lru K V * W) :=
  let keyString := sprint k in
  match lru_m c !! keyString with
  | Some item =>
    let l := GoList.SetValue (lru_l c) item (Node (of_string keyString) v) in
    Done (false, MkLru (lru_m c) (GoList.MoveToFront l item) (capacity c), w)
  | None =>
    run (evicted, c, w) <-
      (if (Z.of_nat (GoList.Len (lru_l c)) =? capacity c)%Z then
        run lastNode <- deref (GoList.Back (lru_l c)) ;;
        let c := MkLru (lru_m c) (GoList.Remove (lru_l c) lastNode) (capacity c) in
        run vn <- elem_node c lastNode ;;
        run w <- run_evictions evictionFuncs (value vn) w ;;
        Done (true, MkLru (delete (sprint (key vn)) (lru_m c)) (lru_l c) (capacity c), w)
      else Done (false, c, w)) ;;
    let '(e, l) := GoList.PushFront (lru_l c) (Node k v) in
    Done (evicted, MkLru (<[keyString := e]> (lru_m c)) l (capacity c), w)
  end.

Definition commonGet c (k : K) (peek : bool) : outcome (option V * lru K V) :=
  if decide (GoList.Len (lru_l c) = 0) then Done (None, c) else
  match lru_m c !! sprint k with
  | Some e =>
    run vn <- elem_node c e ;;
    if negb peek && (1 <? GoList.Len (lru_l c)) then
      run front <- deref (GoList.Front (lru_l c)) ;;
      Done (Some (value vn),
            MkLru (lru_m c) (GoList.MoveBefore (lru_l c) e front) (capacity c))
    else Done (Some (value vn), c)
  | None => Done (None, c)
  end.

Definition Get c (k : K) : outcome (option V * lru K V) := commonGet c k false.
Definition Contains c (k : K) : outcome (bool * lru K V) :=
  run (v, c) <- Get c k ;; Done (bool_decide (is_Some v), c).
Definition Peek c (k : K) : outcome (option V * lru K V) := commonGet c k true.

Definition Remove c (k : K) : bool * lru K V :=
  if decide (GoList.Len (lru_l c) = 0) then (false, c) else
  match lru_m c !! sprint k with
  | Some e => (true, MkLru (delete (sprint k) (lru_m c)) (GoList.Remove (lru_l c) e) (capacity c))
  | None => (false, c)
  end.

Definition RemoveOldest c : outcome (option (K * V) * lru K V) :=
  if decide (GoList.Len (lru_l c) = 0) then Done (None, c) else
  run tail <- deref (GoList.Back (lru_l c)) ;;
  run tailNode <- elem_node c tail ;;
  Done (Some (key tailNode, value tailNode),
        MkLru (delete (sprint (key tailNode)) (lru_m c)) (GoList.Remove (lru_l c) tail)
              (capacity c)).

Definition GetOldest c : outcome (option (K * V)) :=
  if decide (GoList.Len (lru_l c) = 0) then Done None else
  run tail <- deref (GoList.Back (lru_l c)) ;;
  run tailNode <- elem_node c tail ;;
  Done (Some (key tailNode, value tailNode)).

(** [Keys]: [res] starts with [Len] nil entries ([None]) and the loop appends
    the key of [head], which it never advances. *)
Fixpoint keys_loop c (head : option nat) (n : nat) (res : list (option K))
    : outcome (list (option K)) :=
  match n with
  | 0 => Done res
  | S n =>
    run e <- deref head ;;
    run nd <- elem_node c e ;;
    keys_loop c head n (res ++ [Some (key nd)])
  end.
Definition Keys c : outcome (list (option K)) :=
  keys_loop c (GoList.Front (lru_l c)) (GoList.Len (lru_l c))
    (replicate (GoList.Len (lru_l c)) None).

Definition Len c : nat := GoList.Len (lru_l c).
Definition Purge c : lru K V := MkLru ∅ GoList.New (capacity c).
End lru.
End Lru.

(** ** What the cache promises: pairs of printed key and value, most recent
    first, no key twice, at most [cap] of them. *)
Module LruSpec.
Section spec.
Context {V : Type}.
Implicit Types s : list (string * V).

Definition lookup s (k : string) : option V := (list_to_map s : gmap string V) !! k.
Definition remove (k : string) s : list (string * V) := filter (λ p, p.1 ≠ k) s.
(** The pair evicted, if any, and the new sequence. *)
Definition add (cap : Z) (k : string) (v : V) s : option (string * V) * list (string * V) :=
  match lookup s k with
  | Some _ => (None, (k, v) :: remove k s)
  | None => if (Z.of_nat (length s) =? cap)%Z
      then (last s, (k, v) :: removelast s)
      else (None, (k, v) :: s)
  end.
Definition touch (k : string) s : list (string * V) :=
  match lookup s k with Some v => (k, v) :: remove k s | None => s end.

Record wf (cap : Z) s : Prop := {
  wf_keys : NoDup s.*1;
  wf_cap : (1 ≤ cap)%Z;
  wf_len : (Z.of_nat (length s) ≤ cap)%Z;
}.

Lemma lookup_elem s k v : NoDup s.*1 → lookup s k = Some v ↔ (k, v) ∈ s.
Proof. intros Hnd. unfold lookup. symmetry. by apply elem_of_list_to_map. Qed.
Lemma lookup_None s k : lookup s k = None ↔ k ∉ s.*1.
Proof. unfold lookup. symmetry. apply not_elem_of_list_to_map. Qed.
Lemma remove_keys k s x : x ∈ (remove k s).*1 ↔ x ≠ k ∧ x ∈ s.*1.
Proof.
  unfold remove. rewrite !list_elem_of_fmap. split.
  - intros ([y w] & -> & [? ?]%list_elem_of_filter). eauto.
  - intros (? & [y w] & -> & ?). exists (y, w). by rewrite list_elem_of_filter.
Qed.
Lemma NoDup_remove k s : NoDup s.*1 → NoDup (remove k s).*1.
Proof. intros Hnd. eapply sublist_NoDup; [done|]. apply fmap_sublist, sublist_filter. Qed.
Lemma length_remove k s : length (remove k s) ≤ length s.
Proof. apply length_filter. Qed.
Lemma length_remove_in k v s : lookup s k = Some v → length (remove k s) < length s.
Proof.
  intros Hl. unfold lookup in Hl. apply elem_of_list_to_map_2 in Hl.
  eapply length_filter_lt; [exact Hl|]. simpl. tauto.
Qed.
Lemma remove_id k s : k ∉ s.*1 → remove k s = s.
Proof.
  intros Hk. apply filter_true_id. intros [x w] Hx ?; simplify_eq/=. apply Hk.
  apply list_elem_of_fmap. by exists (k, w).
Qed.

Lemma remove_last s k v :
  NoDup s.*1 → last s = Some (k, v) → remove k s = removelast s.
Proof.
  destruct s as [|p s _] using rev_ind; [done|]. rewrite last_snoc, removelast_last, fmap_app.
  intros Hnd [= ->]. apply NoDup_app in Hnd as (_ & Hdisj & _). unfold remove.
  rewrite filter_app, filter_cons_False by (simpl; tauto). rewrite filter_nil, app_nil_r.
  apply remove_id. intros Hin. apply (Hdisj k); set_solver.
Qed.

Lemma wf_remove cap k s : wf cap s → wf cap (remove k s).
Proof.
  intros [? ? ?]. pose proof (length_remove k s). split; [by apply NoDup_remove|done|lia].
Qed.
Lemma wf_touch cap k s : wf cap s → wf cap (touch k s).
Proof.
  intros Hwf. unfold touch. destruct (lookup s k) as [v|] eqn:Hl; [|done].
  apply length_remove_in in Hl. destruct (wf_remove cap k s Hwf), Hwf. split; [|done|simpl; lia].
  simpl. constructor; [|done]. rewrite remove_keys. tauto.
Qed.
Lemma removelast_keys s x : x ∈ (removelast s).*1 → x ∈ s.*1.
Proof.
  destruct s as [|p s] using rev_ind; [done|]. rewrite removelast_last, fmap_app. set_solver.
Qed.
Lemma wf_removelast cap s : wf cap s → wf cap (removelast s).
Proof.
  destruct s as [|p s] using rev_ind; [done|]. intros [Hk ? Hl].
  rewrite removelast_last. rewrite fmap_app in Hk. rewrite length_app in Hl. simpl in Hl.
  apply NoDup_app in Hk as (? & _ & _). split; [done|done|lia].
Qed.
Lemma wf_add cap k v s : wf cap s → wf cap (add cap k v s).2.
Proof.
  intros Hwf. unfold add. destruct (lookup s k) as [w|] eqn:Hl.
  - pose proof (wf_touch cap k s Hwf) as Ht. unfold touch in Ht. rewrite Hl in Ht.
    by destruct Ht; split.
  - apply lookup_None in Hl. destruct (Z.eqb_spec (Z.of_nat (length s)) cap) as [Heq|Hne].
    + pose proof (wf_removelast cap s Hwf) as [? ? ?]. destruct Hwf. split; [|done|].
      * simpl. constructor; [|done]. intros ?%removelast_keys. done.
      * destruct s as [|p s _] using rev_ind; simpl in *; [lia|].
        rewrite removelast_last. rewrite length_app in Heq. simpl in Heq. lia.
    + destruct Hwf. split; [|done|simpl; lia]. by constructor.
Qed.

(** [k] is bound to [v] and at most [n] keys are more recent. *)
Definition within (n : nat) (k : string) (v : V) s : Prop :=
  ∃ pre post, s = pre ++ (k, v) :: post ∧ length pre ≤ n.

Lemma within_touch k v s : lookup s k = Some v → within 0 k v (touch k s).
Proof. intros Hl. unfold touch. rewrite Hl. exists [], (remove k s). split; [done|simpl; lia]. Qed.
Lemma within_lookup n k v s : NoDup s.*1 → within n k v s → lookup s k = Some v.
Proof. intros ? (pre & post & -> & _). apply lookup_elem; [done|set_solver]. Qed.
Lemma within_cons n k v p s : within n k v s → within (S n) k v (p :: s).
Proof. intros (pre & post & -> & ?). exists (p :: pre), post. split; [done|simpl; lia]. Qed.
Lemma within_remove n k v k' s : k' ≠ k → within n k v s → within n k v (remove k' s).
Proof.
  intros Hne (pre & post & -> & ?). exists (remove k' pre), (remove k' post). unfold remove.
  rewrite filter_app, filter_cons_True by (simpl; congruence). split; [done|].
  pose proof (length_filter (λ p : string * V, p.1 ≠ k') pre). lia.
Qed.
Lemma within_add cap n k v k' v' s :
  k' ≠ k → (Z.of_nat (S n) < cap)%Z → wf cap s →
  within n k v s → within (S n) k v (add cap k' v' s).2.
Proof.
  intros Hne Hn Hwf Hin. unfold add. destruct (lookup s k') as [w|] eqn:Hl; simpl.
  - by apply within_cons, within_remove.
  - destruct (Z.eqb_spec (Z.of_nat (length s)) cap) as [Heq|?]; simpl; [|by apply within_cons].
    apply within_cons. destruct Hin as (pre & post & -> & ?).
    destruct post as [|p post _] using rev_ind.
    + rewrite length_app in Heq. simpl in Heq. lia.
    + exists pre, post. split; [|done]. rewrite app_comm_cons, app_assoc. apply removelast_last.
Qed.
Fixpoint adds (cap : Z) (kvs : list (string * V)) s : list (string * V) :=
  match kvs with [] => s | (k, v) :: kvs => adds cap kvs (add cap k v s).2 end.
Lemma within_adds cap kvs : ∀ n k v s,
  k ∉ kvs.*1 → (Z.of_nat (n + length kvs) < cap)%Z → wf cap s →
  within n k v s → within (n + length kvs) k v (adds cap kvs s).
Proof.
  induction kvs as [|[k' v'] kvs IH]; intros n k v s Hk Hn Hwf Hin; simpl in *;
    [by rewrite Nat.add_0_r|].
  rewrite <- plus_n_Sm, <- Nat.add_succ_l.
  apply IH; [set_solver|lia|by apply wf_add|]. apply within_add; [set_solver|lia|done|done].
Qed.
Lemma wf_adds cap kvs : ∀ s, wf cap s → wf cap (adds cap kvs s).
Proof. induction kvs as [|[k' v'] kvs IH]; intros s Hwf; simpl; [done|]. by apply IH, wf_add. Qed.
End spec.
End LruSpec.

#[export] Hint Resolve LruSpec.wf_remove LruSpec.wf_touch LruSpec.wf_removelast LruSpec.wf_add : mysh.

(** ** Refinement *)
Module LruRefine.
Section refine.
Context {K V : Type} `{GoKey K}.
Implicit Types c : lru K V.

Definition entry (n : node K V) : string * V := (sprint (key n), value n).
Definition entry_at c (e : nat) : option (string * V) := entry <$> cells (lru_l c) !! e.
(** The abstraction: what the linked elements hold, front first. *)
Definition abs c : list (string * V) := omap (entry_at c) (order (lru_l c)).

(** The map and the list name the same elements, under the printed key. *)
Record wf c : Prop := {
  wf_list : GoList.wf (lru_l c);
  wf_map : ∀ s e, lru_m c !! s = Some e ↔
    e ∈ order (lru_l c) ∧ ∃ n, cells (lru_l c) !! e = Some n ∧ sprint (key n) = s;
  wf_capacity : (1 ≤ capacity c)%Z;
  wf_length : (Z.of_nat (length (order (lru_l c))) ≤ capacity c)%Z;
}.

Lemma wf_new cap : (1 ≤ cap)%Z → wf (MkLru ∅ GoList.New cap).
Proof.
  split; simpl; [apply GoList.wf_New| |lia|lia].
  intros s e. rewrite lookup_empty. set_solver.
Qed.

Lemma entry_at_is_Some c e : wf c → e ∈ order (lru_l c) → is_Some (entry_at c e).
Proof.
  intros Hwf He. destruct (GoList.wf_cells _ (wf_list _ Hwf) e He) as [n Hn].
  unfold entry_at. rewrite Hn. eauto.
Qed.
Lemma length_abs c : wf c → length (abs c) = length (order (lru_l c)).
Proof. intros Hwf. apply length_omap_total. eauto using entry_at_is_Some. Qed.

Lemma entry_at_key c e s v :
  wf c → e ∈ order (lru_l c) → entry_at c e = Some (s, v) → lru_m c !! s = Some e.
Proof.
  intros Hwf He. unfold entry_at.
  destruct (cells (lru_l c) !! e) as [n|] eqn:Hn; simpl; [|done].
  intros [= <- <-]. apply (wf_map _ Hwf). eauto.
Qed.

Lemma abs_elem c s v : wf c →
  (s, v) ∈ abs c ↔
  ∃ e n, lru_m c !! s = Some e ∧ cells (lru_l c) !! e = Some n ∧ value n = v.
Proof.
  intros Hwf. unfold abs. rewrite list_elem_of_omap. split.
  - intros (e & He & Hent). pose proof (entry_at_key _ _ _ _ Hwf He Hent).
    unfold entry_at, entry in Hent.
    destruct (cells (lru_l c) !! e) as [n|] eqn:Hn; simplify_eq/=. eauto.
  - intros (e & n & Hm & Hn & <-). apply (wf_map _ Hwf) in Hm as (He & n' & ? & <-).
    exists e. split; [done|]. unfold entry_at. by simplify_map_eq.
Qed.

Lemma NoDup_abs c : wf c → NoDup (abs c).*1.
Proof.
  intros Hwf. unfold abs.
  assert (∀ os, NoDup os → (∀ e, e ∈ os → e ∈ order (lru_l c)) →
    NoDup (omap (entry_at c) os).*1) as Hgen;
    [|apply Hgen; [apply Hwf|done]].
  induction 1 as [|e os He _ IH]; intros Hin; csimpl; [constructor|].
  destruct (entry_at_is_Some c e) as [[s v] Hs]; [done|set_solver|].
  rewrite Hs. csimpl. constructor; [|apply IH; set_solver].
  intros ([s' w] & Heq & (x & Hx & Hent)%list_elem_of_omap)%list_elem_of_fmap. simplify_eq/=.
  pose proof (entry_at_key c e s' v Hwf ltac:(set_solver) Hs).
  pose proof (entry_at_key c x s' w Hwf ltac:(set_solver) Hent). by simplify_eq.
Qed.

Lemma wf_abs c : wf c → LruSpec.wf (capacity c) (abs c).
Proof.
  intros Hwf. split; [by apply NoDup_abs|apply Hwf|]. rewrite length_abs by done. apply Hwf.
Qed.

Lemma lookup_hit c s e : wf c → lru_m c !! s = Some e →
  ∃ n, cells (lru_l c) !! e = Some n ∧ sprint (key n) = s ∧ e ∈ order (lru_l c) ∧
       LruSpec.lookup (abs c) s = Some (value n).
Proof.
  intros Hwf Hm. pose proof Hm as (He & n & Hn & Hs)%(wf_map _ Hwf). exists n.
  split_and!; [done..|]. apply LruSpec.lookup_elem; [by apply NoDup_abs|].
  apply abs_elem; eauto.
Qed.
Lemma lookup_miss c s : wf c → lru_m c !! s = None → LruSpec.lookup (abs c) s = None.
Proof.
  intros Hwf Hm. destruct (LruSpec.lookup (abs c) s) as [v|] eqn:Hl; [|done].
  apply LruSpec.lookup_elem in Hl; [|by apply NoDup_abs].
  apply abs_elem in Hl as (e & n & ? & ?); [congruence|done].
Qed.

(** Dropping an element from the list drops its key from the sequence. *)
Lemma abs_filter c s e : wf c → lru_m c !! s = Some e →
  omap (entry_at c) (filter (λ x, x ≠ e) (order (lru_l c))) = LruSpec.remove s (abs c).
Proof.
  intros Hwf Hm. apply omap_filter_out; [|eauto using entry_at_is_Some].
  intros x [s' v] Hx Hent. simpl. pose proof (entry_at_key _ _ _ _ Hwf Hx Hent) as Hm'.
  split; [intros Hne ->|intros Hne ->]; [congruence|].
  destruct (lookup_hit _ _ _ Hwf Hm) as (n & Hn & <- & _).
  unfold entry_at, entry in Hent. rewrite Hn in Hent. by simplify_eq/=.
Qed.

(** The map after an operation that keeps, drops or adds one element. *)
Lemma wf_drop c s e :
  wf c → lru_m c !! s = Some e →
  wf (MkLru (delete s (lru_m c)) (GoList.Remove (lru_l c) e) (capacity c)).
Proof.
  intros Hwf Hm. pose proof (lookup_hit _ _ _ Hwf Hm) as (n & Hn & Hs & He & _).
  split; simpl; [by apply GoList.wf_Remove, Hwf| |apply Hwf|].
  - intros s' x. rewrite lookup_delete. rewrite list_elem_of_filter. case_decide as Hd.
    + subst. split; [done|]. intros ([Hne Hx] & n' & Hn' & Hs').
      destruct Hne. assert (lru_m c !! sprint (key n) = Some x); [|congruence].
      apply (wf_map _ Hwf). eauto.
    + rewrite (wf_map _ Hwf). split; [|naive_solver]. intros (Hx & n' & ? & ?).
      split; [|eauto]. split; [|done]. intros ->. simplify_map_eq.
  - pose proof (wf_length _ Hwf).
    pose proof (length_filter_lt (order (lru_l c)) (λ x, x ≠ e) e He). simpl in *. lia.
Qed.

(** Every linked key satisfies [P]. *)
Definition all_keys (P : K → Prop) c : Prop :=
  ∀ e n, e ∈ order (lru_l c) → cells (lru_l c) !! e = Some n → P (key n).
Lemma all_keys_drop P c m e :
  all_keys P c → all_keys P (MkLru m (GoList.Remove (lru_l c) e) (capacity c)).
Proof. intros Hall x n [_ Hx]%list_elem_of_filter. by apply Hall. Qed.

Lemma abs_drop c s e :
  wf c → lru_m c !! s = Some e →
  abs (MkLru (delete s (lru_m c)) (GoList.Remove (lru_l c) e) (capacity c)) =
  LruSpec.remove s (abs c).
Proof. intros Hwf Hm. by rewrite <- (abs_filter c s e) by done. Qed.

(** Writing a node for the same key through the element pointer and moving
    the element to the front. *)
Definition refreshed c (e : nat) (n : node K V) : lru K V :=
  MkLru (lru_m c) (GoList.MoveToFront (GoList.SetValue (lru_l c) e n) e) (capacity c).

Lemma order_refreshed c e n : e ∈ order (lru_l c) →
  order (lru_l (refreshed c e n)) = e :: filter (λ x, x ≠ e) (order (lru_l c)).
Proof. intros He. simpl. unfold GoList.MoveToFront. simpl. by rewrite decide_True. Qed.
Lemma cells_refreshed c e n :
  cells (lru_l (refreshed c e n)) = <[e := n]> (cells (lru_l c)).
Proof. simpl. unfold GoList.MoveToFront. simpl. by case_decide. Qed.

Lemma wf_refreshed c s e n :
  wf c → lru_m c !! s = Some e → sprint (key n) = s → wf (refreshed c e n).
Proof.
  intros Hwf Hm Hs. pose proof (lookup_hit _ _ _ Hwf Hm) as (n0 & Hn0 & Hs0 & He & _).
  split.
  - by apply GoList.wf_MoveToFront, GoList.wf_SetValue, Hwf.
  - intros s' x. rewrite order_refreshed, cells_refreshed by done. simpl.
    rewrite (wf_map _ Hwf), elem_of_cons, list_elem_of_filter, lookup_insert.
    case_decide as Hd; [subst x|naive_solver].
    split; [|naive_solver]. intros (_ & n' & ? & ?). split; [by left|]. simplify_eq. eauto.
  - apply Hwf.
  - rewrite order_refreshed by done. simpl. pose proof (wf_length _ Hwf).
    pose proof (length_filter_lt (order (lru_l c)) (λ x, x ≠ e) e He). simpl in *. lia.
Qed.
Lemma abs_refreshed c s e n :
  wf c → lru_m c !! s = Some e → sprint (key n) = s →
  abs (refreshed c e n) = (s, value n) :: LruSpec.remove s (abs c).
Proof.
  intros Hwf Hm Hs. pose proof (lookup_hit _ _ _ Hwf Hm) as (n0 & Hn0 & Hs0 & He & _).
  unfold abs at 1. rewrite order_refreshed by done. csimpl.
  unfold entry_at at 1. rewrite cells_refreshed, lookup_insert_eq. csimpl.
  unfold entry. rewrite Hs. f_equal. rewrite <- (abs_filter c s e) by done.
  apply omap_ext_in. intros x [Hx _]%list_elem_of_filter. unfold entry_at.
  by rewrite cells_refreshed, lookup_insert_ne.
Qed.

Lemma all_keys_refreshed P c e n :
  all_keys P c → e ∈ order (lru_l c) → P (key n) → all_keys P (refreshed c e n).
Proof.
  intros Hall He Hn x n'. rewrite order_refreshed, cells_refreshed by done.
  rewrite lookup_insert. intros [->|[_ Hx]%list_elem_of_filter]%elem_of_cons; [|case_decide].
  - rewrite decide_True by done. naive_solver.
  - naive_solver.
  - eauto.
Qed.

(** Linking a new element for a key the cache does not hold. *)
Definition pushed c (s : string) (n : node K V) : lru K V :=
  MkLru (<[s := (GoList.PushFront (lru_l c) n).1]> (lru_m c))
        (GoList.PushFront (lru_l c) n).2 (capacity c).

Lemma wf_pushed c s n :
  wf c → lru_m c !! s = None → sprint (key n) = s →
  (Z.of_nat (length (order (lru_l c))) < capacity c)%Z → wf (pushed c s n).
Proof.
  intros Hwf Hm Hs Hlen. split; simpl.
  - apply GoList.wf_PushFront, Hwf.
  - intros s' x. rewrite elem_of_cons, !lookup_insert.
    assert (∀ y, y ∈ order (lru_l c) → y < fresh (lru_l c)) as Hf
      by apply (GoList.wf_fresh _ (wf_list _ Hwf)).
    destruct (decide (fresh (lru_l c) = x)) as [<-|Hne].
    + case_decide as Hd; [subst; naive_solver|]. split; [|naive_solver].
      intros (? & _)%(wf_map _ Hwf). specialize (Hf _ H0). lia.
    + case_decide as Hd.
      * subst. split; [naive_solver|]. intros ([->|Hx] & n' & Hn' & Hs'); [done|].
        assert (lru_m c !! sprint (key n) = Some x); [|congruence].
        apply (wf_map _ Hwf). eauto.
      * rewrite (wf_map _ Hwf). naive_solver.
  - apply Hwf.
  - lia.
Qed.
Lemma abs_pushed c s n :
  wf c → sprint (key n) = s → abs (pushed c s n) = (s, value n) :: abs c.
Proof.
  intros Hwf Hs. unfold abs. csimpl. unfold entry_at at 1. csimpl.
  rewrite lookup_insert_eq. csimpl. unfold entry. rewrite Hs. f_equal.
  apply omap_ext_in. intros x Hx. unfold entry_at. csimpl. rewrite lookup_insert_ne; [done|].
  apply (GoList.wf_fresh _ (wf_list _ Hwf)) in Hx. lia.
Qed.

Lemma all_keys_pushed P c s n :
  all_keys P c → P (key n) → all_keys P (pushed c s n).
Proof.
  intros Hall Hn x n'. simpl. rewrite lookup_insert, elem_of_cons.
  case_decide; intros [->|Hx] ?; simplify_eq; eauto.
Qed.

(** ** The operations *)
Lemma Back_hit c : wf c → order (lru_l c) ≠ [] →
  ∃ e n, GoList.Back (lru_l c) = Some e ∧ cells (lru_l c) !! e = Some n ∧
    lru_m c !! sprint (key n) = Some e ∧ last (abs c) = Some (entry n).
Proof.
  intros Hwf Hne. destruct (GoList.Back_is_Some (lru_l c)) as [e He].
  { unfold GoList.Len. destruct (order (lru_l c)); [done|simpl; lia]. }
  pose proof (GoList.Back_elem _ _ He) as Hin.
  destruct (GoList.wf_cells _ (wf_list _ Hwf) e Hin) as [n Hn]. exists e, n.
  split_and!; [done|done|apply (wf_map _ Hwf); eauto|].
  unfold abs, GoList.Back in *. destruct (order (lru_l c)) as [|x os _] using rev_ind; [done|].
  rewrite last_snoc in He. simplify_eq.
  assert (entry_at c e = Some (entry n)) as Hent by (unfold entry_at; by rewrite Hn).
  rewrite omap_app. csimpl. by rewrite Hent, last_snoc.
Qed.

Lemma abs_nil c : wf c → abs c = [] ↔ order (lru_l c) = [].
Proof. intros Hwf. rewrite <- !length_zero_iff_nil, length_abs by done. done. Qed.

Lemma Add_spec {W} c k v (fs : list (V → W → outcome W)) w :
  wf c →
  ∃ c', wf c' ∧ capacity c' = capacity c ∧
    abs c' = (LruSpec.add (capacity c) (sprint k) v (abs c)).2 ∧
    Lru.Add c k v fs w =
      (λ w', (bool_decide (is_Some (LruSpec.add (capacity c) (sprint k) v (abs c)).1), c', w'))
      <$> match (LruSpec.add (capacity c) (sprint k) v (abs c)).1 with
          | Some p => Lru.run_evictions fs p.2 w
          | None => Done w
          end ∧
    (∀ P : K → Prop, all_keys P c → P k → P (of_string (sprint k)) → all_keys P c').
Proof.
  intros Hwf. unfold Lru.Add, LruSpec.add. rewrite length_abs by done.
  destruct (lru_m c !! sprint k) as [e|] eqn:Hm.
  - destruct (lookup_hit _ _ _ Hwf Hm) as (n & _ & _ & He & ->).
    exists (refreshed c e (Node (of_string (sprint k)) v)).
    pose proof (sprint_of_string (sprint k)) as Hs.
    split_and!; [by eapply wf_refreshed|done|by erewrite abs_refreshed|done|].
    intros P ???. by apply all_keys_refreshed.
  - rewrite lookup_miss by done. unfold GoList.Len.
    destruct (Z.eqb_spec (Z.of_nat (length (order (lru_l c)))) (capacity c)) as [Heq|Hne].
    + assert (order (lru_l c) ≠ []) as Hnil.
      { intros Hnil. rewrite Hnil in Heq. simpl in Heq. pose proof (wf_capacity _ Hwf). lia. }
      destruct (Back_hit c Hwf Hnil) as (e & n & Hb & Hn & Hme & Hlast).
      pose proof (wf_drop c _ e Hwf Hme) as Hwf'.
      set (c' := MkLru (delete (sprint (key n)) (lru_m c))
        (GoList.Remove (lru_l c) e) (capacity c)) in *.
      assert (Habs : abs c' = removelast (abs c)).
      { unfold c'. rewrite (abs_drop c _ e) by done.
        eapply LruSpec.remove_last; [by apply NoDup_abs|exact Hlast]. }
      assert (Hm' : lru_m c' !! sprint k = None)
        by (unfold c'; simpl; rewrite lookup_delete; by case_decide).
      assert (Hlen : (Z.of_nat (length (order (lru_l c'))) < capacity c')%Z).
      { unfold c'. simpl. pose proof (length_filter_lt (order (lru_l c)) (λ x, x ≠ e) e
          (GoList.Back_elem _ _ Hb)). simpl in *. lia. }
      exists (pushed c' (sprint k) (Node k v)). rewrite Hlast, Hb. simpl.
      split_and!; [by apply wf_pushed|done|by rewrite abs_pushed, Habs| |].
      * unfold Lru.elem_node, GoList.Value. simpl. rewrite Hn. simpl.
        by destruct (Lru.run_evictions fs (value n) w).
      * intros P ???. apply all_keys_pushed; [by apply all_keys_drop|done].
    + pose proof (wf_length _ Hwf). exists (pushed c (sprint k) (Node k v)). simpl.
      split_and!; [apply wf_pushed; try done; lia|done|by rewrite abs_pushed|done|].
      intros P ???. by apply all_keys_pushed.
Qed.

Lemma commonGet_spec c k (peek : bool) :
  wf c →
  ∃ c', wf c' ∧ capacity c' = capacity c ∧
    abs c' = (if peek then abs c else LruSpec.touch (sprint k) (abs c)) ∧
    Lru.commonGet c k peek = Done (LruSpec.lookup (abs c) (sprint k), c') ∧
    (∀ P, all_keys P c → all_keys P c').
Proof.
  intros Hwf. unfold Lru.commonGet, GoList.Len, LruSpec.touch.
  destruct (lru_m c !! sprint k) as [e|] eqn:Hm.
  - destruct (lookup_hit _ _ _ Hwf Hm) as (n & Hn & Hs & He & Hl). rewrite Hl.
    rewrite decide_False by (destruct (order (lru_l c)); set_solver).
    unfold Lru.elem_node, GoList.Value. rewrite Hn. simpl.
    assert (Hid : GoList.SetValue (lru_l c) e n = lru_l c).
    { destruct c as [m [os cs fr] cap]. unfold GoList.SetValue. simpl in *.
      by rewrite insert_id. }
    pose proof (wf_refreshed _ _ e n Hwf Hm Hs) as Hwf'.
    pose proof (abs_refreshed _ _ e n Hwf Hm Hs) as Habs.
    pose proof (λ P Hall, all_keys_refreshed P c e n Hall He) as Hkeys.
    unfold refreshed in Hwf', Habs, Hkeys. rewrite Hid in Hwf', Habs, Hkeys.
    destruct peek; simpl; [by exists c|].
    destruct (order (lru_l c)) as [|x os] eqn:Ho; [set_solver|].
    destruct os as [|y os].
    + simpl. exists c. split_and!; [done|done| |done|done].
      assert (x = e) as -> by set_solver.
      rewrite <- Habs. f_equal. unfold GoList.MoveToFront. rewrite Ho.
      rewrite decide_True by set_solver. rewrite filter_cons_False by tauto.
      rewrite filter_nil, <- Ho. by destruct c as [m [os cs fr] cap].
    + simpl. unfold GoList.Front. rewrite Ho. simpl.
      rewrite GoList.MoveBefore_Front; [|apply Hwf|unfold GoList.Front; by rewrite Ho].
      eexists. split_and!; [exact Hwf'|done|exact Habs|done|]. intros P Hall. apply Hkeys; [done|apply (Hall e); [by rewrite Ho|done]].
  - rewrite (lookup_miss _ _ Hwf Hm). exists c.
    split_and!; [done|done|by destruct peek|by case_decide|done].
Qed.

Lemma Remove_spec c k :
  wf c →
  let '(b, c') := Lru.Remove c k in
  wf c' ∧ capacity c' = capacity c ∧
  b = bool_decide (is_Some (LruSpec.lookup (abs c) (sprint k))) ∧
  abs c' = LruSpec.remove (sprint k) (abs c) ∧
  (∀ P, all_keys P c → all_keys P c').
Proof.
  intros Hwf. unfold Lru.Remove, GoList.Len.
  destruct (lru_m c !! sprint k) as [e|] eqn:Hm.
  - destruct (lookup_hit _ _ _ Hwf Hm) as (n & Hn & Hs & He & Hl).
    rewrite decide_False by (destruct (order (lru_l c)); set_solver). rewrite Hl.
    split_and!; [by apply wf_drop|done|done|by apply abs_drop|intros; by apply all_keys_drop].
  - pose proof (lookup_miss _ _ Hwf Hm) as Hl. rewrite Hl.
    apply LruSpec.lookup_None in Hl. by case_decide; rewrite LruSpec.remove_id.
Qed.

Lemma RemoveOldest_spec c :
  wf c →
  ∃ p c', Lru.RemoveOldest c = Done (p, c') ∧ wf c' ∧ capacity c' = capacity c ∧
    prod_map sprint id <$> p = last (abs c) ∧ abs c' = removelast (abs c) ∧
    (∀ P, all_keys P c → all_keys P c').
Proof.
  intros Hwf. unfold Lru.RemoveOldest, GoList.Len. case_decide as Hl.
  - apply length_zero_iff_nil in Hl. exists None, c.
    assert (abs c = []) as -> by by apply abs_nil. done.
  - destruct (Back_hit c Hwf) as (e & n & Hb & Hn & Hm & Hlast); [by intros Hnil; rewrite Hnil in Hl|].
    rewrite Hb. unfold Lru.elem_node, GoList.Value. simpl. rewrite Hn. simpl.
    do 2 eexists. split; [done|].
    split_and!; [by apply wf_drop|done|by rewrite Hlast| |intros; by apply all_keys_drop].
    rewrite abs_drop by done. eapply LruSpec.remove_last; [by apply NoDup_abs|done].
Qed.

Lemma GetOldest_spec c :
  wf c → ∃ p, Lru.GetOldest c = Done p ∧ prod_map sprint id <$> p = last (abs c).
Proof.
  intros Hwf. unfold Lru.GetOldest, GoList.Len. case_decide as Hl.
  - apply length_zero_iff_nil in Hl. exists None.
    assert (abs c = []) as -> by by apply abs_nil. done.
  - destruct (Back_hit c Hwf) as (e & n & Hb & Hn & Hm & Hlast); [by intros Hnil; rewrite Hnil in Hl|].
    rewrite Hb. unfold Lru.elem_node, GoList.Value. simpl. rewrite Hn. simpl.
    eexists. split; [done|]. by rewrite Hlast.
Qed.

Definition is_string_key (k : K) : Prop := is_Some (as_string k).
Lemma is_string_key_sprint k : is_string_key k → as_string k = Some (sprint k).
Proof. intros [s Hs]. by rewrite (as_string_sprint _ _ Hs). Qed.

Lemma elem_entry c e : wf c → e ∈ order (lru_l c) →
  ∃ n, cells (lru_l c) !! e = Some n ∧ entry_at c e = Some (entry n).
Proof.
  intros Hwf He. destruct (GoList.wf_cells _ (wf_list _ Hwf) e He) as [n Hn].
  exists n. split; [done|]. unfold entry_at. by rewrite Hn.
Qed.

Lemma filter_loop_spec c f es ks vs :
  wf c → all_keys is_string_key c → (∀ e, e ∈ es → e ∈ order (lru_l c)) →
  Lru.filter_loop c f es ks vs =
    Done (ks ++ (filter (λ p, f p.1 p.2) (omap (entry_at c) es)).*1,
          vs ++ (filter (λ p, f p.1 p.2) (omap (entry_at c) es)).*2).
Proof.
  intros Hwf Hstr. revert ks vs.
  induction es as [|e es IH]; intros ks vs Hes; csimpl; [by rewrite !app_nil_r|].
  destruct (elem_entry c e Hwf) as (n & Hn & Hent); [set_solver|].
  unfold Lru.elem_node, GoList.Value. rewrite Hn, Hent. csimpl.
  rewrite is_string_key_sprint by (apply (Hstr e); [set_solver|done]).
  rewrite filter_cons. simpl. destruct (f (sprint (key n)) (value n)); simpl.
  - rewrite IH by set_solver. by rewrite <- !app_assoc.
  - rewrite IH by set_solver. done.
Qed.
Lemma Filter_spec c f : wf c → all_keys is_string_key c →
  Lru.Filter c f = Done ((filter (λ p, f p.1 p.2) (abs c)).*1,
                         (filter (λ p, f p.1 p.2) (abs c)).*2).
Proof. intros Hwf Hstr. unfold Lru.Filter. by rewrite filter_loop_spec. Qed.

Lemma keys_loop_spec c e n m res :
  cells (lru_l c) !! e = Some n →
  Lru.keys_loop c (Some e) m res = Done (res ++ replicate m (Some (key n))).
Proof.
  intros Hn. revert res. induction m as [|m IH]; intros res; simpl; [by rewrite app_nil_r|].
  unfold Lru.elem_node, GoList.Value. rewrite Hn. simpl. rewrite IH. by rewrite <- app_assoc.
Qed.
Definition print_keys (ks : list (option K)) : list (option string) :=
  (λ o : option K, sprint <$> o) <$> ks.
Lemma Keys_spec c : wf c →
  ∃ ks, Lru.Keys c = Done ks ∧
    print_keys ks = replicate (length (abs c)) None ++
                         replicate (length (abs c)) (option_map fst (head (abs c))).
Proof.
  intros Hwf. rewrite length_abs by done. unfold Lru.Keys, GoList.Len, GoList.Front.
  destruct (order (lru_l c)) as [|e os] eqn:Ho; [by exists []|].
  destruct (elem_entry c e Hwf) as (n & Hn & Hent); [rewrite Ho; set_solver|].
  change (head (e :: os)) with (Some e). rewrite (keys_loop_spec _ _ n) by done. eexists; split; [done|].
  assert (head (abs c) = Some (entry n)) as ->.
  { unfold abs. rewrite Ho. csimpl. by rewrite Hent. }
  unfold print_keys. by rewrite fmap_app, !fmap_replicate.
Qed.

(** ** Histories: any sequence of calls of the interface *)
Inductive op :=
  | OpAdd (k : K) (v : V)
  | OpGet (k : K)
  | OpContains (k : K)
  | OpPeek (k : K)
  | OpRemove (k : K)
  | OpRemoveOldest
  | OpGetOldest
  | OpKeys
  | OpLen
  | OpPurge
  | OpFilter (f : string → V → bool).
Inductive obs :=
  | ObsAdd (evicted : bool) (gone : list V)
  | ObsGet (v : option V)
  | ObsBool (b : bool)
  | ObsEntry (p : option (string * V))
  | ObsKeys (ks : list (option string))
  | ObsLen (n : nat)
  | ObsUnit
  | ObsFilter (ks : list string) (vs : list V).

(** The eviction callback of a history records the value it is given. *)
Definition exec c (o : op) : outcome (obs * lru K V) :=
  match o with
  | OpAdd k v =>
    run (b, c, gone) <- Lru.Add c k v [λ v w, Done (w ++ [v])] [] ;; Done (ObsAdd b gone, c)
  | OpGet k => run (v, c) <- Lru.Get c k ;; Done (ObsGet v, c)
  | OpContains k => run (b, c) <- Lru.Contains c k ;; Done (ObsBool b, c)
  | OpPeek k => run (v, c) <- Lru.Peek c k ;; Done (ObsGet v, c)
  | OpRemove k => let '(b, c) := Lru.Remove c k in Done (ObsBool b, c)
  | OpRemoveOldest =>
    run (p, c) <- Lru.RemoveOldest c ;; Done (ObsEntry (prod_map sprint id <$> p), c)
  | OpGetOldest =>
    run p <- Lru.GetOldest c ;; Done (ObsEntry (prod_map sprint id <$> p), c)
  | OpKeys => run ks <- Lru.Keys c ;; Done (ObsKeys (print_keys ks), c)
  | OpLen => Done (ObsLen (Lru.Len c), c)
  | OpPurge => Done (ObsUnit, Lru.Purge c)
  | OpFilter f => run (ks, vs) <- Lru.Filter c f ;; Done (ObsFilter ks vs, c)
  end.
Fixpoint run_ops c (os : list op) : outcome (list obs * lru K V) :=
  match os with
  | [] => Done ([], c)
  | o :: os => run (b, c) <- exec c o ;; run (bs, c) <- run_ops c os ;; Done (b :: bs, c)
  end.

Definition spec_exec (cap : Z) (s : list (string * V)) (o : op)
    : obs * list (string * V) :=
  match o with
  | OpAdd k v =>
    let '(ev, s') := LruSpec.add cap (sprint k) v s in
    (ObsAdd (bool_decide (is_Some ev)) (option_list (snd <$> ev)), s')
  | OpGet k => (ObsGet (LruSpec.lookup s (sprint k)), LruSpec.touch (sprint k) s)
  | OpContains k =>
    (ObsBool (bool_decide (is_Some (LruSpec.lookup s (sprint k)))), LruSpec.touch (sprint k) s)
  | OpPeek k => (ObsGet (LruSpec.lookup s (sprint k)), s)
  | OpRemove k =>
    (ObsBool (bool_decide (is_Some (LruSpec.lookup s (sprint k)))), LruSpec.remove (sprint k) s)
  | OpRemoveOldest => (ObsEntry (last s), removelast s)
  | OpGetOldest => (ObsEntry (last s), s)
  | OpKeys =>
    (ObsKeys (replicate (length s) None ++ replicate (length s) (option_map fst (head s))), s)
  | OpLen => (ObsLen (length s), s)
  | OpPurge => (ObsUnit, [])
  | OpFilter f => (ObsFilter (filter (λ p, f p.1 p.2) s).*1 (filter (λ p, f p.1 p.2) s).*2, s)
  end.
Fixpoint spec_run (cap : Z) (s : list (string * V)) (os : list op)
    : list obs * list (string * V) :=
  match os with
  | [] => ([], s)
  | o :: os =>
    let '(b, s) := spec_exec cap s o in
    let '(bs, s) := spec_run cap s os in (b :: bs, s)
  end.

(** Keys are added as strings, as [Filter] requires. *)
Definition op_ok (o : op) : Prop :=
  match o with OpAdd k _ => is_string_key k | _ => True end.

Lemma exec_spec c o :
  wf c → all_keys is_string_key c → op_ok o →
  ∃ c', exec c o = Done ((spec_exec (capacity c) (abs c) o).1, c') ∧
    abs c' = (spec_exec (capacity c) (abs c) o).2 ∧
    wf c' ∧ capacity c' = capacity c ∧ all_keys is_string_key c'.
Proof.
  intros Hwf Hstr Hok. destruct o as [k v|k|k|k|k| | | | | |f]; simpl in *.
  - destruct (Add_spec c k v [λ v w, Done (w ++ [v])] [] Hwf) as (c' & ? & ? & Ha & -> & Hp).
    destruct (LruSpec.add _ _ _ _) as [ev s'] eqn:Hadd; simpl in *.
    exists c'. assert (all_keys is_string_key c').
    { apply Hp; [done|done|]. unfold is_string_key. rewrite as_string_of_string. eauto. }
    by destruct ev.
  - destruct (commonGet_spec c k false Hwf) as (c' & ? & ? & ? & Hg & ?).
    unfold Lru.Get. rewrite Hg. simpl. exists c'. by split_and!; auto.
  - destruct (commonGet_spec c k false Hwf) as (c' & ? & ? & ? & Hg & ?).
    unfold Lru.Contains, Lru.Get. rewrite Hg. simpl. exists c'. by split_and!; auto.
  - destruct (commonGet_spec c k true Hwf) as (c' & ? & ? & ? & Hg & ?).
    unfold Lru.Peek. rewrite Hg. simpl. exists c'. by split_and!; auto.
  - pose proof (Remove_spec c k Hwf) as Hr. destruct (Lru.Remove c k) as [b c'].
    destruct Hr as (? & ? & -> & ? & ?). exists c'. by split_and!; auto.
  - destruct (RemoveOldest_spec c Hwf) as (p & c' & -> & ? & ? & Hl & ? & ?).
    simpl. rewrite Hl. exists c'. by split_and!; auto.
  - destruct (GetOldest_spec c Hwf) as (p & -> & Hl). simpl. rewrite Hl. by exists c.
  - destruct (Keys_spec c Hwf) as (ks & -> & Hl). simpl. rewrite Hl. by exists c.
  - exists c. unfold Lru.Len, GoList.Len. by rewrite <- length_abs by done.
  - exists (Lru.Purge c). split_and!; [done|done|apply wf_new, Hwf|done|].
    intros e n He. simpl in He. set_solver.
  - rewrite Filter_spec by done. simpl. by exists c.
Qed.

Lemma run_ops_spec os c :
  wf c → all_keys is_string_key c → Forall op_ok os →
  ∃ c', run_ops c os = Done ((spec_run (capacity c) (abs c) os).1, c') ∧
    abs c' = (spec_run (capacity c) (abs c) os).2 ∧ wf c' ∧ capacity c' = capacity c.
Proof.
  revert c. induction os as [|o os IH]; intros c Hwf Hstr Hok; simpl; [by exists c|].
  apply Forall_cons in Hok as [Ho Hos].
  destruct (exec_spec c o Hwf Hstr Ho) as (c1 & -> & Ha & Hwf1 & Hcap & Hstr1).
  destruct (IH c1 Hwf1 Hstr1 Hos) as (c2 & Hrun & Ha2 & Hwf2 & Hcap2).
  simpl. rewrite Hrun. destruct (spec_exec _ _ o) as [b s]. simpl in *. subst s.
  rewrite Hcap in *. destruct (spec_run _ (abs c1) os) as [bs s]. simpl in *.
  exists c2. split_and!; [done|done|done|congruence].
Qed.
End refine.
End LruRefine.

(** ** Theorems about the cache *)
Module LruTheorems.
Import LruRefine.
Section theorems.
Context {K V : Type} `{GoKey K}.
Implicit Types c : lru K V.


(** [Add] on a well-formed cache: it updates and promotes a key that is
    present without evicting; on a full cache it evicts exactly the oldest
    entry, hands its value to every callback in order (a callback that panics
    or blocks makes [Add] panic or block) and reports [true]; otherwise it
    only inserts.  The cache stays well formed. *)
Theorem Add_refines {W} c k v (fs : list (V → W → outcome W)) w :
  wf c →
  ∃ c', wf c' ∧ capacity c' = capacity c ∧
    abs c' = (LruSpec.add (capacity c) (sprint k) v (abs c)).2 ∧
    Lru.Add c k v fs w =
      (λ w', (bool_decide (is_Some (LruSpec.add (capacity c) (sprint k) v (abs c)).1), c', w'))
      <$> match (LruSpec.add (capacity c) (sprint k) v (abs c)).1 with
          | Some p => Lru.run_evictions fs p.2 w
          | None => Done w
          end.
Proof. intros Hwf. destruct (Add_spec c k v fs w Hwf) as (c' & ? & ? & ? & ? & _). eauto 10. Qed.

(** Recency protects: a key just read with [Get] is still bound after any
    additions of other keys, as long as they are fewer than the capacity. *)
Theorem Get_protects c k v kvs c1 :
  wf c → Lru.Get c k = Done (Some v, c1) →
  sprint k ∉ kvs.*1 → (Z.of_nat (length kvs) < capacity c)%Z →
  LruSpec.lookup (LruSpec.adds (capacity c) kvs (abs c1)) (sprint k) = Some v.
Proof.
  intros Hwf Hg Hk Hlen.
  destruct (commonGet_spec c k false Hwf) as (c' & Hwf' & Hcap & Ha & Hg' & _).
  unfold Lru.Get in Hg. rewrite Hg' in Hg. simplify_eq. rewrite Ha.
  pose proof (wf_abs _ Hwf') as Hs. rewrite Hcap, Ha in Hs.
  eapply LruSpec.within_lookup; [by apply LruSpec.wf_keys with (capacity c), LruSpec.wf_adds|].
  apply (LruSpec.within_adds _ kvs 0); [done|done|done|]. by apply LruSpec.within_touch.
Qed.

(** [Contains] is documented not to touch the recency of the key, but it
    is [Get]: a key it finds becomes the most recent one. *)
Theorem Contains_promotes c k c1 :
  wf c → Lru.Contains c k = Done (true, c1) →
  ∃ v, head (abs c1) = Some (sprint k, v) ∧ abs c1 = LruSpec.touch (sprint k) (abs c).
Proof.
  intros Hwf Hc. destruct (commonGet_spec c k false Hwf) as (c' & Hwf' & Hcap & Ha & Hg' & _).
  unfold Lru.Contains, Lru.Get in Hc. rewrite Hg' in Hc. simplify_eq/=.
  unfold LruSpec.touch in *. destruct (LruSpec.lookup (abs c) (sprint k)) as [v|] eqn:Hl;
    [|by simplify_eq/=].
  exists v. by rewrite Ha.
Qed.

(** [Keys] is documented to return the keys from oldest to newest; on a
    non-empty cache it never does: it returns as many nils as there are
    entries, followed by the newest key repeated as many times. *)
Theorem Keys_not_documented c :
  wf c → 0 < Lru.Len c →
  ∃ ks, Lru.Keys c = Done ks ∧ length ks = 2 * Lru.Len c ∧
    take (Lru.Len c) ks = replicate (Lru.Len c) None ∧
    print_keys ks ≠ Some <$> reverse (abs c).*1.
Proof.
  intros Hwf Hlen. unfold Lru.Len, GoList.Len in *. rewrite <- length_abs in * by done.
  destruct (Keys_spec c Hwf) as (ks & Hk & Hp).
  assert (Hl : length ks = 2 * length (abs c)).
  { transitivity (length (print_keys ks)); [by unfold print_keys; rewrite length_fmap|].
    rewrite Hp, length_app, !length_replicate. lia. }
  exists ks. split_and!; [done|done| |].
  - assert (take (length (abs c)) (print_keys ks) = replicate (length (abs c)) None) as Ht.
    { rewrite Hp. by rewrite take_app_length' by (by rewrite length_replicate). }
    unfold print_keys in Ht. rewrite <- fmap_take in Ht.
    symmetry. apply replicate_as_elem_of. split; [rewrite length_take; lia|].
    intros x Hx. assert (((λ o : option K, sprint <$> o) x) ∈
      replicate (length (abs c)) (None : option string)) as Hin.
    { rewrite <- Ht. by apply list_elem_of_fmap_2. }
    apply elem_of_replicate in Hin as [Hin _]. by destruct x.
  - intros Heq. apply (f_equal length) in Heq. unfold print_keys in Heq.
    rewrite !length_fmap, length_reverse, length_fmap in Heq. lia.
Qed.
End theorems.

(** *** Witnesses: the properties at concrete caches *)
Definition ex_ops : list (@op iface Z) :=
  [OpAdd (IString "ls") 1%Z; OpAdd (IString "cd") 2%Z; OpGet (IInt 7); OpContains (IString "ls");
   OpAdd (IString "pwd") 3%Z; OpKeys; OpGetOldest; OpFilter (λ _ v, (2 <? v)%Z)].
Definition ex_cache : lru iface Z :=
  match run_ops (MkLru ∅ GoList.New 2 : lru iface Z) (take 2 ex_ops) with
  | Done (_, c) => c | _ => MkLru ∅ GoList.New 2 end.
Lemma ex_cache_wf : wf ex_cache.
Proof.
  destruct (run_ops_spec (take 2 ex_ops) (MkLru ∅ GoList.New 2 : lru iface Z))
    as (c & Hrun & _ & Hwf & _).
  - by apply wf_new.
  - intros e n He. simpl in He. set_solver.
  - repeat constructor; by eexists.
  - unfold ex_cache. rewrite Hrun. exact Hwf.
Qed.


Lemma Add_refines_witness :
  abs ex_cache = [("cd", 2%Z); ("ls", 1%Z)] ∧
  ∃ c', wf c' ∧ capacity c' = capacity ex_cache ∧
    abs c' = [("pwd", 3%Z); ("cd", 2%Z)] ∧
    Lru.Add ex_cache (IString "pwd") 3%Z [λ v w, Done (v :: w)] [] = Done (true, c', [1%Z]).
Proof.
  split; [reflexivity|].
  exact (Add_refines ex_cache (IString "pwd") 3%Z [λ v w, Done (v :: w)] [] ex_cache_wf).
Defined.

Lemma Get_protects_witness :
  ∃ c1, Lru.Get ex_cache (IString "ls") = Done (Some 1%Z, c1) ∧
    LruSpec.lookup (LruSpec.adds (capacity ex_cache) [("pwd", 3%Z)] (abs c1))
      (sprint (IString "ls")) = Some 1%Z.
Proof.
  eexists. split; [vm_compute; reflexivity|].
  eapply Get_protects; [apply ex_cache_wf|vm_compute; reflexivity|simpl; set_solver|vm_compute; reflexivity].
Defined.

Lemma Contains_promotes_witness :
  ∃ c1 v, Lru.Contains ex_cache (IString "ls") = Done (true, c1) ∧
    head (abs c1) = Some ("ls", v) ∧ abs c1 = LruSpec.touch "ls" (abs ex_cache).
Proof.
  eexists. edestruct (Contains_promotes ex_cache (IString "ls")) as (v & Hh & Ha);
    [apply ex_cache_wf|vm_compute; reflexivity|].
  exists v. split; [vm_compute; reflexivity|]. split; [exact Hh|exact Ha].
Defined.

Lemma Keys_not_documented_witness :
  ∃ ks, Lru.Keys ex_cache = Done ks ∧ length ks = 2 * Lru.Len ex_cache ∧
    take (Lru.Len ex_cache) ks = replicate (Lru.Len ex_cache) None ∧
    print_keys ks ≠ Some <$> reverse (abs ex_cache).*1.
Proof.
  apply (Keys_not_documented ex_cache); [apply ex_cache_wf|vm_compute; lia].
Defined.
End LruTheorems.
