(* ===== verification/Recorder.v ===== *)
(** * recorder/recorder.go: recorders of command history

    Module [Rec] is the in-memory recorder (an LRU cache whose values are
    suffix arrays of their keys), module [PRec] the persistent recorder: an
    object in a heap, loaded from and saved to a storage, with the goroutine
    that [Run] starts and the channel that stops it.  [Storage] is the interface
    of that name; [StorageLaws] states what the recorder relies on. *)

From S2P Require Import Prelude GoList GoStr Json Etcd Lru.

(** ** The in-memory recorder *)
Module Rec.
(** The values of the cache are [*suffixarray.Index]: the text each indexes. *)
Definition recorder := lru string string.

Definition NewRecorder (cap : Z) : outcome recorder := Lru.NewLRU cap.
Definition Find (r : recorder) (s : string) : outcome (list string) :=
  run (kList, _) <- Lru.Filter r (λ _ v, GoStr.Lookup_found v s) ;; Done kList.
Definition List (r : recorder) : outcome (list string) :=
  run (kList, _) <- Lru.Filter r (λ _ _, true) ;; Done kList.
Definition Add (r : recorder) (s : string) : outcome (result unit * recorder) :=
  if decide (s = "") then Done (Err (Errorf "ERROR: record is empty"), r)
  else
    run (v, r) <- Lru.Peek r s ;;
    match v with
    | Some _ => run (_, r) <- Lru.Contains r s ;; Done (Ok tt, r)
    | None => run (_, r, _) <- Lru.Add r s s [] tt ;; Done (Ok tt, r)
    end.
End Rec.

(** What a recorder of capacity [cap] holds: distinct non-empty commands, most
    recent first. *)
Module History.
Definition add (cap : Z) (s : string) (h : list string) : list string :=
  if decide (s ∈ h) then s :: filter (λ x, x ≠ s) h
  else if (Z.of_nat (length h) =? cap)%Z then s :: removelast h
  else s :: h.
Definition find (s : string) (h : list string) : list string :=
  filter (λ x, GoStr.Lookup_found x s = true) h.
Record good (cap : Z) (h : list string) : Prop := {
  good_nodup : NoDup h;
  good_nonempty : Forall (λ s, s ≠ "") h;
  good_length : (Z.of_nat (length h) ≤ cap)%Z;
}.

Lemma add_fresh cap s h :
  s ∉ h → (Z.of_nat (length h) < cap)%Z → add cap s h = s :: h.
Proof.
  intros Hs Hl. unfold add. rewrite decide_False by done.
  by destruct (Z.eqb_spec (Z.of_nat (length h)) cap); [lia|].
Qed.
Lemma add_elem cap s h x : x ∈ add cap s h → x = s ∨ x ∈ h.
Proof.
  unfold add. case_decide; [rewrite elem_of_cons, list_elem_of_filter; naive_solver|].
  destruct (_ =? _)%Z; rewrite elem_of_cons; [|naive_solver].
  destruct h as [|y h _] using rev_ind; [naive_solver|]. rewrite removelast_last. set_solver.
Qed.
Lemma add_elem_self cap s h : s ∈ add cap s h.
Proof. unfold add. case_decide; [left|]. destruct (_ =? _)%Z; left. Qed.
(** Adding the commands of a history from the oldest to the newest rebuilds it. *)
Lemma rebuild cap h : good cap h → foldr (add cap) [] h = h.
Proof.
  intros [Hnd _ Hl]. induction h as [|s h IH]; [done|]. simpl in *.
  apply NoDup_cons in Hnd as [Hs Hnd]. rewrite IH by (done || lia).
  apply add_fresh; [done|lia].
Qed.
End History.

Module RecFacts.
Import LruRefine.

(** Every value is the suffix array of its key. *)
Record inv (cap : Z) (r : Rec.recorder) : Prop := {
  inv_wf : wf r;
  inv_cap : capacity r = cap;
  inv_index : Forall (λ p : string * string, p.2 = p.1 ∧ p.1 ≠ "") (abs r);
}.
Definition hist (r : Rec.recorder) : list string := (abs r).*1.

Lemma all_string_keys (r : Rec.recorder) : all_keys is_string_key r.
Proof. intros e n _ _. by eexists. Qed.

Lemma hist_good cap r : inv cap r → History.good cap (hist r).
Proof.
  intros [Hwf Hcap Hi]. pose proof (wf_abs _ Hwf) as [Hk H1 Hl]. split; [done| |].
  - unfold hist. apply Forall_fmap. eapply Forall_impl; [exact Hi|]. naive_solver.
  - unfold hist. by rewrite length_fmap, <- Hcap.
Qed.
Lemma inv_new cap : (1 ≤ cap)%Z → ∃ r, Rec.NewRecorder cap = Done r ∧ inv cap r ∧ hist r = [].
Proof.
  intros Hcap. exists (MkLru ∅ GoList.New cap). unfold Rec.NewRecorder, Lru.NewLRU.
  destruct (Z.ltb_spec cap 1); [lia|]. split; [done|].
  split; [split; [by apply wf_new|done|constructor]|done].
Qed.

Lemma List_spec cap r : inv cap r → Rec.List r = Done (hist r).
Proof.
  intros [Hwf _ _]. unfold Rec.List. rewrite Filter_spec by auto using all_string_keys. simpl.
  by rewrite filter_true_id.
Qed.
Lemma Find_spec cap r s : inv cap r → Rec.Find r s = Done (History.find s (hist r)).
Proof.
  intros [Hwf _ Hi]. unfold Rec.Find. rewrite Filter_spec by auto using all_string_keys. simpl.
  unfold History.find, hist. f_equal. induction Hi as [|[k v] l [Hv _] _ IH]; [done|].
  simpl in Hv. subst v. csimpl. rewrite !filter_cons. simpl.
  destruct (GoStr.Lookup_found k s); simpl; [f_equal|]; exact IH.
Qed.

Lemma lookup_hist cap r s : inv cap r →
  LruSpec.lookup (abs r) s = if decide (s ∈ hist r) then Some s else None.
Proof.
  intros [Hwf _ Hi]. case_decide as Hs; [|by apply LruSpec.lookup_None].
  apply LruSpec.lookup_elem; [by apply NoDup_abs|]. unfold hist in Hs.
  apply list_elem_of_fmap in Hs as ([k v] & -> & Hin). rewrite Forall_forall in Hi.
  destruct (Hi _ Hin) as [Hv _]. simpl in *. by subst v.
Qed.
Lemma fmap_remove s (l : list (string * string)) :
  (LruSpec.remove s l).*1 = filter (λ x, x ≠ s) l.*1.
Proof.
  induction l as [|[k v] l IH]; [done|]. unfold LruSpec.remove in *. csimpl.
  rewrite !filter_cons. simpl. case_decide; csimpl; by rewrite IH.
Qed.
Lemma fmap_removelast {A B} (f : A → B) l : f <$> removelast l = removelast (f <$> l).
Proof.
  destruct l as [|x l _] using rev_ind; [done|].
  rewrite fmap_app. csimpl. by rewrite !removelast_last.
Qed.
Lemma Forall_removelast {A} (P : A → Prop) l : Forall P l → Forall P (removelast l).
Proof.
  destruct l as [|x l _] using rev_ind; [done|]. rewrite removelast_last.
  by intros [? _]%Forall_app.
Qed.

Lemma Add_empty r : Rec.Add r "" = Done (Err (Errorf "ERROR: record is empty"), r).
Proof. done. Qed.

Lemma Rec_Add_spec cap r s : inv cap r → s ≠ "" →
  ∃ r', Rec.Add r s = Done (Ok tt, r') ∧ inv cap r' ∧ hist r' = History.add cap s (hist r).
Proof.
  intros Hinv Hs. pose proof Hinv as [Hwf Hcap Hi].
  unfold Rec.Add. rewrite decide_False by done.
  destruct (commonGet_spec r s true Hwf) as (r1 & Hwf1 & Hcap1 & Ha1 & Hp & _).
  unfold Lru.Peek. rewrite Hp. simpl. rewrite (lookup_hist cap) by done.
  unfold History.add. case_decide as Hin.
  - destruct (commonGet_spec r1 s false Hwf1) as (r2 & Hwf2 & Hcap2 & Ha2 & Hg & _).
    unfold Lru.Contains, Lru.Get. rewrite Hg. simpl. exists r2. split; [done|].
    unfold LruSpec.touch in Ha2. rewrite Ha1 in Ha2. simpl in Ha2.
    rewrite (lookup_hist cap r s) in Ha2 by done. rewrite decide_True in Ha2 by done.
    split; [split; [done|congruence|]|].
    + rewrite Ha2. constructor; [done|]. unfold LruSpec.remove. apply Forall_forall. rewrite Forall_forall in Hi. intros p [_ Hp1]%list_elem_of_filter. by apply Hi.
    + unfold hist. rewrite Ha2. csimpl. by rewrite fmap_remove.
  - destruct (LruRefine.Add_spec r1 s s (W := unit) [] tt Hwf1) as (r2 & Hwf2 & Hcap2 & Ha2 & Hadd & _).
    rewrite Hadd. unfold LruSpec.add in *. rewrite Ha1 in *. simpl in *.
    rewrite (lookup_hist cap r s) in * by done. rewrite decide_False in * by done.
    unfold hist. rewrite length_fmap. rewrite Hcap1, Hcap in *.
    destruct (Z.eqb_spec (Z.of_nat (length (abs r))) cap) as [Heq|Hne]; simpl in *.
    + exists r2. split; [by destruct (last (abs r))|].
      split; [split; [done|congruence|]|].
      * rewrite Ha2. constructor; [done|]. by apply Forall_removelast.
      * rewrite Ha2. csimpl. by rewrite fmap_removelast.
    + exists r2. split; [done|].
      split; [split; [done|congruence|]|]; rewrite Ha2; [by constructor|done].
Qed.
End RecFacts.

(** ** Storage *)
Record Storage (W : Type) := MkStorage {
  Save : string → string → W → result unit * W;
  TryInit : string → W → result unit * W;
  Load : string → W → result string * W;
}.
Arguments MkStorage {W} _ _ _.
Arguments Save {W} _ _ _ _.
Arguments TryInit {W} _ _ _.
Arguments Load {W} _ _ _.

(** What a recorder relies on: while the storage answers, what was saved under
    a name is what is loaded; nothing saved reads as the empty text, or as an
    error. *)
Class StorageLaws {W} (st : Storage W) := {
  stored : W → string → string;
  st_healthy : W → Prop;
  law_Save f d w : st_healthy w →
    ∃ w', Save st f d w = (Ok tt, w') ∧ st_healthy w' ∧ stored w' f = d;
  law_TryInit f w : st_healthy w →
    ∃ w', TryInit st f w = (Ok tt, w') ∧ st_healthy w' ∧ stored w' f = stored w f;
  law_Load f w : st_healthy w →
    ∃ r w', Load st f w = (r, w') ∧ st_healthy w' ∧ stored w' f = stored w f ∧
      (r = Ok (stored w f) ∨ (stored w f = "" ∧ ∃ e, r = Err e));
}.
(** Names do not interfere: a write changes one name, the other calls none. *)
Class StorageFrame {W} (st : Storage W) `{!StorageLaws st} := {
  frame_Save f d w f' : f' ≠ f → stored (Save st f d w).2 f' = stored w f';
  frame_TryInit f w f' : stored (TryInit st f w).2 f' = stored w f';
  frame_Load f w f' : stored (Load st f w).2 f' = stored w f';
}.

(** *** [etcdStorage] *)
Section etcd_storage.
Context {W : Type} `{EtcdClient W}.
Definition etcdStorage : Storage W := {|
  Save f data w := Etcd.PutKV f data w;
  TryInit _ w := (Ok tt, w);
  Load f w := Etcd.GetKV f w;
|}.
End etcd_storage.

Section etcd_storage_laws.
Context {W : Type} `{EtcdLaws W}.
Definition etcd_stored (w : W) (f : string) : string :=
  match kvs w !! f with Some (v, _) => v | None => "" end.
#[export] Program Instance etcdStorage_laws : StorageLaws (etcdStorage (W := W)) := {|
  stored := etcd_stored;
  st_healthy := healthy;
|}.
Next Obligation.
  intros f d w Hh. destruct (EtcdFacts.PutKV_healthy f d w Hh) as (w' & He & Hh' & Hk & _).
  exists w'. unfold etcd_stored. rewrite Hk, lookup_insert_eq. done.
Qed.
Next Obligation. intros f w Hh. by exists w. Qed.
Next Obligation.
  intros f w Hh. destruct (EtcdFacts.GetKV_healthy f w Hh) as (w' & He & Hh' & Hk & _).
  do 2 eexists. split; [exact He|]. unfold etcd_stored. rewrite Hk.
  split_and!; [done|done|]. destruct (kvs w !! f) as [[v l]|]; eauto.
Qed.
(** The same of all keys of etcd. *)
Lemma etcd_Save_frame f d (w : W) k : k ≠ f → kvs (Save etcdStorage f d w).2 !! k = kvs w !! k.
Proof.
  intros Hne. simpl. unfold Etcd.PutKV.
  pose proof (law_Put f d 0 w) as L. destruct (cli_Put f d 0 w) as [r w']. simpl.
  destruct L as (_ & He & _).
  destruct r; simpl in He; [by rewrite He, lookup_insert_ne|].
  destruct He as [-> | ->]; [done|by rewrite lookup_insert_ne].
Qed.
Lemma etcd_Load_frame f (w : W) : kvs (Load etcdStorage f w).2 = kvs w.
Proof.
  simpl. unfold Etcd.GetKV. pose proof (law_Get f w) as L. destruct (cli_Get f w) as [r w'].
  destruct L as (_ & Hk & _). by destruct r as [[v|]|].
Qed.
Lemma etcd_stored_ext (w w' : W) f : kvs w' !! f = kvs w !! f → etcd_stored w' f = etcd_stored w f.
Proof. intros Hk. unfold etcd_stored. by rewrite Hk. Qed.
#[export] Program Instance etcdStorage_frame : StorageFrame (etcdStorage (W := W)).
Next Obligation. intros f d w f' Hne. by apply etcd_stored_ext, etcd_Save_frame. Qed.
Next Obligation. done. Qed.
Next Obligation.
  intros f w f'. apply etcd_stored_ext. by rewrite <- (etcd_Load_frame f w).
Qed.
End etcd_storage_laws.

(** *** [fileStorage], over the calls of package os *)
Class FileSys (W : Type) := {
  os_Stat : string → W → result unit * W;
  os_IsNotExist : error → bool;
  os_Create : string → W → result unit * W;
  ioutil_WriteFile : string → string → W → result unit * W;
  ioutil_ReadFile : string → W → result string * W;
}.
Section file_storage.
Context {W : Type} `{FileSys W}.
Definition fileStorage : Storage W := {|
  Save f data w := ioutil_WriteFile f data w;
  TryInit f w :=
    let '(r, w) := os_Stat f w in
    match r with
    | Err e => if os_IsNotExist e then os_Create f w else (Ok tt, w)
    | Ok _ => (Ok tt, w)
    end;
  Load f w := ioutil_ReadFile f w;
|}.
End file_storage.

(** Files in memory: none of the calls fails but for a missing file. *)
Module MemFile.
Definition no_file (f : string) : error := Errorf ("open " +:+ f +:+ ": no such file or directory").
#[export] Instance files : FileSys (gmap string string) := {|
  os_Stat f w := (match w !! f with Some _ => Ok tt | None => Err (no_file f) end, w);
  os_IsNotExist e := match e with Errorf s => GoStr.Contains s "no such file" | _ => false end;
  os_Create f w := (Ok tt, <[f := ""]> w);
  ioutil_WriteFile f d w := (Ok tt, <[f := d]> w);
  ioutil_ReadFile f w := (match w !! f with Some d => Ok d | None => Err (no_file f) end, w);
|}.
Lemma no_file_not_exist f : os_IsNotExist (no_file f) = true.
Proof.
  apply GoStr.Contains_spec. exists ("open " +:+ f +:+ ": "), " or directory".
  by rewrite !GoStr.sapp_assoc.
Qed.
#[export] Program Instance files_laws : StorageLaws (fileStorage (W := gmap string string)) := {|
  stored w f := default "" (w !! f);
  st_healthy w := True;
|}.
Next Obligation.
  intros f d w _. exists (<[f := d]> w). simpl. by rewrite lookup_insert_eq.
Qed.
Next Obligation.
  intros f w _. unfold TryInit, fileStorage. simpl os_Stat.
  destruct (w !! f) as [d|] eqn:Hf; [exists w; by rewrite Hf|].
  rewrite no_file_not_exist. exists (<[f := ""]> w). simpl. by rewrite lookup_insert_eq.
Qed.
Next Obligation.
  intros f w _. simpl. do 2 eexists. split; [done|].
  split_and!; [done|done|]. destruct (w !! f) as [d|]; [by left|].
  right. split; [done|]. by eexists.
Qed.
End MemFile.

(** ** The persistent recorder *)

(** [persistentRecorder].  The mutex only orders calls.  [stopCh] is [None] for
    the nil channel and otherwise the number of values buffered in it, of
    capacity 1.  [loops] counts the goroutines [Run] has started for the object
    and that have not finished. *)
Record precorder (W : Type) := PR {
  inited : bool;
  r : Rec.recorder;
  f : string;
  stopCh : option nat;
  storage : Storage W;
  loops : nat;
}.
Arguments PR {W} _ _ _ _ _ _.
Arguments inited {W} _.
Arguments r {W} _.
Arguments f {W} _.
Arguments stopCh {W} _.
Arguments storage {W} _.
Arguments loops {W} _.

(** The objects allocated so far, and the services. *)
Record rstate (W : Type) := RS { heap : gmap nat (precorder W); next : nat; world : W }.
Arguments RS {W} _ _ _.
Arguments heap {W} _.
Arguments next {W} _.
Arguments world {W} _.

Inductive StorageType := STORAGE_TYPE_FILE | STORAGE_TYPE_ETCD.

Module PRec.
Definition defaultFileStorageDir : string := "/var/lib/mysh/".
Definition defaultEtcdPrefix : string := "/mysh/data/".

Section prec.
Context {W : Type} `{EtcdClient W}.
Abbreviation M := (io (rstate W)).

(** Pointers *)
Definition new (p : precorder W) : M nat := λ s,
  Done (next s, RS (<[next s := p]> (heap s)) (S (next s)) (world s)).
Definition get (p : nat) : M (precorder W) := λ s,
  match heap s !! p with Some o => Done (o, s) | None => Panic "nil pointer dereference" end.
Definition set (p : nat) (o : precorder W) : M unit := λ s,
  Done (tt, RS (<[p := o]> (heap s)) (next s) (world s)).
(** A call of a service. *)
Definition svc {A} (c : W → A * W) : M A := λ s,
  let '(a, w) := c (world s) in Done (a, RS (heap s) (next s) w).
Definition set_r (o : precorder W) (x : Rec.recorder) : precorder W :=
  PR (inited o) x (f o) (stopCh o) (storage o) (loops o).
Definition set_inited (o : precorder W) : precorder W :=
  PR true (r o) (f o) (stopCh o) (storage o) (loops o).
Definition set_stopCh (o : precorder W) (n : nat) : precorder W :=
  PR (inited o) (r o) (f o) (Some n) (storage o) (loops o).
Definition set_loops (o : precorder W) (n : nat) : precorder W :=
  PR (inited o) (r o) (f o) (stopCh o) (storage o) n.

Definition NewPersistentRecorder (cap : Z) (fname : string) (st : Storage W) : M nat :=
  do r <- lift (Rec.NewRecorder cap) ;;
  new (PR false r (defaultFileStorageDir +:+ fname) None st 0).
Definition NewFileRecorder `{FileSys W} (cap : Z) (fname : string) : M nat :=
  do r <- lift (Rec.NewRecorder cap) ;;
  new (PR false r (defaultFileStorageDir +:+ fname) None fileStorage 0).
Definition NewEtcdRecorder (cap : Z) (fname : string) : M nat :=
  do r <- lift (Rec.NewRecorder cap) ;;
  new (PR false r (GoStr.Join [defaultEtcdPrefix; fname]) (Some 0) etcdStorage 0).
Definition NewTypedPersistentRecorder (cap : Z) (fname : string) (storageType : StorageType)
    : M nat :=
  match storageType with
  | STORAGE_TYPE_ETCD => NewEtcdRecorder cap fname
  | _ => NewEtcdRecorder cap fname
  end.

Definition checkInited (p : nat) : M unit :=
  do o <- get p ;;
  if inited o then mret tt
  else panic ("record [" +:+ f o +:+ "] is not inited or load ").

(** [json.Marshal] of a [[]string] does not fail. *)
Definition sync (p : nat) : M (result unit) :=
  do _ <- checkInited p ;;
  do o <- get p ;;
  do l <- lift (Rec.List (r o)) ;;
  let data := Json.Marshal l in
  svc (Save (storage o) (f o) data).

Definition Add (p : nat) (s : string) : M (result unit) :=
  do _ <- checkInited p ;;
  do o <- get p ;;
  do (e, x) <- lift (Rec.Add (r o) s) ;;
  do _ <- set p (set_r o x) ;;
  mret e.
Definition Find (p : nat) (s : string) : M (list string) :=
  do _ <- checkInited p ;;
  do o <- get p ;;
  lift (Rec.Find (r o) s).
Definition List (p : nat) : M (list string) :=
  do _ <- checkInited p ;;
  do o <- get p ;;
  lift (Rec.List (r o)).

(** [for i := len(recordObj) - 1; i >= 0; i--]: [l] is the list from its end. *)
Fixpoint load_loop (x : Rec.recorder) (l : list string) : outcome (result unit * Rec.recorder) :=
  match l with
  | [] => Done (Ok tt, x)
  | s :: l =>
    run (e, x) <- Rec.Add x s ;;
    match e with Err e => Done (Err e, x) | Ok _ => load_loop x l end
  end.
Definition initOrLoad (p : nat) : M (result unit) :=
  do o <- get p ;;
  do e <- svc (TryInit (storage o) (f o)) ;;
  match e with
  | Err e => mret (Err e)
  | Ok _ =>
    do _ <- set p (set_inited o) ;;
    do data <- svc (Load (storage o) (f o)) ;;
    match data with
    | Err e => mret (Err e)
    | Ok "" => mret (Ok tt)
    | Ok data =>
      match Json.Unmarshal data with
      | None => mret (Err (Errorf "json"))
      | Some recordObj =>
        do (e, x) <- lift (load_loop (r o) (reverse recordObj)) ;;
        do _ <- set p (set_r (set_inited o) x) ;;
        mret e
      end
    end
  end.

(** The error of [initOrLoad] is dropped; the goroutine is [tick] and
    [recv_stop], until it finishes. *)
Definition Run (p : nat) : M unit :=
  do _ <- initOrLoad p ;;
  do o <- get p ;;
  set p (set_loops o (S (loops o))).

(** A send on a nil channel, or on a full one, blocks. *)
Definition Stop (p : nat) : M unit :=
  do _ <- sync p ;;
  do o <- get p ;;
  match stopCh o with
  | Some 0 => set p (set_stopCh o 1)
  | _ => block
  end.

(** The two cases of the goroutine's [select]; [select] may choose either when
    both are ready. *)
Definition tick (p : nat) : M unit :=
  do o <- get p ;;
  match loops o with
  | 0 => mret tt
  | S _ => do _ <- sync p ;; mret tt
  end.
Definition recv_stop (p : nat) : M unit :=
  do o <- get p ;;
  match loops o, stopCh o with
  | S n, Some (S m) => set p (set_loops (set_stopCh o m) n)
  | _, _ => mret tt
  end.
End prec.
End PRec.

(** ** Facts about the persistent recorder *)
Module PRecFacts.
Import RecFacts.

(** The text [d] stands for the history [h]: it is what [sync] writes for it,
    or nothing was saved. *)
Definition data_of (h : list string) (d : string) : Prop :=
  (d = "" ∧ h = []) ∨ d = Json.Marshal h.
(** What loading [d] gives a recorder of capacity [cap]. *)
Definition loaded (cap : Z) (h : list string) : list string :=
  foldr (History.add cap) [] (Json.Coerce <$> h).

Lemma Marshal_ne h : Json.Marshal h ≠ "".
Proof. done. Qed.

Lemma loaded_good cap h :
  History.good cap h → Forall (λ s, Json.ValidString s = true) h → loaded cap h = h.
Proof.
  intros Hg Hv. unfold loaded. rewrite (list_fmap_ext _ id).
  - rewrite list_fmap_id. by apply History.rebuild.
  - intros i s Hs. apply Json.Coerce_id. rewrite Forall_forall in Hv.
    apply Hv. by eapply list_elem_of_lookup_2.
Qed.

Section facts.
Context {W : Type} `{EtcdClient W}.
Implicit Types (s : rstate W) (o : precorder W).

Lemma foldl_rev {A B} (g : A → B → B) l b :
  foldl (λ b a, g a b) b (reverse l) = foldr g b l.
Proof.
  induction l as [|a l IH]; [done|]. rewrite reverse_cons, foldl_app, IH. done.
Qed.
Lemma load_loop_spec cap l : ∀ x, inv cap x → Forall (λ c : string, c ≠ "") l →
  ∃ x', PRec.load_loop x l = Done (Ok tt, x') ∧ inv cap x' ∧
    hist x' = foldl (λ h c, History.add cap c h) (hist x) l.
Proof.
  induction l as [|c l IH]; intros x Hx Hl; simpl; [by exists x|].
  apply Forall_cons in Hl as [Hs Hl].
  destruct (Rec_Add_spec cap x c Hx Hs) as (x1 & -> & Hx1 & Hh1). simpl.
  destruct (IH x1 Hx1 Hl) as (x2 & -> & ? & Hh2). exists x2. rewrite Hh2, Hh1. done.
Qed.

(** Adding any list stops at the first empty command; what was added satisfies
    what the list does. *)
Lemma load_loop_total cap (P : string → Prop) l : ∀ x,
  inv cap x → Forall P (hist x) → Forall P l →
  ∃ e x', PRec.load_loop x l = Done (e, x') ∧ inv cap x' ∧ Forall P (hist x').
Proof.
  induction l as [|c l IH]; intros x Hx HP Hl; simpl; [by eauto|].
  apply Forall_cons in Hl as [Hc Hl]. destruct (decide (c = "")) as [->|Hne].
  { rewrite Add_empty. simpl. eauto. }
  destruct (Rec_Add_spec cap x c Hx Hne) as (x1 & -> & Hx1 & Hh1). simpl. apply IH; [done| |done].
  rewrite Hh1, Forall_forall in *. intros y [->|Hy]%History.add_elem; auto.
Qed.

Lemma sync_eq cap s p o : heap s !! p = Some o → inited o = true → inv cap (r o) →
  PRec.sync p s =
    let '(e, w) := Save (storage o) (f o) (Json.Marshal (hist (r o))) (world s) in
    Done (e, RS (heap s) (next s) w).
Proof.
  intros Ho Hi Hinv. unfold PRec.sync, PRec.checkInited, PRec.get, mbind, io_bind, lift.
  rewrite Ho, Hi. simpl. rewrite Ho, (List_spec cap) by done. simpl. unfold PRec.svc.
  by destruct (Save _ _ _ _).
Qed.

Lemma Add_eq cap s p o c : heap s !! p = Some o → inited o = true → inv cap (r o) → c ≠ "" →
  ∃ x, PRec.Add p c s = Done (Ok tt, RS (<[p := PRec.set_r o x]> (heap s)) (next s) (world s)) ∧
    inv cap x ∧ hist x = History.add cap c (hist (r o)).
Proof.
  intros Ho Hi Hinv Hc. unfold PRec.Add, PRec.checkInited, PRec.get, mbind, io_bind, lift.
  rewrite Ho, Hi. simpl. rewrite Ho.
  destruct (Rec_Add_spec cap (r o) c Hinv Hc) as (x & -> & ? & ?). simpl. by exists x.
Qed.

Lemma Find_eq cap s p o c : heap s !! p = Some o → inited o = true → inv cap (r o) →
  PRec.Find p c s = Done (History.find c (hist (r o)), s).
Proof.
  intros Ho Hi Hinv. unfold PRec.Find, PRec.checkInited, PRec.get, mbind, io_bind, lift.
  rewrite Ho, Hi. simpl. rewrite Ho, (Find_spec cap) by done. done.
Qed.

(** A recorder that was just created loads what its storage holds. *)
Lemma initOrLoad_eq (st : Storage W) `{!StorageLaws st} cap s p o h :
  heap s !! p = Some o → storage o = st → inv cap (r o) → hist (r o) = [] →
  st_healthy (world s) → data_of h (stored (world s) (f o)) → Forall (λ c : string, c ≠ "") h →
  ∃ e x w1 w2, PRec.initOrLoad p s =
      Done (e, RS (<[p := PRec.set_r (PRec.set_inited o) x]> (heap s)) (next s) w2) ∧
    inv cap x ∧ hist x = loaded cap h ∧ st_healthy w2 ∧
    stored w2 (f o) = stored (world s) (f o) ∧
    w1 = (TryInit st (f o) (world s)).2 ∧ w2 = (Load st (f o) w1).2.
Proof.
  intros Ho Hst Hinv Hh Hw Hd Hne. unfold PRec.initOrLoad, PRec.get, mbind, io_bind. rewrite Ho.
  unfold PRec.svc. rewrite Hst.
  destruct (law_TryInit (f o) (world s) Hw) as (w1 & -> & Hw1 & Hs1). simpl.
  destruct (law_Load (f o) w1 Hw1) as (r' & w2 & Hload & Hw2 & Hs2 & Hr). rewrite Hload.
  assert (loaded cap [] = []) as Hnil by done.
  destruct Hr as [->|[Hemp [e ->]]].
  - destruct Hd as [[Hd ->]|Hd].
    + rewrite Hs1, Hd. exists (Ok tt), (r o), w1, w2. simpl. rewrite Hload. split_and!; try (congruence || done).
    + rewrite Hs1, Hd. destruct (Json.Marshal h) eqn:Hm; [by apply Marshal_ne in Hm|].
      rewrite <- Hm, Json.Unmarshal_Marshal. unfold lift.
      destruct (load_loop_spec cap (reverse (Json.Coerce <$> h)) (r o)) as (x & -> & Hx & Hhx);
        [done| |].
      { apply Forall_reverse, Forall_fmap. eapply Forall_impl; [exact Hne|].
        intros c Hc Hc0. by apply Hc, Json.Coerce_nonempty. }
      simpl. rewrite insert_insert_eq. exists (Ok tt), x, w1, w2. rewrite Hload.
      split_and!; [done|done| |done|congruence|done|done].
      rewrite Hhx, Hh, foldl_rev. done.
  - destruct Hd as [[Hd ->]|Hd]; [|by rewrite Hs1, Hd in Hemp; apply Marshal_ne in Hemp].
    exists (Err e), (r o), w1, w2. simpl. rewrite Hload. split_and!; try (congruence || done).
Qed.
End facts.
End PRecFacts.

(** ** Theorems about the persistent recorder *)
Module PRecTheorems.
Import RecFacts PRecFacts.
Section theorems.
Context {W : Type} `{EtcdClient W}.
Implicit Types (s : rstate W) (o : precorder W).

(** A recorder as the constructors make it. *)
Definition created (cap : Z) o : Prop :=
  inited o = false ∧ inv cap (r o) ∧ hist (r o) = [] ∧ loops o = 0.

(** C21. Saving and loading: what [sync] writes for a running recorder, a new
    recorder of the same name and storage loads.  It has the same commands in
    the same order when they are valid UTF-8; in general the commands as JSON
    coerces them. *)
Theorem sync_then_load (st : Storage W) `{!StorageLaws st} cap s p o q o' :
  heap s !! p = Some o → storage o = st → inited o = true → inv cap (r o) →
  heap s !! q = Some o' → storage o' = st → f o' = f o → created cap o' → p ≠ q →
  st_healthy (world s) →
  ∃ s1 e s2 x, PRec.sync p s = Done (Ok tt, s1) ∧ PRec.initOrLoad q s1 = Done (e, s2) ∧
    heap s2 !! q = Some (PRec.set_r (PRec.set_inited o') x) ∧
    hist x = loaded cap (hist (r o)) ∧
    (Forall (λ c : string, Json.ValidString c = true) (hist (r o)) → hist x = hist (r o)).
Proof.
  intros Ho Hst Hi Hinv Ho' Hst' Hf (Hi' & Hinv' & Hh' & _) Hpq Hw.
  destruct (law_Save (f o) (Json.Marshal (hist (r o))) (world s) Hw) as (w1 & Hsave & Hw1 & Hd).
  destruct (initOrLoad_eq st cap (RS (heap s) (next s) w1) q o' (hist (r o)))
    as (e & x & w2 & w3 & Hload & _ & Hx & _); try done.
  { right. simpl. by rewrite Hf. }
  { by apply (hist_good cap). }
  do 4 eexists. split; [rewrite (sync_eq cap s p o) by done; by rewrite Hst, Hsave|].
  split; [exact Hload|]. split; [apply lookup_insert_eq|]. split; [done|].
  intros Hv. rewrite Hx. apply loaded_good; [by apply (hist_good cap)|done].
Qed.

(** C36. [Run] drops the error of loading.  When the storage holds a history
    but one [Load] fails, the recorder runs from an empty history, and its next
    tick replaces what was stored by the commands added since. *)
Theorem failed_load_overwrites (st : Storage W) `{!StorageLaws st} cap s p o e w1 w2 c :
  heap s !! p = Some o → storage o = st → created cap o → (1 ≤ cap)%Z → c ≠ "" →
  TryInit st (f o) (world s) = (Ok tt, w1) →
  Load st (f o) w1 = (Err e, w2) → st_healthy w2 →
  ∃ s1, (do _ <- PRec.Run p ;; do _ <- PRec.Add p c ;; PRec.tick p) s = Done (tt, s1) ∧
    stored (world s1) (f o) = Json.Marshal [c].
Proof.
  intros Ho Hst (Hi & Hinv & Hh & Hl) Hcap Hc Ht Hld Hw.
  set (o1 := PRec.set_loops (PRec.set_inited o) 1).
  assert (Hrun : PRec.Run p s = Done (tt, RS (<[p := o1]> (heap s)) (next s) w2)).
  { unfold PRec.Run, PRec.initOrLoad, PRec.get, PRec.svc, mbind, io_bind. rewrite Ho, Hst, Ht.
    simpl. rewrite Hld. simpl. rewrite lookup_insert_eq. simpl. rewrite Hl. unfold PRec.set. simpl.
    by rewrite insert_insert_eq. }
  destruct (Add_eq cap (RS (<[p := o1]> (heap s)) (next s) w2) p o1 c) as (x & Hadd & Hx & Hhx);
    [apply lookup_insert_eq|done|done|done|].
  destruct (law_Save (f o) (Json.Marshal [c]) w2 Hw) as (w3 & Hsave & _ & Hd).
  exists (RS (<[p := PRec.set_r o1 x]> (<[p := o1]> (heap s))) (next s) w3).
  split; [|done]. unfold mbind, io_bind. rewrite Hrun, Hadd. simpl.
  unfold PRec.tick, mbind, io_bind, PRec.get. simpl. rewrite lookup_insert_eq. simpl.
  rewrite (sync_eq cap _ p (PRec.set_r o1 x)) by (done || apply lookup_insert_eq). simpl.
  rewrite Hst, Hhx. simpl in *. rewrite Hh. rewrite History.add_fresh; [|set_solver|simpl; lia].
  by rewrite Hsave.
Qed.

(** C22. Type safety of what a recorder loads.  [Run] of a new recorder returns
    whatever its storage holds and however the storage answers: there is no
    panic on malformed, truncated or foreign data.  Afterwards the recorder
    satisfies its invariant, every command it holds is a non-empty string of
    valid UTF-8, none twice and no more than its capacity; so what the next
    [sync] writes is loaded again unchanged. *)
Theorem loaded_commands_are_text cap s p o :
  heap s !! p = Some o → created cap o →
  ∃ s1 o1, PRec.Run p s = Done (tt, s1) ∧ heap s1 !! p = Some o1 ∧ loops o1 = 1 ∧
    inv cap (r o1) ∧ History.good cap (hist (r o1)) ∧
    Forall (λ c : string, Json.ValidString c = true) (hist (r o1)) ∧
    loaded cap (hist (r o1)) = hist (r o1).
Proof.
  intros Ho (Hi & Hinv & Hh & Hl).
  assert (∃ e s2 o2, PRec.initOrLoad p s = Done (e, s2) ∧ heap s2 !! p = Some o2 ∧ loops o2 = 0 ∧
    inv cap (r o2) ∧ Forall (λ c : string, Json.ValidString c = true) (hist (r o2)))
    as (e & s2 & o2 & Hload & Ho2 & Hl2 & Hinv2 & Hv).
  { assert (Forall (λ c : string, Json.ValidString c = true) (hist (r o))) as Hv by by rewrite Hh.
    unfold PRec.initOrLoad, PRec.get, PRec.svc, PRec.set, lift, mbind, io_bind. rewrite Ho.
    destruct (TryInit _ _ _) as [[[]|] w]; simpl; [|by do 3 eexists].
    assert (∀ (e : result unit) w, ∃ e' s2 o2,
      Done (e, RS (<[p:=PRec.set_inited o]> (heap s)) (next s) w) = Done (e', s2) ∧
      heap s2 !! p = Some o2 ∧ loops o2 = 0 ∧
      inv cap (r o2) ∧ Forall (λ c : string, Json.ValidString c = true) (hist (r o2))) as Hnone.
    { intros e w2. do 2 eexists. exists (PRec.set_inited o). split; [done|]. simpl.
      by rewrite lookup_insert_eq. }
    destruct (Load _ _ _) as [[[|a d]|] w1]; simpl; [apply Hnone| |apply Hnone].
    destruct (Json.Unmarshal _) as [l|] eqn:Hu; [|apply Hnone]. apply Json.Unmarshal_valid in Hu.
    destruct (load_loop_total cap (λ c, Json.ValidString c = true) (reverse l) (r o))
      as (e & x & -> & Hx & Hv2); [done|done|by apply Forall_reverse|].
    simpl. do 2 eexists. exists (PRec.set_r (PRec.set_inited o) x). split; [done|]. simpl.
    by rewrite lookup_insert_eq. }
  exists (RS (<[p := PRec.set_loops o2 1]> (heap s2)) (next s2) (world s2)), (PRec.set_loops o2 1).
  unfold PRec.Run, PRec.get, PRec.set, mbind, io_bind. rewrite Hload, Ho2, Hl2.
  split; [done|]. split; [apply lookup_insert_eq|].
  pose proof (hist_good cap _ Hinv2). simpl. split_and!; by try apply loaded_good.
Qed.

(** Loading does not touch the channel. *)
Lemma initOrLoad_ch p s o e s1 : heap s !! p = Some o →
  PRec.initOrLoad p s = Done (e, s1) → ∃ o1, heap s1 !! p = Some o1 ∧ stopCh o1 = stopCh o.
Proof.
  intros Ho. unfold PRec.initOrLoad, PRec.get, PRec.svc, PRec.set, lift, mbind, io_bind. rewrite Ho.
  destruct (TryInit _ _ _) as [[[]|] w]; simpl; [|intros [= _ <-]; simpl; eauto].
  destruct (Load _ _ _) as [[[|a d]|] w1]; simpl;
    [intros [= _ <-]; simpl; rewrite lookup_insert_eq; eauto| |
     intros [= _ <-]; simpl; rewrite lookup_insert_eq; eauto].
  destruct (Json.Unmarshal _) as [l|]; [|intros [= _ <-]; simpl; rewrite lookup_insert_eq; eauto].
  destruct (PRec.load_loop _ _) as [[e' x]| |]; simpl; try done.
  intros [= _ <-]. simpl. rewrite lookup_insert_eq. eauto.
Qed.
Lemma Stop_nil p s o x : heap s !! p = Some o → stopCh o = None → PRec.Stop p s ≠ Done x.
Proof.
  intros Ho Hch. unfold PRec.Stop, PRec.sync, PRec.checkInited, PRec.get, PRec.svc, lift, mbind, io_bind.
  rewrite Ho. destruct (inited o); [|done]. simpl. rewrite Ho.
  destruct (Rec.List (r o)); simpl; [|done..].
  destruct (Save _ _ _ _). simpl. by rewrite Ho, Hch.
Qed.

(** [Stop] of a recorder that runs on files never returns: its channel was
    never made, so the send blocks. *)
Theorem file_recorder_Stop_never_returns `{FileSys W} cap name s x :
  (do p <- PRec.NewFileRecorder cap name ;; do _ <- PRec.Run p ;; PRec.Stop p) s ≠ Done x.
Proof.
  unfold PRec.NewFileRecorder, PRec.new, lift, mbind, io_bind.
  destruct (Rec.NewRecorder cap) as [x0| |]; simpl; [|done..].
  unfold PRec.Run, PRec.get, PRec.set, mbind, io_bind.
  match goal with |- context [PRec.initOrLoad ?p ?t] =>
    destruct (PRec.initOrLoad p t) as [[e s1]| |] eqn:He end; [|done..].
  apply (initOrLoad_ch _ _ _ _ _ (lookup_insert_eq _ _ _)) in He as (o1 & Ho1 & Hch).
  rewrite Ho1. eapply Stop_nil; [apply lookup_insert_eq|done].
Qed.
End theorems.

(** *** Witnesses, on an etcd in memory *)
Import MemEtcd.
Definition ex_empty : Rec.recorder := MkLru ∅ GoList.New 3.
Definition ex_rec : Rec.recorder :=
  match PRec.load_loop ex_empty ["cd /tmp"; "ls -la"] with Done (_, x) => x | _ => ex_empty end.
Lemma ex_empty_inv : inv 3 ex_empty.
Proof. by destruct (inv_new 3) as (x & [= <-] & ? & _). Qed.
Lemma ex_rec_inv : inv 3 ex_rec.
Proof.
  unfold ex_rec.
  destruct (load_loop_spec 3 ["cd /tmp"; "ls -la"] ex_empty ex_empty_inv) as (x & -> & ? & _); [|done].
  by repeat constructor.
Qed.
Definition ex_running : precorder mem := PR true ex_rec "/mysh/data/u" (Some 0) etcdStorage 1.
Definition ex_new : precorder mem := PR false ex_empty "/mysh/data/u" (Some 0) etcdStorage 0.
Definition ex_heap : gmap nat (precorder mem) := {[0 := ex_running; 1 := ex_new]}.

Lemma sync_then_load_witness :
  ∃ s1 e s2 x, PRec.sync 0 (RS ex_heap 2 (Mem ∅ ∅ [])) = Done (Ok tt, s1) ∧
    PRec.initOrLoad 1 s1 = Done (e, s2) ∧
    heap s2 !! 1 = Some (PRec.set_r (PRec.set_inited ex_new) x) ∧
    hist x = loaded 3 (hist ex_rec) ∧
    (Forall (λ c : string, Json.ValidString c = true) (hist ex_rec) → hist x = hist ex_rec).
Proof.
  apply (sync_then_load etcdStorage 3 (RS ex_heap 2 (Mem ∅ ∅ [])) 0 ex_running 1 ex_new);
    try done; [exact ex_rec_inv|split; [done|split; [exact ex_empty_inv|done]]].
Defined.

(** The next call of the service is lost. *)
Definition ex_faulty : rstate mem :=
  RS ex_heap 2 (Mem {["/mysh/data/u" := (Json.Marshal ["ls -la"; "cd /tmp"], 0%Z)]} ∅ [FDrop]).
Lemma failed_load_overwrites_witness :
  ∃ s1, (do _ <- PRec.Run 1 ;; do _ <- PRec.Add 1 "pwd" ;; PRec.tick 1) ex_faulty = Done (tt, s1) ∧
    stored (world s1) "/mysh/data/u" = Json.Marshal ["pwd"].
Proof.
  eapply (failed_load_overwrites etcdStorage 3 ex_faulty 1 ex_new); try reflexivity; try done.
  split; [done|split; [exact ex_empty_inv|done]].
Defined.
(** The storage holds a lone surrogate, a byte that is no UTF-8 and a repeated
    command: the first two become U+FFFD, the third is held once. *)
Definition ex_foreign : string :=
  Json.string_of ([91; 34; 92; 117; 100; 56; 48; 48; 34; 44; 34; 255; 34; 44; 34; 108; 115; 34; 44;
    34; 108; 115; 34; 93])%Z.
Definition ex_foreign_state : rstate mem :=
  RS ex_heap 2 (Mem {["/mysh/data/u" := (ex_foreign, 0%Z)]} ∅ []).
Example foreign_loads : match PRec.Run 1 ex_foreign_state with
  | Done (_, s1) => (λ o, hist (r o)) <$> heap s1 !! 1
  | _ => None end = Some [Json.string_of [239; 191; 189]%Z; "ls"].
Proof. vm_compute. done. Qed.
Lemma loaded_commands_are_text_witness :
  ∃ s1 o1, PRec.Run 1 ex_foreign_state = Done (tt, s1) ∧ heap s1 !! 1 = Some o1 ∧ loops o1 = 1 ∧
    inv 3 (r o1) ∧ History.good 3 (hist (r o1)) ∧
    Forall (λ c : string, Json.ValidString c = true) (hist (r o1)) ∧
    loaded 3 (hist (r o1)) = hist (r o1).
Proof.
  apply (loaded_commands_are_text 3 ex_foreign_state 1 ex_new);
    [done|split; [done|split; [exact ex_empty_inv|done]]].
Defined.
End PRecTheorems.
