(* ===== verification/RecorderMgr.v ===== *)
(** * recorder/recorder.go: the manager of the recorders

    Module [RMgr] is [recorderManager]: an LRU cache of running persistent
    recorders, one per user id, that stops a recorder when it evicts it.
    [RMgrSpec] is what it promises, a history per user, and [run_refines] the
    refinement; the other theorems say what storage failures, stopped
    goroutines and unusual ids do to a history. *)

From S2P Require Import Prelude GoList GoStr Json Etcd Lru Recorder.
Import RecFacts PRecFacts LruRefine.

(** The fields the options set. *)
Record config := Cfg { recorderNum : Z; storageType : StorageType }.
Record manager := RM { recorderSet : lru string nat; conf : config }.

Module RMgr.
Definition defaultRecorderNum : Z := 100000.
Definition defaultEtcdRecorderSize : Z := 10000.

Definition RMOpts := config → config.
Definition SetRecorderNum (n : Z) : RMOpts := λ r, Cfg n (storageType r).
Definition SetStorageType (t : StorageType) : RMOpts := λ r, Cfg (recorderNum r) t.
(** The zero value of the struct. *)
Definition zero : config := Cfg 0 STORAGE_TYPE_FILE.

(** The manager returned is a new one: of the options only the number of
    recorders is used. *)
Definition NewRecorderManager (opts : list RMOpts) : outcome manager :=
  let rm := foldl (λ r opt, opt r) zero opts in
  if (recorderNum rm =? 0)%Z
  then run l <- Lru.NewLRU defaultRecorderNum ;; Done (RM l zero)
  else run l <- Lru.NewLRU (recorderNum rm) ;; Done (RM l zero).

(** [init]: the manager [DefaultRecorderManager] returns. *)
Definition defaultRecorderManager : outcome manager :=
  run l <- Lru.NewLRU defaultRecorderNum ;; Done (RM l zero).

Section mgr.
Context {W : Type} `{EtcdClient W}.
Abbreviation M := (io (rstate W)).
Implicit Types rm : manager.

(** The callback of the eviction. *)
Definition evict (i : nat) (s : rstate W) : outcome (rstate W) :=
  run (_, s) <- PRec.Stop i s ;; Done s.
Definition tryRun rm (id : string) : M (result unit * manager) :=
  do (v, l) <- lift (Lru.Peek (recorderSet rm) id) ;;
  match v with
  | Some _ => mret (Ok tt, RM l (conf rm))
  | None =>
    do recorder <- PRec.NewTypedPersistentRecorder defaultEtcdRecorderSize id
                     (storageType (conf rm)) ;;
    do _ <- PRec.Run recorder ;;
    do l <- (λ s, run (_, l, s) <- Lru.Add l id recorder [evict] s ;; Done (l, s)) ;;
    mret (Ok tt, RM l (conf rm))
  end.

Definition Stop rm (id : string) : M (result unit * manager) :=
  do (v, l) <- lift (Lru.Peek (recorderSet rm) id) ;;
  match v with
  | Some recorder =>
    do _ <- PRec.Stop recorder ;;
    let '(_, l) := Lru.Remove l id in
    mret (Ok tt, RM l (conf rm))
  | None => mret (Ok tt, RM l (conf rm))
  end.

(** [obj.(PersistentRecorder)]: a panic when [Get] found nothing. *)
Definition assert_recorder (obj : option nat) : M nat :=
  match obj with Some p => mret p | None => panic "interface conversion" end.

Definition Add rm (id s : string) : M (result unit * manager) :=
  do (e, rm) <- tryRun rm id ;;
  match e with
  | Err e => mret (Err e, rm)
  | Ok _ =>
    do (obj, l) <- lift (Lru.Get (recorderSet rm) id) ;;
    do p <- assert_recorder obj ;;
    do e <- PRec.Add p s ;;
    mret (e, RM l (conf rm))
  end.

Definition Find rm (id s : string) : M (list string * manager) :=
  if decide (id = "" ∧ s = "") then mret ([], rm)
  else
    do (e, rm) <- tryRun rm id ;;
    match e with
    | Err _ => mret ([], rm)
    | Ok _ =>
      do (obj, l) <- lift (Lru.Get (recorderSet rm) id) ;;
      do p <- assert_recorder obj ;;
      do kList <- PRec.Find p s ;;
      mret (kList, RM l (conf rm))
    end.

(** *** Calls and goroutine steps

    The calls of the manager are serialised by its mutex.  [MTick id] is a tick
    of the goroutine of the recorder the manager holds for [id], [MRecv p] the
    goroutine of the object [p], if there is one, taking a value from its
    channel. *)
Inductive mop :=
  | MAdd (id s : string) | MFind (id s : string) | MStop (id : string)
  | MTick (id : string) | MRecv (p : nat).
Inductive mobs := MErr (e : result unit) | MList (l : list string) | MNone.

Definition exec rm (o : mop) : M (mobs * manager) :=
  match o with
  | MAdd id s => do (e, rm) <- Add rm id s ;; mret (MErr e, rm)
  | MFind id s => do (l, rm) <- Find rm id s ;; mret (MList l, rm)
  | MStop id => do (e, rm) <- Stop rm id ;; mret (MErr e, rm)
  | MTick id =>
    do (v, _) <- lift (Lru.Peek (recorderSet rm) id) ;;
    match v with
    | Some p => do _ <- PRec.tick p ;; mret (MNone, rm)
    | None => mret (MNone, rm)
    end
  | MRecv p => λ s,
    match heap s !! p with
    | Some _ => (do _ <- PRec.recv_stop p ;; mret (MNone, rm)) s
    | None => Done ((MNone, rm), s)
    end
  end.
Fixpoint exec_all rm (os : list mop) : M (list mobs * manager) :=
  match os with
  | [] => mret ([], rm)
  | o :: os =>
    do (x, rm) <- exec rm o ;;
    do (xs, rm) <- exec_all rm os ;;
    mret (x :: xs, rm)
  end.
End mgr.
End RMgr.

(** ** What the manager promises: a history per user *)
Module RMgrSpec.
Import RMgr.
Definition hists := string → list string.
Definition upd (h : hists) (id : string) (l : list string) : hists :=
  λ id', if decide (id' = id) then l else h id'.
Definition size : Z := defaultEtcdRecorderSize.

Definition spec_exec (h : hists) (o : mop) : mobs * hists :=
  match o with
  | MAdd id s =>
    if decide (s = "") then (MErr (Err (Errorf "ERROR: record is empty")), h)
    else (MErr (Ok tt), upd h id (History.add size s (h id)))
  | MFind id s => (MList (History.find s (h id)), h)
  | MStop _ => (MErr (Ok tt), h)
  | MTick _ | MRecv _ => (MNone, h)
  end.
Fixpoint spec_exec_all (h : hists) (os : list mop) : list mobs * hists :=
  match os with
  | [] => ([], h)
  | o :: os =>
    let '(x, h) := spec_exec h o in
    let '(xs, h) := spec_exec_all h os in (x :: xs, h)
  end.

(** Ids that are plain names, commands that are valid UTF-8. *)
Definition mop_ok (o : mop) : Prop :=
  match o with
  | MAdd id s => GoStr.name_ok id = true ∧ Json.ValidString s = true
  | MFind id _ => GoStr.name_ok id = true
  | _ => True
  end.
End RMgrSpec.

(** ** The refinement *)
Module RMgrRefine.
Import RMgr RMgrSpec.

Definition path (id : string) : string := GoStr.Join [PRec.defaultEtcdPrefix; id].
Lemma path_eq id : GoStr.name_ok id = true → path id = PRec.defaultEtcdPrefix +:+ id.
Proof.
  intros Hid. apply (GoStr.Join_absdir ["mysh"; "data"] id); [done| |done].
  repeat constructor.
Qed.
Lemma path_inj id id' :
  GoStr.name_ok id = true → GoStr.name_ok id' = true → path id = path id' → id = id'.
Proof. intros ??. rewrite !path_eq by done. apply (inj (String.append _)). Qed.

Section refine.
Context {W : Type} `{EtcdLaws W}.
Implicit Types (h : hists) (a : list (string * nat)) (s : rstate W) (o : precorder W).

(** Objects outside the cache that are known to stay as they are. *)
Variable stale : gmap nat (precorder W).
(** The ids whose recorders this manager may run, and what etcd holds under
    the keys of no such id: the manager leaves it alone. *)
Variable mine : string → Prop.
Variable base : gmap string (string * Z).
Definition foreign (k : string) : Prop := ∀ id, GoStr.name_ok id = true → mine id → k ≠ path id.

(** The object of a running recorder for [id]. *)
Record running (id : string) (l : list string) o : Prop := {
  run_inited : inited o = true;
  run_inv : inv size (r o);
  run_hist : hist (r o) = l;
  run_f : f o = path id;
  run_ch : stopCh o = Some 0;
  run_st : storage o = etcdStorage;
  run_loops : loops o = 1;
}.
(** The pairs [a] the cache holds, the heap and the services represent [h]. *)
Record sim a s h : Prop := {
  sim_keys : NoDup a.*1;
  sim_live : ∀ id p, (id, p) ∈ a →
    GoStr.name_ok id = true ∧ ∃ o, heap s !! p = Some o ∧ running id (h id) o;
  sim_mine : ∀ id p, (id, p) ∈ a → mine id;
  sim_stored : ∀ id, GoStr.name_ok id = true → mine id → id ∉ a.*1 →
    data_of (h id) (etcd_stored (world s) (path id));
  sim_frame : ∀ k, foreign k → kvs (world s) !! k = base !! k;
  sim_healthy : healthy (world s);
  sim_good : ∀ id, History.good size (h id);
  sim_valid : ∀ id, Forall (λ c : string, Json.ValidString c = true) (h id);
  sim_heap : ∀ p, is_Some (heap s !! p) → p < next s;
  sim_stale : ∀ p o, stale !! p = Some o → heap s !! p = Some o ∧ p ∉ a.*2;
}.

(** Pointers of different ids differ, because their paths do. *)
Lemma sim_ptr a s h id id' p : sim a s h → (id, p) ∈ a → (id', p) ∈ a → id = id'.
Proof.
  intros Hsim Hp Hp'. destruct (sim_live _ _ _ Hsim _ _ Hp) as (? & o & Ho & Hr).
  destruct (sim_live _ _ _ Hsim _ _ Hp') as (? & o' & Ho' & Hr').
  apply path_inj; [done|done|]. rewrite <- (run_f _ _ _ Hr), <- (run_f _ _ _ Hr'). congruence.
Qed.
Lemma sim_fun a s h id p p' : sim a s h → (id, p) ∈ a → (id, p') ∈ a → p = p'.
Proof.
  intros Hsim Hp Hp'. pose proof (sim_keys _ _ _ Hsim) as Hnd.
  apply LruSpec.lookup_elem in Hp; [|done]. apply LruSpec.lookup_elem in Hp'; [|done]. congruence.
Qed.
Lemma sim_fresh a s h id p : sim a s h → (id, p) ∈ a → p ≠ next s.
Proof.
  intros Hsim Hp. destruct (sim_live _ _ _ Hsim _ _ Hp) as (_ & o & Ho & _).
  assert (p < next s) by (apply (sim_heap _ _ _ Hsim); eauto). lia.
Qed.

Lemma live_path_ne a s h id p id' : sim a s h → (id, p) ∈ a → GoStr.name_ok id' = true → id' ≠ id →
  path id' ≠ path id.
Proof.
  intros Hsim Hp Hid' Hne. destruct (sim_live _ _ _ Hsim _ _ Hp) as (Hid & _).
  intros Heq. by apply Hne, path_inj.
Qed.
Lemma live_foreign a s h id p k : sim a s h → (id, p) ∈ a → foreign k → k ≠ path id.
Proof.
  intros Hsim Hp Hk. destruct (sim_live _ _ _ Hsim _ _ Hp) as (Hid & _).
  by apply Hk, (sim_mine _ _ _ Hsim id p).
Qed.

(** Only the set of pairs matters. *)
Lemma sim_perm a a' s h :
  NoDup a'.*1 → (∀ x, x ∈ a ↔ x ∈ a') → sim a s h → sim a' s h.
Proof.
  intros Hnd Ha Hsim. split; try apply Hsim; [done| | | |].
  - intros id p Hp. apply (sim_live _ _ _ Hsim). by apply Ha.
  - intros id p Hp. apply (sim_mine _ _ _ Hsim id p). by apply Ha.
  - intros id Hid Hm Hn. apply (sim_stored _ _ _ Hsim); [done|done|].
    intros ([i p] & -> & Hp)%list_elem_of_fmap. apply Hn, list_elem_of_fmap. exists (i, p).
    split; [done|]. by apply Ha.
  - intros p o Hp. destruct (sim_stale _ _ _ Hsim p o Hp) as [Ho Hn]. split; [done|].
    intros ([i q] & -> & Hq)%list_elem_of_fmap. apply Hn, list_elem_of_fmap. exists (i, q).
    split; [done|]. by apply Ha.
Qed.

Lemma upd_id h id : ∀ x, upd h id (h id) x = h x.
Proof. intros x. unfold upd. case_decide; congruence. Qed.
Lemma sim_ext a s h h' : (∀ x, h x = h' x) → sim a s h → sim a s h'.
Proof.
  intros He [? Hl ? Hs ? ? Hg Hv ? ?]. split; try done.
  - intros id p Hp. rewrite <- He. by apply Hl.
  - intros id. rewrite <- He. by apply Hs.
  - intros id. by rewrite <- He.
  - intros id. by rewrite <- He.
Qed.

(** Update the object of a running recorder. *)
Lemma sim_upd a s h id p l o' w :
  sim a s h → (id, p) ∈ a → running id l o' →
  History.good size l → Forall (λ c : string, Json.ValidString c = true) l →
  healthy w → (∀ k, k ≠ path id → kvs w !! k = kvs (world s) !! k) →
  sim a (RS (<[p := o']> (heap s)) (next s) w) (upd h id l).
Proof.
  intros Hsim Hp Hr Hg Hv Hw Hst. split; simpl; [apply Hsim| |apply Hsim| | |done| | | |].
  - intros id' p' Hp'. destruct (sim_live _ _ _ Hsim _ _ Hp') as (Hn & o & Ho & Hr').
    split; [done|]. unfold upd. destruct (decide (p' = p)) as [->|Hne].
    + assert (id' = id) as -> by (by eapply sim_ptr). rewrite lookup_insert_eq, decide_True by done.
      eauto.
    + rewrite lookup_insert_ne by done. rewrite decide_False; [by exists o|]. intros ->.
      by apply Hne, (sim_fun _ _ _ _ _ _ Hsim Hp' Hp).
  - intros id' Hid Hm Hn. assert (id' ≠ id).
    { intros ->. apply Hn, list_elem_of_fmap. by exists (id, p). }
    unfold upd. rewrite decide_False by done.
    rewrite (etcd_stored_ext (world s)) by (by apply Hst, (live_path_ne _ _ _ _ _ _ Hsim Hp)).
    by apply (sim_stored _ _ _ Hsim).
  - intros k Hk. rewrite Hst; [by apply (sim_frame _ _ _ Hsim)|].
    by apply (live_foreign _ _ _ _ _ _ Hsim Hp).
  - intros id'. unfold upd. case_decide; [done|apply Hsim].
  - intros id'. unfold upd. case_decide; [done|apply Hsim].
  - intros p' [o Ho]. apply (sim_heap _ _ _ Hsim). rewrite lookup_insert in Ho.
    case_decide; [|eauto]. subst. destruct (sim_live _ _ _ Hsim _ _ Hp) as (_ & ? & ? & _). eauto.
  - intros q o Hq. destruct (sim_stale _ _ _ Hsim q o Hq) as [Ho Hn]. split; [|done].
    rewrite lookup_insert_ne; [done|]. intros ->. apply Hn, list_elem_of_fmap. by exists (id, q).
Qed.

(** A recorder that enters the cache. *)
Lemma sim_insert a a' s h id p o :
  sim a s h → GoStr.name_ok id = true → mine id → heap s !! p = Some o → running id (h id) o →
  stale !! p = None → NoDup a'.*1 → (∀ x, x ∈ a' ↔ x = (id, p) ∨ x ∈ a) → sim a' s h.
Proof.
  intros Hsim Hid Hm Ho Hr Hst Hnd Ha. split; try apply Hsim; [done| | | |].
  - intros id' p' [[= -> ->]|Hp]%Ha; [by eauto|by apply (sim_live _ _ _ Hsim)].
  - intros id' p' [[= -> ->]|Hp]%Ha; [done|by apply (sim_mine _ _ _ Hsim id' p')].
  - intros id' Hid' Hm' Hn. apply (sim_stored _ _ _ Hsim); [done|done|].
    intros ([i q] & -> & Hp)%list_elem_of_fmap. apply Hn, list_elem_of_fmap. exists (i, q).
    split; [done|]. apply Ha. by right.
  - intros q o2 Hq. destruct (sim_stale _ _ _ Hsim q o2 Hq) as [Ho2 Hn]. split; [done|].
    intros ([i q'] & -> & [[= -> ->]|Hq']%Ha)%list_elem_of_fmap; [simpl in Hq; congruence|].
    apply Hn, list_elem_of_fmap. by exists (i, q').
Qed.
Lemma stale_fresh a s h : sim a s h → stale !! next s = None.
Proof.
  intros Hsim. destruct (stale !! next s) as [o|] eqn:Ho; [|done].
  destruct (sim_stale _ _ _ Hsim _ _ Ho) as [Ho' _].
  assert (next s < next s) by (apply (sim_heap _ _ _ Hsim); eauto). lia.
Qed.

(** Stopping a recorder saves its history; it may leave the cache. *)
Lemma Stop_sim a s h id p : sim a s h → (id, p) ∈ a →
  ∃ o w, let o' := PRec.set_stopCh o 1 in
    PRec.Stop p s = Done (tt, RS (<[p := o']> (heap s)) (next s) w) ∧
    running id (h id) o ∧
    ∀ a', NoDup a'.*1 → (∀ x, x ∈ a' ↔ x ∈ a ∧ x.1 ≠ id) →
      sim a' (RS (<[p := o']> (heap s)) (next s) w) h.
Proof.
  intros Hsim Hp. destruct (sim_live _ _ _ Hsim _ _ Hp) as (Hid & o & Ho & Hr).
  pose proof Hr as [Hi Hinv Hh Hf Hch Hst _].
  exists o, (Save (storage o) (f o) (Json.Marshal (hist (r o))) (world s)).2.
  pose proof (sync_eq size s p o Ho Hi Hinv) as Hsync.
  destruct (law_Save (st := etcdStorage) (f o) (Json.Marshal (hist (r o))) (world s))
    as (w & Hsave & Hw & Hd); [apply Hsim|].
  rewrite Hst, Hsave in *. split.
  { unfold PRec.Stop, mbind, io_bind, PRec.get. rewrite Hsync. simpl. rewrite Ho, Hch. done. }
  split; [done|]. intros a' Hnd Ha. simpl.
  assert (Hfr : ∀ k, k ≠ path id → kvs w !! k = kvs (world s) !! k).
  { intros k Hk. rewrite <- (etcd_Save_frame (f o) (Json.Marshal (hist (r o))) (world s) k) by congruence.
    by rewrite Hsave. }
  split; simpl; [done| | | | |done|apply Hsim|apply Hsim| |].
  - intros id' p' [Hp' Hne]%Ha. simpl in Hne.
    destruct (sim_live _ _ _ Hsim _ _ Hp') as (? & o2 & ? & ?). split; [done|]. exists o2.
    rewrite lookup_insert_ne; [done|]. intros ->. by apply Hne, (sim_ptr _ _ _ _ _ _ Hsim Hp' Hp).
  - intros id' p' [Hp' _]%Ha. by apply (sim_mine _ _ _ Hsim id' p').
  - intros id' Hid' Hm Hn. destruct (decide (id' = id)) as [->|Hne].
    + right. rewrite <- Hf, <- Hh. exact Hd.
    + rewrite (etcd_stored_ext (world s)) by (by apply Hfr, (live_path_ne _ _ _ _ _ _ Hsim Hp)).
      apply (sim_stored _ _ _ Hsim); [done|done|].
      intros ([i q] & -> & Hq)%list_elem_of_fmap. apply Hn, list_elem_of_fmap. exists (i, q).
      split; [done|]. by apply Ha.
  - intros k Hk. rewrite Hfr; [by apply (sim_frame _ _ _ Hsim)|].
    by apply (live_foreign _ _ _ _ _ _ Hsim Hp).
  - intros p' [o2 Ho2]. apply (sim_heap _ _ _ Hsim). rewrite lookup_insert in Ho2.
    case_decide; [subst|]; eauto.
  - intros q o2 Hq. destruct (sim_stale _ _ _ Hsim q o2 Hq) as [Ho2 Hn]. split.
    + rewrite lookup_insert_ne; [done|]. intros ->. apply Hn, list_elem_of_fmap. by exists (id, q).
    + intros ([i q'] & -> & [Hq' _]%Ha)%list_elem_of_fmap. apply Hn, list_elem_of_fmap.
      by exists (i, q').
Qed.

(** A recorder that is created and run has the history of its id. *)
Lemma new_run_sim a s h id : sim a s h → GoStr.name_ok id = true → mine id → id ∉ a.*1 → ∀ t,
  ∃ s1 s2 o, PRec.NewTypedPersistentRecorder size id t s = Done (next s, s1) ∧
    PRec.Run (next s) s1 = Done (tt, s2) ∧ sim a s2 h ∧
    heap s2 !! next s = Some o ∧ running id (h id) o.
Proof.
  intros Hsim Hid Hm Hn t. destruct (inv_new size) as (x & Hx & Hinv & Hnil); [done|].
  pose proof (sim_good _ _ _ Hsim id) as Hg. pose proof (sim_valid _ _ _ Hsim id) as Hv.
  set (o := PR false x (path id) (Some 0) etcdStorage 0).
  set (s1 := RS (<[next s := o]> (heap s)) (S (next s)) (world s)).
  assert (PRec.NewTypedPersistentRecorder size id t s = Done (next s, s1)) as Hnew.
  { unfold PRec.NewTypedPersistentRecorder, PRec.NewEtcdRecorder, mbind, io_bind, lift.
    rewrite Hx. by destruct t. }
  destruct (initOrLoad_eq etcdStorage size s1 (next s) o (h id))
    as (e & x' & w1 & w2 & Hload & Hinv' & Hh' & Hw2 & _ & -> & Hw);
    [apply lookup_insert_eq|done|done|done|apply Hsim|by apply (sim_stored _ _ _ Hsim)|apply Hg|].
  rewrite loaded_good in Hh' by done.
  eexists s1, (RS (<[next s := PRec.set_loops (PRec.set_r (PRec.set_inited o) x') 1]> (heap s))
                (S (next s)) w2), _.
  split; [done|]. split.
  { unfold PRec.Run, mbind, io_bind, PRec.get. rewrite Hload. simpl. rewrite lookup_insert_eq.
    unfold PRec.set. simpl. by rewrite !insert_insert_eq. }
  split; [|by split; [apply lookup_insert_eq|split]].
  assert (Hfr : kvs w2 = kvs (world s)) by (rewrite Hw; exact (etcd_Load_frame (path id) (world s))).
  split; simpl; [apply Hsim| |apply Hsim| | |done|apply Hsim|apply Hsim| |].
  - intros id' p' Hp'. destruct (sim_live _ _ _ Hsim _ _ Hp') as (? & o2 & ? & ?).
    split; [done|]. exists o2. rewrite lookup_insert_ne; [done|].
    by apply not_eq_sym, (sim_fresh _ _ _ _ _ Hsim Hp').
  - intros id' Hid' Hm' Hn'. rewrite (etcd_stored_ext (world s)) by (by rewrite Hfr).
    by apply (sim_stored _ _ _ Hsim).
  - intros k Hk. rewrite Hfr. by apply (sim_frame _ _ _ Hsim).
  - intros p' [o2 Ho2]. rewrite lookup_insert in Ho2. case_decide; [subst; lia|].
    assert (p' < next s) by (apply (sim_heap _ _ _ Hsim); eauto). lia.
  - intros q o2 Hq. destruct (sim_stale _ _ _ Hsim q o2 Hq) as [Ho2 Hnq]. split; [|done].
    rewrite lookup_insert_ne; [done|]. intros <-. by rewrite (stale_fresh _ _ _ Hsim) in Hq.
Qed.

Definition msim (rm : manager) s h : Prop :=
  wf (recorderSet rm) ∧ sim (abs (recorderSet rm)) s h.

Lemma add_cases cap id (p : nat) a : (1 ≤ cap)%Z → id ∉ a.*1 →
  LruSpec.add cap id p a = (None, (id, p) :: a) ∨
  ∃ a0 x, a = a0 ++ [x] ∧ LruSpec.add cap id p a = (Some x, (id, p) :: a0).
Proof.
  intros Hcap Hn. unfold LruSpec.add. rewrite (proj2 (LruSpec.lookup_None a id) Hn).
  destruct (Z.eqb_spec (Z.of_nat (length a)) cap) as [He|]; [|by left]. right.
  destruct a as [|x a0 _] using rev_ind; [simpl in He; lia|]. exists a0, x.
  by rewrite last_snoc, removelast_last.
Qed.

Lemma Peek_spec (l : lru string nat) id : wf l →
  ∃ l', Lru.Peek l id = Done (LruSpec.lookup (abs l) id, l') ∧ wf l' ∧ abs l' = abs l.
Proof.
  intros Hwf. destruct (commonGet_spec l id true Hwf) as (l' & ? & _ & Ha & Hg & _). by exists l'.
Qed.
Lemma Get_spec (l : lru string nat) id p : wf l → LruSpec.lookup (abs l) id = Some p →
  ∃ l', Lru.Get l id = Done (Some p, l') ∧ wf l' ∧ ∀ x, x ∈ abs l' ↔ x ∈ abs l.
Proof.
  intros Hwf Hl. destruct (commonGet_spec l id false Hwf) as (l' & ? & _ & Ha & Hg & _).
  simpl in *. rewrite Hl in Hg. exists l'. split_and!; [done|done|]. rewrite Ha.
  unfold LruSpec.touch, LruSpec.remove. rewrite Hl.
  assert ((id, p) ∈ abs l) as Hin by (by apply LruSpec.lookup_elem; [apply NoDup_abs|]).
  intros [i q]. rewrite elem_of_cons, list_elem_of_filter. simpl. split.
  - by intros [[= -> ->]|[_ ?]].
  - intros Hq. destruct (decide (i = id)) as [->|]; [left|by right].
    f_equal. apply LruSpec.lookup_elem in Hq; [|by apply NoDup_abs]. congruence.
Qed.

Lemma sim_same_elems (l l' : lru string nat) s h : wf l' → (∀ x, x ∈ abs l' ↔ x ∈ abs l) →
  sim (abs l) s h → sim (abs l') s h.
Proof. intros Hwf He. apply sim_perm; [by apply NoDup_abs|]. intros x. by rewrite He. Qed.

Lemma tryRun_sim rm s h id : msim rm s h → GoStr.name_ok id = true → mine id →
  ∃ rm' s' p, tryRun rm id s = Done ((Ok tt, rm'), s') ∧ msim rm' s' h ∧
    LruSpec.lookup (abs (recorderSet rm')) id = Some p.
Proof.
  intros [Hwf Hsim] Hid Hm. unfold tryRun, mbind, io_bind, lift.
  destruct (Peek_spec (recorderSet rm) id Hwf) as (l & -> & Hwfl & Ha). simpl.
  destruct (LruSpec.lookup (abs (recorderSet rm)) id) as [p|] eqn:Hl.
  { exists (RM l (conf rm)), s, p. split_and!; [done| |simpl; by rewrite Ha].
    split; simpl; [done|by rewrite Ha]. }
  rewrite <- Ha in Hsim, Hl. apply LruSpec.lookup_None in Hl.
  destruct (new_run_sim _ _ _ _ Hsim Hid Hm Hl (storageType (conf rm)))
    as (s1 & s2 & o & Hnew & Hrun & Hsim2 & Ho & Hr).
  change defaultEtcdRecorderSize with size. rewrite Hnew, Hrun.
  destruct (LruRefine.Add_spec l id (next s) [evict] s2 Hwfl) as (l' & Hwfl' & _ & Ha' & Hadd & _).
  rewrite Hadd. simpl sprint in *. pose proof (NoDup_abs _ Hwfl') as Hnd.
  destruct (add_cases (capacity l) id (next s) (abs l)) as [Heq|(a0 & [id0 p0] & Hsp & Heq)];
    [apply Hwfl|done| |]; rewrite Heq in *; simpl in *.
  - exists (RM l' (conf rm)), s2, (next s). split_and!; [done| |].
    + split; [done|]. simpl. apply (sim_insert _ _ _ _ _ _ _ Hsim2 Hid Hm Ho Hr (stale_fresh _ _ _ Hsim) Hnd).
      intros x. rewrite Ha'. set_solver.
    + simpl. apply LruSpec.lookup_elem; [done|]. rewrite Ha'. set_solver.
  - assert ((id0, p0) ∈ abs l) as Hin0 by (rewrite Hsp; set_solver).
    destruct (Stop_sim _ _ _ id0 p0 Hsim2 Hin0) as (o' & w & Hstop & _ & Hdrop).
    unfold evict. rewrite Hstop. simpl.
    assert (p0 ≠ next s) by (by eapply sim_fresh).
    exists (RM l' (conf rm)), (RS (<[p0 := PRec.set_stopCh o' 1]> (heap s2)) (next s2) w), (next s).
    split_and!; [done| |].
    + split; [done|]. simpl. apply (sim_insert a0 _ _ _ id (next s) o); [|done|done| |done|by eapply stale_fresh|done|].
      * apply Hdrop.
        -- rewrite Ha' in Hnd. by apply NoDup_cons in Hnd as [_ ?].
        -- intros x. rewrite Hsp. pose proof (NoDup_abs _ Hwfl) as Hnd0. rewrite Hsp, fmap_app in Hnd0.
           apply NoDup_app in Hnd0 as (_ & Hdis & _). split.
           ++ intros Hx. split; [set_solver|]. intros Hxi.
              apply (Hdis id0); [|set_solver]. rewrite <- Hxi. by apply list_elem_of_fmap_2.
           ++ intros [Hx Hne]. set_solver.
      * simpl. by rewrite lookup_insert_ne.
      * intros x. rewrite Ha'. set_solver.
    + simpl. apply LruSpec.lookup_elem; [done|]. rewrite Ha'. set_solver.
Qed.

(** The object of a cached id, after the cache was asked for it. *)
Lemma cached rm s h id p : msim rm s h → LruSpec.lookup (abs (recorderSet rm)) id = Some p →
  (id, p) ∈ abs (recorderSet rm) ∧
  ∃ o, heap s !! p = Some o ∧ running id (h id) o.
Proof.
  intros [Hwf Hsim] Hl. apply LruSpec.lookup_elem in Hl; [|by apply NoDup_abs].
  split; [done|]. by destruct (sim_live _ _ _ Hsim _ _ Hl).
Qed.

(** Calls about ids of this manager. *)
Definition mop_mine (o : mop) : Prop :=
  match o with MAdd id _ | MFind id _ => mine id | _ => True end.

Lemma Add_sim rm s h id c : msim rm s h → mop_ok (MAdd id c) → mine id →
  ∃ rm' s', exec rm (MAdd id c) s = Done (((spec_exec h (MAdd id c)).1, rm'), s') ∧
    msim rm' s' (spec_exec h (MAdd id c)).2.
Proof.
  intros Hs [Hid Hc] Hm. unfold exec, Add, mbind, io_bind, lift.
  destruct (tryRun_sim rm s h id Hs Hid Hm) as (rm1 & s1 & p & -> & Hs1 & Hl).
  destruct (cached _ _ _ _ _ Hs1 Hl) as (Hp & o & Ho & Hr). destruct Hs1 as [Hwf Hsim].
  destruct (Get_spec _ id p Hwf Hl) as (l & -> & Hwfl & Hel). simpl.
  pose proof Hr as [Hi Hinv Hh Hf Hch Hst Hlo]. case_decide as Hce.
  - subst c. unfold PRec.Add, PRec.checkInited, PRec.get, mbind, io_bind, lift. rewrite Ho, Hi.
    simpl. rewrite Ho. simpl. do 2 eexists. split; [done|]. split; [done|]. simpl.
    eapply sim_same_elems; [done|done|].
    eapply (sim_ext _ _ (upd h id (h id))); [intros; apply upd_id|].
    eapply sim_upd; try done; try apply Hsim.
  - destruct (Add_eq size s1 p o c Ho Hi Hinv Hce) as (x & -> & Hix & Hhx). simpl.
    do 2 eexists. split; [done|]. split; [done|]. simpl. eapply sim_same_elems; [done|done|].
    rewrite <- Hh, <- Hhx. eapply sim_upd; try done; try apply Hsim.
    + by apply hist_good.
    + apply Forall_forall. intros y Hy. rewrite Hhx in Hy.
      apply History.add_elem in Hy as [->|Hy]; [done|]. rewrite Hh in Hy.
      pose proof (sim_valid _ _ _ Hsim id) as Hv. rewrite Forall_forall in Hv. by apply Hv.
Qed.

Lemma Find_sim rm s h id c : msim rm s h → mop_ok (MFind id c) → mine id →
  ∃ rm' s', exec rm (MFind id c) s = Done (((spec_exec h (MFind id c)).1, rm'), s') ∧
    msim rm' s' h.
Proof.
  intros Hs Hid Hm. unfold exec, Find, mbind, io_bind, lift. simpl in Hid.
  rewrite decide_False by (intros [-> _]; done).
  destruct (tryRun_sim rm s h id Hs Hid Hm) as (rm1 & s1 & p & -> & Hs1 & Hl).
  destruct (cached _ _ _ _ _ Hs1 Hl) as (Hp & o & Ho & Hr). destruct Hs1 as [Hwf Hsim].
  destruct (Get_spec _ id p Hwf Hl) as (l & -> & Hwfl & Hel). simpl.
  rewrite (Find_eq size s1 p o c) by (done || apply Hr). rewrite (run_hist _ _ _ Hr).
  do 2 eexists. split; [done|]. split; [done|]. by eapply sim_same_elems.
Qed.

Lemma Stop_mgr_sim rm s h id : msim rm s h →
  ∃ rm' s', exec rm (MStop id) s = Done ((MErr (Ok tt), rm'), s') ∧ msim rm' s' h ∧
    ∀ x, x ∈ abs (recorderSet rm') ↔ x ∈ abs (recorderSet rm) ∧ x.1 ≠ id.
Proof.
  intros Hs. pose proof Hs as [Hwf Hsim]. unfold exec, Stop, mbind, io_bind, lift.
  destruct (Peek_spec (recorderSet rm) id Hwf) as (l & -> & Hwfl & Ha). simpl.
  destruct (LruSpec.lookup (abs (recorderSet rm)) id) as [p|] eqn:Hl.
  - destruct (cached _ _ _ _ _ Hs Hl) as (Hp & _).
    destruct (Stop_sim _ _ _ _ _ Hsim Hp) as (o' & w & -> & _ & Hdrop). simpl.
    pose proof (Remove_spec l id Hwfl) as Hrem. destruct (Lru.Remove l id) as [b l'].
    destruct Hrem as (Hwfl' & _ & _ & Ha' & _). simpl in Ha'. rewrite Ha in Ha'.
    do 2 eexists. split; [done|]. simpl. split.
    + split; [done|]. simpl. apply Hdrop; [by apply NoDup_abs|]. intros x. rewrite Ha'.
      unfold LruSpec.remove. rewrite list_elem_of_filter. tauto.
    + simpl. intros x. rewrite Ha'. unfold LruSpec.remove. rewrite list_elem_of_filter. tauto.
  - do 2 eexists. split; [done|]. split; [split; simpl; [done|by rewrite Ha]|]. simpl. rewrite Ha.
    intros x. split; [|tauto]. intros Hx. split; [done|]. intros <-.
    apply LruSpec.lookup_None in Hl. by apply Hl, list_elem_of_fmap_2.
Qed.

(** A tick saves the history of a running recorder. *)
Lemma tick_sim a s h id p : sim a s h → (id, p) ∈ a →
  ∃ s', PRec.tick p s = Done (tt, s') ∧ sim a s' h.
Proof.
  intros Hsim Hp. destruct (sim_live _ _ _ Hsim _ _ Hp) as (Hid & o & Ho & Hr).
  pose proof Hr as [Hi Hinv Hh Hf Hch Hst Hlo].
  unfold PRec.tick, mbind, io_bind, PRec.get. rewrite Ho, Hlo, (sync_eq size _ _ o) by done.
  destruct (law_Save (st := etcdStorage) (f o) (Json.Marshal (hist (r o))) (world s))
    as (w & Hsave & Hw & Hd); [apply Hsim|].
  rewrite Hst, Hsave. eexists. split; [done|].
  eapply (sim_ext _ _ (upd h id (h id))); [intros; apply upd_id|].
  rewrite <- (insert_id (heap s) p o Ho). eapply sim_upd; try done; try apply Hsim.
  intros k Hk. rewrite <- (etcd_Save_frame (f o) (Json.Marshal (hist (r o))) (world s) k) by congruence.
  by rewrite Hsave.
Qed.

(** A value taken from a channel changes no history. *)
Lemma recv_sim a s h p o : sim a s h → heap s !! p = Some o → stale !! p = None →
  ∃ s', PRec.recv_stop p s = Done (tt, s') ∧ sim a s' h.
Proof.
  intros Hsim Ho Hst. unfold PRec.recv_stop, mbind, io_bind, PRec.get. rewrite Ho.
  destruct (loops o) as [|n]; [by eexists|]. destruct (stopCh o) as [[|m]|] eqn:Hch; [by eexists| |by eexists].
  eexists. split; [done|]. split; simpl; try apply Hsim.
  - intros id q Hq. destruct (sim_live _ _ _ Hsim _ _ Hq) as (Hid & o2 & Ho2 & Hr). split; [done|].
    exists o2. split; [|done]. rewrite lookup_insert_ne; [done|]. intros ->.
    pose proof (run_ch _ _ _ Hr). congruence.
  - intros q [o2 Ho2]. apply (sim_heap _ _ _ Hsim). rewrite lookup_insert in Ho2.
    case_decide; [subst|]; eauto.
  - intros q o2 Hq. destruct (sim_stale _ _ _ Hsim q o2 Hq) as [Ho2 Hn]. split; [|done].
    rewrite lookup_insert_ne; [done|]. congruence.
Qed.

Definition no_recv (o : mop) : Prop := match o with MRecv p => stale !! p = None | _ => True end.
Lemma exec_sim rm s h (o : mop) : msim rm s h → mop_ok o → mop_mine o → no_recv o →
  ∃ rm' s', exec rm o s = Done (((spec_exec h o).1, rm'), s') ∧ msim rm' s' (spec_exec h o).2.
Proof.
  intros Hs Ho Hm Hnr. destruct o as [id c|id c|id|id|p].
  - by apply Add_sim.
  - by apply Find_sim.
  - destruct (Stop_mgr_sim rm s h id Hs) as (rm' & s' & ? & ? & _). eauto.
  - pose proof Hs as [Hwf Hsim]. unfold exec, mbind, io_bind, lift.
    destruct (Peek_spec (recorderSet rm) id Hwf) as (l & -> & Hwfl & Ha). simpl.
    destruct (LruSpec.lookup (abs (recorderSet rm)) id) as [p|] eqn:Hl; [|by exists rm, s].
    destruct (cached _ _ _ _ _ Hs Hl) as (Hp & _).
    destruct (tick_sim _ _ _ _ _ Hsim Hp) as (s' & -> & Hs'). by exists rm, s'.
  - pose proof Hs as [Hwf Hsim]. simpl. destruct (heap s !! p) as [o|] eqn:Ho'; [|by exists rm, s].
    destruct (recv_sim _ _ _ _ _ Hsim Ho' Hnr) as (s' & He & Hs'). unfold mbind, io_bind.
    rewrite He. by exists rm, s'.
Qed.

Lemma exec_all_sim os : ∀ rm s h, msim rm s h → Forall mop_ok os → Forall mop_mine os → Forall no_recv os →
  ∃ rm' s', exec_all rm os s = Done (((spec_exec_all h os).1, rm'), s') ∧
    msim rm' s' (spec_exec_all h os).2.
Proof.
  induction os as [|o os IH]; intros rm s h Hs Hos Hms Hnr; [by exists rm, s|].
  apply Forall_cons in Hos as [Ho Hos]. apply Forall_cons in Hms as [Hm Hms].
  apply Forall_cons in Hnr as [Hno Hnr]. simpl. unfold mbind, io_bind.
  destruct (exec_sim rm s h o Hs Ho Hm Hno) as (rm1 & s1 & -> & Hs1).
  destruct (spec_exec h o) as [x h1]. simpl in Hs1.
  destruct (IH _ _ _ Hs1 Hos Hms Hnr) as (rm2 & s2 & -> & Hs2).
  destruct (spec_exec_all h1 os) as [xs h2]. by exists rm2, s2.
Qed.
End refine.
End RMgrRefine.

(** ** Theorems about the manager *)
Module RMgrTheorems.
Import RMgr RMgrSpec RMgrRefine.
Section theorems.
Context {W : Type} `{EtcdLaws W}.
(** A manager alone: every id is its own. *)
Variable base : gmap string (string * Z).
Abbreviation msim_all stale := (msim stale (λ _, True) base).
Implicit Types (h : hists) (s : rstate W).

(** What etcd holds represents the histories [h]. *)
Record store_ok (w : W) h : Prop := {
  so_healthy : healthy w;
  so_data id : GoStr.name_ok id = true → data_of (h id) (etcd_stored w (path id));
  so_good id : History.good size (h id);
  so_valid id : Forall (λ c : string, Json.ValidString c = true) (h id);
}.

Lemma new_manager n : (1 ≤ n)%Z →
  ∃ rm, NewRecorderManager [SetRecorderNum n] = Done rm ∧
    ∀ w h, store_ok w h → msim ∅ (λ _, True) (kvs w) rm (RS ∅ 0 w) h.
Proof.
  intros Hn. unfold NewRecorderManager, Lru.NewLRU. simpl.
  destruct (Z.eqb_spec n 0); [lia|]. destruct (Z.ltb_spec n 1); [lia|].
  eexists. split; [done|]. intros w h [Hw Hd Hg Hv]. split; [by apply wf_new|].
  split; simpl; [by apply NoDup_nil_2|by intros ?? ?%not_elem_of_nil..| |done|done|done|done| |done].
  - auto.
  - intros p [o Ho]. by rewrite lookup_empty in Ho.
Qed.

(** Stopping ids writes their histories and keeps the others where they are. *)
Lemma stop_all ids : ∀ b rm s h, msim ∅ (λ _, True) b rm s h →
  ∃ xs rm' s', exec_all rm (MStop <$> ids) s = Done ((xs, rm'), s') ∧ msim ∅ (λ _, True) b rm' s' h ∧
    ∀ x, x ∈ abs (recorderSet rm') ↔ x ∈ abs (recorderSet rm) ∧ x.1 ∉ ids.
Proof.
  induction ids as [|id ids IH]; intros b rm s h Hs; [|rewrite fmap_cons; cbn [exec_all]].
  { do 3 eexists. split; [done|]. split; [done|]. set_solver. }
  unfold mbind, io_bind.
  destruct (Stop_mgr_sim ∅ _ _ rm s h id Hs) as (rm1 & s1 & -> & Hs1 & H1).
  destruct (IH _ _ _ _ Hs1) as (xs & rm2 & s2 & -> & Hs2 & H2).
  do 3 eexists. split; [done|]. split; [done|]. intros x. rewrite H2, H1. set_solver.
Qed.

Lemma exec_all_cons (o : mop) os rm rm1 rm2 s s1 s2 x xs :
  exec rm o s = Done ((x, rm1), s1) → exec_all rm1 os s1 = Done ((xs, rm2), s2) →
  exec_all (W := W) rm (o :: os) s = Done ((x :: xs, rm2), s2).
Proof. intros Ho Hos. cbn [exec_all]. unfold mbind, io_bind. by rewrite Ho, Hos. Qed.
Lemma exec_all_app os1 os2 : ∀ rm s,
  exec_all (W := W) rm (os1 ++ os2) s =
    match exec_all rm os1 s with
    | Done ((xs, rm), s) =>
      match exec_all rm os2 s with
      | Done ((ys, rm), s) => Done ((xs ++ ys, rm), s)
      | Panic m => Panic m | Block => Block
      end
    | Panic m => Panic m | Block => Block
    end.
Proof.
  induction os1 as [|o os1 IH]; intros rm s; simpl.
  - by destruct (exec_all rm os2 s) as [[[??]?]| |].
  - unfold mbind, io_bind. destruct (exec rm o s) as [[[x rm1] s1]| |]; try done.
    rewrite IH. destruct (exec_all rm1 os1 s1) as [[[??] s2]| |]; try done.
    unfold mret, io_ret. simpl. by destruct (exec_all m os2 s2) as [[[??]?]| |].
Qed.

Lemma all_mine os : Forall (mop_mine (λ _, True)) os.
Proof. apply Forall_forall. by intros [] _. Qed.
Lemma no_stale os : Forall (no_recv (W := W) ∅) os.
Proof. apply Forall_forall. intros [] _; simpl; try done. Qed.


(** C19. Stopping makes histories durable: after any sequence of calls followed by
    [Stop] for the ids [ids], etcd holds under the key of each of them the
    history the specification has for it, so that a manager started on that etcd
    goes on from there. *)
Theorem stopped_histories_are_stored n os ids (w : W) h :
  (1 ≤ n)%Z → store_ok w h → Forall mop_ok os →
  ∃ rm xs rm' s', NewRecorderManager [SetRecorderNum n] = Done rm ∧
    exec_all rm (os ++ (MStop <$> ids)) (RS ∅ 0 w) = Done ((xs, rm'), s') ∧
    ∀ id, id ∈ ids → GoStr.name_ok id = true →
      data_of ((spec_exec_all h os).2 id) (etcd_stored (world s') (path id)).
Proof.
  intros Hn Hw Hos. destruct (new_manager n Hn) as (rm & Hrm & Hinit).
  destruct (exec_all_sim ∅ _ _ os _ _ _ (Hinit _ _ Hw) Hos (all_mine os) (no_stale os)) as (rm1 & s1 & He & Hs1).
  destruct (stop_all ids _ _ _ _ Hs1) as (xs & rm2 & s2 & He2 & [_ Hs2] & Hel).
  exists rm. do 3 eexists. split; [done|]. split; [rewrite exec_all_app, He, He2; done|].
  intros id Hin Hid. apply (sim_stored _ _ _ _ _ _ Hs2); [done|done|].
  intros ([i p] & -> & Hp)%list_elem_of_fmap. apply Hel in Hp as [_ Hp]. done.
Qed.

(** After a [Stop] the object stays, with its goroutine. *)
Lemma Stop_leaves rm s h id p :
  msim_all ∅ rm s h → LruSpec.lookup (abs (recorderSet rm)) id = Some p →
  GoStr.name_ok id = true ∧ ∃ rm1 s1 o, exec rm (MStop id) s = Done ((MErr (Ok tt), rm1), s1) ∧
    msim_all {[p := PRec.set_stopCh o 1]} rm1 s1 h ∧ running id (h id) o ∧
    (∀ x, x ∈ abs (recorderSet rm1) ↔ x ∈ abs (recorderSet rm) ∧ x.1 ≠ id).
Proof.
  intros Hs Hl.
  destruct (cached _ _ _ _ _ _ _ _ Hs Hl) as (Hp & o & Ho & Hr). destruct Hs as [Hwf Hsim].
  destruct (sim_live _ _ _ _ _ _ Hsim _ _ Hp) as (Hid & _). split; [done|].
  unfold exec, RMgr.Stop, mbind, io_bind, lift.
  destruct (Peek_spec (recorderSet rm) id Hwf) as (l & -> & Hwfl & Ha). simpl. rewrite Hl.
  destruct (Stop_sim ∅ _ _ _ _ _ _ _ Hsim Hp) as (o1 & w1 & -> & Hr1 & Hdrop). simpl.
  pose proof (Remove_spec l id Hwfl) as Hrem. destruct (Lru.Remove l id) as [b l1].
  destruct Hrem as (Hwfl1 & _ & _ & Ha1 & _). simpl in Ha1. rewrite Ha in Ha1.
  assert (Hel1 : ∀ x, x ∈ abs l1 ↔ x ∈ abs (recorderSet rm) ∧ x.1 ≠ id).
  { intros x. rewrite Ha1. unfold LruSpec.remove. rewrite list_elem_of_filter. tauto. }
  do 3 eexists. split; [done|]. split; [|by split].
  split; [done|]. pose proof (Hdrop (abs l1) (NoDup_abs _ Hwfl1) Hel1) as [].
  split; try done. intros q o2 [<- <-]%lookup_singleton_Some. split; [apply lookup_insert_eq|].
  intros ([i q] & Hq & [Hin Hni]%Hel1)%list_elem_of_fmap. simpl in *. subst q.
  by apply Hni, (sim_ptr _ _ _ _ _ _ _ _ _ Hsim Hin Hp).
Qed.

(** The tick of that goroutine puts its history back. *)
Lemma stale_tick rm s h id p o l :
  msim_all {[p := PRec.set_stopCh o 1]} rm s h → running id l o → 
  id ∉ (abs (recorderSet rm)).*1 → GoStr.name_ok id = true → History.good size l →
  Forall (λ c : string, Json.ValidString c = true) l →
  ∃ s', PRec.tick p s = Done (tt, s') ∧ msim_all ∅ rm s' (upd h id l).
Proof.
  intros [Hwf Hs] [Hi Hinv Hh Hf Hch Hst Hlo] Hn Hid Hg Hv.
  destruct (sim_stale _ _ _ _ _ _ Hs p (PRec.set_stopCh o 1)) as [Ho _]; [by apply lookup_singleton_eq|].
  destruct (law_Save (st := etcdStorage) (path id) (Json.Marshal l) (world s))
    as (w & Hsave & Hw & Hd); [apply Hs|].
  pose proof (λ k, etcd_Save_frame (path id) (Json.Marshal l) (world s) k) as Hfr.
  rewrite Hsave in Hfr. exists (RS (heap s) (next s) w). split.
  { unfold PRec.tick, mbind, io_bind, PRec.get. rewrite Ho. simpl. rewrite Hlo.
    rewrite (sync_eq size s p (PRec.set_stopCh o 1)) by done. simpl. by rewrite Hst, Hf, Hh, Hsave. }
  split; [done|]. destruct Hs as [? Hlive ? Hstored Hframe ????]. split; simpl; try done.
  - intros i q Hq. destruct (Hlive i q Hq) as (? & o2 & ? & ?). split; [done|]. exists o2.
    unfold upd. rewrite decide_False; [done|]. intros ->. by apply Hn, (list_elem_of_fmap_2 fst _ (id, q)).
  - intros i Hi' _ Hni. unfold upd. case_decide as Hii; [subst i; right; exact Hd|].
    rewrite (etcd_stored_ext (world s)); [by apply Hstored|].
    apply Hfr. intros He. by apply Hii, path_inj.
  - intros k Hk. rewrite Hfr; [by apply Hframe|by apply Hk].
  - intros i. unfold upd. by case_decide.
  - intros i. unfold upd. by case_decide.
Qed.

(** A goroutine that has not yet seen its stop value can undo a command.
    When [id] is stopped, used again for a new command [c] and stopped again,
    the goroutine of the first object may still tick: it then writes its old
    history over the new one, and a later [Find] does not see [c]. *)
Theorem stale_tick_loses_command rm s h id p c :
  msim_all ∅ rm s h → LruSpec.lookup (abs (recorderSet rm)) id = Some p →
  Json.ValidString c = true → c ≠ "" → c ∉ h id →
  ∃ rm1 s1 s2 rm2 s3,
    exec_all rm [MStop id; MAdd id c; MStop id] s =
      Done (([MErr (Ok tt); MErr (Ok tt); MErr (Ok tt)], rm1), s1) ∧
    PRec.tick p s1 = Done (tt, s2) ∧
    exec rm1 (MFind id c) s2 = Done ((MList (History.find c (h id)), rm2), s3) ∧
    c ∉ History.find c (h id).
Proof.
  intros Hs Hl Hc Hne Hnew.
  destruct (Stop_leaves rm s h id p Hs Hl) as (Hid & rm1 & s1 & o & Hstop1 & Hs1 & Hr & Hsame).
  destruct (Add_sim _ _ _ rm1 s1 h id c Hs1) as (rm2 & s2 & Hadd & Hs2); [done|done|].
  assert (spec_exec h (MAdd id c) = (MErr (Ok tt), upd h id (History.add size c (h id)))) as Hspec
    by (simpl; by rewrite decide_False).
  rewrite Hspec in Hadd, Hs2. simpl fst in Hadd. simpl snd in Hs2.
  destruct (Stop_mgr_sim _ _ _ rm2 s2 _ id Hs2) as (rm3 & s3 & Hstop & Hs3 & Hel3).
  destruct (stale_tick _ _ _ _ _ _ _ Hs3 Hr) as (s4 & Htick & Hs4);
    [|done|apply Hs|apply Hs|].
  { intros ([j q] & -> & [_ Hj]%Hel3)%list_elem_of_fmap. done. }
  assert (Hs4' : msim_all ∅ rm3 s4 h).
  { destruct Hs4 as [Hwf4 Hs4]. split; [done|]. eapply sim_ext; [|exact Hs4].
    intros x. unfold upd. by repeat case_decide; subst. }
  destruct (Find_sim _ _ _ rm3 _ h id c Hs4' Hid I) as (rm4 & s5 & Hfind & _).
  exists rm3, s3, s4, rm4, s5. split.
  { by eapply exec_all_cons, exec_all_cons, exec_all_cons. }
  split_and!; [exact Htick|exact Hfind|]. unfold History.find. rewrite list_elem_of_filter. tauto.
Qed.

End theorems.

(** *** Witnesses, on an etcd in memory and a cache of one recorder *)
Import MemEtcd.
Definition ex_ops : list mop :=
  [MAdd "alice" "ls -la"; MAdd "bob" "cd /tmp"; MTick "bob"; MFind "alice" "ls"; MRecv 1;
   MAdd "alice" ""; MFind "bob" "/t"].
Lemma ex_ops_ok : Forall mop_ok ex_ops.
Proof. by repeat constructor. Qed.
Lemma ex_store_ok : store_ok (Mem ∅ ∅ []) (λ _, []).
Proof. split; [done|intros; by left|intros; by repeat constructor|constructor]. Qed.


Lemma stopped_histories_are_stored_witness :
  ∃ rm xs rm' s', NewRecorderManager [SetRecorderNum 1] = Done rm ∧
    exec_all rm (ex_ops ++ (MStop <$> ["alice"; "bob"])) (RS ∅ 0 (Mem ∅ ∅ [])) =
      Done ((xs, rm'), s') ∧
    ∀ id, id ∈ ["alice"; "bob"] → GoStr.name_ok id = true →
      data_of ((spec_exec_all (λ _, []) ex_ops).2 id) (etcd_stored (world s') (path id)).
Proof. apply stopped_histories_are_stored; [done|exact ex_store_ok|exact ex_ops_ok]. Defined.

Definition ex_hist : hists := (spec_exec_all (λ _, []) [MAdd "alice" "ls -la"]).2.
Definition ex_run : outcome (list mobs * manager * rstate mem) :=
  run rm <- NewRecorderManager [SetRecorderNum 1] ;;
  exec_all rm [MAdd "alice" "ls -la"] (RS ∅ 0 (Mem ∅ ∅ [])).
Definition ex_rm : manager :=
  match ex_run with Done ((_, rm), _) => rm | _ => RM (MkLru ∅ GoList.New 1) zero end.
Definition ex_s : rstate mem :=
  match ex_run with Done (_, s) => s | _ => RS ∅ 0 (Mem ∅ ∅ []) end.
Lemma ex_msim : msim ∅ (λ _, True) ∅ ex_rm ex_s ex_hist.
Proof.
  destruct (new_manager (W := mem) 1) as (rm & Hrm & Hinit); [done|].
  destruct (exec_all_sim ∅ _ _ [MAdd "alice" "ls -la"] rm _ _ (Hinit _ _ ex_store_ok))
    as (rm1 & s1 & He & Hs1); [by repeat constructor|apply all_mine|apply no_stale|].
  unfold ex_rm, ex_s.
  assert (ex_run = Done (((spec_exec_all (λ _, []) [MAdd "alice" "ls -la"]).1, rm1), s1)) as ->; [|done].
  unfold ex_run. rewrite Hrm. exact He.
Qed.

Lemma stale_tick_loses_command_witness :
  ∃ rm1 s1 s2 rm2 s3,
    exec_all ex_rm [MStop "alice"; MAdd "alice" "make"; MStop "alice"] ex_s =
      Done (([MErr (Ok tt); MErr (Ok tt); MErr (Ok tt)], rm1), s1) ∧
    PRec.tick 0 s1 = Done (tt, s2) ∧
    exec rm1 (MFind "alice" "make") s2 =
      Done ((MList (History.find "make" (ex_hist "alice")), rm2), s3) ∧
    "make" ∉ History.find "make" (ex_hist "alice").
Proof.
  apply (stale_tick_loses_command ∅ ex_rm ex_s ex_hist "alice" 0 "make" ex_msim);
    [vm_compute; reflexivity|done|done|vm_compute; set_solver].
Defined.
End RMgrTheorems.
