(* ===== verification/Crypto.v ===== *)
(** * The hash functions of the Go standard library the program uses

    [crypto/md5] (tokens), [crypto/sha256] (passwords) and [hash/crc32] (the hash
    ring), executable on bytes; and that CRC-32 is affine in its input, which
    the ring's termination rests on. *)

From S2P Require Import Prelude Json.
#[local] Open Scope Z_scope.

(** ** 32-bit words *)
Definition w32 (x : Z) : Z := x mod 2 ^ 32.
Definition add32 (x y : Z) : Z := w32 (x + y).
Definition not32 (x : Z) : Z := Z.lxor x (2 ^ 32 - 1).
Definition rotl (x n : Z) : Z := Z.lor (w32 (Z.shiftl x n)) (Z.shiftr x (32 - n)).
Definition rotr (x n : Z) : Z := rotl x (32 - n).

(** [n] bytes of [x], little endian and big endian. *)
Fixpoint le_bytes (n : nat) (x : Z) : list Z :=
  match n with O => [] | S n => x mod 256 :: le_bytes n (x / 256) end.
Definition be_bytes (n : nat) (x : Z) : list Z := reverse (le_bytes n x).
Definition be_word (bs : list Z) : Z := foldl (λ x b, x * 256 + b) 0 bs.
Definition le_word (bs : list Z) : Z := be_word (reverse bs).

(** The list in pieces of [n]; [fuel] bounds their number. *)
Fixpoint chunks (fuel n : nat) (l : list Z) : list (list Z) :=
  match fuel, l with
  | S fuel, _ :: _ => take n l :: chunks fuel n (drop n l)
  | _, _ => []
  end.
(** Padding to 64-byte blocks: 0x80, zeros, the length in bits on 8 bytes. *)
Definition pad (len_bytes : Z → list Z) (msg : list Z) : list Z :=
  let n := Z.of_nat (length msg) in
  msg ++ 128 :: replicate (Z.to_nat ((55 - n) mod 64)) 0 ++ len_bytes (w32 (8 * n / 2 ^ 32) * 2 ^ 32 + w32 (8 * n)).
Definition blocks (padded : list Z) : list (list Z) :=
  chunks (length padded) 64 padded.

(** ** MD5 *)
Module Md5.
Definition K : list Z := [
  3614090360; 3905402710; 606105819; 3250441966; 4118548399; 1200080426; 2821735955;
   4249261313; 1770035416; 2336552879; 4294925233; 2304563134; 1804603682; 4254626195;
   2792965006; 1236535329; 4129170786; 3225465664; 643717713; 3921069994; 3593408605; 38016083;
   3634488961; 3889429448; 568446438; 3275163606; 4107603335; 1163531501; 2850285829;
   4243563512; 1735328473; 2368359562; 4294588738; 2272392833; 1839030562; 4259657740;
   2763975236; 1272893353; 4139469664; 3200236656; 681279174; 3936430074; 3572445317; 76029189;
   3654602809; 3873151461; 530742520; 3299628645; 4096336452; 1126891415; 2878612391;
   4237533241; 1700485571; 2399980690; 4293915773; 2240044497; 1873313359; 4264355552;
   2734768916; 1309151649; 4149444226; 3174756917; 718787259; 3951481745].
Definition shifts : list Z := [7; 12; 17; 22; 5; 9; 14; 20; 4; 11; 16; 23; 6; 10; 15; 21].
Record st := St { sa : Z; sb : Z; sc : Z; sd : Z }.

(** Round [i], with the words [m] of the block. *)
Definition round (m : list Z) (v : st) (i : nat) : st :=
  let '(St a b c d) := v in
  let q := (i / 16)%nat in
  let '(f, g) :=
    match q with
    | 0 => (Z.lor (Z.land b c) (Z.land (not32 b) d), i)
    | 1 => (Z.lor (Z.land d b) (Z.land (not32 d) c), (5 * i + 1) mod 16)
    | 2 => (Z.lxor (Z.lxor b c) d, (3 * i + 5) mod 16)
    | _ => (Z.lxor c (Z.lor b (not32 d)), (7 * i) mod 16)
    end%nat in
  let x := add32 (add32 (add32 a f) (nth i K 0)) (nth g m 0) in
  St d (add32 b (rotl x (nth (4 * q + i mod 4)%nat shifts 0))) b c.
Definition block (v : st) (bs : list Z) : st :=
  let m := le_word <$> chunks 16 4 bs in
  let '(St a b c d) := foldl (round m) v (seq 0 64) in
  St (add32 (sa v) a) (add32 (sb v) b) (add32 (sc v) c) (add32 (sd v) d).
Definition init : st := St 1732584193 4023233417 2562383102 271733878.
(** [md5.Sum] *)
Definition Sum (msg : list Z) : list Z :=
  let '(St a b c d) := foldl block init (blocks (pad (le_bytes 8) msg)) in
  le_bytes 4 a ++ le_bytes 4 b ++ le_bytes 4 c ++ le_bytes 4 d.
End Md5.

(** ** SHA-256 *)
Module Sha256.
Definition K : list Z := [
  1116352408; 1899447441; 3049323471; 3921009573; 961987163; 1508970993; 2453635748;
   2870763221; 3624381080; 310598401; 607225278; 1426881987; 1925078388; 2162078206;
   2614888103; 3248222580; 3835390401; 4022224774; 264347078; 604807628; 770255983; 1249150122;
   1555081692; 1996064986; 2554220882; 2821834349; 2952996808; 3210313671; 3336571891;
   3584528711; 113926993; 338241895; 666307205; 773529912; 1294757372; 1396182291; 1695183700;
   1986661051; 2177026350; 2456956037; 2730485921; 2820302411; 3259730800; 3345764771;
   3516065817; 3600352804; 4094571909; 275423344; 430227734; 506948616; 659060556; 883997877;
   958139571; 1322822218; 1537002063; 1747873779; 1955562222; 2024104815; 2227730452;
   2361852424; 2428436474; 2756734187; 3204031479; 3329325298].
Definition H : list Z := [
  1779033703; 3144134277; 1013904242; 2773480762; 1359893119; 2600822924; 528734635; 1541459225].

(** The message schedule, last word first; [n] words are to come. *)
Fixpoint extend (n : nat) (w : list Z) : list Z :=
  match n with
  | O => w
  | S n =>
    let w15 := nth 14 w 0 in let w2 := nth 1 w 0 in
    let s0 := Z.lxor (Z.lxor (rotr w15 7) (rotr w15 18)) (Z.shiftr w15 3) in
    let s1 := Z.lxor (Z.lxor (rotr w2 17) (rotr w2 19)) (Z.shiftr w2 10) in
    extend n (add32 (add32 (add32 (nth 15 w 0) s0) (nth 6 w 0)) s1 :: w)
  end.
Definition round (v : list Z) (kw : Z * Z) : list Z :=
  match v with
  | [a; b; c; d; e; f; g; h] =>
    let s1 := Z.lxor (Z.lxor (rotr e 6) (rotr e 11)) (rotr e 25) in
    let ch := Z.lxor (Z.land e f) (Z.land (not32 e) g) in
    let t1 := add32 (add32 (add32 (add32 h s1) ch) kw.1) kw.2 in
    let s0 := Z.lxor (Z.lxor (rotr a 2) (rotr a 13)) (rotr a 22) in
    let maj := Z.lxor (Z.lxor (Z.land a b) (Z.land a c)) (Z.land b c) in
    [add32 t1 (add32 s0 maj); a; b; c; add32 d t1; e; f; g]
  | _ => v
  end.
Definition block (v : list Z) (bs : list Z) : list Z :=
  let w := reverse (extend 48 (reverse (be_word <$> chunks 16 4 bs))) in
  zip_with add32 v (foldl round v (zip K w)).
(** [sha256.Sum256] *)
Definition Sum256 (msg : list Z) : list Z :=
  mjoin (be_bytes 4 <$> foldl block H (blocks (pad (be_bytes 8) msg))).
End Sha256.

(** ** Hexadecimal, as [fmt.Sprintf("%x", ..)] prints bytes *)
Definition hex_digit (n : Z) : Z := if n <? 10 then 48 + n else 87 + n.
Definition hex (bs : list Z) : string :=
  string_of (bs ≫= λ b, [hex_digit (b / 16); hex_digit (b mod 16)]).

(** ** CRC-32, reflected, polynomial 0xedb88320 *)
Module Crc32.
Definition poly : Z := 3988292384.
Definition bit (x : Z) : Z :=
  if Z.odd x then Z.lxor (Z.shiftr x 1) poly else Z.shiftr x 1.
Definition bits8 (x : Z) : Z := bit (bit (bit (bit (bit (bit (bit (bit x))))))).
Definition byte (crc b : Z) : Z := bits8 (Z.lxor crc b).
Definition update (crc : Z) (bs : list Z) : Z := foldl byte crc bs.
(** [crc32.ChecksumIEEE] *)
Definition ChecksumIEEE (bs : list Z) : Z := not32 (update (2 ^ 32 - 1) bs).
End Crc32.

(** The test vectors of the algorithms. *)
Example Md5_ex : hex (Md5.Sum (bytes_of "message digest")) = "f96b697d7cb7938d525a2f31aaf161d0" ∧
  hex (Md5.Sum []) = "d41d8cd98f00b204e9800998ecf8427e".
Proof. vm_compute. done. Qed.
Example Sha256_ex :
  hex (Sha256.Sum256 (bytes_of "abc")) =
    "ba7816bf8f01cfea414140de5dae2223b00361a396177a9cb410ff61f20015ad" ∧
  hex (Sha256.Sum256 (bytes_of "abcdbcdecdefdefgefghfghighijhijkijkljklmklmnlmnomnopnopq")) =
    "248d6a61d20638b8e5c026930c3e6039a33ce45964ff2167f6ecedd419db06c1".
Proof. vm_compute. done. Qed.
Example Crc32_ex : Crc32.ChecksumIEEE (bytes_of "123456789") = 3421780262.
Proof. vm_compute. done. Qed.

(** ** Facts *)
Module CryptoFacts.

Lemma length_le_bytes n : ∀ x, length (le_bytes n x) = n.
Proof. induction n as [|n IH]; intros x; simpl; [done|by rewrite IH]. Qed.
Lemma le_bytes_byte n : ∀ x, Forall is_byte (le_bytes n x).
Proof.
  induction n as [|n IH]; intros x; simpl; [constructor|]. constructor; [|apply IH].
  unfold is_byte. pose proof (Z.mod_pos_bound x 256). lia.
Qed.
Lemma length_be_bytes n x : length (be_bytes n x) = n.
Proof. unfold be_bytes. by rewrite length_reverse, length_le_bytes. Qed.

Lemma length_Md5 msg : length (Md5.Sum msg) = 16%nat.
Proof.
  unfold Md5.Sum. destruct (foldl _ _ _). by rewrite !length_app, !length_le_bytes.
Qed.
Lemma Md5_byte msg : Forall is_byte (Md5.Sum msg).
Proof.
  unfold Md5.Sum. destruct (foldl _ _ _). rewrite !Forall_app. auto using le_bytes_byte.
Qed.

Lemma length_round v kw : length v = 8%nat → length (Sha256.round v kw) = 8%nat.
Proof. by do 9 (destruct v as [|? v]; [done|]). Qed.
Lemma length_rounds kws : ∀ v, length v = 8%nat → length (foldl Sha256.round v kws) = 8%nat.
Proof. induction kws as [|kw kws IH]; intros v Hv; simpl; [done|]. by apply IH, length_round. Qed.
Lemma length_sha_blocks bss : ∀ v, length v = 8%nat → length (foldl Sha256.block v bss) = 8%nat.
Proof.
  induction bss as [|bs bss IH]; intros v Hv; simpl; [done|]. apply IH. unfold Sha256.block.
  rewrite length_zip_with, length_rounds by done. lia.
Qed.
Lemma length_words n ws : length (mjoin (be_bytes n <$> ws)) = (n * length ws)%nat.
Proof.
  induction ws as [|w ws IH]; csimpl; [lia|]. rewrite length_app, length_be_bytes, IH. lia.
Qed.
Lemma length_Sha256 msg : length (Sha256.Sum256 msg) = 32%nat.
Proof. unfold Sha256.Sum256. by rewrite length_words, length_sha_blocks. Qed.
Lemma Sha256_byte msg : Forall is_byte (Sha256.Sum256 msg).
Proof.
  unfold Sha256.Sum256. induction (foldl _ _ _) as [|w ws IH]; [constructor|].
  rewrite fmap_cons. apply Forall_app. split; [|done].
  unfold be_bytes. apply Forall_reverse, le_bytes_byte.
Qed.

(** CRC-32 is affine: a difference of the states propagates on its own. *)
Import Crc32.
Lemma bit_lxor x y : bit (Z.lxor x y) = Z.lxor (bit x) (bit y).
Proof.
  unfold bit. rewrite Z.shiftr_lxor, <- !Z.bit0_odd, Z.lxor_spec.
  destruct (Z.testbit x 0), (Z.testbit y 0); simpl; apply Z.bits_inj'; intros n Hn;
    rewrite ?Z.lxor_spec; by repeat destruct (Z.testbit _ _).
Qed.
Lemma bits8_lxor x y : bits8 (Z.lxor x y) = Z.lxor (bits8 x) (bits8 y).
Proof. unfold bits8. by rewrite !bit_lxor. Qed.
Lemma byte_lxor x y b d : byte (Z.lxor x y) (Z.lxor b d) = Z.lxor (byte x b) (byte y d).
Proof.
  unfold byte. rewrite <- bits8_lxor. f_equal. rewrite !Z.lxor_assoc. f_equal.
  rewrite <- !Z.lxor_assoc. f_equal. apply Z.lxor_comm.
Qed.
Lemma update_lxor bs : ∀ ds x y, length ds = length bs →
  update (Z.lxor x y) (zip_with Z.lxor bs ds) = Z.lxor (update x bs) (update y ds).
Proof.
  unfold update. induction bs as [|b bs IH]; intros [|d ds] x y Hl; simplify_eq/=; [done|].
  by rewrite byte_lxor, IH.
Qed.
Lemma update_app x bs1 bs2 : update x (bs1 ++ bs2) = update (update x bs1) bs2.
Proof. unfold update. apply foldl_app. Qed.

(** The low bits of an exclusive or. *)
Lemma lxor_mod x y n : 0 ≤ n → Z.lxor x y mod 2 ^ n = Z.lxor (x mod 2 ^ n) (y mod 2 ^ n).
Proof.
  intros Hn. rewrite <- !Z.land_ones by done. apply Z.bits_inj'. intros k Hk.
  rewrite Z.land_spec, !Z.lxor_spec, !Z.land_spec. by repeat destruct (Z.testbit _ _).
Qed.
Lemma lxor_small x y n : 0 ≤ n → 0 ≤ x < 2 ^ n → 0 ≤ y < 2 ^ n → 0 ≤ Z.lxor x y < 2 ^ n.
Proof.
  intros Hn Hx Hy. rewrite <- (Z.mod_small x (2 ^ n)), <- (Z.mod_small y (2 ^ n)) by done.
  rewrite <- lxor_mod by done. apply Z.mod_pos_bound. lia.
Qed.
End CryptoFacts.
