(* ===== verification/HashRing.v ===== *)
(** * vendor/github.com/1071496910/consistent-hashing: the hash ring

    Module [HashRing] is the ring of [hashring.go], its probing loops with a
    bound on the rounds ([None]: the bound did not suffice); the theorems give
    the bound for the program's ring of 4096 slots, what a lookup returns, and
    what adding and deleting a node changes. *)

From S2P Require Import Prelude GoStr Json Crypto.
From Stdlib Require Import Ascii.

Record virtualNode := VNode { name : string; symbolName : string; addr : string }.
#[export] Instance virtualNode_eq_dec : EqDecision virtualNode.
Proof. solve_decision. Defined.

Record hashRing := HR {
  nodeVNameMap : gmap string nat;
  vnodeSlice : list (option virtualNode);
  addedNode : gset string;
  slotNum : Z;
  vNodeNum : Z;
}.

Module HashRing.
Implicit Types hr : hashRing.

Definition NewHashRing (slots vnodes : Z) : result hashRing :=
  if ((slots <=? 0) || (vnodes <=? 0))%Z
  then Err (Errorf "slotNum or vNodeNum can't less than 0.")
  else Ok (HR ∅ (replicate (Z.to_nat slots) None) ∅ slots vnodes).

Definition hashToSlot hr (s : string) : nat :=
  Z.to_nat (Crc32.ChecksumIEEE (bytes_of s) mod w32 (slotNum hr)).

(** [hr.vnodeSlice[i]] *)
Definition slot_at hr (i : nat) : option virtualNode := mjoin (vnodeSlice hr !! i).

Definition vname_of (a : string) (i : nat) : string := a +:+ "--" +:+ GoStr.Itoa (Z.of_nat i).
Definition symbol_of (vname : string) (j : nat) : string :=
  vname +:+ "-" +:+ GoStr.Itoa (Z.of_nat j).

(** [for j := 0; ; j++]: the first free slot; [fuel] bounds the rounds. *)
Fixpoint probe (fuel : nat) hr (vname : string) (j : nat) : option (string * nat) :=
  match fuel with
  | O => None
  | S fuel =>
    let symbolName := symbol_of vname j in
    let slotN := hashToSlot hr symbolName in
    match slot_at hr slotN with
    | None => Some (symbolName, slotN)
    | Some _ => probe fuel hr vname (S j)
    end
  end.
(** [for i := 0; i < hr.vNodeNum; i++]: one virtual node per element. *)
Fixpoint add_vnodes (fuel : nat) hr (a : string) (idx : list nat) : option hashRing :=
  match idx with
  | [] => Some hr
  | i :: idx =>
    let vname := vname_of a i in
    '(symbolName, slotN) ← probe fuel hr vname 0;
    add_vnodes fuel
      (HR (<[vname := slotN]> (nodeVNameMap hr))
          (<[slotN := Some (VNode vname symbolName a)]> (vnodeSlice hr))
          (addedNode hr) (slotNum hr) (vNodeNum hr)) a idx
  end.
Definition indices hr : list nat := seq 0 (Z.to_nat (vNodeNum hr)).

Definition AddNode (fuel : nat) hr (a : string) : option (result unit * hashRing) :=
  if decide (a = "") then Some (Err (Errorf "addr can't be empty string."), hr)
  else if decide (a ∈ addedNode hr) then Some (Err (Errorf "node already added."), hr)
  else
    hr ← add_vnodes fuel hr a (indices hr);
    Some (Ok tt, HR (nodeVNameMap hr) (vnodeSlice hr) ({[a]} ∪ addedNode hr)
                    (slotNum hr) (vNodeNum hr)).

Definition del_vnode hr (a : string) (i : nat) : hashRing :=
  let vname := vname_of a i in
  match nodeVNameMap hr !! vname with
  | Some slotN => HR (delete vname (nodeVNameMap hr)) (<[slotN := None]> (vnodeSlice hr))
                     (addedNode hr) (slotNum hr) (vNodeNum hr)
  | None => hr
  end.
Definition DelNode hr (a : string) : result unit * hashRing :=
  if decide (a = "") then (Err (Errorf "addr can't be empty string."), hr)
  else if decide (a ∉ addedNode hr) then (Err (Errorf "node not exist when delete node."), hr)
  else
    let hr := foldl (λ hr i, del_vnode hr a i) hr (indices hr) in
    (Ok tt, HR (nodeVNameMap hr) (vnodeSlice hr) (addedNode hr ∖ {[a]}) (slotNum hr) (vNodeNum hr)).

(** [for i := keySlot; i < slotNum; i = (i + 1) % slotNum]: the condition always
    holds, so only a virtual node ends the loop. *)
Fixpoint get_loop (fuel : nat) hr (key : string) (i : nat) : option (result string) :=
  match fuel with
  | O => None
  | S fuel =>
    if (Z.of_nat i <? w32 (slotNum hr))%Z then
      match slot_at hr i with
      | Some vnode => Some (Ok (addr vnode))
      | None => get_loop fuel hr key (Z.to_nat (w32 (Z.of_nat i + 1) mod w32 (slotNum hr)))
      end
    else Some (Err (Errorf ("can't get node for key " +:+ key +:+ ".")))
  end.
Definition GetNode (fuel : nat) hr (key : string) : option (result string) :=
  if decide (key = "") then Some (Err (Errorf "key can't be empty string."))
  else get_loop fuel hr key (hashToSlot hr key).
End HashRing.

(** The ring of the server, with its first node. *)
Definition HashRingSlotNum : Z := 4096.
Definition HashRingVNodeNum : Z := 32.
Example AddNode_ex :
  (hr ← match HashRing.NewHashRing HashRingSlotNum HashRingVNodeNum with Ok hr => Some hr | Err _ => None end;
   '(r, hr) ← HashRing.AddNode 100 hr "[::]:8083";
   HashRing.GetNode 4096 hr "alice") = Some (Ok "[::]:8083").
Proof. vm_compute. done. Qed.

(** ** Names of virtual nodes *)
Module RingNames.
Import HashRing.

Lemma has_char_pretty_N (n : N) : GoStr.has_char "-"%char (pretty n) = false.
Proof. apply GoStr.has_char_pretty. GoStr.other_char. Qed.
Lemma Itoa_nat i : GoStr.Itoa (Z.of_nat i) = pretty (N.of_nat i).
Proof. by destruct i. Qed.
Lemma has_char_Itoa i : GoStr.has_char "-"%char (GoStr.Itoa (Z.of_nat i)) = false.
Proof. rewrite Itoa_nat. apply has_char_pretty_N. Qed.
Lemma Itoa_inj i j : GoStr.Itoa (Z.of_nat i) = GoStr.Itoa (Z.of_nat j) → i = j.
Proof. rewrite !Itoa_nat. intros H%(inj pretty). lia. Qed.

Lemma dashes_inj s1 : ∀ s2 d1 d2,
  GoStr.has_char "-"%char d1 = false → GoStr.has_char "-"%char d2 = false →
  s1 +:+ "--" +:+ d1 = s2 +:+ "--" +:+ d2 → s1 = s2 ∧ d1 = d2.
Proof.
  assert (∀ c s d d', GoStr.has_char "-"%char d' = false →
    "--" +:+ d' = String c s +:+ "--" +:+ d → False) as Hno.
  { intros c s d d' Hd' Heq. simpl in Heq. injection Heq as _ Heq.
    destruct s as [|c' s]; simpl in Heq.
    - injection Heq as Heq. change (d' = String "-" d) in Heq. by subst d'.
    - injection Heq as _ Heq. change (d' = s +:+ "--" +:+ d) in Heq. subst d'. rewrite GoStr.has_char_app in Hd'. simpl in Hd'.
      by rewrite orb_true_r in Hd'. }
  induction s1 as [|c s1 IH]; intros [|c' s2] d1 d2 Hd1 Hd2 Heq.
  - by injection Heq.
  - by apply Hno in Heq.
  - symmetry in Heq. by apply Hno in Heq.
  - injection Heq as -> Heq. destruct (IH _ _ _ Hd1 Hd2 Heq) as [-> ->]. done.
Qed.
Lemma vname_inj a i a' i' : vname_of a i = vname_of a' i' → a = a' ∧ i = i'.
Proof.
  intros [-> Hi]%dashes_inj; [|apply has_char_Itoa..]. split; [done|]. by apply Itoa_inj.
Qed.
End RingNames.

(** ** Every slot of a ring of 4096 is probed

    The suffixes "-10000" .. "-17777" with octal digits reach every slot.  CRC-32
    is affine: xoring numbers below 8 into the last four digits xors a linear
    function of them into the checksum, and the twelve bits they have suffice
    for every difference modulo 4096. *)
Module RingProbe.
Import HashRing.
#[local] Open Scope Z_scope.

Definition probe_bound : nat := Z.to_nat 17778.
Definition digits (j : nat) : list Z := bytes_of (GoStr.Itoa (Z.of_nat j)).

Lemma digit_byte d : 0 ≤ d < 8 → byte_of (pretty_N_char (Z.to_N d)) = Z.lxor 48 d.
Proof.
  intros Hd. assert (d = 0 ∨ d = 1 ∨ d = 2 ∨ d = 3 ∨ d = 4 ∨ d = 5 ∨ d = 6 ∨ d = 7) as Hc by lia.
  repeat destruct Hc as [->|Hc]; try subst d; done.
Qed.
Definition octal (ds : list Z) : Prop := length ds = 4%nat ∧ Forall (λ d, 0 ≤ d < 8) ds.
(** The suffix whose last four digits are [ds]. *)
Lemma digits_octal ds : octal ds →
  ∃ j, (j < probe_bound)%nat ∧
    digits j = zip_with Z.lxor [49; 48; 48; 48; 48] (0 :: ds).
Proof.
  intros [Hl Hds]. do 4 (destruct ds as [|? ds]; [done|]). destruct ds; [|done]. clear Hl.
  repeat match goal with H : Forall _ (_ :: _) |- _ => apply Forall_cons in H as [? H] end.
  set (N4 := (10 * (10 * (10 * (10 * 1 + Z.to_N z) + Z.to_N z0) + Z.to_N z1) + Z.to_N z2)%N).
  exists (N.to_nat N4). split; [unfold N4, probe_bound; lia|].
  unfold digits. rewrite RingNames.Itoa_nat, N2Nat.id. unfold N4.
  rewrite !GoStr.pretty_N_snoc by lia. rewrite !bytes_of_app. simpl bytes_of.
  rewrite !digit_byte by done. done.
Qed.

(** The differences the last four digits reach. *)
Definition reached (r : Z) : Prop :=
  ∃ ds, octal ds ∧ Crc32.update 0 (0 :: ds) mod 2 ^ 12 = r.
Lemma reached_lxor r1 r2 : reached r1 → reached r2 → reached (Z.lxor r1 r2).
Proof.
  intros (ds1 & [Hl1 Hd1] & <-) (ds2 & [Hl2 Hd2] & <-). exists (zip_with Z.lxor ds1 ds2). split.
  - split; [rewrite length_zip_with; lia|]. apply Forall_lookup_2. intros i x Hx.
    apply lookup_zip_with_Some in Hx as (x1 & x2 & -> & H1 & H2).
    apply (CryptoFacts.lxor_small x1 x2 3); [done| |].
    + exact (Forall_lookup_1 _ _ _ _ Hd1 H1).
    + exact (Forall_lookup_1 _ _ _ _ Hd2 H2).
  - rewrite <- CryptoFacts.lxor_mod by lia. f_equal.
    rewrite <- (CryptoFacts.update_lxor (0 :: ds1) (0 :: ds2) 0 0) by (simpl; congruence). done.
Qed.
Definition pre_images : list (list Z) :=
  [[4; 2; 2; 3]; [1; 2; 6; 5]; [0; 5; 3; 2]; [7; 4; 1; 2]; [6; 4; 6; 1]; [2; 6; 0; 4];
   [1; 5; 1; 5]; [7; 3; 3; 7]; [5; 7; 2; 6]; [6; 1; 7; 2]; [5; 2; 5; 4]; [7; 7; 6; 3]].
Lemma reached_pow2 k : (k < 12)%nat → reached (2 ^ Z.of_nat k).
Proof.
  intros Hk. destruct (lookup_lt_is_Some_2 pre_images k) as [ds Hds]; [done|]. exists ds.
  do 12 (destruct k as [|k]; [injection Hds as <-; split; [split; [done|]|done];
    by repeat constructor|]). lia.
Qed.
Lemma reached_all (n : nat) : (n ≤ 12)%nat → ∀ r, 0 ≤ r < 2 ^ Z.of_nat n → reached r.
Proof.
  induction n as [|n IH]; intros Hn r Hr.
  - assert (r = 0) as -> by (simpl in Hr; lia).
    rewrite <- (Z.lxor_nilpotent (2 ^ Z.of_nat 0)). apply reached_lxor; apply reached_pow2; lia.
  - rewrite Nat2Z.inj_succ, Z.pow_succ_r in Hr by lia.
    destruct (Z.lt_ge_cases r (2 ^ Z.of_nat n)) as [|Hge]; [apply IH; lia|].
    replace r with (Z.lxor (2 ^ Z.of_nat n) (r - 2 ^ Z.of_nat n)).
    + apply reached_lxor; [apply reached_pow2; lia|apply IH; lia].
    + rewrite <- Z.add_nocarry_lxor; [lia|]. apply Z.bits_inj'. intros i Hi.
      rewrite Z.land_spec, Z.bits_0, Z.pow2_bits_eqb by lia.
      destruct (Z.eqb_spec (Z.of_nat n) i) as [<-|]; [|done]. simpl.
      apply Z.testbit_false; [lia|]. rewrite Z.div_small by lia. done.
Qed.

(** From any state some suffix reaches any residue. *)
Lemma update_hits x t : 0 ≤ t < 2 ^ 12 →
  ∃ j, (j < probe_bound)%nat ∧ Crc32.update x (digits j) mod 2 ^ 12 = t.
Proof.
  intros Ht. set (c := Crc32.update x [49; 48; 48; 48; 48] mod 2 ^ 12).
  assert (0 ≤ c < 2 ^ 12) by (apply Z.mod_pos_bound; lia).
  destruct (reached_all 12 ltac:(done) (Z.lxor c t)) as (ds & Ho & Hr).
  { by apply (CryptoFacts.lxor_small c t 12). }
  destruct (digits_octal ds Ho) as (j & Hj & Hdj). exists j. split; [done|].
  rewrite Hdj, <- (Z.lxor_0_r x), CryptoFacts.update_lxor by (simpl; destruct Ho; congruence).
  rewrite CryptoFacts.lxor_mod by lia. fold c. rewrite Hr.
  by rewrite <- Z.lxor_assoc, Z.lxor_nilpotent, Z.lxor_0_l.
Qed.

Lemma symbol_hits hr vname t : slotNum hr = 4096 → (t < 4096)%nat →
  ∃ j, (j < probe_bound)%nat ∧ hashToSlot hr (symbol_of vname j) = t.
Proof.
  intros Hn Ht. unfold hashToSlot, symbol_of, Crc32.ChecksumIEEE, not32. rewrite Hn.
  change (w32 4096) with (2 ^ 12). set (m := (2 ^ 32 - 1) mod 2 ^ 12).
  set (x := Crc32.update (2 ^ 32 - 1) (bytes_of vname ++ bytes_of "-")).
  destruct (update_hits x (Z.lxor (Z.of_nat t) m)) as (j & Hj & Hr).
  { apply CryptoFacts.lxor_small; [lia|lia|]. unfold m. apply Z.mod_pos_bound. lia. }
  exists j. split; [done|]. rewrite CryptoFacts.lxor_mod by lia. fold m.
  rewrite !bytes_of_app, app_assoc, CryptoFacts.update_app. fold x.
  change (bytes_of (GoStr.Itoa (Z.of_nat j))) with (digits j). rewrite Hr.
  rewrite Z.lxor_assoc, Z.lxor_nilpotent, Z.lxor_0_r. lia.
Qed.
End RingProbe.
#[global] Opaque RingProbe.probe_bound.

(** ** The invariant *)
Module RingFacts.
Import HashRing RingNames RingProbe.
Implicit Types (hr : hashRing) (own : string → nat → Prop).

(** The slots and the map hold the same virtual nodes, those of [own]. *)
Record ring own hr : Prop := {
  ring_slots : (0 < slotNum hr < 2 ^ 32)%Z;
  ring_length : length (vnodeSlice hr) = Z.to_nat (slotNum hr);
  ring_map vn s : nodeVNameMap hr !! vn = Some s ↔ ∃ v, slot_at hr s = Some v ∧ name v = vn;
  ring_slot s v : slot_at hr s = Some v → ∃ i, own (addr v) i ∧ name v = vname_of (addr v) i;
  ring_own a i : own a i → is_Some (nodeVNameMap hr !! vname_of a i);
}.
(** All virtual nodes of the nodes added. *)
Definition owners hr (a : string) (i : nat) : Prop :=
  a ∈ addedNode hr ∧ i < Z.to_nat (vNodeNum hr).
Definition ok hr : Prop := ring (owners hr) hr ∧ "" ∉ addedNode hr.

Lemma ring_ext own own' hr : (∀ a i, own a i ↔ own' a i) → ring own hr → ring own' hr.
Proof.
  intros He [? ? ? Hs Ho]. split; try done.
  - intros s v Hv. destruct (Hs s v Hv) as (i & ? & ?). exists i. by rewrite <- He.
  - intros a i ?. apply Ho. by rewrite He.
Qed.
Lemma w32_slots own hr : ring own hr → w32 (slotNum hr) = slotNum hr.
Proof. intros Hr. pose proof (ring_slots _ _ Hr). unfold w32. apply Z.mod_small. lia. Qed.
Lemma hash_lt own hr s : ring own hr → hashToSlot hr s < Z.to_nat (slotNum hr).
Proof.
  intros Hr. unfold hashToSlot. rewrite (w32_slots _ _ Hr). pose proof (ring_slots _ _ Hr).
  pose proof (Z.mod_pos_bound (Crc32.ChecksumIEEE (bytes_of s)) (slotNum hr)). lia.
Qed.
Lemma new_ok slots vnodes : (0 < slots < 2 ^ 32)%Z → (0 < vnodes)%Z →
  ∃ hr, NewHashRing slots vnodes = Ok hr ∧ ok hr ∧ slotNum hr = slots ∧ vNodeNum hr = vnodes ∧
    addedNode hr = ∅.
Proof.
  intros Hs Hv. unfold NewHashRing. destruct (Z.leb_spec slots 0); [lia|].
  destruct (Z.leb_spec vnodes 0); [lia|]. eexists. split; [done|]. split_and!; try done.
  assert (Hnone : ∀ s, slot_at (HR ∅ (replicate (Z.to_nat slots) None) ∅ slots vnodes) s = None).
  { intros s. unfold slot_at. simpl.
    destruct (replicate (Z.to_nat slots) (@None virtualNode) !! s) eqn:He; [|done].
    by apply lookup_replicate in He as [-> _]. }
  split; [|set_solver]. split; simpl; try done.
  - by rewrite length_replicate.
  - intros vn s. rewrite lookup_empty. split; [done|]. intros (v & Hv' & _). by rewrite Hnone in Hv'.
  - intros s v Hsv. by rewrite Hnone in Hsv.
  - intros a i [Ha _]. set_solver.
Qed.

Lemma slot_insert m l b c d s o n :
  s < length l → slot_at (HR m (<[s := o]> l) b c d) n = if decide (n = s) then o else mjoin (l !! n).
Proof.
  intros Hs. unfold slot_at. simpl. case_decide as Hn.
  - subst. rewrite list_lookup_insert_eq by done. by destruct o.
  - by rewrite list_lookup_insert_ne.
Qed.
Lemma slot_lt hr s v : slot_at hr s = Some v → s < length (vnodeSlice hr).
Proof.
  unfold slot_at. destruct (vnodeSlice hr !! s) eqn:Hl; [|done]. intros _.
  by eapply lookup_lt_Some.
Qed.

(** A virtual node is put in a free slot. *)
Lemma ring_insert own hr a i sym s : ring own hr → ¬ own a i →
  s < length (vnodeSlice hr) → slot_at hr s = None →
  ring (λ a' i', own a' i' ∨ (a' = a ∧ i' = i))
    (HR (<[vname_of a i := s]> (nodeVNameMap hr))
        (<[s := Some (VNode (vname_of a i) sym a)]> (vnodeSlice hr))
        (addedNode hr) (slotNum hr) (vNodeNum hr)).
Proof.
  intros [Hn Hl Hm Hsl Ho] Hno Hs Hfree. split; simpl; try done.
  - by rewrite length_insert.
  - intros vn s'. rewrite slot_insert, lookup_insert by done. fold (slot_at hr s').
    destruct (decide (vname_of a i = vn)) as [<-|Hne].
    + split.
      * intros [= <-]. rewrite decide_True by done. by eexists.
      * intros (v & Hv & Hname). case_decide as Hss; [by subst|]. exfalso.
        destruct (Hsl _ _ Hv) as (i' & Hown & Hname'). rewrite Hname' in Hname.
        apply vname_inj in Hname as [<- <-]. done.
    + rewrite Hm. split.
      * intros (v & Hv & Hname). rewrite decide_False; [by exists v|]. congruence.
      * intros (v & Hv & Hname). case_decide; [|by exists v]. simplify_eq/=.
  - intros s' v. rewrite slot_insert by done. fold (slot_at hr s').
    case_decide; [intros [= <-]; simpl; eauto|].
    intros Hv. destruct (Hsl _ _ Hv) as (i' & ? & ?). eauto.
  - intros a' i' Hown. destruct (decide (vname_of a' i' = vname_of a i)) as [->|Hne].
    + rewrite lookup_insert_eq. eauto.
    + rewrite lookup_insert_ne by done. apply Ho. destruct Hown as [|[-> ->]]; done.
Qed.

(** The virtual node [i] of [a] is removed. *)
Lemma ring_delete own hr a i s : ring own hr → nodeVNameMap hr !! vname_of a i = Some s →
  ring (λ a' i', own a' i' ∧ ¬ (a' = a ∧ i' = i)) (del_vnode hr a i) ∧
  ∀ n, slot_at (del_vnode hr a i) n = if decide (n = s) then None else slot_at hr n.
Proof.
  intros [Hn Hl Hm Hsl Ho] Hs. unfold del_vnode. rewrite Hs.
  pose proof (proj1 (Hm _ _) Hs) as (v0 & Hv0 & Hname0).
  pose proof (slot_lt _ _ _ Hv0) as Hlt.
  assert (Hslot : ∀ n, slot_at (HR (delete (vname_of a i) (nodeVNameMap hr))
      (<[s := None]> (vnodeSlice hr)) (addedNode hr) (slotNum hr) (vNodeNum hr)) n =
      if decide (n = s) then None else slot_at hr n) by (intros n; by rewrite slot_insert).
  split; [|done]. split; simpl; try done.
  - by rewrite length_insert.
  - intros vn s'. rewrite Hslot, lookup_delete. case_decide as Hne.
    + subst vn. split; [done|]. intros (v & Hv & Hname). case_decide; [done|].
      assert (nodeVNameMap hr !! vname_of a i = Some s') by (apply Hm; eauto). congruence.
    + rewrite Hm. split.
      * intros (v & Hv & Hname). rewrite decide_False; [by exists v|]. intros ->. congruence.
      * intros (v & Hv & Hname). case_decide; [done|]. by exists v.
  - intros s' v. rewrite Hslot. case_decide as Hne; [done|]. intros Hv.
    destruct (Hsl _ _ Hv) as (i' & Hown & Hname). exists i'. split; [|done]. split; [done|].
    intros [Ha ->]. apply Hne. assert (nodeVNameMap hr !! vname_of a i = Some s') as Hs'.
    { apply Hm. exists v. by rewrite <- Ha. }
    congruence.
  - intros a' i' [Hown Hne]. rewrite lookup_delete_ne; [by apply Ho|].
    intros [-> ->]%vname_inj. tauto.
Qed.

(** *** Adding and deleting *)
Definition free_count hr : nat := length (filter (λ o, o = None) (vnodeSlice hr)).

Lemma free_insert (l : list (option virtualNode)) s v : l !! s = Some None →
  S (length (filter (λ o, o = None) (<[s := Some v]> l))) = length (filter (λ o, o = None) l).
Proof.
  revert s. induction l as [|o l IH]; intros [|s] Hs; simplify_eq/=.
  - change (<[0 := Some v]> (None :: l)) with (Some v :: l).
    by rewrite filter_cons_False.
  - change (<[S s := Some v]> (o :: l)) with (o :: <[s := Some v]> l).
    rewrite !filter_cons. case_decide; simpl; by rewrite <- (IH s Hs).
Qed.
Lemma free_slot own hr : ring own hr → 0 < free_count hr →
  ∃ s, s < length (vnodeSlice hr) ∧ slot_at hr s = None.
Proof.
  intros Hr Hf. unfold free_count in Hf.
  destruct (filter (λ o, o = None) (vnodeSlice hr)) as [|o l] eqn:He; [simpl in Hf; lia|].
  assert (o ∈ filter (λ o, o = None) (vnodeSlice hr)) as Ho by (rewrite He; set_solver).
  apply list_elem_of_filter in Ho as [-> Ho].
  apply list_elem_of_lookup in Ho as [s Hs]. exists s. unfold slot_at. rewrite Hs.
  split; [|done]. by eapply lookup_lt_Some.
Qed.

Lemma probe_finds hr vname k : ∀ fuel j,
  j ≤ k < j + fuel → slot_at hr (hashToSlot hr (symbol_of vname k)) = None →
  ∃ sym s, probe fuel hr vname j = Some (sym, s) ∧ slot_at hr s = None ∧ s = hashToSlot hr sym.
Proof.
  induction fuel as [|fuel IH]; intros j Hj Hk; [lia|]. simpl.
  destruct (slot_at hr (hashToSlot hr (symbol_of vname j))) eqn:Hs; [|by do 2 eexists].
  apply IH; [|done]. destruct (decide (k = j)); [subst; congruence|lia].
Qed.
Lemma probe_4096 own hr vname : ring own hr → slotNum hr = 4096%Z → 0 < free_count hr →
  ∃ sym s, probe probe_bound hr vname 0 = Some (sym, s) ∧ slot_at hr s = None ∧
    s < length (vnodeSlice hr).
Proof.
  intros Hr Hn Hf. destruct (free_slot _ _ Hr Hf) as (t & Ht & Hfree).
  pose proof (ring_length _ _ Hr) as Hl. rewrite Hn in Hl.
  destruct (symbol_hits hr vname t Hn) as (j & Hj & Hh); [lia|].
  destruct (probe_finds hr vname j probe_bound 0) as (sym & s & ? & ? & ->);
    [lia|by rewrite Hh|].
  do 2 eexists. split; [done|]. split; [done|]. rewrite Hl, <- Hn. by eapply hash_lt.
Qed.

(** What changed between two rings. *)
Record only_new (a : string) hr hr' : Prop := {
  on_keep n v : slot_at hr n = Some v → slot_at hr' n = Some v;
  on_new n v : slot_at hr n = None → slot_at hr' n = Some v → addr v = a;
  on_fields : addedNode hr' = addedNode hr ∧ slotNum hr' = slotNum hr ∧ vNodeNum hr' = vNodeNum hr;
}.

Lemma add_vnodes_spec a idx : ∀ own hr, ring own hr → slotNum hr = 4096%Z →
  NoDup idx → (∀ i, i ∈ idx → ¬ own a i) → length idx ≤ free_count hr →
  ∃ hr', add_vnodes probe_bound hr a idx = Some hr' ∧
    ring (λ a' i', own a' i' ∨ (a' = a ∧ i' ∈ idx)) hr' ∧ only_new a hr hr' ∧
    free_count hr' + length idx = free_count hr.
Proof.
  induction idx as [|i idx IH]; intros own hr Hr Hn Hnd Hno Hf.
  { exists hr. split; [done|]. split; [eapply ring_ext; [|exact Hr]; set_solver|].
    split; [split; [done|congruence|done]|simpl; lia]. }
  apply NoDup_cons in Hnd as [Hi Hnd]. simpl in Hf.
  destruct (probe_4096 own hr (vname_of a i) Hr Hn) as (sym & s & Hp & Hfree & Hs); [lia|].
  cbn [add_vnodes]. rewrite Hp. csimpl.
  pose proof (ring_insert own hr a i sym s Hr (Hno i ltac:(set_solver)) Hs Hfree) as Hr1.
  set (hr1 := HR _ _ _ _ _) in *.
  assert (Hf1 : S (free_count hr1) = free_count hr).
  { apply free_insert. destruct (lookup_lt_is_Some_2 _ _ Hs) as [o Ho]. rewrite Ho.
    unfold slot_at in Hfree. rewrite Ho in Hfree. by destruct o. }
  assert (Hsl1 : ∀ n, slot_at hr1 n = if decide (n = s) then Some (VNode (vname_of a i) sym a)
      else slot_at hr n) by (intros n; by apply slot_insert).
  destruct (IH _ hr1 Hr1 Hn Hnd) as (hr' & Hadd & Hr' & [Hk Hnew Hfl] & Hf'); [|lia|].
  { intros i' Hi' [Hown|[_ ->]]; [|done]. revert Hown. apply Hno. set_solver. }
  exists hr'. split; [exact Hadd|]. split; [|split; [|simpl; lia]].
  - eapply ring_ext; [|exact Hr']. set_solver.
  - split; [| |done].
    + intros n v Hv. apply Hk. rewrite Hsl1. rewrite decide_False; [done|]. congruence.
    + intros n v Hv Hv'. destruct (decide (n = s)) as [->|Hne].
      * assert (slot_at hr' s = Some (VNode (vname_of a i) sym a)) as Hv2.
        { apply Hk. by rewrite Hsl1, decide_True. }
        rewrite Hv' in Hv2. by injection Hv2 as ->.
      * apply (Hnew n v); [|done]. by rewrite Hsl1, decide_False.
Qed.

Lemma del_vnodes_spec a idx : ∀ own hr, ring own hr → NoDup idx → (∀ i, i ∈ idx → own a i) →
  let hr' := foldl (λ hr i, del_vnode hr a i) hr idx in
  ring (λ a' i', own a' i' ∧ ¬ (a' = a ∧ i' ∈ idx)) hr' ∧
  (∀ n v, slot_at hr' n = Some v → slot_at hr n = Some v) ∧
  (∀ n v, slot_at hr n = Some v → addr v ≠ a → slot_at hr' n = Some v) ∧
  addedNode hr' = addedNode hr ∧ slotNum hr' = slotNum hr ∧ vNodeNum hr' = vNodeNum hr.
Proof.
  induction idx as [|i idx IH]; intros own hr Hr Hnd Hown; simpl.
  { split; [|done]. eapply ring_ext; [|exact Hr]. set_solver. }
  apply NoDup_cons in Hnd as [Hi Hnd].
  destruct (ring_own _ _ Hr a i) as [s Hs]; [apply Hown; set_solver|].
  destruct (ring_delete own hr a i s Hr Hs) as [Hr1 Hsl1].
  destruct (IH _ _ Hr1 Hnd) as (Hr' & Hsub & Hkeep & Ha & Hn & Hv).
  { intros i' Hi'. split; [apply Hown; set_solver|]. intros [_ ->]. done. }
  assert (Hfl : addedNode (del_vnode hr a i) = addedNode hr ∧
    slotNum (del_vnode hr a i) = slotNum hr ∧ vNodeNum (del_vnode hr a i) = vNodeNum hr)
    by (unfold del_vnode; by destruct (nodeVNameMap hr !! _)).
  split; [eapply ring_ext; [|exact Hr']; set_solver|]. split.
  - intros n v Hnv. apply Hsub in Hnv. rewrite Hsl1 in Hnv. by case_decide.
  - split; [|by destruct Hfl as (<- & <- & <-)]. intros n v Hnv Hav. apply Hkeep; [|done].
    rewrite Hsl1. rewrite decide_False; [done|]. intros ->.
    apply Hav. apply (ring_map _ _ Hr) in Hs as (v' & Hv' & Hname).
    assert (v' = v) as -> by congruence.
    destruct (ring_slot _ _ Hr _ _ Hnv) as (i' & _ & Hname'). rewrite Hname' in Hname.
    by apply vname_inj in Hname as [-> _].
Qed.

(** *** Looking up *)
Definition rotation (n i fuel : nat) : list nat := (λ k, (i + k) mod n) <$> seq 0 fuel.
Lemma rotation_S n i fuel : i < n → rotation n i (S fuel) = i :: rotation n ((i + 1) mod n) fuel.
Proof.
  intros Hi. unfold rotation. csimpl. rewrite Nat.add_0_r, Nat.mod_small by done. f_equal.
  rewrite <- fmap_S_seq, <- list_fmap_compose. apply list_fmap_ext. intros k x _. simpl.
  rewrite Nat.Div0.add_mod_idemp_l. f_equal. lia.
Qed.
Lemma get_loop_eq own hr key fuel : ring own hr → ∀ i, i < Z.to_nat (slotNum hr) →
  get_loop fuel hr key i =
    (λ v, Ok (addr v)) <$> head (omap (slot_at hr) (rotation (Z.to_nat (slotNum hr)) i fuel)).
Proof.
  intros Hr. pose proof (ring_slots _ _ Hr) as Hn. pose proof (w32_slots _ _ Hr) as Hw.
  induction fuel as [|fuel IH]; intros i Hi; [done|]. rewrite rotation_S by done. csimpl.
  rewrite Hw. destruct (Z.ltb_spec (Z.of_nat i) (slotNum hr)); [|lia].
  destruct (slot_at hr i) as [v|]; [done|].
  assert (Z.to_nat (w32 (Z.of_nat i + 1) mod slotNum hr) = (i + 1) mod Z.to_nat (slotNum hr)) as ->.
  { unfold w32. rewrite (Z.mod_small _ (2 ^ 32)) by lia.
    rewrite Z2Nat.inj_mod by lia. f_equal. lia. }
  apply IH. apply Nat.mod_upper_bound. lia.
Qed.
Lemma rotation_all n i s : i < n → s < n → s ∈ rotation n i n.
Proof.
  intros Hi Hs. unfold rotation. apply list_elem_of_fmap. exists ((s + n - i) mod n). split.
  - rewrite Nat.Div0.add_mod_idemp_r. replace (i + (s + n - i)) with (s + 1 * n) by lia.
    rewrite Nat.Div0.mod_add. by rewrite Nat.mod_small.
  - apply elem_of_seq. pose proof (Nat.mod_upper_bound (s + n - i) n). lia.
Qed.
Lemma head_omap_some {A B} (g : A → option B) l x : x ∈ l → is_Some (g x) →
  is_Some (head (omap g l)).
Proof.
  induction l as [|y l IH]; [set_solver|]. intros Hx Hg. csimpl.
  destruct (g y) eqn:Hy; [by eexists|]. apply IH; [|done]. apply elem_of_cons in Hx as [->|]; [|done].
  rewrite Hy in Hg. by destruct Hg.
Qed.
(** A table that only gains entries marked [P] changes the first hit only to a
    marked one. *)
Lemma head_omap_new {A B} (g g' : A → option B) (P : B → Prop) l :
  (∀ x v, g x = Some v → g' x = Some v) → (∀ x v, g x = None → g' x = Some v → P v) →
  ∀ v', head (omap g' l) = Some v' → head (omap g l) = Some v' ∨ P v'.
Proof.
  intros Hk Hn. induction l as [|x l IH]; intros v'; csimpl; [done|].
  destruct (g x) as [v|] eqn:Hx.
  - rewrite (Hk _ _ Hx). by left.
  - destruct (g' x) as [v|] eqn:Hx'; [|apply IH]. intros [= <-]. right. by eapply Hn.
Qed.
(** A table that loses only entries marked [P] keeps a first hit that is not
    marked. *)
Lemma head_omap_less {A B} (g g' : A → option B) (P : B → Prop) l :
  (∀ x v, g' x = Some v ↔ g x = Some v ∧ ¬ P v) →
  ∀ v, head (omap g l) = Some v → ¬ P v → head (omap g' l) = Some v.
Proof.
  intros Hg. induction l as [|x l IH]; intros v; csimpl; [done|].
  destruct (g x) as [u|] eqn:Hx.
  - intros [= ->] HP. destruct (Hg x v) as [_ Hx']. by rewrite Hx'.
  - intros Hl HP. destruct (g' x) as [u|] eqn:Hx'; [|by apply IH].
    apply Hg in Hx' as [? _]. congruence.
Qed.
End RingFacts.

(** ** Theorems about the ring *)
Module RingTheorems.
Import HashRing RingNames RingProbe RingFacts.
Implicit Types hr : hashRing.

Lemma AddNode_adds hr a : ok hr → slotNum hr = 4096%Z → a ≠ "" → a ∉ addedNode hr →
  Z.to_nat (vNodeNum hr) ≤ free_count hr →
  ∃ hr', AddNode probe_bound hr a = Some (Ok tt, hr') ∧ ok hr' ∧
    addedNode hr' = {[a]} ∪ addedNode hr ∧ slotNum hr' = slotNum hr ∧ vNodeNum hr' = vNodeNum hr ∧
    free_count hr' + Z.to_nat (vNodeNum hr) = free_count hr ∧
    (∀ n v, slot_at hr n = Some v → slot_at hr' n = Some v) ∧
    (∀ n v, slot_at hr n = None → slot_at hr' n = Some v → addr v = a).
Proof.
  intros [Hr He] Hn Ha Hna Hf. unfold AddNode. rewrite !decide_False by done.
  destruct (add_vnodes_spec a (indices hr) (owners hr) hr Hr Hn)
    as (hr' & -> & Hr' & [Hk Hnew (Had & Hs & Hv)] & Hf').
  - apply NoDup_seq.
  - intros i _ [Hin _]. done.
  - unfold indices. by rewrite length_seq.
  - unfold indices in *. rewrite length_seq in Hf'. csimpl. eexists. split; [done|].
    assert (Hslot : ∀ n, slot_at (HR (nodeVNameMap hr') (vnodeSlice hr') ({[a]} ∪ addedNode hr')
       (slotNum hr') (vNodeNum hr')) n = slot_at hr' n) by done.
    split; [|by rewrite Had].
    split; [|simpl; rewrite Had; set_solver].
    destruct Hr' as [H1 H2 H3 H4 H5]. split; simpl; try done.
    + intros s v Hsv. destruct (H4 s v Hsv) as (i & Hown & ?). exists i. split; [|done].
      unfold owners in *. simpl. rewrite Had, Hv.
      destruct Hown as [[??]|[-> Hi]]; [split; set_solver|].
      apply elem_of_seq in Hi. split; [set_solver|lia].
    + intros a' i [Hin Hi]. simpl in *. rewrite Had, Hv in *. apply H5.
      apply elem_of_union in Hin as [->%elem_of_singleton|Hin]; [right|left; done].
      split; [done|]. apply elem_of_seq. lia.
Qed.

Lemma DelNode_deletes hr a : ok hr → a ≠ "" → a ∈ addedNode hr →
  ∃ hr', DelNode hr a = (Ok tt, hr') ∧ ok hr' ∧
    addedNode hr' = addedNode hr ∖ {[a]} ∧ slotNum hr' = slotNum hr ∧ vNodeNum hr' = vNodeNum hr ∧
    ∀ n v, slot_at hr' n = Some v ↔ slot_at hr n = Some v ∧ addr v ≠ a.
Proof.
  intros [Hr He] Ha Hin. unfold DelNode. rewrite !decide_False by tauto.
  pose proof (del_vnodes_spec a (indices hr) (owners hr) hr Hr) as Hdel. simpl in Hdel.
  destruct Hdel as (Hr' & Hsub & Hkeep & Had & Hs & Hv).
  { apply NoDup_seq. }
  { intros i Hi%elem_of_seq. split; [done|lia]. }
  set (hr' := foldl _ _ _) in *. eexists. split; [done|].
  assert (Hslot : ∀ n, slot_at (HR (nodeVNameMap hr') (vnodeSlice hr') (addedNode hr' ∖ {[a]})
       (slotNum hr') (vNodeNum hr')) n = slot_at hr' n) by done.
  destruct Hr' as [H1 H2 H3 H4 H5]. split; [|split; [by rewrite <- Had|split; [done|split; [done|]]]].
  - split; [|simpl; rewrite Had; set_solver]. split; simpl; try done.
    + intros s v Hsv. destruct (H4 s v Hsv) as (i & [[Hown Hi] Hno] & ?). exists i. split; [|done].
      unfold owners. simpl. rewrite Had, Hv. split; [|done]. apply elem_of_difference.
      split; [done|]. intros Heq%elem_of_singleton. apply Hno. split; [done|]. apply elem_of_seq. lia.
    + intros a' i [Hin' Hi]. simpl in *. rewrite Had, Hv in *. apply H5.
      apply elem_of_difference in Hin' as [Hin' Hne]. split; [done|]. set_solver.
  - intros n v. rewrite Hslot. split; [|by intros [? ?]; apply Hkeep].
    intros Hnv. split; [by apply Hsub|]. intros Heq.
    destruct (H4 n v Hnv) as (i & [[_ Hi] Hno] & _). apply Hno. split; [done|]. apply elem_of_seq. lia.
Qed.

Lemma GetNode_eq hr key : ok hr → key ≠ "" →
  GetNode (Z.to_nat (slotNum hr)) hr key =
    (λ v, Ok (addr v)) <$> head (omap (slot_at hr)
      (rotation (Z.to_nat (slotNum hr)) (hashToSlot hr key) (Z.to_nat (slotNum hr)))).
Proof.
  intros [Hr _] Hk. unfold GetNode. rewrite decide_False by done.
  apply (get_loop_eq _ _ _ _ Hr). by eapply hash_lt.
Qed.

Lemma node_present hr : ok hr → addedNode hr ≠ ∅ → (0 < vNodeNum hr)%Z → ∀ i,
  i < Z.to_nat (slotNum hr) →
  is_Some (head (omap (slot_at hr) (rotation (Z.to_nat (slotNum hr)) i (Z.to_nat (slotNum hr))))).
Proof.
  intros [Hr _] Hne Hv i Hi. apply set_choose_L in Hne as [a Ha].
  destruct (ring_own _ _ Hr a 0) as [s Hs]; [split; [done|lia]|].
  apply (ring_map _ _ Hr) in Hs as (v & Hsv & _).
  apply (head_omap_some _ _ s); [|by eexists]. apply rotation_all; [done|].
  rewrite <- (ring_length _ _ Hr). by eapply slot_lt.
Qed.
Lemma GetNode_some hr key : ok hr → key ≠ "" → addedNode hr ≠ ∅ → (0 < vNodeNum hr)%Z →
  ∃ b, GetNode (Z.to_nat (slotNum hr)) hr key = Some (Ok b).
Proof.
  intros Hok Hkey Hne Hv. rewrite GetNode_eq by done.
  destruct (node_present hr Hok Hne Hv (hashToSlot hr key)) as [v ->]; [|by eexists].
  destruct Hok as [Hr _]. by eapply hash_lt.
Qed.

Lemma GetNode_owner hr key : ok hr → key ≠ "" → addedNode hr ≠ ∅ → (0 < vNodeNum hr)%Z →
  ∃ v, GetNode (Z.to_nat (slotNum hr)) hr key = Some (Ok (addr v)) ∧ addr v ∈ addedNode hr.
Proof.
  intros Hok Hkey Hne Hv. rewrite GetNode_eq by done. pose proof Hok as [Hr _].
  destruct (node_present hr Hok Hne Hv (hashToSlot hr key)) as [v Hhd]; [by eapply hash_lt|].
  exists v. rewrite Hhd. split; [done|].
  assert (∀ l, head (omap (slot_at hr) l) = Some v → ∃ n, slot_at hr n = Some v) as Hsl.
  { clear. induction l as [|x l IH]; csimpl; [done|].
    destruct (slot_at hr x) as [v'|] eqn:Hx; [|done]. intros [= ->]. eauto. }
  destruct (Hsl _ Hhd) as [n Hn]. by destruct (ring_slot _ _ Hr _ _ Hn) as (i & [Hin _] & _).
Qed.

(** C15. [AddNode] terminates on the program's ring.  With 4096 slots, while as
    many slots are free as a node has virtual nodes, no probe takes more than
    17778 rounds, whatever the address: the node is added, takes exactly that
    many free slots, and no slot in use changes. *)
Theorem AddNode_terminates hr a :
  ok hr → slotNum hr = HashRingSlotNum → a ≠ "" → a ∉ addedNode hr →
  Z.to_nat (vNodeNum hr) ≤ free_count hr →
  ∃ hr', AddNode probe_bound hr a = Some (Ok tt, hr') ∧ ok hr' ∧
    addedNode hr' = {[a]} ∪ addedNode hr ∧
    free_count hr' + Z.to_nat (vNodeNum hr) = free_count hr ∧
    ∀ n v, slot_at hr n = Some v → slot_at hr' n = Some v.
Proof.
  intros Hok Hn Ha Hna Hf. destruct (AddNode_adds hr a Hok Hn Ha Hna Hf) as (hr' & ?).
  exists hr'. tauto.
Qed.

(** C17. [GetNode] answers with a node that was added: the owner of the first
    slot in use at or after the slot of the key, wrapping around, within one
    turn of the ring. *)
Theorem GetNode_finds hr key :
  ok hr → key ≠ "" → addedNode hr ≠ ∅ → (0 < vNodeNum hr)%Z →
  ∃ k v, k < Z.to_nat (slotNum hr) ∧
    GetNode (Z.to_nat (slotNum hr)) hr key = Some (Ok (addr v)) ∧ addr v ∈ addedNode hr ∧
    slot_at hr ((hashToSlot hr key + k) mod Z.to_nat (slotNum hr)) = Some v ∧
    ∀ k', k' < k → slot_at hr ((hashToSlot hr key + k') mod Z.to_nat (slotNum hr)) = None.
Proof.
  intros Hok Hkey Hne Hv. rewrite GetNode_eq by done. pose proof Hok as [Hr _].
  set (n := Z.to_nat (slotNum hr)). set (h := hashToSlot hr key).
  assert (Hsome : is_Some (head (omap (slot_at hr) (rotation n h n)))).
  { apply node_present; [done..|]. by eapply hash_lt. }
  destruct Hsome as [v Hhd]. rewrite Hhd. csimpl.
  assert (Hfirst : ∀ m j, head (omap (slot_at hr) ((λ k, (h + k) mod n) <$> seq j m)) = Some v →
    ∃ k, j ≤ k < j + m ∧ slot_at hr ((h + k) mod n) = Some v ∧
      ∀ k', j ≤ k' < k → slot_at hr ((h + k') mod n) = None).
  { clear Hhd. induction m as [|m IH]; intros j; csimpl; [done|].
    destruct (slot_at hr ((h + j) mod n)) as [v'|] eqn:Hj.
    - intros [= ->]. exists j. split; [lia|]. split; [done|]. lia.
    - intros Hhd. destruct (IH _ Hhd) as (k & ? & ? & Hb). exists k. split; [lia|]. split; [done|].
      intros k' Hk'. destruct (decide (k' = j)) as [->|]; [done|]. apply Hb. lia. }
  destruct (Hfirst n 0 Hhd) as (k & Hk & Hkv & Hb). exists k, v.
  split_and!; [lia|done| |done|intros; apply Hb; lia].
  by destruct (ring_slot _ _ Hr _ _ Hkv) as (i & [Hown _] & _).
Qed.

(** On a ring without nodes [GetNode] never returns: its loop goes round
    for ever instead of reaching the "can't get node" error. *)
Theorem GetNode_empty_diverges hr key fuel :
  ok hr → key ≠ "" → addedNode hr = ∅ → GetNode fuel hr key = None.
Proof.
  intros [Hr _] Hkey Hemp. unfold GetNode. rewrite decide_False by done.
  rewrite (get_loop_eq _ _ _ _ Hr) by (by eapply hash_lt).
  assert (Hnone : ∀ s, slot_at hr s = None).
  { intros s. destruct (slot_at hr s) as [v|] eqn:Hs; [|done].
    destruct (ring_slot _ _ Hr _ _ Hs) as (i & [Hin _] & _). rewrite Hemp in Hin. set_solver. }
  induction (rotation _ _ _) as [|x l IH]; csimpl; [done|]. by rewrite Hnone.
Qed.

(** Consistent hashing: adding a node moves keys only to the new node; every
    other key keeps its node. *)
Theorem adding_moves_keys_only_to_new hr a hr' key b b' :
  ok hr → slotNum hr = HashRingSlotNum → a ≠ "" → a ∉ addedNode hr →
  Z.to_nat (vNodeNum hr) ≤ free_count hr → key ≠ "" →
  AddNode probe_bound hr a = Some (Ok tt, hr') →
  GetNode (Z.to_nat (slotNum hr)) hr key = Some (Ok b) →
  GetNode (Z.to_nat (slotNum hr)) hr' key = Some (Ok b') →
  b' = b ∨ b' = a.
Proof.
  intros Hok Hn Ha Hna Hf Hkey Hadd Hg Hg'.
  destruct (AddNode_adds hr a Hok Hn Ha Hna Hf) as (hr2 & Hadd2 & Hok2 & _ & Hs2 & _ & _ & Hk & Hnew).
  rewrite Hadd in Hadd2. injection Hadd2 as <-. rewrite <- Hs2 in Hg' at 1.
  rewrite GetNode_eq in Hg, Hg' by done.
  assert (hashToSlot hr' key = hashToSlot hr key) as Hh by (unfold hashToSlot; by rewrite Hs2).
  rewrite Hh, Hs2 in Hg'.
  destruct (head (omap (slot_at hr') _)) as [v'|] eqn:Hv'; [|done]. injection Hg' as <-.
  destruct (head_omap_new (slot_at hr) (slot_at hr') (λ v, addr v = a) _ Hk Hnew _ Hv') as [Hv|?];
    [|by right].
  rewrite Hv in Hg. injection Hg as <-. by left.
Qed.

(** C18. Consistent hashing: deleting a node of the ring succeeds and moves only
    the keys it had; every key that another node has stays there. *)
Theorem deleting_moves_only_its_keys hr a :
  ok hr → a ≠ "" → a ∈ addedNode hr →
  ∃ hr', DelNode hr a = (Ok tt, hr') ∧ ok hr' ∧ addedNode hr' = addedNode hr ∖ {[a]} ∧
    ∀ key b, key ≠ "" → GetNode (Z.to_nat (slotNum hr)) hr key = Some (Ok b) → b ≠ a →
      GetNode (Z.to_nat (slotNum hr)) hr' key = Some (Ok b).
Proof.
  intros Hok Ha Hin. destruct (DelNode_deletes hr a Hok Ha Hin) as (hr' & Hdel & Hok' & Had & Hs & _ & Hsl).
  exists hr'. split_and!; [done..|]. intros key b Hkey Hg Hb.
  rewrite GetNode_eq in Hg by done. rewrite <- Hs at 1. rewrite GetNode_eq, Hs by done.
  assert (hashToSlot hr' key = hashToSlot hr key) as -> by (unfold hashToSlot; by rewrite Hs).
  destruct (head (omap (slot_at hr) _)) as [v|] eqn:Hv; [|done]. injection Hg as <-.
  by rewrite (head_omap_less (slot_at hr) _ (λ v, addr v = a) _ Hsl v Hv Hb).
Qed.

(** Deleting a node that was just added restores the ring exactly: the
    map, the slots and the set of nodes. *)
Theorem DelNode_undoes_AddNode hr a :
  ok hr → slotNum hr = HashRingSlotNum → a ≠ "" → a ∉ addedNode hr →
  Z.to_nat (vNodeNum hr) ≤ free_count hr →
  ∃ hr', AddNode probe_bound hr a = Some (Ok tt, hr') ∧ DelNode hr' a = (Ok tt, hr).
Proof.
  intros Hok Hn Ha Hna Hf.
  destruct (AddNode_adds hr a Hok Hn Ha Hna Hf)
    as (hr1 & Hadd & Hok1 & Had1 & Hs1 & Hv1 & _ & Hk & Hnew).
  exists hr1. split; [done|].
  destruct (DelNode_deletes hr1 a Hok1 Ha) as (hr2 & -> & [Hr2 _] & Had2 & Hs2 & Hv2 & Hsl); [set_solver|].
  f_equal. destruct Hok as [Hr _].
  assert (Hslots : ∀ n, slot_at hr2 n = slot_at hr n).
  { intros n. apply option_eq. intros v. rewrite Hsl. split.
    - intros [Hv1' Hne]. destruct (slot_at hr n) as [v0|] eqn:H0; [|by apply Hnew in Hv1'].
      apply Hk in H0. congruence.
    - intros Hv. split; [by apply Hk|]. destruct (ring_slot _ _ Hr _ _ Hv) as (i & [Hin _] & _).
      congruence. }
  assert (Hlist : vnodeSlice hr2 = vnodeSlice hr).
  { apply list_eq_same_length with (n := length (vnodeSlice hr)); [done| |].
    - by rewrite (ring_length _ _ Hr2), (ring_length _ _ Hr), Hs2, Hs1.
    - intros i x y Hi Hx Hy. specialize (Hslots i). unfold slot_at in Hslots.
      rewrite Hx, Hy in Hslots. simpl in Hslots. by destruct x, y. }
  assert (Hmap : nodeVNameMap hr2 = nodeVNameMap hr).
  { apply map_eq. intros vn. apply option_eq. intros s.
    rewrite (ring_map _ _ Hr2), (ring_map _ _ Hr). by setoid_rewrite Hslots. }
  destruct hr as [m l ad sn vn], hr2 as [m2 l2 ad2 sn2 vn2]. simpl in *. f_equal; try congruence.
  rewrite Had2, Had1. set_solver.
Qed.

(** *** Witnesses *)
Definition ex_ring : hashRing :=
  match NewHashRing HashRingSlotNum HashRingVNodeNum with Ok hr => hr | Err _ => HR ∅ [] ∅ 0 0 end.
Lemma ex_ring_ok : ok ex_ring.
Proof.
  destruct (new_ok HashRingSlotNum HashRingVNodeNum) as (hr & Hnew & Hok & _); [done|done|].
  unfold ex_ring. by rewrite Hnew.
Qed.
Lemma ex_free : Z.to_nat (vNodeNum ex_ring) ≤ free_count ex_ring.
Proof. apply Nat.leb_le. vm_compute. done. Qed.
Lemma ex_add : ∃ hr', AddNode probe_bound ex_ring "[::]:8083" = Some (Ok tt, hr') ∧ ok hr' ∧
  addedNode hr' = {["[::]:8083"]} ∧ vNodeNum hr' = HashRingVNodeNum ∧
  slotNum hr' = HashRingSlotNum ∧ Z.to_nat HashRingVNodeNum ≤ free_count hr'.
Proof.
  destruct (AddNode_adds ex_ring "[::]:8083" ex_ring_ok) as (hr' & ? & ? & Had & Hs & Hv & Hf & _);
    [done|done|set_solver|exact ex_free|].
  exists hr'. rewrite Had. split_and!; [done|done|set_solver|done|done|].
  assert (2 * Z.to_nat HashRingVNodeNum ≤ free_count ex_ring).
  { apply Nat.leb_le. vm_compute. done. }
  change (vNodeNum ex_ring) with HashRingVNodeNum in Hf. lia.
Qed.

Lemma AddNode_terminates_witness :
  ∃ hr', AddNode probe_bound ex_ring "[::]:8083" = Some (Ok tt, hr') ∧ ok hr' ∧
    addedNode hr' = {["[::]:8083"]} ∪ addedNode ex_ring ∧
    free_count hr' + Z.to_nat (vNodeNum ex_ring) = free_count ex_ring ∧
    ∀ n v, slot_at ex_ring n = Some v → slot_at hr' n = Some v.
Proof.
  apply AddNode_terminates; [exact ex_ring_ok|done|done|set_solver|exact ex_free].
Defined.
Lemma GetNode_finds_witness : ∃ hr, AddNode probe_bound ex_ring "[::]:8083" = Some (Ok tt, hr) ∧
  ∃ k v, k < Z.to_nat (slotNum hr) ∧
    GetNode (Z.to_nat (slotNum hr)) hr "alice" = Some (Ok (addr v)) ∧ addr v ∈ addedNode hr ∧
    slot_at hr ((hashToSlot hr "alice" + k) mod Z.to_nat (slotNum hr)) = Some v ∧
    ∀ k', k' < k → slot_at hr ((hashToSlot hr "alice" + k') mod Z.to_nat (slotNum hr)) = None.
Proof.
  destruct ex_add as (hr & Hadd & Hok & Hin & Hv & _). exists hr. split; [exact Hadd|].
  apply (GetNode_finds hr "alice" Hok); [discriminate| |rewrite Hv; reflexivity].
  rewrite Hin. apply non_empty_singleton_L.
Defined.
Lemma GetNode_empty_diverges_witness : GetNode probe_bound ex_ring "alice" = None.
Proof. apply GetNode_empty_diverges; [exact ex_ring_ok|done|done]. Defined.
Lemma adding_moves_keys_only_to_new_witness :
  ∃ hr hr' b b', ok hr ∧ AddNode probe_bound hr "[::]:8084" = Some (Ok tt, hr') ∧
    GetNode (Z.to_nat (slotNum hr)) hr "alice" = Some (Ok b) ∧
    GetNode (Z.to_nat (slotNum hr)) hr' "alice" = Some (Ok b') ∧
    (b' = b ∨ b' = "[::]:8084").
Proof.
  destruct ex_add as (hr & Hadd & Hok & Had & Hv & Hn & Hfree).
  assert ("[::]:8084" ∉ addedNode hr) as Hna
    by (rewrite Had, elem_of_singleton; discriminate).
  destruct (AddNode_adds hr "[::]:8084" Hok) as (hr' & Hadd' & Hok' & Had' & Hs' & Hv' & _);
    [done|done|done|by rewrite Hv|].
  destruct (GetNode_some hr "alice" Hok) as [b Hb];
    [discriminate|rewrite Had; apply non_empty_singleton_L|by rewrite Hv|].
  destruct (GetNode_some hr' "alice" Hok') as [b' Hb'];
    [discriminate| |by rewrite Hv', Hv|].
  { rewrite Had'. apply (non_empty_inhabited_L "[::]:8084"). by apply elem_of_union_l, elem_of_singleton_2. } rewrite Hs' in Hb'.
  exists hr, hr', b, b'.
  split; [exact Hok|split; [exact Hadd'|split; [exact Hb|split; [exact Hb'|]]]].
  assert (Z.to_nat (vNodeNum hr) ≤ free_count hr) as Hf by (rewrite Hv; exact Hfree).
  exact (adding_moves_keys_only_to_new hr "[::]:8084" hr' "alice" b b' Hok Hn ltac:(discriminate)
    Hna Hf ltac:(discriminate) Hadd' Hb Hb').
Defined.
Lemma deleting_moves_only_its_keys_witness :
  ∃ hr hr', AddNode probe_bound ex_ring "[::]:8083" = Some (Ok tt, hr) ∧
    DelNode hr "[::]:8083" = (Ok tt, hr') ∧ addedNode hr' = addedNode hr ∖ {["[::]:8083"]}.
Proof.
  destruct ex_add as (hr & Hadd & Hok & Had & _).
  destruct (deleting_moves_only_its_keys hr "[::]:8083" Hok) as (hr' & Hdel & _ & Hs & _);
    [discriminate|rewrite Had; by apply elem_of_singleton_2|].
  exists hr, hr'. split; [exact Hadd|split; [exact Hdel|exact Hs]].
Defined.
Lemma DelNode_undoes_AddNode_witness :
  ∃ hr', AddNode probe_bound ex_ring "[::]:8083" = Some (Ok tt, hr') ∧
    DelNode hr' "[::]:8083" = (Ok tt, ex_ring).
Proof. apply DelNode_undoes_AddNode; [exact ex_ring_ok|done|done|set_solver|exact ex_free]. Defined.
End RingTheorems.
