(* ===== verification/Auth.v ===== *)
(** * auth/auth.go and db/db.go: passwords, tokens, login state

    Module [Db] is the access to the user table, over the calls of
    [database/sql] ([Sql]); module [Auth] the login cache and the password and
    token functions.  [last_token] is what the cache promises: the state of a
    user and address is decided by the last call about them. *)

From S2P Require Import Prelude GoStr Json Crypto.

(** ** The user table *)
Class Sql (W : Type) := {
  stmt : Type;
  PrepareContext : string → W → result stmt * W;
  (** [QueryRowContext(..).Scan(&a, &b)] *)
  QueryRow2 : stmt → list string → W → result (string * string) * W;
  (** [ExecContext(..)] and [RowsAffected] *)
  ExecContext : stmt → list string → W → result Z * W;
}.

Module Db.
Definition UinfoTable : string := "mysh_uinfo".
Section db.
Context {W : Type} `{Sql W}.
(** What the getter returns: salt, password (empty on error), and the error. *)
Definition MakeSaltPasswordGetter (w : W)
    : outcome ((string → W → result (string * string) * W) * W) :=
  match PrepareContext ("SELECT salt, password FROM " +:+ UinfoTable +:+ " WHERE uid= ? ;") w with
  | (Err _, _) => Panic "prepare"
  | (Ok st, w) => Done (λ uid w, QueryRow2 st [uid] w, w)
  end.
Definition SaltPasswordOperator (w : W)
    : outcome ((string → string → string → W → result Z * W) * W) :=
  match PrepareContext
    (GoStr.Sprintf "INSERT INTO %v (uid, salt, password) values (?, ?, ?)" [UinfoTable]) w with
  | (Err _, _) => Panic "prepare"
  | (Ok st, w) => Done (λ uid salt password w, ExecContext st [uid; salt; password] w, w)
  end.
End db.
End Db.

(** ** auth.go *)
Module Auth.
(** [loginCache]: user, then login info, to token. *)
Abbreviation cache := (gmap string (gmap string string)).
Implicit Types c : cache.

(** [for _, e := range extra { loginInfo = loginInfo + e }] *)
Definition loginInfo (extra : list string) : string := foldl (λ i e, i +:+ e) "" extra.

Definition CheckLoginState c (uid token : string) (extra : list string) : bool :=
  match c !! uid with
  | Some entry =>
    match entry !! loginInfo extra with
    | Some t => bool_decide (t = token)
    | None => false
    end
  | None => false
  end.
Definition RemoveTokenCache c (uid : string) (extra : list string) : cache :=
  if decide (loginInfo extra = "") then delete uid c
  else match c !! uid with
    | Some entry => <[uid := delete (loginInfo extra) entry]> c
    | None => c
    end.
Definition UpdateTokenCache c (uid token : string) (extra : list string) : cache :=
  if decide (loginInfo extra ≠ "") then
    let c := match c !! uid with None => <[uid := ∅]> c | Some _ => c end in
    match c !! uid with
    | Some entry => <[uid := <[loginInfo extra := token]> entry]> c
    | None => c
    end
  else c.

Definition genToken (uid : string) (extra : list string) : string :=
  let data := foldl (λ data s, GoStr.Sprintf "%v%v" [data; s]) uid extra in
  foldl (λ token b, token +:+ GoStr.Itoa b) "" (Md5.Sum (bytes_of data)).

(** [len(uid) % len(salt)] panics when the salt is empty. *)
Definition EncryptPassword (uid salt password : string) : outcome string :=
  let s := bytes_of salt in
  if decide (length s = 0) then Panic "integer divide by zero"
  else
    let index := length (bytes_of uid) mod length s in
    let catStr := take index s ++ bytes_of password ++ drop index s in
    Done (hex (Sha256.Sum256 catStr)).
Definition checkPassword (uid salt saltPassword password : string) : outcome bool :=
  run e <- EncryptPassword uid salt password ;;
  Done (bool_decide (e = saltPassword)).

Section login.
Context {W : Type}.
(** [saltPasswordGetter]; [None] is nil. *)
Variable saltPasswordGetter : option (string → W → result (string * string) * W).
Definition Login (uid password : string) (extra : list string) (w : W)
    : outcome (string * bool * W) :=
  match saltPasswordGetter with
  | None => Done ("", false, w)
  | Some getter =>
    match getter uid w with
    | (Err _, w) => Done ("", false, w)
    | (Ok (s, p), w) =>
      run loginState <- checkPassword uid s p password ;;
      Done (if loginState : bool then genToken uid extra else "", loginState, w)
    end
  end.
End login.

(** [rand.Read] of a 16-byte slice. *)
Definition SaltGenerator {W} (Read : nat → W → result (list Z) * W) (w : W)
    : result (list Z) * W := Read 16 w.
(** [ioutil.ReadFile(cons.Crt)] *)
Definition Crt : string := "/var/lib/mysh/cert/www.myshell.top.crt".
Definition GetCert {W} (ReadFile : string → W → result string * W) (w : W) : result string * W :=
  ReadFile Crt w.
End Auth.

(** ** Facts *)
Module AuthFacts.
Import Auth.
Implicit Types c : cache.

(** The token the cache has for a user and login info. *)
Definition token_of c (uid info : string) : option string := entry ← c !! uid; entry !! info.

Lemma Check_token c uid token extra :
  CheckLoginState c uid token extra = bool_decide (token_of c uid (loginInfo extra) = Some token).
Proof.
  unfold CheckLoginState, token_of. destruct (c !! uid) as [entry|]; simpl; [|done].
  destruct (entry !! loginInfo extra) as [t|]; simpl; [|done]. apply bool_decide_ext. naive_solver.
Qed.
Lemma token_Remove c uid extra u i :
  token_of (RemoveTokenCache c uid extra) u i =
    if decide (u = uid ∧ (loginInfo extra = "" ∨ loginInfo extra = i)) then None
    else token_of c u i.
Proof.
  unfold RemoveTokenCache, token_of. destruct (decide (loginInfo extra = "")) as [He|Hne].
  - rewrite lookup_delete. repeat case_decide; naive_solver.
  - destruct (c !! uid) as [entry|] eqn:Hc.
    + rewrite lookup_insert. destruct (decide (uid = u)) as [->|]; csimpl.
      * rewrite lookup_delete, Hc. csimpl. repeat case_decide; naive_solver.
      * rewrite decide_False; naive_solver.
    + case_decide as Hd; [|done]. destruct Hd as [-> _]. by rewrite Hc.
Qed.
Lemma token_Update c uid token extra u i : loginInfo extra ≠ "" →
  token_of (UpdateTokenCache c uid token extra) u i =
    if decide (u = uid ∧ loginInfo extra = i) then Some token else token_of c u i.
Proof.
  intros Hne. unfold UpdateTokenCache, token_of. rewrite decide_True by done.
  destruct (c !! uid) as [entry|] eqn:Hc.
  - rewrite Hc, lookup_insert. destruct (decide (uid = u)) as [->|]; csimpl.
    + rewrite lookup_insert, Hc. csimpl. repeat case_decide; naive_solver.
    + rewrite decide_False; naive_solver.
  - rewrite lookup_insert_eq, lookup_insert. destruct (decide (uid = u)) as [->|]; csimpl.
    + rewrite lookup_insert, Hc. csimpl. repeat case_decide; naive_solver.
    + rewrite lookup_insert_ne by done. rewrite decide_False; naive_solver.
Qed.
Lemma Update_noop c uid token extra : loginInfo extra = "" → UpdateTokenCache c uid token extra = c.
Proof. intros He. unfold UpdateTokenCache. rewrite decide_False; tauto. Qed.
(** The empty login info is never in the cache. *)
Definition no_empty c : Prop := ∀ uid, token_of c uid "" = None.
Lemma no_empty_Update c uid token extra : no_empty c → no_empty (UpdateTokenCache c uid token extra).
Proof.
  intros Hc u. destruct (decide (loginInfo extra = "")) as [He|Hne]; [by rewrite Update_noop|].
  rewrite token_Update by done. rewrite decide_False by naive_solver. apply Hc.
Qed.
Lemma no_empty_Remove c uid extra : no_empty c → no_empty (RemoveTokenCache c uid extra).
Proof. intros Hc u. rewrite token_Remove. case_decide; [done|apply Hc]. Qed.

Lemma loginInfo_one e : loginInfo [e] = e.
Proof. done. Qed.
Lemma loginInfo_app l1 l2 : loginInfo (l1 ++ l2) = loginInfo l1 +:+ loginInfo l2.
Proof.
  unfold loginInfo. rewrite foldl_app. generalize (foldl (λ i e, i +:+ e) "" l1).
  assert (∀ l i j, foldl (λ i e : string, i +:+ e) (i +:+ j) l = i +:+ foldl (λ i e, i +:+ e) j l) as Hl.
  { clear. induction l as [|e l IH]; intros i j; simpl; [done|]. by rewrite <- IH, GoStr.sapp_assoc. }
  intros i. rewrite <- (Hl l2 i ""). by rewrite GoStr.sapp_nil_r.
Qed.

(** The token depends on the concatenation of its arguments only. *)
Lemma Sprintf_vv a b : GoStr.Sprintf "%v%v" [a; b] = a +:+ b.
Proof. simpl. unfold GoStr.extra_args. by rewrite GoStr.sapp_nil_r. Qed.
Lemma token_data uid extra :
  foldl (λ data s, GoStr.Sprintf "%v%v" [data; s]) uid extra = uid +:+ loginInfo extra.
Proof.
  induction extra as [|e extra IH] using rev_ind; [by rewrite GoStr.sapp_nil_r|].
  rewrite foldl_app, loginInfo_app, IH. unfold foldl at 1. rewrite Sprintf_vv, loginInfo_one.
  apply GoStr.sapp_assoc.
Qed.
Lemma genToken_concat uid extra : genToken uid extra = genToken (uid +:+ loginInfo extra) [].
Proof. unfold genToken. by rewrite token_data. Qed.

Lemma hex_length bs n : length bs = n → String.length (hex bs) = 2 * n.
Proof.
  intros <-. unfold hex. induction bs as [|b bs IH]; csimpl; [done|]. rewrite IH. lia.
Qed.
Lemma EncryptPassword_ok uid salt password : salt ≠ "" →
  ∃ e, EncryptPassword uid salt password = Done e ∧ String.length e = 64.
Proof.
  intros Hs. unfold EncryptPassword. rewrite decide_False.
  - eexists. split; [done|]. apply (hex_length _ 32), CryptoFacts.length_Sha256.
  - by destruct salt.
Qed.
End AuthFacts.

(** ** Theorems about authentication *)
Module AuthTheorems.
Import Auth AuthFacts.

(** The calls that change the cache, the most recent first, and what they say
    about a user and login info. *)
Inductive event :=
  | EUpdate (uid token : string) (extra : list string)
  | ERemove (uid : string) (extra : list string).
Definition apply_event (e : event) (c : cache) : cache :=
  match e with
  | EUpdate uid token extra => UpdateTokenCache c uid token extra
  | ERemove uid extra => RemoveTokenCache c uid extra
  end.
Definition cache_after (es : list event) : cache := foldr apply_event ∅ es.
Fixpoint last_token (es : list event) (uid info : string) : option string :=
  match es with
  | [] => None
  | EUpdate u t x :: es =>
    if decide (u = uid ∧ loginInfo x = info) then Some t else last_token es uid info
  | ERemove u x :: es =>
    if decide (u = uid ∧ (loginInfo x = "" ∨ loginInfo x = info)) then None
    else last_token es uid info
  end.

(** C30. The login state of a user at an address is decided by the last call
    about it: a token is accepted iff the login info is not empty and the last
    update of that user and info stored that token and was not followed by a
    removal of it, or of the whole user. *)
Theorem CheckLoginState_iff_last es uid token extra :
  CheckLoginState (cache_after es) uid token extra = true ↔
    loginInfo extra ≠ "" ∧ last_token es uid (loginInfo extra) = Some token.
Proof.
  rewrite Check_token, bool_decide_eq_true.
  assert (Hemp : ∀ es, no_empty (cache_after es)).
  { clear. induction es as [|[u t x|u x] es IH]; simpl; [done| |].
    - by apply no_empty_Update.
    - by apply no_empty_Remove. }
  destruct (decide (loginInfo extra = "")) as [He|Hne].
  { rewrite He, (Hemp es uid). naive_solver. }
  transitivity (last_token es uid (loginInfo extra) = Some token); [|tauto].
  clear Hemp. induction es as [|[u t x|u x] es IH]; simpl; [done| |].
  - destruct (decide (loginInfo x = "")) as [Hx|Hx].
    + rewrite Update_noop, IH by done. rewrite decide_False; [done|]. intros [_ Heq]. congruence.
    + rewrite token_Update by done. repeat case_decide; naive_solver.
  - rewrite token_Remove. repeat case_decide; naive_solver.
Qed.

(** [Login] with a table that answers: the password is checked against the
    SHA-256 of the password put into the salt at an index that depends on the
    user id; on success the token of the user and address is returned, otherwise
    no token; so whoever was registered with a password logs in with it.  An
    empty salt in the table is a division by zero: the call panics. *)
Theorem Login_spec {W} (getter : string → W → result (string * string) * W)
    uid password extra w salt stored w' :
  getter uid w = (Ok (salt, stored), w') →
  (salt = "" → Login (Some getter) uid password extra w = Panic "integer divide by zero") ∧
  (salt ≠ "" → ∃ e, EncryptPassword uid salt password = Done e ∧ String.length e = 64 ∧
     Login (Some getter) uid password extra w =
       if decide (stored = e) then Done (genToken uid extra, true, w') else Done ("", false, w')).
Proof.
  intros Hg. unfold Login. rewrite Hg. unfold checkPassword. split.
  - intros ->. done.
  - intros Hs. destruct (EncryptPassword_ok uid salt password Hs) as (e & He & Hl).
    exists e. split; [done|]. split; [done|]. rewrite He. simpl.
    destruct (decide (stored = e)) as [->|Hne].
    + by rewrite bool_decide_eq_true_2.
    + by rewrite bool_decide_eq_false_2.
Qed.

(** Tokens are not sessions: the token is a function of the user id and
    address, and of their concatenation only.  A token that was removed by a
    logout is valid again after the next login from that address, and two users
    whose id and address concatenate to the same text have the same token. *)
Theorem tokens_repeat uid addr uid' addr' c :
  addr ≠ "" → uid +:+ addr = uid' +:+ addr' →
  let old := genToken uid [addr] in
  let c1 := UpdateTokenCache c uid old [addr] in
  let c2 := RemoveTokenCache c1 uid [addr] in
  let c3 := UpdateTokenCache c2 uid (genToken uid [addr]) [addr] in
  CheckLoginState c1 uid old [addr] = true ∧ CheckLoginState c2 uid old [addr] = false ∧
  CheckLoginState c3 uid old [addr] = true ∧ genToken uid' [addr'] = old.
Proof.
  intros Ha Hcat. cbv zeta. rewrite !Check_token, !loginInfo_one.
  rewrite !bool_decide_eq_true, bool_decide_eq_false.
  rewrite token_Remove, !token_Update, loginInfo_one by done.
  rewrite !decide_True by tauto. split_and!; [done|done|done|].
  rewrite (genToken_concat uid'), (genToken_concat uid), !loginInfo_one. by rewrite Hcat.
Qed.

(** *** Witnesses: a table with one user *)
Definition ex_table (uid : string) (w : nat) : result (string * string) * nat :=
  if decide (uid = "alice") then (Ok ("0123456789abcdef",
    "85462644958823a029d61eca807e8d5b8a3cf8b62d6356ca61e476764e21de48"), S w)
  else (Err (Errorf "sql: no rows in result set"), S w).
Lemma Login_spec_witness :
  ("0123456789abcdef" = "" →
     Login (Some ex_table) "alice" "secret" ["1.2.3.4:5"] 0 = Panic "integer divide by zero") ∧
  ("0123456789abcdef" ≠ "" → ∃ e,
     EncryptPassword "alice" "0123456789abcdef" "secret" = Done e ∧ String.length e = 64 ∧
     Login (Some ex_table) "alice" "secret" ["1.2.3.4:5"] 0 =
       if decide ("85462644958823a029d61eca807e8d5b8a3cf8b62d6356ca61e476764e21de48" = e)
       then Done (genToken "alice" ["1.2.3.4:5"], true, 1) else Done ("", false, 1)).
Proof. apply Login_spec. reflexivity. Defined.

Lemma tokens_repeat_witness :
  let old := genToken "bob" ["127.0.0.1:5"] in
  let c1 := UpdateTokenCache ∅ "bob" old ["127.0.0.1:5"] in
  let c2 := RemoveTokenCache c1 "bob" ["127.0.0.1:5"] in
  let c3 := UpdateTokenCache c2 "bob" (genToken "bob" ["127.0.0.1:5"]) ["127.0.0.1:5"] in
  CheckLoginState c1 "bob" old ["127.0.0.1:5"] = true ∧
  CheckLoginState c2 "bob" old ["127.0.0.1:5"] = false ∧
  CheckLoginState c3 "bob" old ["127.0.0.1:5"] = true ∧ genToken "bob1" ["27.0.0.1:5"] = old.
Proof. apply (tokens_repeat "bob" "127.0.0.1:5" "bob1" "27.0.0.1:5" ∅); [discriminate|reflexivity]. Defined.
End AuthTheorems.
