(* ===== verification/EventCtl.v ===== *)
(** * vendor/github.com/1071496910/event-controller: the event controller

    Module [Sucker] turns the answer of etcd and its watch into events; module
    [Ctl] is the controller: one goroutine that distributes the events to three
    channels, and one per channel that handles them.  [step] is their
    interleaving; the theorems say what order survives it. *)

From S2P Require Import Prelude.
From stdpp Require Import relations.

Inductive optype := op_add | op_update | op_del.
#[export] Instance optype_eq_dec : EqDecision optype.
Proof. solve_decision. Defined.
Record Event (A : Type) := MkEvent { OPType : optype; Obj : A }.
Arguments MkEvent {A} _ _.
Arguments OPType {A} _.
Arguments Obj {A} _.

(** ** sucker.go *)
Module Sucker.
Record EtcdSuckerEventObj := MkObj { Key : string; Val : string }.
(** [once] and [cli] are the connection; a duration is in nanoseconds. *)
Record EtcdSucker := MkSucker
  { endpoints : string; prefix : string; recursive : bool; connTimeout : Z; chanSize : Z }.
Definition EtcdSuckerOption := EtcdSucker → EtcdSucker.
Definition EtcdSuckerWithRecursive : EtcdSuckerOption :=
  λ e, MkSucker (endpoints e) (prefix e) true (connTimeout e) (chanSize e).
Definition EtcdSuckerConnTimeout (t : Z) : EtcdSuckerOption :=
  λ e, MkSucker (endpoints e) (prefix e) (recursive e) t (chanSize e).
Definition EtcdSuckerChanSize (len : Z) : EtcdSuckerOption :=
  λ e, MkSucker (endpoints e) (prefix e) (recursive e) (connTimeout e) len.
Definition NewEtcdSucker (eps pre : string) (opts : list EtcdSuckerOption) : EtcdSucker :=
  foldl (λ e opt, opt e) (MkSucker eps pre false 3000000000 1024) opts.

(** An event of an etcd watch: its type (1: delete) and whether the key was
    created by it. *)
Record WatchEvent := MkWatch { Type_ : Z; IsCreate : bool; Kv : EtcdSuckerEventObj }.
Definition of_watch (e : WatchEvent) : Event EtcdSuckerEventObj :=
  MkEvent (if (Type_ e =? 1)%Z then op_del else if IsCreate e then op_add else op_update) (Kv e).
(** What the goroutine of [GetSucker] sends: the keys that exist, then the
    watch from the next revision on.  A failed first read sends nothing. *)
Definition GetSucker (first : result (list EtcdSuckerEventObj)) (watch : list WatchEvent)
    : list (Event EtcdSuckerEventObj) :=
  match first with
  | Err _ => []
  | Ok kvs => (MkEvent op_add <$> kvs) ++ (of_watch <$> watch)
  end.
End Sucker.

(** ** controller.go *)
Module Ctl.
Section ctl.
Context {A : Type}.
Implicit Types e : Event A.

(** [source] is what [eventChan] delivers from now on, [held] the event the
    distributing goroutine is sending, [handled] what the callbacks were called
    on, in order.  A goroutine that ended is [false] in [running]. *)
Record Controller := MkCtl {
  source : list (Event A);
  held : option (Event A);
  chan : optype → list (Event A);
  handled : list (Event A);
  stopped : bool;             (* stopChan is closed *)
  suck_running : bool;
  loop_running : optype → bool;
}.
Implicit Types c : Controller.

Definition NewController (events : list (Event A)) : Controller :=
  MkCtl events None (λ _, []) [] false true (λ _, true).
Definition upd {B} (f : optype → B) (t : optype) (b : B) : optype → B :=
  λ t', if decide (t' = t) then b else f t'.

(** [eventQueueLen] is the capacity of each of the three channels. *)
Inductive step (eventQueueLen : nat) : Controller → Controller → Prop :=
  | step_take e es ch h st lr :
      step eventQueueLen (MkCtl (e :: es) None ch h st true lr) (MkCtl es (Some e) ch h st true lr)
  | step_send e es ch h st lr :
      length (ch (OPType e)) < eventQueueLen →
      step eventQueueLen (MkCtl es (Some e) ch h st true lr)
        (MkCtl es None (upd ch (OPType e) (ch (OPType e) ++ [e])) h st true lr)
  | step_handle t e q es hd ch h st sr lr :
      ch t = e :: q → lr t = true →
      step eventQueueLen (MkCtl es hd ch h st sr lr) (MkCtl es hd (upd ch t q) (h ++ [e]) st sr lr)
  | step_suck_ends es ch h lr :
      step eventQueueLen (MkCtl es None ch h true true lr) (MkCtl es None ch h true false lr)
  | step_loop_ends t es hd ch h sr lr :
      lr t = true →
      step eventQueueLen (MkCtl es hd ch h true sr lr) (MkCtl es hd ch h true sr (upd lr t false))
  | step_Stop es hd ch h sr lr :
      step eventQueueLen (MkCtl es hd ch h false sr lr) (MkCtl es hd ch h true sr lr).

(** The events of one type, in order. *)
Definition of_type (t : optype) (l : list (Event A)) : list (Event A) :=
  filter (λ e, OPType e = t) l.
Definition held_list c : list (Event A) := match held c with Some e => [e] | None => [] end.
(** All events of type [t] a state knows, the oldest first. *)
Definition all_of c (t : optype) : list (Event A) :=
  of_type t (handled c) ++ chan c t ++ of_type t (held_list c ++ source c).
Definition typed c : Prop := ∀ t, Forall (λ e, OPType e = t) (chan c t).

(** How much is left to do while nobody calls [Stop]. *)
Definition pending c : nat :=
  3 * length (source c) + 2 * length (held_list c) +
  (length (chan c op_add) + length (chan c op_update) + length (chan c op_del)).
Definition working c : Prop :=
  stopped c = false ∧ suck_running c = true ∧ ∀ t, loop_running c t = true.
Definition no_stop (n : nat) c c' : Prop := step n c c' ∧ stopped c' = false.

Lemma of_type_app t l1 l2 : of_type t (l1 ++ l2) = of_type t l1 ++ of_type t l2.
Proof. apply filter_app. Qed.
Lemma of_type_one t e : of_type t [e] = if decide (OPType e = t) then [e] else [].
Proof. unfold of_type. rewrite filter_cons, filter_nil. done. Qed.
Lemma of_type_cons t e l : of_type t (e :: l) = of_type t [e] ++ of_type t l.
Proof. apply (of_type_app t [e] l). Qed.

Lemma step_typed n c c' : step n c c' → typed c → typed c'.
Proof.
  intros Hs Ht. destruct Hs as [|e| t e q ? ? ? ? ? ? ? Hch| | |]; try exact Ht; intros t'.
  - specialize (Ht t'). simpl in *. unfold upd. case_decide; [subst|done].
    apply Forall_app. split; [done|by constructor].
  - pose proof (Ht t') as Ht'. simpl in *. unfold upd. case_decide; [subst t'|done].
    rewrite Hch in Ht'. by apply Forall_cons in Ht' as [_ ?].
Qed.

(** A step moves events along but keeps the sequence of each type. *)
Lemma step_all_of n c c' t : step n c c' → typed c → all_of c' t = all_of c t.
Proof.
  intros Hs Ht. destruct Hs as [|e es| t0 e q ? ? ? ? ? ? ? Hch| | |]; try done;
    unfold all_of, held_list; simpl in *.
  - unfold upd. rewrite (of_type_cons t e es), of_type_one.
    destruct (decide (t = OPType e)) as [->|Hne].
    + rewrite decide_True by done. by rewrite <- !(assoc_L (++)).
    + by rewrite decide_False by congruence.
  - rewrite of_type_app, of_type_one. unfold upd.
    pose proof (Ht t0) as Ht0. simpl in Ht0. rewrite Hch in Ht0.
    apply Forall_cons in Ht0 as [Hte _].
    destruct (decide (t = t0)) as [->|Hne].
    + rewrite decide_True by done. rewrite Hch. by rewrite <- !(assoc_L (++)).
    + rewrite decide_False by congruence. by rewrite (right_id_L [] (++)).
Qed.

Lemma reach_inv n c c' t : rtc (step n) c c' → typed c → typed c' ∧ all_of c' t = all_of c t.
Proof.
  induction 1 as [|c c1 c2 Hs _ IH]; intros Ht; [done|].
  pose proof (step_typed _ _ _ Hs Ht) as Ht1. destruct (IH Ht1) as [? ->].
  split; [done|]. by eapply step_all_of.
Qed.

(** Without [Stop] a step keeps the goroutines and brings the end nearer. *)
Lemma step_pending n c c' : no_stop n c c' → working c → working c' ∧ pending c' < pending c.
Proof.
  intros [Hs Hns] (H1 & H2 & H3). destruct Hs as [|e| t e q ? ? ? ? ? ? ? Hch| | |]; simpl in *;
    try congruence; (split; [done|]); unfold pending, held_list; simpl.
  - lia.
  - unfold upd. destruct (OPType e); repeat (case_decide; [|congruence || idtac]); try congruence;
      rewrite ?length_app; simpl; lia.
  - unfold upd. destruct t; repeat (case_decide; [|congruence || idtac]); try congruence;
      rewrite Hch; simpl; lia.
Qed.
Lemma can_step n c : 0 < n → working c → 0 < pending c → ∃ c', no_stop n c c'.
Proof.
  intros Hn (H1 & H2 & H3) Hp. destruct c as [src hd ch h st sr lr]. simpl in *. subst.
  unfold pending, held_list in Hp. simpl in Hp.
  assert (Hhandle : (∃ t, ch t ≠ []) → ∃ c', no_stop n (MkCtl src hd ch h false true lr) c').
  { intros [t Ht]. destruct (ch t) as [|e q] eqn:Hch; [done|].
    eexists. split; [by eapply step_handle|done]. }
  destruct (ch op_add) eqn:Ha; [|apply Hhandle; exists op_add; congruence].
  destruct (ch op_update) eqn:Hu; [|apply Hhandle; exists op_update; congruence].
  destruct (ch op_del) eqn:Hd; [|apply Hhandle; exists op_del; congruence].
  destruct hd as [e|].
  - eexists. split; [apply step_send; by destruct (OPType e); rewrite ?Ha, ?Hu, ?Hd|done].
  - destruct src as [|e src]; [simpl in Hp; lia|]. eexists. split; [apply step_take|done].
Qed.
Lemma drains n c : 0 < n → working c → ∃ c', rtc (no_stop n) c c' ∧ pending c' = 0.
Proof.
  intros Hn. remember (pending c) as m eqn:Hm. revert c Hm.
  induction (lt_wf m) as [m _ IH]. intros c -> Hw.
  destruct (decide (pending c = 0)) as [|Hne]; [by exists c|].
  destruct (can_step n c Hn Hw) as [c1 Hs]; [lia|].
  destruct (step_pending _ _ _ Hs Hw) as [Hw1 Hlt].
  destruct (IH _ Hlt c1 eq_refl Hw1) as (c2 & ? & ?). exists c2. split; [by eapply rtc_l|done].
Qed.
Lemma pending_0 c t : pending c = 0 → typed c → all_of c t = of_type t (handled c).
Proof.
  intros Hp Ht. unfold pending, all_of in *. destruct (source c); [|simpl in Hp; lia].
  destruct (held_list c); [|simpl in Hp; lia].
  assert (chan c t = []) as ->.
  { assert (length (chan c t) = 0) by (destruct t; lia). by destruct (chan c t). }
  apply (right_id_L [] (++)).
Qed.
Lemma no_stop_step n c c' : rtc (no_stop n) c c' → rtc (step n) c c'.
Proof. induction 1 as [|c0 c1 c2 [Hs _] _ IH]; [done|]. by eapply rtc_l. Qed.
Lemma new_typed events : typed (NewController events).
Proof. by intros t. Qed.
Lemma all_of_new events t : all_of (NewController events) t = of_type t events.
Proof. done. Qed.
End ctl.
#[global] Arguments Controller : clear implicits.
End Ctl.

(** ** Theorems about the controller *)
Module CtlTheorems.
Import Ctl.

(** No event is lost, duplicated or reordered within its type: in every
    state the controller reaches, from any queue length and with any
    interleaving, [Stop] included, the events of a type that were handled, then
    those in its channel, then those still to be distributed are the events of
    that type in the order they were sent. *)
Theorem per_type_order {A} n (events : list (Event A)) c t :
  rtc (step n) (NewController events) c →
  of_type t (handled c) ++ chan c t ++ of_type t (held_list c ++ source c) = of_type t events.
Proof.
  intros Hr. destruct (reach_inv _ _ _ t Hr (new_typed events)) as [_ He].
  by rewrite all_of_new in He.
Qed.

(** C23. Every event is handled: as long as nobody calls [Stop], no run is
    infinite (each step decreases [pending]) and the controller is never stuck
    before everything is handled; where a run ends, the events of each type
    have been handled exactly once, in order. *)
Theorem all_events_handled {A} n (events : list (Event A)) c :
  0 < n → rtc (no_stop n) (NewController events) c →
  (∀ c', no_stop n c c' → pending c' < pending c) ∧
  (pending c > 0 → ∃ c', no_stop n c c') ∧
  ∃ c', rtc (no_stop n) c c' ∧ pending c' = 0 ∧ ∀ t, of_type t (handled c') = of_type t events.
Proof.
  intros Hn Hr.
  assert (working c) as Hw.
  { assert (working (NewController events)) as Hw0 by done. revert Hw0.
    induction Hr as [|c0 c1 c2 Hs _ IH]; [done|]. intros Hw0. by apply IH, (step_pending n c0). }
  split; [intros c' Hs; by apply (step_pending n c)|]. split; [intros; by apply can_step|].
  destruct (drains n c Hn Hw) as (c' & Hr' & Hp). exists c'. split; [done|]. split; [done|].
  intros t. assert (rtc (step n) (NewController events) c') as Hr''.
  { apply no_stop_step. by etrans. }
  destruct (reach_inv _ _ _ t Hr'' (new_typed events)) as [Ht He].
  by rewrite all_of_new, pending_0 in He.
Qed.

Lemma per_type_order_witness :
  ∃ c, rtc (step 1) (NewController [MkEvent op_add 1; MkEvent op_del 1]) c ∧ source c = [] ∧
    of_type op_add (handled c) ++ chan c op_add ++ of_type op_add (held_list c ++ source c) =
      of_type op_add [MkEvent op_add 1; MkEvent op_del 1].
Proof.
  eexists. split; [|split; [|apply (per_type_order 1 _ _ op_add)]].
  - eapply rtc_l; [apply step_take|]. eapply rtc_l; [apply step_send; simpl; lia|].
    eapply rtc_l; [apply step_take|]. apply rtc_refl.
  - reflexivity.
  - eapply rtc_l; [apply step_take|]. eapply rtc_l; [apply step_send; simpl; lia|].
    eapply rtc_l; [apply step_take|]. apply rtc_refl.
Defined.
Lemma all_events_handled_witness :
  let c := NewController [MkEvent op_add 1; MkEvent op_del 1] in
  (∀ c', no_stop 1024 c c' → pending c' < pending c) ∧
  (pending c > 0 → ∃ c', no_stop 1024 c c') ∧
  ∃ c', rtc (no_stop 1024) c c' ∧ pending c' = 0 ∧
    ∀ t, of_type t (handled c') = of_type t [MkEvent op_add 1; MkEvent op_del 1].
Proof. apply all_events_handled; [lia|apply rtc_refl]. Defined.
End CtlTheorems.
