(* ===== verification/Proto.v ===== *)
(** * proto: the messages, and the grpc calls

    The messages of [mysh.proto] as the handlers see them, and class [Grpc], the
    calls on a connection that the code makes; the connections and the network
    are not part of the program. *)

From S2P Require Import Prelude.

(** ** Messages *)
Inductive ServingStatus := UNKNOWN | SERVING | NOT_SERVING.
#[export] Instance ServingStatus_eq_dec : EqDecision ServingStatus.
Proof. solve_decision. Defined.

Record HealthCheckRequest := MkHealthCheckRequest { hc_Service : string }.
Record HealthCheckResponse := MkHealthCheckResponse { hc_Status : ServingStatus }.
Record UploadRequest := MkUploadRequest
  { up_Uid : string; up_Record : string; up_Token : string; up_CliAddr : string }.
Record UploadResponse := MkUploadResponse { up_ErrorMsg : string; up_ResponseCode : Z }.
Record SearchRequest := MkSearchRequest
  { se_Uid : string; se_SearchString : string; se_Token : string; se_CliAddr : string }.
Record SearchResponse := MkSearchResponse { se_Response : list string; se_ResponseCode : Z }.
Record LoginRequest := MkLoginRequest
  { li_Uid : string; li_Password : string; li_CliAddr : string }.
Record LoginResponse := MkLoginResponse { li_ResponseCode : Z; li_Token : string }.
Record LogoutRequest := MkLogoutRequest { lo_Uid : string; lo_CliAddr : string }.
Record LogoutResponse := MkLogoutResponse { lo_ResponseCode : Z }.
Record CleanRequest := MkCleanRequest { cl_Uid : string }.
Record CleanResponse := MkCleanResponse { cl_ResponseCode : Z }.
Record UidLogoutRequest := MkUidLogoutRequest { ul_Uid : string }.
Record UidLogoutResponse := MkUidLogoutResponse { ul_ResponseCode : Z }.
Record CommonQueryRequest := MkCommonQueryRequest { q_Req : string }.
Record CommonQueryResponse := MkCommonQueryResponse { q_Resp : string }.
Record CommonQueryListResponse := MkCommonQueryListResponse { ql_Resp : list string }.

(** What a handler returns: a response, or nil, and an error, or nil. *)
Definition reply (R : Type) : Type := option R * option error.

(** The proxy overwrites the address of the client. *)
Definition set_up_CliAddr (r : UploadRequest) (a : string) : UploadRequest :=
  MkUploadRequest (up_Uid r) (up_Record r) (up_Token r) a.
Definition set_se_CliAddr (r : SearchRequest) (a : string) : SearchRequest :=
  MkSearchRequest (se_Uid r) (se_SearchString r) (se_Token r) a.
Definition set_li_CliAddr (r : LoginRequest) (a : string) : LoginRequest :=
  MkLoginRequest (li_Uid r) (li_Password r) a.
Definition set_lo_CliAddr (r : LogoutRequest) (a : string) : LogoutRequest :=
  MkLogoutRequest (lo_Uid r) a.

(** ** Calls *)
Class Grpc (W : Type) := {
  conn : Type;
  (** [grpc.Dial], without transport security and with the certificate. *)
  DialInsecure : string → W → result conn * W;
  DialTLS : string → W → result conn * W;
  rpc_Search : conn → SearchRequest → W → result SearchResponse * W;
  rpc_Upload : conn → UploadRequest → W → result UploadResponse * W;
  rpc_Login : conn → LoginRequest → W → result LoginResponse * W;
  rpc_Logout : conn → LogoutRequest → W → result LogoutResponse * W;
  rpc_CleanUidCache : conn → CleanRequest → W → result CleanResponse * W;
  rpc_UidLogout : conn → UidLogoutRequest → W → result UidLogoutResponse * W;
  rpc_Check : conn → HealthCheckRequest → W → result HealthCheckResponse * W;
  rpc_UidEndpoint : conn → CommonQueryRequest → W → result CommonQueryResponse * W;
}.
