(* ===== verification/Caches.v ===== *)
(** * server/server.go: caches and client managers

    Module [StalingCache] is the cache of the endpoints of users, with an
    explicit clock; [CliManager] the four managers of grpc clients, which differ
    in how they dial; [Suspend] the table of suspended users. *)

From S2P Require Import Prelude GoStr Proto.
#[local] Open Scope Z_scope.

(** ** stalingCache: times are nanoseconds *)
Record scNode := ScNode { val : string; deadline : Z }.
Module StalingCache.
Abbreviation stalingCache := (gmap string scNode).
Definition ttl : Z := 30 * 1000000000.
Definition Put (now : Z) (sc : stalingCache) (key v : string) : stalingCache :=
  <[key := ScNode v (now + ttl)]> sc.
Definition Get (now : Z) (sc : stalingCache) (key : string) : option string * stalingCache :=
  match sc !! key with
  | Some node =>
    if now <? deadline node then (Some (val node), sc) else (None, delete key sc)
  | None => (None, sc)
  end.
Definition Del (sc : stalingCache) (key : string) : stalingCache := delete key sc.

(** *** Calls, with the time they are made at, the most recent first *)
Inductive call := CPut (key v : string) | CGet (key : string) | CDel (key : string).
Definition apply (tc : Z * call) (sc : stalingCache) : stalingCache :=
  match tc with
  | (now, CPut k v) => Put now sc k v
  | (now, CGet k) => (Get now sc k).2
  | (_, CDel k) => Del sc k
  end.
Definition after (cs : list (Z * call)) : stalingCache := foldr apply ∅ cs.
(** The last [Put] of a key that no [Del] follows. *)
Fixpoint last_put (cs : list (Z * call)) (key : string) : option (Z * string) :=
  match cs with
  | [] => None
  | (now, CPut k v) :: cs => if decide (k = key) then Some (now, v) else last_put cs key
  | (_, CDel k) :: cs => if decide (k = key) then None else last_put cs key
  | (_, CGet _) :: cs => last_put cs key
  end.
(** The clock does not go back. *)
Fixpoint in_order (now : Z) (cs : list (Z * call)) : Prop :=
  match cs with [] => True | (t, _) :: cs => t ≤ now ∧ in_order t cs end.

Lemma in_order_le now now' cs : now ≤ now' → in_order now cs → in_order now' cs.
Proof. destruct cs as [|[t c] cs]; simpl; [done|]. intros ? [? ?]. split; [lia|done]. Qed.

(** What the cache holds: the last put, or nothing if that one has expired. *)
Lemma after_spec cs key : ∀ now, in_order now cs →
  match last_put cs key with
  | Some (t, v) => t ≤ now ∧
      (after cs !! key = Some (ScNode v (t + ttl)) ∨ (after cs !! key = None ∧ t + ttl ≤ now))
  | None => after cs !! key = None
  end.
Proof.
  induction cs as [|[t c] cs IH]; intros now; simpl; [done|]. intros [Ht Ho].
  specialize (IH t Ho). destruct c as [k v|k|k]; simpl.
  - unfold Put. rewrite lookup_insert. case_decide as Hk; [split; [done|by left]|].
    destruct (last_put cs key) as [[t' v']|]; [|done]. destruct IH as [? [?|[? ?]]].
    + split; [lia|by left].
    + split; [lia|]. right. split; [done|lia].
  - unfold Get. destruct (after cs !! k) as [n|] eqn:Hn; simpl.
    + destruct (Z.ltb_spec t (deadline n)).
      * destruct (last_put cs key) as [[t' v']|]; [|done]. destruct IH as [? [?|[? ?]]].
        -- split; [lia|by left].
        -- split; [lia|]. right. split; [done|lia].
      * simpl. rewrite lookup_delete. case_decide as Hk.
        -- subst k. destruct (last_put cs key) as [[t' v']|]; [|done]. split; [lia|]. right.
           split; [done|]. destruct IH as [? [He|[? ?]]]; [|lia].
           rewrite He in Hn. injection Hn as <-. simpl in *. lia.
        -- destruct (last_put cs key) as [[t' v']|]; [|done]. destruct IH as [? [?|[? ?]]].
           ++ split; [lia|by left].
           ++ split; [lia|]. right. split; [done|lia].
    + destruct (last_put cs key) as [[t' v']|]; [|done]. destruct IH as [? [?|[? ?]]].
      * split; [lia|by left].
      * split; [lia|]. right. split; [done|lia].
  - unfold Del. rewrite lookup_delete. case_decide; [done|].
    destruct (last_put cs key) as [[t' v']|]; [|done]. destruct IH as [? [?|[? ?]]].
    + split; [lia|by left].
    + split; [lia|]. right. split; [done|lia].
Qed.
End StalingCache.

(** ** The managers of grpc clients *)
Module CliManager.
Section managers.
Context {W : Type} `{Grpc W}.
Definition cliMap : Type := gmap string conn.
Implicit Types m : gmap string conn.

(** [ensureCliExists] of the four managers, given how each makes a client. *)
Definition ensureCliExists (newCli : string → W → outcome (conn * W)) (endpoint : string)
    m (w : W) : outcome (gmap string conn * W) :=
  match m !! endpoint with
  | Some _ => Done (m, w)
  | None => run (c, w) <- newCli endpoint w ;; Done (<[endpoint := c]> m, w)
  end.
(** A method: the client of the endpoint, then the call on it. *)
Definition method {Q R} (newCli : string → W → outcome (conn * W))
    (rpc : conn → Q → W → result R * W) (endpoint : string) (q : Q) m (w : W)
    : outcome (result R * gmap string conn * W) :=
  run (m, w) <- ensureCliExists newCli endpoint m w ;;
  match m !! endpoint with
  | None => Panic "nil pointer dereference"
  | Some cli => let '(r, w) := rpc cli q w in Done (r, m, w)
  end.

Definition dial_or_panic (addr : string) (w : W) : outcome (conn * W) :=
  match DialInsecure addr w with
  | (Ok c, w) => Done (c, w)
  | (Err _, _) => Panic "dial"
  end.
Definition newSearchServerCli (endpoint : string) (w : W) : outcome (conn * W) :=
  dial_or_panic endpoint w.
Definition newSCServerCli (endpoint : string) (w : W) : outcome (conn * W) :=
  dial_or_panic endpoint w.
(** The errors are only logged; a client on a nil connection panics when it is
    used. *)
Definition newPCServerCli (endpoint : string) (w : W) : outcome (conn * W) :=
  match DialTLS endpoint w with
  | (Ok c, w) => Done (c, w)
  | (Err _, _) => Panic "nil pointer dereference"
  end.
(** [strings.Split(endpoint, ":")[1]] *)
Definition newDSServerCli (endpoint : string) (w : W) : outcome (conn * W) :=
  match GoStr.Split endpoint (Ascii.ascii_of_nat 58) !! 1%nat with
  | None => Panic "index out of range"
  | Some dashPort => dial_or_panic ("www.myshell.top:" +:+ dashPort) w
  end.

(** EndpointCliManager *)
Definition ecm_Login := method newSearchServerCli rpc_Login.
Definition ecm_Logout := method newSearchServerCli rpc_Logout.
Definition ecm_Search := method newSearchServerCli rpc_Search.
Definition ecm_Upload := method newSearchServerCli rpc_Upload.
(** PCCliManager *)
Definition pcm_CleanUidCache := method newPCServerCli rpc_CleanUidCache.
(** SCCliManager *)
Definition scm_UidLogout := method newSCServerCli rpc_UidLogout.
Definition scm_Check := method newSCServerCli rpc_Check.

(** Where the manager has no other client for the endpoint than a new one. *)
Lemma method_calls {Q R} (call : conn → Q → W → result R * W) newCli ep q m (w : W) c :
  newCli ep w = Done (c, w) → (∀ c', m !! ep = Some c' → c' = c) →
  ∃ m', method newCli call ep q m w = (let '(r, w') := call c q w in Done (r, m', w')) ∧
    (m' = m ∨ m' = <[ep := c]> m).
Proof.
  intros Hc Hm. unfold method, ensureCliExists. destruct (m !! ep) as [c'|] eqn:Hl.
  - exists m. simpl. rewrite Hl, (Hm c' eq_refl). split; [done|by left].
  - exists (<[ep := c]> m). rewrite Hc. simpl. rewrite lookup_insert_eq. split; [done|by right].
Qed.
End managers.
End CliManager.

(** ** Suspended users *)
Module Suspend.
Abbreviation pauseMap := (gmap string bool).
Definition uidSuspensive (m : pauseMap) (uid : string) : bool :=
  match m !! uid with Some pause => pause | None => false end.
Definition uidSuspend (m : pauseMap) (uid : string) : pauseMap := <[uid := true]> m.
Definition uidResume (m : pauseMap) (uid : string) : pauseMap := delete uid m.
(** [waitUid] polls; what it sees at each poll is an argument.  [None]: it is
    still waiting after the polls given. *)
Fixpoint waitUid (polls : list pauseMap) (uid : string) : option pauseMap :=
  match polls with
  | [] => None
  | m :: polls => if uidSuspensive m uid then waitUid polls uid else Some m
  end.
End Suspend.

(** ** Theorems *)
Module CachesTheorems.
Import StalingCache.

(** The endpoint cache answers with the value of the last [Put] of the key
    that no [Del] follows, for 30 seconds after it, and with nothing from then
    on, whatever calls were made in between. *)
Theorem Get_is_last_put cs key now :
  in_order now cs →
  (Get now (after cs) key).1 =
    match last_put cs key with
    | Some (t, v) => if now <? t + ttl then Some v else None
    | None => None
    end.
Proof.
  intros Ho. pose proof (after_spec cs key now Ho) as Hs. unfold Get.
  destruct (last_put cs key) as [[t v]|].
  - destruct Hs as [_ [-> | [-> Hexp]]]; simpl.
    + by destruct (Z.ltb_spec now (t + ttl)).
    + by destruct (Z.ltb_spec now (t + ttl)); [lia|].
  - by rewrite Hs.
Qed.
Lemma Get_is_last_put_witness :
  (Get 31000000000 (after [(20000000000, CGet "bob"); (5, CPut "bob" "e2"); (0, CPut "alice" "e1")])
     "alice").1 = None.
Proof.
  etrans; [apply Get_is_last_put|reflexivity]. simpl. lia.
Defined.
End CachesTheorems.
