(* ===== verification/Server.v ===== *)
(** * server/server.go: the search server

    [RecorderManager] is the interface of that name, with the promise of
    [RMgrSpec] as its laws; [RMgr_laws] discharges it.  Module [Server] is
    [SearchServer] and [SearchController] over any recorder manager; [server_refines]
    relates a server to login states and histories, one per user. *)

From S2P Require Import Prelude GoStr Json Etcd Lru Recorder RecorderMgr Crypto Auth Proto.
Import RMgrSpec.

(** ** The interface of the recorder manager *)
Class RecorderManager (M : Type) := {
  rm_Add : string → string → io M (result unit);
  rm_Find : string → string → io M (list string);
  rm_Stop : string → io M (result unit);
}.
(** [serves]: the users the manager may be asked about; [gone m id]: it keeps
    nothing of the user. *)
Class RecorderManagerLaws (M : Type) `{RecorderManager M} := {
  holds : M → hists → Prop;
  serves : string → Prop;
  gone : M → string → Prop;
  law_Add m h id s : holds m h → serves id → GoStr.name_ok id = true → Json.ValidString s = true →
    ∃ m', holds m' (if decide (s = "") then h else upd h id (History.add size s (h id))) ∧
      rm_Add id s m =
        Done (if decide (s = "") then Err (Errorf "ERROR: record is empty") else Ok tt, m');
  law_Find m h id s : holds m h → serves id → GoStr.name_ok id = true →
    ∃ m', holds m' h ∧ rm_Find id s m = Done (History.find s (h id), m');
  law_Stop m h id : holds m h → ∃ m', holds m' h ∧ gone m' id ∧ rm_Stop id m = Done (Ok tt, m');
}.

(** The manager of the recorders is one. *)
Section instance.
Context {W : Type} `{EtcdClient W}.
Definition rmgr_state : Type := manager * rstate W.
Definition with_manager {A} (f : manager → io (rstate W) (A * manager)) : io rmgr_state A :=
  λ m, run ((a, rm), s) <- f m.1 m.2 ;; Done (a, (rm, s)).
#[export] Instance RMgr_manager : RecorderManager rmgr_state := {|
  rm_Add id s := with_manager (λ rm, RMgr.Add rm id s);
  rm_Find id s := with_manager (λ rm, RMgr.Find rm id s);
  rm_Stop id := with_manager (λ rm, RMgr.Stop rm id);
|}.
End instance.
Section instance_laws.
Context {W : Type} `{EtcdLaws W}.
(** For the users in [mine]; what etcd holds under other keys, of which [P] is
    known, stays as it is. *)
Program Definition RMgr_laws_for (mine : string → Prop) (P : gmap string (string * Z) → Prop) :
    RecorderManagerLaws (rmgr_state (W := W)) := {|
  holds m h := ∃ base, P base ∧ RMgrRefine.msim ∅ mine base m.1 m.2 h;
  serves := mine;
  gone m id := id ∉ (LruRefine.abs (recorderSet m.1)).*1;
|}.
Next Obligation.
  intros mine P [rm s] h id c (base & Hb & Hs) Hm Hid Hc.
  destruct (RMgrRefine.Add_sim ∅ mine base rm s h id c Hs) as (rm' & s' & He & Hs'); [done|done|].
  exists (rm', s'). unfold rm_Add, RMgr_manager, with_manager. simpl in *. unfold mbind, io_bind in He.
  destruct (RMgr.Add rm id c s) as [[[e rm1] s1]| |]; [|done|done]. simpl in He.
  destruct (decide (c = "")); simpl in *; injection He as -> -> ->; eauto.
Qed.
Next Obligation.
  intros mine P [rm s] h id c (base & Hb & Hs) Hm Hid.
  destruct (RMgrRefine.Find_sim ∅ mine base rm s h id c Hs Hid Hm) as (rm' & s' & He & Hs').
  exists (rm', s'). unfold rm_Find, RMgr_manager, with_manager. simpl in *. unfold mbind, io_bind in He.
  destruct (RMgr.Find rm id c s) as [[[e rm1] s1]| |]; [|done|done]. simpl in He.
  injection He as -> -> ->. eauto.
Qed.
Next Obligation.
  intros mine P [rm s] h id (base & Hb & Hs).
  destruct (RMgrRefine.Stop_mgr_sim ∅ mine base rm s h id Hs) as (rm' & s' & He & Hs' & Hel).
  exists (rm', s'). unfold rm_Stop, RMgr_manager, with_manager. simpl in *. unfold mbind, io_bind in He.
  destruct (RMgr.Stop rm id s) as [[[e rm1] s1]| |]; [|done|done]. simpl in He.
  injection He as -> -> ->. split_and!; [eauto| |done].
  by intros ([i p] & -> & [_ Hp]%Hel)%list_elem_of_fmap.
Qed.
#[export] Instance RMgr_laws : RecorderManagerLaws (rmgr_state (W := W)) :=
  RMgr_laws_for (λ _, True) (λ _, True).
End instance_laws.

(** ** SearchServer and SearchController *)

(** The state of a server process: [auth.loginCache], the default recorder
    manager, and the user table. *)
Record sstate (M W : Type) := SS
  { loginCache : Auth.cache; recorders : M; table : W }.
Arguments SS {M W} _ _ _.
Arguments loginCache {M W} _.
Arguments recorders {M W} _.
Arguments table {M W} _.

Module Server.
Section server.
Context {M W : Type} `{RecorderManager M}.
Variable saltPasswordGetter : option (string → W → result (string * string) * W).
Abbreviation S := (io (sstate M W)).

Definition get_cache : S Auth.cache := λ s, Done (loginCache s, s).
Definition set_cache (c : Auth.cache) : S unit := λ s, Done (tt, SS c (recorders s) (table s)).
Definition on_recorders {A} (f : io M A) : S A := λ s,
  run (a, m) <- f (recorders s) ;; Done (a, SS (loginCache s) m (table s)).

Definition Search (req : SearchRequest) : S (reply SearchResponse) :=
  do c <- get_cache ;;
  if negb (bool_decide (se_Uid req = "")) && bool_decide (se_SearchString req = "") &&
     negb (Auth.CheckLoginState c (se_Uid req) (se_Token req) [se_CliAddr req])
  then mret (Some (MkSearchResponse [] 403), None)
  else
    do l <- on_recorders (rm_Find (se_Uid req) (se_SearchString req)) ;;
    mret (Some (MkSearchResponse l 200), None).

Definition Upload (req : UploadRequest) : S (reply UploadResponse) :=
  do c <- get_cache ;;
  if negb (Auth.CheckLoginState c (up_Uid req) (up_Token req) [up_CliAddr req])
  then mret (Some (MkUploadResponse "Invalid token" 403), None)
  else
    do r <- on_recorders (rm_Add (up_Uid req) (up_Record req)) ;;
    match r with
    | Err e => mret (Some (MkUploadResponse (error_text e) 503), Some e)
    | Ok _ => mret (Some (MkUploadResponse "" 200), None)
    end.

Definition Login (req : LoginRequest) : S (reply LoginResponse) :=
  do (token, ok) <- (λ s,
    run (token, ok, w) <- Auth.Login saltPasswordGetter (li_Uid req) (li_Password req)
                            [li_CliAddr req] (table s) ;;
    Done ((token, ok), SS (loginCache s) (recorders s) w)) ;;
  if ok : bool then
    do c <- get_cache ;;
    do _ <- set_cache (Auth.UpdateTokenCache c (li_Uid req) token [li_CliAddr req]) ;;
    mret (Some (MkLoginResponse 200 token), None)
  else mret (Some (MkLoginResponse 403 ""), Some (Errorf "Incorrect username or password.")).

Definition Logout (req : LogoutRequest) : S (reply LogoutResponse) :=
  do c <- get_cache ;;
  do _ <- set_cache (Auth.RemoveTokenCache c (lo_Uid req) [lo_CliAddr req]) ;;
  mret (Some (MkLogoutResponse 200), None).

Definition Check : S (reply HealthCheckResponse) := mret (Some (MkHealthCheckResponse SERVING), None).

Definition UidLogout (req : UidLogoutRequest) : S (reply UidLogoutResponse) :=
  do c <- get_cache ;;
  do _ <- set_cache (Auth.RemoveTokenCache c (ul_Uid req) []) ;;
  do r <- on_recorders (rm_Stop (ul_Uid req)) ;;
  match r with
  | Err e => mret (None, Some e)
  | Ok _ => mret (Some (MkUidLogoutResponse 200), None)
  end.

(** *** Requests of both services *)
Inductive request :=
  | QSearch (r : SearchRequest) | QUpload (r : UploadRequest) | QLogin (r : LoginRequest)
  | QLogout (r : LogoutRequest) | QCheck | QUidLogout (r : UidLogoutRequest).
Inductive response :=
  | ASearch (r : reply SearchResponse) | AUpload (r : reply UploadResponse)
  | ALogin (r : reply LoginResponse) | ALogout (r : reply LogoutResponse)
  | ACheck (r : reply HealthCheckResponse) | AUidLogout (r : reply UidLogoutResponse).
Definition handle (q : request) : S response :=
  match q with
  | QSearch r => do a <- Search r ;; mret (ASearch a)
  | QUpload r => do a <- Upload r ;; mret (AUpload a)
  | QLogin r => do a <- Login r ;; mret (ALogin a)
  | QLogout r => do a <- Logout r ;; mret (ALogout a)
  | QCheck => do a <- Check ;; mret (ACheck a)
  | QUidLogout r => do a <- UidLogout r ;; mret (AUidLogout a)
  end.
Fixpoint handle_all (qs : list request) : S (list response) :=
  match qs with
  | [] => mret []
  | q :: qs => do a <- handle q ;; do as_ <- handle_all qs ;; mret (a :: as_)
  end.
End server.
End Server.

(** ** What the server promises *)
Module ServerSpec.
Import Server.
(** Who is logged in: user and address to token; and the histories. *)
Definition sessions := string → string → option string.
Record spec (W : Type) := Spec { sess : sessions; hist_of : hists; users : W }.
Arguments Spec {W} _ _ _.
Arguments sess {W} _.
Arguments hist_of {W} _.
Arguments users {W} _.

Definition drop_all (x : sessions) (uid : string) : sessions :=
  λ u a, if decide (u = uid) then None else x u a.
Definition drop_one (x : sessions) (uid addr : string) : sessions :=
  λ u a, if decide (u = uid ∧ a = addr) then None else x u a.
Definition put_one (x : sessions) (uid addr token : string) : sessions :=
  λ u a, if decide (u = uid ∧ a = addr) then Some token else x u a.

Section spec.
Context {W : Type}.
Variable getter : string → W → result (string * string) * W.
(** Does the user table accept the password? *)
Definition accepts (uid password : string) (w : W) : bool * W :=
  match getter uid w with
  | (Err _, w) => (false, w)
  | (Ok (salt, stored), w) =>
    (bool_decide (Auth.EncryptPassword uid salt password = Done stored), w)
  end.

Definition spec_handle (x : spec W) (q : request) : response * spec W :=
  match q with
  | QSearch r =>
    if decide (se_Uid r ≠ "" ∧ se_SearchString r = "" ∧
               sess x (se_Uid r) (se_CliAddr r) ≠ Some (se_Token r))
    then (ASearch (Some (MkSearchResponse [] 403), None), x)
    else (ASearch (Some (MkSearchResponse
                     (History.find (se_SearchString r) (hist_of x (se_Uid r))) 200), None), x)
  | QUpload r =>
    if decide (sess x (up_Uid r) (up_CliAddr r) = Some (up_Token r)) then
      if decide (up_Record r = "") then
        (AUpload (Some (MkUploadResponse "ERROR: record is empty" 503),
                  Some (Errorf "ERROR: record is empty")), x)
      else
        (AUpload (Some (MkUploadResponse "" 200), None),
         Spec (sess x) (upd (hist_of x) (up_Uid r)
                          (History.add size (up_Record r) (hist_of x (up_Uid r)))) (users x))
    else (AUpload (Some (MkUploadResponse "Invalid token" 403), None), x)
  | QLogin r =>
    let '(ok, w) := accepts (li_Uid r) (li_Password r) (users x) in
    if ok then
      let token := Auth.genToken (li_Uid r) [li_CliAddr r] in
      (ALogin (Some (MkLoginResponse 200 token), None),
       Spec (if decide (li_CliAddr r = "") then sess x
             else put_one (sess x) (li_Uid r) (li_CliAddr r) token) (hist_of x) w)
    else (ALogin (Some (MkLoginResponse 403 ""), Some (Errorf "Incorrect username or password.")),
          Spec (sess x) (hist_of x) w)
  | QLogout r =>
    (ALogout (Some (MkLogoutResponse 200), None),
     Spec (if decide (lo_CliAddr r = "") then drop_all (sess x) (lo_Uid r)
           else drop_one (sess x) (lo_Uid r) (lo_CliAddr r)) (hist_of x) (users x))
  | QCheck => (ACheck (Some (MkHealthCheckResponse SERVING), None), x)
  | QUidLogout r =>
    (AUidLogout (Some (MkUidLogoutResponse 200), None),
     Spec (drop_all (sess x) (ul_Uid r)) (hist_of x) (users x))
  end.
Fixpoint spec_handle_all (x : spec W) (qs : list request) : list response * spec W :=
  match qs with
  | [] => ([], x)
  | q :: qs =>
    let '(a, x) := spec_handle x q in
    let '(as_, x) := spec_handle_all x qs in (a :: as_, x)
  end.
End spec.

(** Requests about plain user ids and commands in valid UTF-8. *)
Definition req_ok (q : request) : Prop :=
  match q with
  | QSearch r => GoStr.name_ok (se_Uid r) = true
  | QUpload r => GoStr.name_ok (up_Uid r) = true ∧ Json.ValidString (up_Record r) = true
  | _ => True
  end.
End ServerSpec.

(** ** The refinement *)
Module ServerRefine.
Import Server ServerSpec AuthFacts.
Section refine.
Context {M W : Type} `{RecorderManagerLaws M}.
Variable getter : string → W → result (string * string) * W.
(** Every user in the table has a salt. *)
Hypothesis salted : ∀ uid w salt p w', getter uid w = (Ok (salt, p), w') → salt ≠ "".

Record sim (s : sstate M W) (x : spec W) : Prop := {
  sim_sess uid addr : token_of (loginCache s) uid addr = sess x uid addr;
  sim_hist : holds (recorders s) (hist_of x);
  sim_users : table s = users x;
}.

Lemma Check_sess s x uid token addr : sim s x →
  Auth.CheckLoginState (loginCache s) uid token [addr] = bool_decide (sess x uid addr = Some token).
Proof. intros Hs. by rewrite Check_token, loginInfo_one, (sim_sess _ _ Hs). Qed.

(** Requests about users the recorder manager serves. *)
Definition req_served (q : request) : Prop :=
  match q with QSearch r => serves (se_Uid r) | QUpload r => serves (up_Uid r) | _ => True end.

Lemma Search_sim s x r : sim s x → req_ok (QSearch r) → serves (se_Uid r) → ∃ s',
  Search r s = Done (match spec_handle getter x (QSearch r) with (ASearch a, _) => a | _ => (None, None) end, s') ∧
  sim s' (spec_handle getter x (QSearch r)).2.
Proof.
  intros Hs Hr Hsv. unfold Search, mbind, io_bind, get_cache. rewrite (Check_sess s x) by done. simpl.
  destruct (law_Find (recorders s) (hist_of x) (se_Uid r) (se_SearchString r)) as (m' & Hm & Hf);
    [apply Hs|done|done|].
  case_decide as Hd.
  - destruct Hd as (H1 & H2 & H3). rewrite bool_decide_eq_false_2, (bool_decide_eq_true_2 (_ = "")) by done.
    rewrite bool_decide_eq_false_2 by done. by exists s.
  - assert (negb (bool_decide (se_Uid r = "")) && bool_decide (se_SearchString r = "") &&
      negb (bool_decide (sess x (se_Uid r) (se_CliAddr r) = Some (se_Token r))) = false) as ->.
    { apply not_true_iff_false. intros Hb. bool_prop. by apply Hd. }
    unfold on_recorders. rewrite Hf. simpl. eexists. split; [done|]. by destruct Hs.
Qed.

Lemma handle_sim s x q : sim s x → req_ok q → req_served q → ∃ s',
  handle (Some getter) q s = Done ((spec_handle getter x q).1, s') ∧ sim s' (spec_handle getter x q).2.
Proof.
  intros Hs Hr Hsv. destruct q as [r|r|r|r| |r]; unfold handle, mbind, io_bind.
  - destruct (Search_sim s x r Hs Hr Hsv) as (s' & -> & Hs'). exists s'. split; [|done].
    simpl. by case_decide.
  - unfold Upload, mbind, io_bind, get_cache. rewrite (Check_sess s x) by done. simpl.
    destruct Hr as [Hid Hv]. case_decide as Hd.
    + rewrite bool_decide_eq_true_2 by done. simpl. unfold on_recorders.
      destruct (law_Add (recorders s) (hist_of x) (up_Uid r) (up_Record r)) as (m' & Hm & Ha);
        [apply Hs|done|done|done|].
      rewrite Ha. simpl. case_decide; simpl; (eexists; split; [done|by destruct Hs]).
    + rewrite bool_decide_eq_false_2 by done. simpl. by exists s.
  - simpl. unfold Login, mbind, io_bind, accepts, Auth.Login, Auth.checkPassword.
    rewrite (sim_users _ _ Hs). destruct (getter (li_Uid r) (users x)) as [[[salt p]|e] w'] eqn:Hg.
    + destruct (EncryptPassword_ok (li_Uid r) salt (li_Password r)) as (e & He & _);
        [by eapply salted|]. rewrite He. simpl. rewrite (bool_decide_ext (Done e = Done p) (e = p)) by naive_solver.
      destruct (bool_decide (e = p)); simpl; (eexists; split; [done|]); destruct Hs as [Hse Hh Hu];
        split; simpl; try done.
      intros uid addr. destruct (decide (li_CliAddr r = "")) as [Ha|Ha].
      * rewrite Update_noop by done. apply Hse.
      * rewrite token_Update by done. unfold put_one. rewrite loginInfo_one, Hse.
        repeat case_decide; naive_solver.
    + simpl. eexists. split; [done|]. by destruct Hs.
  - simpl. eexists. split; [done|]. destruct Hs as [Hse Hh Hu]. split; simpl; try done.
    intros uid addr. rewrite token_Remove, loginInfo_one, Hse. unfold drop_all, drop_one.
    repeat case_decide; naive_solver.
  - by exists s.
  - simpl. unfold UidLogout, mbind, io_bind, get_cache, set_cache, on_recorders. simpl.
    destruct (law_Stop (recorders s) (hist_of x) (ul_Uid r)) as (m' & Hm & _ & ->); [apply Hs|].
    simpl. eexists. split; [done|]. destruct Hs as [Hse Hh Hu]. split; simpl; try done.
    intros uid addr. rewrite token_Remove, Hse. unfold drop_all. simpl.
    repeat case_decide; naive_solver.
Qed.
Lemma handle_all_sim qs : ∀ s x, sim s x → Forall req_ok qs → Forall req_served qs → ∃ s',
  handle_all (Some getter) qs s = Done ((spec_handle_all getter x qs).1, s') ∧
  sim s' (spec_handle_all getter x qs).2.
Proof.
  induction qs as [|q qs IH]; intros s x Hs Hqs Hsv; [by exists s|].
  apply Forall_cons in Hqs as [Hq Hqs]. apply Forall_cons in Hsv as [Hv Hsv]. cbn [handle_all spec_handle_all]. unfold mbind, io_bind.
  destruct (handle_sim s x q Hs Hq Hv) as (s1 & -> & Hs1).
  destruct (spec_handle getter x q) as [a x1]. destruct (IH s1 x1 Hs1 Hqs Hsv) as (s2 & -> & Hs2).
  destruct (spec_handle_all getter x1 qs) as [as_ x2]. by exists s2.
Qed.

(** [UidLogout] leaves nothing of the user behind. *)
Lemma UidLogout_gone s x uid : sim s x → ∃ s',
  UidLogout (MkUidLogoutRequest uid) s = Done ((Some (MkUidLogoutResponse 200), None), s') ∧
  sim s' (spec_handle getter x (QUidLogout (MkUidLogoutRequest uid))).2 ∧ gone (recorders s') uid.
Proof.
  intros [Hse Hh Hu]. unfold UidLogout, mbind, io_bind, get_cache, set_cache, on_recorders. simpl.
  destruct (law_Stop (recorders s) (hist_of x) uid Hh) as (m' & Hm & Hg & ->).
  simpl. eexists. split; [done|]. split; [|done]. split; simpl; try done.
  intros u addr. rewrite token_Remove, Hse. unfold drop_all. simpl.
  repeat case_decide; naive_solver.
Qed.
End refine.
End ServerRefine.

(** ** Theorems about the server *)
Module ServerTheorems.
Import Server ServerSpec ServerRefine AuthFacts.
Section theorems.
Context {M W : Type} `{RecorderManagerLaws M}.
Variable getter : string → W → result (string * string) * W.
Hypothesis salted : ∀ uid w salt p w', getter uid w = (Ok (salt, p), w') → salt ≠ "".



(** Reading is not protected: with a search string that is not empty the
    server answers with the matching commands of any user to anybody, whatever
    the token; the login state is checked only for the empty search string. *)
Theorem Search_without_login (s : sstate M W) x r :
  sim s x → GoStr.name_ok (se_Uid r) = true → serves (se_Uid r) → se_SearchString r ≠ "" →
  ∃ s', Search r s = Done ((Some (MkSearchResponse
      (History.find (se_SearchString r) (hist_of x (se_Uid r))) 200), None), s').
Proof.
  intros Hs Hid Hsv Hne. destruct (Search_sim getter s x r Hs Hid Hsv) as (s' & He & _). exists s'.
  rewrite He. simpl. rewrite decide_False; [done|]. tauto.
Qed.

(** [UidLogout] ends every session of the user and of nobody else, and
    keeps all histories. *)
Theorem UidLogout_ends_sessions (s : sstate M W) x uid :
  sim s x →
  ∃ s', UidLogout (MkUidLogoutRequest uid) s = Done ((Some (MkUidLogoutResponse 200), None), s') ∧
    holds (recorders s') (hist_of x) ∧
    ∀ u token addr, Auth.CheckLoginState (loginCache s') u token [addr] =
      if decide (u = uid) then false else Auth.CheckLoginState (loginCache s) u token [addr].
Proof.
  intros Hs. destruct (UidLogout_gone getter s x uid Hs) as (s' & He & Hs' & _).
  exists s'. split; [done|]. split; [apply Hs'|]. intros u token addr.
  rewrite (Check_sess s' _ _ _ _ Hs'), (Check_sess s x) by done. simpl. unfold drop_all.
  by destruct (decide (u = uid)).
Qed.
End theorems.

(** *** Witnesses: the recorder manager of the program on an etcd in memory *)
Import MemEtcd.
Definition ex_state : sstate (rmgr_state (W := mem)) nat :=
  SS {["alice" := {["1.2.3.4:5" := "t0"]}]} (RMgrTheorems.ex_rm, RMgrTheorems.ex_s) 0.
Definition ex_spec : spec nat :=
  Spec (λ u a, if decide (u = "alice" ∧ a = "1.2.3.4:5") then Some "t0" else None)
    RMgrTheorems.ex_hist 0.
Lemma ex_sim : sim ex_state ex_spec.
Proof.
  split; simpl; [|by eexists; split; [|exact RMgrTheorems.ex_msim]|done]. intros uid addr. unfold token_of.
  rewrite lookup_singleton. case_decide as Hu; csimpl.
  - rewrite lookup_singleton. repeat case_decide; naive_solver.
  - rewrite decide_False; naive_solver.
Qed.
Lemma ex_salted uid (w : nat) salt p w' : AuthTheorems.ex_table uid w = (Ok (salt, p), w') → salt ≠ "".
Proof. unfold AuthTheorems.ex_table. case_decide; [|done]. by intros [= <- _ _]. Qed.
Definition ex_requests : list request :=
  [QSearch (MkSearchRequest "alice" "" "bad" "1.2.3.4:5");
   QUpload (MkUploadRequest "alice" "make" "t0" "1.2.3.4:5");
   QSearch (MkSearchRequest "alice" "ma" "" ""); QUidLogout (MkUidLogoutRequest "alice");
   QUpload (MkUploadRequest "alice" "rm x" "t0" "1.2.3.4:5");
   QLogin (MkLoginRequest "alice" "secret" "1.2.3.4:5"); QCheck].
Lemma ex_requests_ok : Forall req_ok ex_requests.
Proof. by repeat constructor. Qed.

Lemma ex_served : Forall req_served ex_requests.
Proof. by repeat constructor. Qed.

Lemma Search_without_login_witness :
  ∃ s', Search (MkSearchRequest "alice" "ls" "" "6.6.6.6:6") ex_state =
    Done ((Some (MkSearchResponse (History.find "ls" (hist_of ex_spec "alice")) 200), None), s').
Proof.
  apply (Search_without_login AuthTheorems.ex_table ex_state ex_spec
    (MkSearchRequest "alice" "ls" "" "6.6.6.6:6")); [exact ex_sim|reflexivity|exact I|discriminate].
Defined.
Lemma UidLogout_ends_sessions_witness :
  ∃ s', UidLogout (MkUidLogoutRequest "alice") ex_state =
      Done ((Some (MkUidLogoutResponse 200), None), s') ∧
    holds (recorders s') (hist_of ex_spec) ∧
    ∀ u token addr, Auth.CheckLoginState (loginCache s') u token [addr] =
      if decide (u = "alice") then false else Auth.CheckLoginState (loginCache ex_state) u token [addr].
Proof.
  apply (UidLogout_ends_sessions AuthTheorems.ex_table ex_state ex_spec "alice"). exact ex_sim.
Defined.
End ServerTheorems.
