(* ===== verification/Pool.v ===== *)
(** * Goroutines over shared variables

    A process is a pool of goroutines that share a state.  A client of this file
    gives the steps of one goroutine ([gstep]: [Block] while it cannot move) and the
    goroutines that may start; a run is a sequence of [event]s, in which any
    goroutine that can move may be scheduled. *)

From S2P Require Import Prelude.

Record pool (G S : Type) := Pool { sh : S; gs : list G }.
Arguments Pool {G S} _ _.
Arguments sh {G S} _.
Arguments gs {G S} _.
Inductive event (G : Type) :=
  | Spawn (g : G)       (* a goroutine starts *)
  | Sched (i : nat).    (* goroutine [i] moves *)
Arguments Spawn {G} _.
Arguments Sched {G} _.

Section pool.
Context {G S : Type}.
Variable gstep : nat → G → S → outcome (G * S).
(** The goroutines that may start. *)
Variable fresh : G → Prop.
Implicit Types (x y : pool G S) (f : G → bool) (l : list G).

Definition step (e : event G) x : outcome (pool G S) :=
  match e with
  | Spawn g => Done (Pool (sh x) (gs x ++ [g]))
  | Sched i =>
      match gs x !! i with
      | None => Block
      | Some g => run (g', s) <- gstep i g (sh x) ;; Done (Pool s (<[i := g']> (gs x)))
      end
  end.
Fixpoint steps (es : list (event G)) x : outcome (pool G S) :=
  match es with
  | [] => Done x
  | e :: es => run x <- step e x ;; steps es x
  end.
Definition event_ok (e : event G) : Prop := match e with Spawn g => fresh g | Sched _ => True end.

(** ** Counting goroutines *)
Definition many f l : nat := length (filter (λ g, f g = true) l).
Lemma many_app f l l' : many f (l ++ l') = many f l + many f l'.
Proof. unfold many. by rewrite filter_app, length_app. Qed.
Lemma many_one f g : many f [g] = Nat.b2n (f g).
Proof. unfold many. cbn. by destruct (f g). Qed.
Lemma many_insert f l i g g' : l !! i = Some g →
  many f (<[i := g']> l) + Nat.b2n (f g) = many f l + Nat.b2n (f g').
Proof.
  intros Hi. rewrite <- (take_drop_middle l i g Hi) at 2.
  rewrite insert_take_drop by (by eapply lookup_lt_Some).
  rewrite !many_app. change (g' :: drop (Datatypes.S i) l) with ([g'] ++ drop (Datatypes.S i) l).
  change (g :: drop (Datatypes.S i) l) with ([g] ++ drop (Datatypes.S i) l).
  rewrite !many_app, !many_one. lia.
Qed.
Lemma many_0 f l i g : many f l = 0 → l !! i = Some g → f g = false.
Proof.
  intros Hm Hi. destruct (f g) eqn:Hf; [|done]. exfalso.
  apply length_zero_iff_nil in Hm. assert (g ∈ filter (λ g, f g = true) l) as Hin.
  { apply list_elem_of_filter. split; [done|]. by eapply list_elem_of_lookup_2. }
  rewrite Hm in Hin. by apply not_elem_of_nil in Hin.
Qed.
Lemma many_le f l : many f l ≤ length l.
Proof. apply length_filter. Qed.
Lemma many_ex f l : 0 < many f l → ∃ i g, l !! i = Some g ∧ f g = true.
Proof.
  unfold many. destruct (filter (λ g, f g = true) l) as [|g l'] eqn:Hl; simpl; [lia|]. intros _.
  assert (g ∈ filter (λ g, f g = true) l) as [Hf [i Hi]%list_elem_of_lookup_1]%list_elem_of_filter
    by (rewrite Hl; left). eauto.
Qed.

(** ** One goroutine moved *)
Lemma lookup_moved x i g g' j h : gs x !! i = Some g →
  <[i := g']> (gs x) !! j = Some h → (j = i ∧ h = g') ∨ (j ≠ i ∧ gs x !! j = Some h).
Proof. intros Hi [(-> & <- & _)|[? ?]]%list_lookup_insert_Some; auto. Qed.
Lemma lookup_self x i g g' : gs x !! i = Some g → <[i := g']> (gs x) !! i = Some g'.
Proof. intros Hi. apply list_lookup_insert_eq. by eapply lookup_lt_Some. Qed.
Lemma lookup_spawned x g i h : (gs x ++ [g]) !! i = Some h → gs x !! i = Some h ∨ h = g.
Proof.
  intros [?|[_ Hi]]%lookup_app_Some; [by left|]. apply list_lookup_singleton_Some in Hi as [_ <-]. by right.
Qed.
Lemma steps_sched i g g' s' es x : gs x !! i = Some g → gstep i g (sh x) = Done (g', s') →
  steps (Sched i :: es) x = steps es (Pool s' (<[i := g']> (gs x))).
Proof. intros Hi Hs. simpl. by rewrite Hi, Hs. Qed.
(** Goroutines that are not scheduled do not move. *)
Lemma step_stays e x y i g : step e x = Done y → e ≠ Sched i → gs x !! i = Some g → gs y !! i = Some g.
Proof.
  destruct e as [g0|j]; simpl; intros Hs Hne Hi.
  - injection Hs as <-. by apply lookup_app_l_Some.
  - destruct (gs x !! j) as [h|] eqn:Hj; [|done].
    destruct (gstep j h (sh x)) as [[h' s']| |]; [|done|done]. injection Hs as <-. simpl.
    rewrite list_lookup_insert_ne; [done|congruence].
Qed.

(** ** Invariants *)
Section invariant.
Variable I : pool G S → Prop.
Hypothesis I_spawn : ∀ x g, I x → fresh g → I (Pool (sh x) (gs x ++ [g])).
Hypothesis I_sched : ∀ x i g g' s', I x → gs x !! i = Some g → gstep i g (sh x) = Done (g', s') →
  I (Pool s' (<[i := g']> (gs x))).
Lemma step_keeps e x y : I x → event_ok e → step e x = Done y → I y.
Proof.
  intros Hx He. destruct e as [g|i]; simpl; [intros [= <-]; by apply I_spawn|].
  destruct (gs x !! i) as [g|] eqn:Hi; [|done].
  destruct (gstep i g (sh x)) as [[g' s']| |] eqn:Hs; [|done|done]. intros [= <-].
  by eapply I_sched.
Qed.
Lemma steps_keep es : ∀ x y, I x → Forall event_ok es → steps es x = Done y → I y.
Proof.
  induction es as [|e es IH]; intros x y Hx; simpl; [by intros _ [= <-]|].
  intros [He Hes]%Forall_cons. destruct (step e x) as [z| |] eqn:Hz; [|done|done].
  apply IH; [by eapply step_keeps|done].
Qed.
End invariant.

(** ** A goroutine that runs without interruption *)
Definition solo (i : nat) : relation (G * S) := rtc (λ c c', gstep i c.1 c.2 = Done c').
Lemma solo_step i g s c c' : gstep i g s = Done c → solo i c c' → solo i (g, s) c'.
Proof. intros. by eapply rtc_l. Qed.
Lemma solo_steps i c c' : solo i c c' → ∀ x, gs x !! i = Some c.1 → sh x = c.2 →
  ∃ n, steps (replicate n (Sched i)) x = Done (Pool c'.2 (<[i := c'.1]> (gs x))).
Proof.
  induction 1 as [[g s]|[g s] [g1 s1] c2 Hs _ IH]; intros [s0 l] Hi; simpl in *; intros ->.
  - exists 0. simpl. by rewrite list_insert_id.
  - destruct (IH (Pool s1 (<[i := g1]> l))) as [n Hn]; simpl; [|done|].
    { by apply list_lookup_insert_eq; eapply lookup_lt_Some. }
    exists (Datatypes.S n). simpl. rewrite Hi, Hs. simpl. rewrite Hn. simpl. by rewrite list_insert_insert_eq.
Qed.

(** ** Progress *)
Section progress.
(** The steps a goroutine has left, and those that have none. *)
Variables (rank : G → nat) (finished : G → bool) (I : pool G S → Prop).
Definition total l : nat := list_sum (rank <$> l).
Lemma total_insert l i g g' : l !! i = Some g → total (<[i := g']> l) + rank g = total l + rank g'.
Proof.
  intros Hi. rewrite <- (take_drop_middle l i g Hi) at 2.
  rewrite insert_take_drop by (by eapply lookup_lt_Some).
  unfold total. rewrite !fmap_app, !fmap_cons, !list_sum_app. simpl. lia.
Qed.
(** If some goroutine can always get closer to its end, all can get there. *)
Hypothesis somebody : ∀ x i g, I x → gs x !! i = Some g → finished g = false →
  ∃ j h h' s', gs x !! j = Some h ∧ gstep j h (sh x) = Done (h', s') ∧ rank h' < rank h ∧
    I (Pool s' (<[j := h']> (gs x))).
Lemma all_finish x : I x →
  ∃ js y, length js ≤ total (gs x) ∧ steps (Sched <$> js) x = Done y ∧
    length (gs y) = length (gs x) ∧ ∀ i g, gs y !! i = Some g → finished g = true.
Proof.
  remember (total (gs x)) as n eqn:Hn. revert x Hn.
  induction (lt_wf n) as [n _ IH]. intros x -> Hx.
  destruct (decide (Forall (λ g, finished g = true) (gs x))) as [Hall|Hnot].
  { exists [], x. split; [simpl; lia|]. do 2 (split; [done|]). intros i g Hi.
    by eapply Forall_lookup_1 in Hall. }
  apply not_Forall_Exists, Exists_exists in Hnot as (g0 & [i0 Hi0]%list_elem_of_lookup_1 & Hf0); [|apply _].
  apply not_true_is_false in Hf0.
  destruct (somebody x i0 g0 Hx Hi0 Hf0) as (i & g & g' & s' & Hi & Hs & Hr & Hx').
  pose proof (total_insert (gs x) i g g' Hi) as Ht.
  destruct (IH (total (<[i := g']> (gs x))) ltac:(lia) (Pool s' (<[i := g']> (gs x))) eq_refl Hx')
    as (js & y & Hlen & Hy & Hl & Hall).
  exists (i :: js), y. split; [simpl; lia|]. simpl. rewrite Hi, Hs. simpl in Hy |- *.
  split; [done|]. split; [|done]. rewrite Hl. simpl. by rewrite length_insert.
Qed.
End progress.
End pool.
