(* ===== verification/LockConc.v ===== *)
(** * lib/etcd/etcd.go: goroutines that contend for a lock in etcd

    [AtomicMultiKVOp] in many goroutines of many processes.  Module [LockConc] cuts
    [Lock], the transaction and [UnLock] at their calls of etcd and at their
    operations on [lockRecordMtx]; [lockRecord] and its mutex are variables of a
    process, the lock key is shared by all.  The theorems justify the models of the
    dash, where the transaction with its lock is one step. *)

From S2P Require Import Prelude GoStr Etcd Pool.

Module LockConc.
Import Etcd.

(** ** The program counter of [AtomicMultiKVOp]

    [got] is the lease with which [Lock] returned nil, [r] the result of the
    transaction, which is returned after the deferred [UnLock]. *)
Inductive pc :=
  | LGrant                                       (* Lock: cli.Grant *)
  | LTry (id : Z)                                (* tryLock *)
  | LSleep (id : Z) (lockSuccess : bool)         (* time.Sleep *)
  | LRecord (id : Z)                             (* lockRecord[k] = id, under the mutex *)
  | LTxn (got : option Z)                        (* the transaction *)
  | LUnLock (got : option Z) (r : result unit)   (* UnLock: lockRecordMtx.Lock *)
  | LRevoke (got : option Z) (r : result unit)   (* cli.Revoke *)
  | LDelete (r : result unit)                    (* delete, and the deferred Unlock *)
  | LDone (r : result unit).
(** A call in process [proc]. *)
Record goroutine := Call { proc : nat; kvl : list KV; at_ : pc }.
(** [mtx]: the goroutine that holds the mutex of a process.  [commits]: the calls
    whose transaction succeeded, in order, by goroutine. *)
Record shared (W : Type) := Sh {
  recs : gmap nat (gmap string Z);
  mtx : gmap nat nat;
  store : W;
  commits : list (nat * list KV);
}.
Arguments Sh {W} _ _ _ _.
Arguments recs {W} _.
Arguments mtx {W} _.
Arguments store {W} _.
Arguments commits {W} _.
Definition new_call (p : nat) (l : list KV) : goroutine := Call p l LGrant.
Definition goto (g : goroutine) (p : pc) : goroutine := Call (proc g) (kvl g) p.
Definition lockRecord {W} (s : shared W) (p : nat) : gmap string Z := default ∅ (recs s !! p).

Section steps.
Context {W : Type} `{EtcdClient W}.
(** The key of the lock. *)
Variable k : string.
Implicit Types s : shared W.

Definition with_store (w : W) s : shared W := Sh (recs s) (mtx s) w (commits s).
Definition with_record (p : nat) (m : gmap string Z) s : shared W :=
  Sh (<[p := m]> (recs s)) (mtx s) (store s) (commits s).
Definition with_mtx (m : gmap nat nat) s : shared W := Sh (recs s) m (store s) (commits s).
Definition with_commit (i : nat) (l : list KV) s : shared W :=
  Sh (recs s) (mtx s) (store s) (commits s ++ [(i, l)]).

Definition gstep (i : nat) (g : goroutine) s : outcome (goroutine * shared W) :=
  let p := proc g in
  match at_ g with
  | LGrant =>
      let '(r, w) := cli_Grant 10 (store s) in
      Done (goto g match r with Ok id => LTry id | Err _ => LTxn None end, with_store w s)
  | LTry id =>
      let '(r, w) := tryLock id k (store s) in
      Done (goto g match r with Ok ok => LSleep id ok | Err _ => LTxn None end, with_store w s)
  | LSleep id ok =>
      Done (goto g (if ok then LRecord id else LTry id), with_store (cli_Sleep (store s)) s)
  | LRecord id =>
      match mtx s !! p with
      | Some _ => Block
      | None => Done (goto g (LTxn (Some id)), with_record p (<[k := id]> (lockRecord s p)) s)
      end
  | LTxn got =>
      let '(r, w) := cli_Txn None (omap etcd_op_of (kvl g)) (store s) in
      let s := with_store w s in
      match r with
      | Ok _ => Done (goto g (LUnLock got (Ok tt)), with_commit i (kvl g) s)
      | Err e => Done (goto g (LUnLock got (Err e)), s)
      end
  | LUnLock got r =>
      match mtx s !! p with
      | Some _ => Block
      | None => Done (goto g (LRevoke got r), with_mtx (<[p := i]> (mtx s)) s)
      end
  | LRevoke got r =>
      let return_ := with_mtx (delete p (mtx s)) in
      match lockRecord s p !! k with
      | None => Done (goto g (LDone r), return_ s)
      | Some lockId =>
          match cli_Revoke lockId (store s) with
          | (Err _, w) => Done (goto g (LDone r), return_ (with_store w s))
          | (Ok _, w) => Done (goto g (LDelete r), with_store w s)
          end
      end
  | LDelete r =>
      Done (goto g (LDone r), with_mtx (delete p (mtx s)) (with_record p (delete k (lockRecord s p)) s))
  | LDone _ => Block
  end.
(** A call that begins, and does not touch the key of the lock. *)
Definition fresh (g : goroutine) : Prop := at_ g = LGrant ∧ Forall (λ kv, Key kv ≠ k) (kvl g).
Definition procs := pool goroutine (shared W).
Definition start (w : W) : procs := Pool (Sh ∅ ∅ w []) [].
End steps.
Arguments procs : clear implicits.

(** ** What a goroutine has *)
(** The lease it was granted and has not given back. *)
Definition lease_of (p : pc) : option Z :=
  match p with
  | LTry id | LSleep id _ | LRecord id => Some id
  | LTxn got | LUnLock got _ | LRevoke got _ => got
  | _ => None
  end.
(** The same, once it has the lock. *)
Definition hold_of (p : pc) : option Z :=
  match p with
  | LSleep id true | LRecord id => Some id
  | LTxn got | LUnLock got _ | LRevoke got _ => got
  | _ => None
  end.
(** Its lease, once it is in [lockRecord]. *)
Definition record_of (p : pc) : option Z :=
  match p with LTxn got | LUnLock got _ | LRevoke got _ => got | _ => None end.
(** In [UnLock], with the mutex. *)
Definition inside (p : pc) : bool := match p with LRevoke _ _ | LDelete _ => true | _ => false end.
Definition deleting (p : pc) : bool := match p with LDelete _ => true | _ => false end.
Definition committed (p : pc) : bool :=
  match p with LUnLock _ _ | LRevoke _ _ | LDelete _ | LDone _ => true | _ => false end.
Definition finished (g : goroutine) : bool := match at_ g with LDone _ => true | _ => false end.
(** Steps left, while nobody else has the lock. *)
Definition rank (g : goroutine) : nat :=
  match at_ g with
  | LGrant => 9 | LSleep _ false => 8 | LTry _ => 7 | LSleep _ true => 6 | LRecord _ => 5
  | LTxn _ => 4 | LUnLock _ _ => 3 | LRevoke _ _ => 2 | LDelete _ => 1 | LDone _ => 0
  end.
End LockConc.

(** ** Facts *)
Module LockConcFacts.
Import Etcd EtcdFacts LockConc.
#[local] Arguments Etcd.tryLock : simpl never.
Section facts.
Context {W : Type} `{EtcdLaws W}.
(** The key of the lock, and etcd when the first call begins. *)
Variables (k : string) (w0 : W).
Implicit Types (x y : procs W) (s : shared W) (g : goroutine) (p : pc).

(** What goroutine [i] has. *)
Definition slot x (f : pc → option Z) (i : nat) : option Z := g ← gs x !! i; f (at_ g).
Lemma slot_at x i g f : gs x !! i = Some g → slot x f i = f (at_ g).
Proof. intros Hi. unfold slot. by rewrite Hi. Qed.
Lemma slot_moved x i g p s f j : gs x !! i = Some g →
  slot (Pool s (<[i := goto g p]> (gs x))) f j = if decide (j = i) then f p else slot x f j.
Proof.
  intros Hi. unfold slot. simpl. case_decide as Hj.
  - subst. by rewrite (lookup_self x i g _ Hi).
  - by rewrite list_lookup_insert_ne.
Qed.
Lemma slot_spawned x s g f j : f (at_ g) = None → slot (Pool s (gs x ++ [g])) f j = slot x f j.
Proof.
  intros Hf. unfold slot. simpl. rewrite lookup_app. destruct (gs x !! j) as [h|]; [done|].
  by destruct (j - length (gs x)) as [|[|]].
Qed.
Lemma hold_lease p id : hold_of p = Some id → lease_of p = Some id.
Proof. by destruct p as [| |? []| | | | | |]. Qed.
Lemma record_hold p id : record_of p = Some id → hold_of p = Some id.
Proof. by destruct p as [| |? []| | | | | |]. Qed.

(** *** The steps of a call while etcd answers *)
Inductive moves (i : nat) g s : pc → shared W → Prop :=
  | m_grant id w : at_ g = LGrant → id ≠ 0%Z → id ∉ live (store s) → live w = {[id]} ∪ live (store s) →
      kvs w = kvs (store s) → (∀ k' v, kvs w !! k' ≠ Some (v, id)) → healthy w →
      moves i g s (LTry id) (with_store w s)
  | m_busy id w : at_ g = LTry id → kvs (store s) !! k ≠ None →
      kvs w = kvs (store s) → live w = live (store s) → healthy w →
      moves i g s (LSleep id false) (with_store w s)
  | m_take id w : at_ g = LTry id → kvs (store s) !! k = None →
      kvs w = <[k := (GoStr.Itoa id, id)]> (kvs (store s)) → live w = live (store s) → healthy w →
      moves i g s (LSleep id true) (with_store w s)
  | m_wake id ok : at_ g = LSleep id ok →
      moves i g s (if ok then LRecord id else LTry id) (with_store (store s) s)
  | m_record id : at_ g = LRecord id → mtx s !! proc g = None →
      moves i g s (LTxn (Some id)) (with_record (proc g) (<[k := id]> (lockRecord s (proc g))) s)
  | m_commit id w : at_ g = LTxn (Some id) →
      kvs w = foldl apply_op (kvs (store s)) (omap etcd_op_of (kvl g)) → live w = live (store s) → healthy w →
      moves i g s (LUnLock (Some id) (Ok tt)) (with_commit i (kvl g) (with_store w s))
  | m_enter id : at_ g = LUnLock (Some id) (Ok tt) → mtx s !! proc g = None →
      moves i g s (LRevoke (Some id) (Ok tt)) (with_mtx (<[proc g := i]> (mtx s)) s)
  | m_revoke id w : at_ g = LRevoke (Some id) (Ok tt) → id ∈ live (store s) →
      live w = live (store s) ∖ {[id]} →
      kvs w = filter (λ q : string * (string * Z), q.2.2 ≠ id) (kvs (store s)) → healthy w →
      moves i g s (LDelete (Ok tt)) (with_store w s)
  | m_delete : at_ g = LDelete (Ok tt) →
      moves i g s (LDone (Ok tt))
        (with_mtx (delete (proc g) (mtx s)) (with_record (proc g) (delete k (lockRecord s (proc g))) s)).

(** *** The lock key and the leases *)
Record lock_inv x : Prop := {
  lk_healthy : healthy (store (sh x));
  lk_lease i id : slot x lease_of i = Some id → id ∈ live (store (sh x)) ∧ id ≠ 0%Z ∧ (id ∉ live w0) ∧
    ∀ k' v, kvs (store (sh x)) !! k' = Some (v, id) → k' = k;
  lk_inj i j id : slot x lease_of i = Some id → slot x lease_of j = Some id → i = j;
  lk_live id : id ∈ live (store (sh x)) → id ∈ live w0 ∨ ∃ i, slot x lease_of i = Some id;
  lk_live0 : live w0 ⊆ live (store (sh x));
  lk_hold i id : slot x hold_of i = Some id → kvs (store (sh x)) !! k = Some (GoStr.Itoa id, id);
  lk_free : kvs (store (sh x)) !! k ≠ None → ∃ i id, slot x hold_of i = Some id;
}.
Lemma slot_hold x i id : slot x hold_of i = Some id → slot x lease_of i = Some id.
Proof. unfold slot. destruct (gs x !! i) as [g|]; [apply hold_lease|done]. Qed.
Lemma slot_record x i id : slot x record_of i = Some id → slot x hold_of i = Some id.
Proof. unfold slot. destruct (gs x !! i) as [g|]; [apply record_hold|done]. Qed.
Lemma one_holder x i j id id' : lock_inv x → slot x hold_of i = Some id → slot x hold_of j = Some id' →
  i = j ∧ id = id'.
Proof.
  intros Hx Hi Hj. pose proof (lk_hold x Hx i id Hi) as Hk. rewrite (lk_hold x Hx j id' Hj) in Hk.
  injection Hk as _ ->. split; [|done]. by eapply (lk_inj x Hx); apply slot_hold.
Qed.
(** A step that keeps leases, holders, the lock key and the leases of keys. *)
Lemma lock_same x y : lock_inv x → (∀ j, slot y lease_of j = slot x lease_of j) →
  (∀ j, slot y hold_of j = slot x hold_of j) → healthy (store (sh y)) →
  live (store (sh y)) = live (store (sh x)) → kvs (store (sh y)) !! k = kvs (store (sh x)) !! k →
  (∀ id k' v, id ≠ 0%Z → kvs (store (sh y)) !! k' = Some (v, id) → kvs (store (sh x)) !! k' = Some (v, id)) →
  lock_inv y.
Proof.
  intros Hx Hsl Hsh Hh Hl Hk Hb. split.
  - done.
  - intros j id. rewrite Hsl, Hl. intros Hj. destruct (lk_lease x Hx j id Hj) as (? & ? & ? & Hbound).
    split_and!; [done..|]. intros k' v Hk'. by eapply Hbound, Hb.
  - intros j j' id. rewrite !Hsl. apply (lk_inj x Hx).
  - intros id. rewrite Hl. setoid_rewrite Hsl. apply (lk_live x Hx).
  - rewrite Hl. apply Hx.
  - intros j id. rewrite Hsh, Hk. apply (lk_hold x Hx).
  - rewrite Hk. setoid_rewrite Hsh. apply (lk_free x Hx).
Qed.
Lemma slot_same x i g p s f : gs x !! i = Some g → f p = f (at_ g) →
  ∀ j, slot (Pool s (<[i := goto g p]> (gs x))) f j = slot x f j.
Proof.
  intros Hi Hf j. rewrite (slot_moved x i g) by done. case_decide; [subst|done]. by rewrite (slot_at x i g).
Qed.

(** *** Transactions that leave the lock alone *)
Definition spares (o : etcd_op) : Prop :=
  match o with OpPut k' _ l => k' ≠ k ∧ l = 0%Z | OpDelete k' => k' ≠ k end.
Lemma ops_spare l : Forall (λ kv, Key kv ≠ k) l → Forall spares (omap etcd_op_of l).
Proof.
  intros Hl. apply Forall_forall. intros o (kv & Hkv & Ho)%list_elem_of_omap. rewrite Forall_forall in Hl.
  specialize (Hl kv Hkv). unfold etcd_op_of in Ho. repeat case_decide; by simplify_eq.
Qed.
Lemma spared_op m o : spares o →
  apply_op m o !! k = m !! k ∧ delete k (apply_op m o) = apply_op (delete k m) o ∧
  ∀ id k' v, id ≠ 0%Z → apply_op m o !! k' = Some (v, id) → m !! k' = Some (v, id).
Proof.
  destruct o as [k1 v1 l1|k1]; simpl.
  - intros [Hne ->]. split; [by rewrite lookup_insert_ne|]. split; [by rewrite delete_insert_ne|].
    intros id k' v Hid. rewrite lookup_insert. case_decide; [congruence|done].
  - intros Hne. split; [by rewrite lookup_delete_ne|]. split; [apply delete_delete|].
    intros id k' v Hid. rewrite lookup_delete. by case_decide.
Qed.
Lemma spared_ops ops : Forall spares ops → ∀ m,
  foldl apply_op m ops !! k = m !! k ∧ delete k (foldl apply_op m ops) = foldl apply_op (delete k m) ops ∧
  ∀ id k' v, id ≠ 0%Z → foldl apply_op m ops !! k' = Some (v, id) → m !! k' = Some (v, id).
Proof.
  induction 1 as [|o ops Ho _ IH]; intros m; simpl; [done|].
  destruct (IH (apply_op m o)) as (-> & -> & Hb). destruct (spared_op m o Ho) as (-> & -> & Hb').
  split_and!; [done..|]. eauto.
Qed.

(** One lemma for each step that changes who has what. *)
Lemma lock_grant x i g id w : lock_inv x → gs x !! i = Some g → at_ g = LGrant → id ≠ 0%Z →
  id ∉ live (store (sh x)) → live w = {[id]} ∪ live (store (sh x)) → kvs w = kvs (store (sh x)) →
  (∀ k' v, kvs w !! k' ≠ Some (v, id)) → healthy w →
  lock_inv (Pool (with_store w (sh x)) (<[i := goto g (LTry id)]> (gs x))).
Proof.
  intros Hx Hi Hg Hid Hnew Hl Hk Hb Hh. pose proof (λ s f j, slot_moved x i g (LTry id) s f j Hi) as Hm.
  assert (Hnone : ∀ f, f LGrant = None → slot x f i = None) by (intros f Hf; by rewrite (slot_at x i g), Hg).
  split; simpl.
  - done.
  - intros j id'. rewrite Hm, Hl. case_decide.
    + intros [= <-]. split_and!; [set_solver|done| |intros k' v Hk'; by destruct (Hb k' v)].
      intros Hin. by apply Hnew, (lk_live0 x Hx).
    + intros Hj. destruct (lk_lease x Hx j id' Hj) as (? & ? & ? & ?). rewrite Hk. split_and!; [set_solver|done..].
  - assert (Hnot : ∀ j, slot x lease_of j ≠ Some id) by (intros j Hj; by apply (lk_lease x Hx) in Hj as [? _]).
    intros j j' id'. rewrite !Hm. repeat case_decide; simpl; [congruence|..].
    + intros [= <-] Hj. by destruct (Hnot j').
    + intros Hj [= <-]. by destruct (Hnot j).
    + apply (lk_inj x Hx).
  - intros id'. rewrite Hl. intros [->%elem_of_singleton|[?|[j Hj]]%(lk_live x Hx)]%elem_of_union;
      [right; exists i|by left|right; exists j]; rewrite Hm; case_decide; try done.
    subst. by rewrite (Hnone lease_of) in Hj.
  - rewrite Hl. pose proof (lk_live0 x Hx). set_solver.
  - intros j id'. rewrite Hm, Hk. case_decide; [done|]. apply (lk_hold x Hx).
  - rewrite Hk. intros (j & id' & Hj)%(lk_free x Hx). exists j, id'. rewrite Hm. case_decide; [|done].
    subst. by rewrite (Hnone hold_of) in Hj.
Qed.
Lemma lock_take x i g id w : lock_inv x → gs x !! i = Some g → at_ g = LTry id →
  kvs (store (sh x)) !! k = None → kvs w = <[k := (GoStr.Itoa id, id)]> (kvs (store (sh x))) →
  live w = live (store (sh x)) → healthy w →
  lock_inv (Pool (with_store w (sh x)) (<[i := goto g (LSleep id true)]> (gs x))).
Proof.
  intros Hx Hi Hg Hfree Hk Hl Hh. pose proof (λ s f j, slot_moved x i g (LSleep id true) s f j Hi) as Hm.
  assert (slot x lease_of i = Some id) as Hown by (by rewrite (slot_at x i g), Hg).
  assert (Hsl : ∀ s j, slot (Pool s (<[i := goto g (LSleep id true)]> (gs x))) lease_of j = slot x lease_of j)
    by (intros s; apply slot_same; [done|by rewrite Hg]).
  split; simpl.
  - done.
  - intros j id'. rewrite Hsl, Hl. intros Hj. destruct (lk_lease x Hx j id' Hj) as (? & ? & ? & Hb).
    split_and!; [done..|]. intros k' v. rewrite Hk, lookup_insert. case_decide; [done|]. apply Hb.
  - intros j j' id'. rewrite !Hsl. apply (lk_inj x Hx).
  - intros id'. rewrite Hl. setoid_rewrite Hsl. apply (lk_live x Hx).
  - rewrite Hl. apply Hx.
  - intros j id'. rewrite Hm, Hk, lookup_insert_eq. case_decide; [by intros [= ->]|].
    intros Hj%(lk_hold x Hx). congruence.
  - intros _. exists i, id. rewrite Hm. by rewrite decide_True.
Qed.
Lemma lock_revoke x i g id w : lock_inv x → gs x !! i = Some g → at_ g = LRevoke (Some id) (Ok tt) →
  live w = live (store (sh x)) ∖ {[id]} →
  kvs w = filter (λ q : string * (string * Z), q.2.2 ≠ id) (kvs (store (sh x))) → healthy w →
  lock_inv (Pool (with_store w (sh x)) (<[i := goto g (LDelete (Ok tt))]> (gs x))).
Proof.
  intros Hx Hi Hg Hl Hk Hh. pose proof (λ s f j, slot_moved x i g (LDelete (Ok tt)) s f j Hi) as Hm.
  assert (slot x hold_of i = Some id) as Hown by (by rewrite (slot_at x i g), Hg).
  pose proof (slot_hold _ _ _ Hown) as Hlease.
  assert (Hgone : kvs w !! k = None).
  { rewrite Hk. apply map_lookup_filter_None. right. rewrite (lk_hold x Hx i id Hown). intros q [= <-]. simpl. tauto. }
  split; simpl.
  - done.
  - intros j id'. rewrite Hm, Hl. case_decide; [done|]. intros Hj.
    destruct (lk_lease x Hx j id' Hj) as (? & ? & ? & Hb). split_and!; [|done..|].
    + apply elem_of_difference. split; [done|]. intros ->%elem_of_singleton. by pose proof (lk_inj x Hx _ _ _ Hj Hlease).
    + intros k' v. rewrite Hk. intros [Hk' _]%map_lookup_filter_Some. by eapply Hb.
  - intros j j' id'. rewrite !Hm. repeat case_decide; try done. apply (lk_inj x Hx).
  - intros id'. rewrite Hl. intros [[?|[j Hj]]%(lk_live x Hx) Hne]%elem_of_difference; [by left|right].
    exists j. rewrite Hm. case_decide; [subst; set_solver|done].
  - rewrite Hl. destruct (lk_lease x Hx i id Hlease) as (_ & _ & Hnot & _). pose proof (lk_live0 x Hx). set_solver.
  - intros j id'. rewrite Hm. case_decide; [done|]. intros Hj. by destruct (one_holder x j i id' id Hx Hj Hown).
  - by rewrite Hgone.
Qed.

Lemma lock_moves x i g p s : lock_inv x → gs x !! i = Some g → Forall (λ kv, Key kv ≠ k) (kvl g) →
  moves i g (sh x) p s → lock_inv (Pool s (<[i := goto g p]> (gs x))).
Proof.
  intros Hx Hi Hkeys Hm. pose proof (lk_healthy x Hx) as Hh0.
  destruct Hm as [id w Hg|id w Hg Hk Hk' Hl Hh|id w Hg|id ok Hg|id Hg
    |id w Hg Hk Hl Hh|id Hg|id w Hg|Hg]; [by apply lock_grant| |by apply lock_take| | | | |by apply (lock_revoke _ _ _ id)|];
    apply (lock_same x); try done; try (apply slot_same; [done|by rewrite Hg]); simpl.
  - by rewrite Hk'.
  - intros id' k' v _. by rewrite Hk'.
  - apply slot_same; [done|]. rewrite Hg. by destruct ok.
  - apply slot_same; [done|]. rewrite Hg. by destruct ok.
  - rewrite Hk. by apply spared_ops, ops_spare.
  - intros id' k' v Hid. rewrite Hk. by apply spared_ops; [apply ops_spare|].
Qed.

(** *** [lockRecord] and its mutex *)
Record rec_inv x : Prop := {
  rc_mtx q i : mtx (sh x) !! q = Some i ↔ ∃ g, gs x !! i = Some g ∧ proc g = q ∧ inside (at_ g) = true;
  rc_rec i g id : gs x !! i = Some g → record_of (at_ g) = Some id → lockRecord (sh x) (proc g) !! k = Some id;
  rc_del i j g h id : gs x !! i = Some g → record_of (at_ g) = Some id →
    gs x !! j = Some h → deleting (at_ h) = true → proc g ≠ proc h;
}.
Lemma lockRecord_insert (a q : nat) m s : lockRecord (with_record a m s) q = if decide (q = a) then m else lockRecord s q.
Proof.
  unfold lockRecord, with_record. simpl. rewrite lookup_insert. repeat case_decide; by simplify_eq/=.
Qed.
(** A step with the mutex and the records left as they are. *)
Lemma rec_same x i g p s : rec_inv x → gs x !! i = Some g → recs s = recs (sh x) → mtx s = mtx (sh x) →
  inside p = inside (at_ g) → deleting p = deleting (at_ g) → record_of p = record_of (at_ g) →
  rec_inv (Pool s (<[i := goto g p]> (gs x))).
Proof.
  intros Hx Hi Hr Hm Hin Hdel Hrec.
  assert (Hat : ∀ j h, <[i := goto g p]> (gs x) !! j = Some h → ∃ h', gs x !! j = Some h' ∧ proc h' = proc h ∧
    inside (at_ h') = inside (at_ h) ∧ deleting (at_ h') = deleting (at_ h) ∧ record_of (at_ h') = record_of (at_ h)).
  { intros j h [[-> ->]|[_ Hj]]%(lookup_moved _ _ _ _ _ _ Hi); [by exists g|by exists h]. }
  split; simpl.
  - intros q j. rewrite Hm, (rc_mtx x Hx). split.
    + intros (h & Hj & Hq & Hh). destruct (decide (j = i)) as [->|Hne].
      * rewrite Hi in Hj. injection Hj as <-. exists (goto g p). split; [by eapply lookup_self|]. simpl. by rewrite Hin.
      * exists h. by rewrite list_lookup_insert_ne.
    + intros (h & (h' & Hj & Hq & Hh & _)%Hat & Hp & Hh'). exists h'. rewrite Hq, Hh. done.
  - intros j h id (h' & Hj & Hq & _ & _ & Hh)%Hat Hid. rewrite <- Hq. rewrite <- Hh in Hid.
    unfold lockRecord. rewrite Hr. by apply (rc_rec x Hx j).
  - intros j j' h h' id (a & Ha & <- & _ & _ & Hra)%Hat Hid (b & Hb & <- & _ & Hdb & _)%Hat Hde.
    apply (rc_del x Hx j j' a b id); congruence.
Qed.
Lemma rec_record x i g id : lock_inv x → rec_inv x → gs x !! i = Some g → at_ g = LRecord id →
  mtx (sh x) !! proc g = None →
  rec_inv (Pool (with_record (proc g) (<[k := id]> (lockRecord (sh x) (proc g))) (sh x))
    (<[i := goto g (LTxn (Some id))]> (gs x))).
Proof.
  intros Hl Hx Hi Hg Hm. assert (slot x hold_of i = Some id) as Hown by (by rewrite (slot_at x i g), Hg).
  split; simpl.
  - intros q j. rewrite (rc_mtx x Hx). split.
    + intros (h & Hj & Hq & Hh). exists h. rewrite list_lookup_insert_ne; [done|]. intros ->.
      rewrite Hi in Hj. injection Hj as <-. by rewrite Hg in Hh.
    + intros (h & [[-> ->]|[_ Hj]]%(lookup_moved _ _ _ _ _ _ Hi) & Hq & Hh); [done|by exists h].
  - intros j h id' [[-> ->]|[Hne Hj]]%(lookup_moved _ _ _ _ _ _ Hi) Hid.
    + injection Hid as <-. rewrite lockRecord_insert, decide_True by done. apply lookup_insert_eq.
    + destruct (one_holder x j i id' id Hl) as [-> _]; [|done|done].
      apply slot_record. by rewrite (slot_at x j h).
  - intros j j' h h' id' [[-> ->]|[Hne Hj]]%(lookup_moved _ _ _ _ _ _ Hi) Hid
      [[-> ->]|[_ Hj']]%(lookup_moved _ _ _ _ _ _ Hi) Hde; try done; [|by eapply (rc_del x Hx)].
    intros Hq. assert (mtx (sh x) !! proc h' = Some j') as Hm'.
    { apply (rc_mtx x Hx). exists h'. split_and!; [done..|]. by destruct (at_ h'). }
    rewrite <- Hq in Hm'. simpl in Hm'. congruence.
Qed.
Lemma rec_enter x i g got r : rec_inv x → gs x !! i = Some g → at_ g = LUnLock got r → mtx (sh x) !! proc g = None →
  rec_inv (Pool (with_mtx (<[proc g := i]> (mtx (sh x))) (sh x)) (<[i := goto g (LRevoke got r)]> (gs x))).
Proof.
  intros Hx Hi Hg Hm. split; simpl.
  - intros q j. rewrite lookup_insert_Some. split.
    + intros [[<- <-]|[Hne (h & Hj & Hq & Hh)%(rc_mtx x Hx)]].
      * exists (goto g (LRevoke got r)). by split; [eapply lookup_self|].
      * exists h. rewrite list_lookup_insert_ne; [done|]. intros ->. congruence.
    + intros (h & [[-> ->]|[Hne Hj]]%(lookup_moved _ _ _ _ _ _ Hi) & Hq & Hh); [by left|right].
      assert (mtx (sh x) !! q = Some j) as Hj' by (apply (rc_mtx x Hx); by exists h).
      split; [|done]. intros Heq. congruence.
  - intros j h id [[-> ->]|[_ Hj]]%(lookup_moved _ _ _ _ _ _ Hi) Hid; [|by apply (rc_rec x Hx j)].
    apply (rc_rec x Hx i g); [done|by rewrite Hg].
  - intros j j' h h' id [[-> ->]|[_ Hj]]%(lookup_moved _ _ _ _ _ _ Hi) Hid
      [[-> ->]|[_ Hj']]%(lookup_moved _ _ _ _ _ _ Hi) Hde; try done; [|by eapply (rc_del x Hx)].
    apply (rc_del x Hx i j' g h' id); [done|by rewrite Hg|done|done].
Qed.
Lemma rec_revoke x i g id r w : lock_inv x → rec_inv x → gs x !! i = Some g → at_ g = LRevoke (Some id) r →
  rec_inv (Pool (with_store w (sh x)) (<[i := goto g (LDelete r)]> (gs x))).
Proof.
  intros Hl Hx Hi Hg. assert (slot x hold_of i = Some id) as Hown by (by rewrite (slot_at x i g), Hg).
  split; simpl.
  - intros q j. rewrite (rc_mtx x Hx). split.
    + intros (h & Hj & Hq & Hh). destruct (decide (j = i)) as [->|Hne].
      * rewrite Hi in Hj. injection Hj as <-. exists (goto g (LDelete r)). by split; [eapply lookup_self|].
      * exists h. by rewrite list_lookup_insert_ne.
    + intros (h & [[-> ->]|[_ Hj]]%(lookup_moved _ _ _ _ _ _ Hi) & Hq & Hh); [|by exists h].
      exists g. by rewrite Hg.
  - intros j h id' [[-> ->]|[_ Hj]]%(lookup_moved _ _ _ _ _ _ Hi) Hid; [done|by apply (rc_rec x Hx j)].
  - intros j j' h h' id' [[-> ->]|[Hne Hj]]%(lookup_moved _ _ _ _ _ _ Hi) Hid
      [[-> ->]|[_ Hj']]%(lookup_moved _ _ _ _ _ _ Hi) Hde; try done; [|by eapply (rc_del x Hx)].
    destruct (one_holder x j i id' id Hl) as [-> _]; [|done|done]. apply slot_record. by rewrite (slot_at x j h).
Qed.
Lemma rec_delete x i g r : rec_inv x → gs x !! i = Some g → at_ g = LDelete r →
  rec_inv (Pool (with_mtx (delete (proc g) (mtx (sh x)))
    (with_record (proc g) (delete k (lockRecord (sh x) (proc g))) (sh x))) (<[i := goto g (LDone r)]> (gs x))).
Proof.
  intros Hx Hi Hg.
  assert (mtx (sh x) !! proc g = Some i) as Hmine by (apply (rc_mtx x Hx); exists g; by rewrite Hg).
  split; simpl.
  - intros q j. rewrite lookup_delete_Some. split.
    + intros [Hne (h & Hj & Hq & Hh)%(rc_mtx x Hx)]. exists h. rewrite list_lookup_insert_ne; [done|].
      intros ->. rewrite Hi in Hj. by injection Hj as <-.
    + intros (h & [[-> ->]|[Hne Hj]]%(lookup_moved _ _ _ _ _ _ Hi) & Hq & Hh); [done|].
      assert (mtx (sh x) !! q = Some j) as Hj' by (apply (rc_mtx x Hx); by exists h).
      split; [|done]. intros Heq. congruence.
  - intros j h id [[-> ->]|[_ Hj]]%(lookup_moved _ _ _ _ _ _ Hi) Hid; [done|].
    change (lockRecord (with_record (proc g) (delete k (lockRecord (sh x) (proc g))) (sh x)) (proc h) !! k = Some id).
    rewrite lockRecord_insert. case_decide as Hq; [|by apply (rc_rec x Hx j)].
    exfalso. apply (rc_del x Hx j i h g id); by rewrite ?Hg.
  - intros j j' h h' id [[-> ->]|[_ Hj]]%(lookup_moved _ _ _ _ _ _ Hi) Hid
      [[-> ->]|[_ Hj']]%(lookup_moved _ _ _ _ _ _ Hi) Hde; try done. by eapply (rc_del x Hx).
Qed.
Lemma rec_moves x i g p s : lock_inv x → rec_inv x → gs x !! i = Some g → moves i g (sh x) p s →
  rec_inv (Pool s (<[i := goto g p]> (gs x))).
Proof.
  intros Hl Hx Hi Hm.
  destruct Hm as [id w Hg|id w Hg|id w Hg|id ok Hg|id Hg|id w Hg|id Hg|id w Hg|Hg];
    [| | | |by apply rec_record| |by apply rec_enter|by eapply rec_revoke|by apply rec_delete];
    (apply rec_same; [done|done|done|done|rewrite Hg..]); try done; by destruct ok.
Qed.

(** *** The transactions *)
Definition ok_pc (p : pc) : Prop :=
  match p with
  | LTxn got => is_Some got
  | LUnLock got r | LRevoke got r => is_Some got ∧ r = Ok tt
  | LDelete r | LDone r => r = Ok tt
  | _ => True
  end.
Definition committed_ops s : list etcd_op := commits s ≫= λ c, omap etcd_op_of c.2.
Record log_inv x : Prop := {
  lg_ok i g : gs x !! i = Some g → ok_pc (at_ g) ∧ Forall (λ kv, Key kv ≠ k) (kvl g);
  lg_data : delete k (kvs (store (sh x))) = foldl apply_op (kvs w0) (committed_ops (sh x));
  lg_once : NoDup (commits (sh x)).*1;
  lg_iff i l : (i, l) ∈ commits (sh x) ↔ ∃ g, gs x !! i = Some g ∧ kvl g = l ∧ committed (at_ g) = true;
}.
(** A step that commits nothing. *)
Lemma log_same x i g p s : log_inv x → gs x !! i = Some g → ok_pc p → committed p = committed (at_ g) →
  commits s = commits (sh x) → delete k (kvs (store s)) = delete k (kvs (store (sh x))) →
  log_inv (Pool s (<[i := goto g p]> (gs x))).
Proof.
  intros Hx Hi Hp Hc Hl Hk. split; simpl.
  - intros j h [[-> ->]|[_ Hj]]%(lookup_moved _ _ _ _ _ _ Hi); [|by apply (lg_ok x Hx j)].
    split; [done|]. apply (lg_ok x Hx i g Hi).
  - unfold committed_ops. rewrite Hk, Hl. apply Hx.
  - rewrite Hl. apply Hx.
  - intros j l. rewrite Hl, (lg_iff x Hx). split.
    + intros (h & Hj & <- & Hh). destruct (decide (j = i)) as [->|Hne].
      * rewrite Hi in Hj. injection Hj as <-. exists (goto g p). split; [by eapply lookup_self|]. simpl. by rewrite Hc.
      * exists h. by rewrite list_lookup_insert_ne.
    + intros (h & [[-> ->]|[_ Hj]]%(lookup_moved _ _ _ _ _ _ Hi) & <- & Hh); [|by exists h].
      exists g. by rewrite <- Hc.
Qed.
Lemma log_commit x i g p w : log_inv x → gs x !! i = Some g → ok_pc p → committed (at_ g) = false → committed p = true →
  kvs w = foldl apply_op (kvs (store (sh x))) (omap etcd_op_of (kvl g)) →
  log_inv (Pool (with_commit i (kvl g) (with_store w (sh x))) (<[i := goto g p]> (gs x))).
Proof.
  intros Hx Hi Hp Hc Hc' Hk. destruct (lg_ok x Hx i g Hi) as [_ Hkeys].
  assert (Hnot : ∀ l, (i, l) ∉ commits (sh x)).
  { intros l (h & Hj & _ & Hh)%(lg_iff x Hx). rewrite Hi in Hj. injection Hj as <-. congruence. }
  split; simpl.
  - intros j h [[-> ->]|[_ Hj]]%(lookup_moved _ _ _ _ _ _ Hi); [done|by apply (lg_ok x Hx j)].
  - unfold committed_ops. simpl. rewrite bind_app, foldl_app. simpl. rewrite app_nil_r.
    destruct (spared_ops _ (ops_spare (kvl g) Hkeys) (kvs (store (sh x)))) as (_ & Hd & _).
    rewrite Hk, Hd. by rewrite (lg_data x Hx).
  - rewrite fmap_app. simpl. apply NoDup_app. split_and!; [apply Hx| |apply NoDup_singleton].
    intros j (c & Hj1 & Hj)%list_elem_of_fmap Hji%list_elem_of_singleton. destruct c as [j1 l]. simpl in Hj1. subst. by apply (Hnot l).
  - intros j l. rewrite elem_of_app, list_elem_of_singleton, (lg_iff x Hx). split.
    + intros [(h & Hj & <- & Hh)|[= -> ->]].
      * exists h. rewrite list_lookup_insert_ne; [done|]. intros ->. congruence.
      * exists (goto g p). by split; [eapply lookup_self|].
    + intros (h & [[-> ->]|[_ Hj]]%(lookup_moved _ _ _ _ _ _ Hi) & <- & Hh); [by right|left; by exists h].
Qed.
Lemma log_moves x i g p s : lock_inv x → log_inv x → gs x !! i = Some g → moves i g (sh x) p s →
  log_inv (Pool s (<[i := goto g p]> (gs x))).
Proof.
  intros Hl Hx Hi Hm.
  destruct Hm as [id w Hg ? ? ? Hk|id w Hg ? Hk|id w Hg ? Hk|id ok Hg|id Hg|id w Hg|id Hg|id w Hg ? ? Hk|Hg];
    try (apply log_same; rewrite ?Hg; done).
  - apply log_same; rewrite ?Hg; try done. simpl. by rewrite Hk.
  - apply log_same; rewrite ?Hg; try done. simpl. by rewrite Hk.
  - apply log_same; rewrite ?Hg; try done. simpl. rewrite Hk. apply delete_insert_eq.
  - apply log_same; rewrite ?Hg; try done; by destruct ok.
  - apply log_same; rewrite ?Hg; try done. by eexists.
  - apply log_commit; rewrite ?Hg; done.
  - apply log_same; rewrite ?Hg; try done. simpl. rewrite Hk. apply map_eq. intros k'.
    rewrite !lookup_delete. case_decide; [done|]. destruct (kvs (store (sh x)) !! k') as [[v l]|] eqn:Hk'.
    + apply map_lookup_filter_Some. split; [done|]. simpl. intros ->.
      destruct (lk_lease x Hl i id) as (_ & _ & _ & Hb); [by rewrite (slot_at x i g), Hg|]. by apply Hb in Hk'.
    + apply map_lookup_filter_None. by left.
Qed.

(** *** The processes *)
Section healthy.
Hypothesis quiet : ∀ w : W, cli_Sleep w = w.
Record inv x : Prop := { inv_lock : lock_inv x; inv_rec : rec_inv x; inv_log : log_inv x }.
(** Not done, and not waiting for the mutex. *)
Definition can_move g s : Prop :=
  finished g = false ∧
  match at_ g with LRecord _ | LUnLock _ _ => mtx s !! proc g = None | _ => True end.
Lemma stepped_can i g s g' s' : gstep k i g s = Done (g', s') → can_move g s.
Proof. unfold gstep, can_move, finished. destruct (at_ g); try done; by destruct (mtx s !! proc g). Qed.
Lemma advance x i g : inv x → gs x !! i = Some g → can_move g (sh x) →
  ∃ p s, gstep k i g (sh x) = Done (goto g p, s) ∧ moves i g (sh x) p s.
Proof.
  intros [Hl Hr Hg] Hi [Hf Hb]. pose proof (lk_healthy x Hl) as Hh. destruct (lg_ok x Hg i g Hi) as [Hok Hkeys].
  pose proof (slot_at x i g lease_of Hi) as Hlease.
  unfold gstep, finished in *. destruct (at_ g) as [|id|id ok|id|got|got r|got r|r|r] eqn:Hat; try done; simpl in *.
  - pose proof (law_Grant 10 (store (sh x))) as L. destruct (cli_Grant 10 _) as [[id|e] w]; simpl in L.
    + destruct L as (Hk & Hnew & _ & Hok'). destruct (Hnew id eq_refl) as (? & ? & ? & ?). destruct (Hok' Hh).
      eexists _, _. split; [reflexivity|]. apply m_grant; try done. intros k' v. by rewrite Hk.
    + destruct L as (_ & _ & _ & Hok'). by destruct (Hok' Hh).
  - destruct (lk_lease x Hl i id Hlease) as [Hlive _]. destruct (kvs (store (sh x)) !! k) as [vl|] eqn:Hkey.
    + pose proof (law_Txn (Some k) [OpPut k (GoStr.Itoa id) id] (store (sh x))) as L. unfold tryLock.
      destruct (cli_Txn (Some k) _ _) as [r w]. destruct L as (Hl' & [Hv He] & Hok'). destruct (Hok' Hh) as [Hh' Hr'].
      rewrite bool_decide_eq_false_2 in * by congruence. destruct r as [b|e]; [|by discriminate Hr'; repeat constructor; auto].
      rewrite (Hv b eq_refl). eexists _, _. split; [reflexivity|]. apply m_busy; congruence.
    + destruct (tryLock_free id k (store (sh x))) as (w & -> & Hh' & Hl' & Hk'); [done|done|done|].
      eexists _, _. split; [reflexivity|]. by apply m_take.
  - rewrite quiet. eexists _, _. split; [reflexivity|]. by apply m_wake.
  - rewrite Hb. eexists _, _. split; [reflexivity|]. by apply m_record.
  - destruct Hok as [id ->]. destruct (Txn_healthy (omap etcd_op_of (kvl g)) (store (sh x)) Hh (etcd_op_of_lease (kvl g)))
      as (w & -> & Hh' & Hl' & Hk').
    eexists _, _. split; [reflexivity|]. by apply m_commit.
  - destruct Hok as [[id ->] ->]. rewrite Hb. eexists _, _. split; [reflexivity|]. by apply (m_enter _ _ _ id).
  - destruct Hok as [[id ->] ->]. rewrite (rc_rec x Hr i g id) by (by rewrite ?Hat).
    destruct (lk_lease x Hl i id Hlease) as [Hlive _].
    destruct (Revoke_healthy id (store (sh x)) Hh Hlive) as (w & -> & Hh' & Hl' & Hk').
    eexists _, _. split; [reflexivity|]. by apply (m_revoke _ _ _ id).
  - subst r. eexists _, _. split; [reflexivity|]. by apply m_delete.
Qed.
Lemma inv_moves x i g p s : inv x → gs x !! i = Some g → moves i g (sh x) p s →
  inv (Pool s (<[i := goto g p]> (gs x))).
Proof.
  intros [Hl Hr Hg] Hi Hm. destruct (lg_ok x Hg i g Hi) as [_ Hkeys].
  split; [by apply lock_moves|by apply rec_moves|by apply log_moves].
Qed.
Lemma inv_step x i g g' s : inv x → gs x !! i = Some g → gstep k i g (sh x) = Done (g', s) →
  inv (Pool s (<[i := g']> (gs x))) ∧ ∃ p, g' = goto g p ∧ moves i g (sh x) p s.
Proof.
  intros Hx Hi Hs. destruct (advance x i g Hx Hi (stepped_can _ _ _ _ _ Hs)) as (p & s1 & Hs1 & Hm).
  rewrite Hs in Hs1. injection Hs1 as -> ->. split; [by apply inv_moves|by exists p].
Qed.
Lemma inv_begin x g : inv x → fresh k g → inv (Pool (sh x) (gs x ++ [g])).
Proof.
  intros [Hl Hr Hg] [Hat Hkeys]. split.
  - apply (lock_same x); try done; try apply Hl; intros j; apply slot_spawned; by rewrite Hat.
  - split; simpl.
    + intros q j. rewrite (rc_mtx x Hr). split.
      * intros (h & Hj & ?). exists h. split; [by apply lookup_app_l_Some|done].
      * intros (h & [Hj| ->]%lookup_spawned & Hq & Hin); [by exists h|by rewrite Hat in Hin].
    + intros j h id [Hj| ->]%lookup_spawned Hid; [by apply (rc_rec x Hr j)|by rewrite Hat in Hid].
    + intros j j' h h' id [Hj| ->]%lookup_spawned Hid [Hj'| ->]%lookup_spawned Hd;
        [by eapply (rc_del x Hr)|by rewrite Hat in Hd|by rewrite Hat in Hid|by rewrite Hat in Hd].
  - split; simpl; try apply Hg.
    + intros j h [Hj| ->]%lookup_spawned; [by apply (lg_ok x Hg j)|by rewrite Hat].
    + intros j l. rewrite (lg_iff x Hg). split.
      * intros (h & Hj & ?). exists h. split; [by apply lookup_app_l_Some|done].
      * intros (h & [Hj| ->]%lookup_spawned & Hq & Hc); [by exists h|by rewrite Hat in Hc].
Qed.
Lemma inv_start : healthy w0 → kvs w0 !! k = None → inv (start w0).
Proof.
  intros Hh Hk. split; split; simpl; try done.
  - by left.
  - intros q i. rewrite lookup_empty. split; [done|]. by intros (g & ? & _).
  - by rewrite delete_id.
  - constructor.
  - intros i l. split; [by intros ?%elem_of_nil|]. by intros (g & ? & _).
Qed.

(** Somebody gets closer to the end. *)
Lemma moves_rank i g s p s' : moves i g s p s' → kvs (store s) !! k = None ∨ is_Some (hold_of (at_ g)) ∨ deleting (at_ g) = true →
  rank (goto g p) < rank g.
Proof.
  intros Hm Hor. unfold rank. destruct Hm as [id w Hg|id w Hg Hk|id w Hg|id [] Hg|id Hg|id w Hg|id Hg|id w Hg|Hg];
    rewrite Hg in *; simpl; try lia. by destruct Hor as [?|[[? ?]|?]].
Qed.
Lemma somebody_can x i0 g0 : inv x → gs x !! i0 = Some g0 → finished g0 = false →
  ∃ i g, gs x !! i = Some g ∧ can_move g (sh x) ∧
    (kvs (store (sh x)) !! k = None ∨ is_Some (hold_of (at_ g)) ∨ deleting (at_ g) = true).
Proof.
  intros [Hl Hr Hg] Hi0 Hf0.
  destruct (decide (Exists (λ g, deleting (at_ g) = true) (gs x))) as [(g & [i Hi]%list_elem_of_lookup_1 & Hd)%Exists_exists|Hno].
  { exists i, g. split; [done|]. split; [|by right; right]. unfold can_move, finished. by destruct (at_ g). }
  assert (Hnodel : ∀ i g, gs x !! i = Some g → deleting (at_ g) = false).
  { intros i g Hi. apply not_true_is_false. intros Hd. apply Hno, Exists_exists. exists g. split; [|done].
    by eapply list_elem_of_lookup_2. }
  destruct (kvs (store (sh x)) !! k) as [vl|] eqn:Hk.
  - destruct (lk_free x Hl) as (i & id & Hown); [by rewrite Hk|]. unfold slot in Hown.
    destruct (gs x !! i) as [g|] eqn:Hi; [|done]. simpl in Hown. exists i, g. split; [done|].
    split; [|right; left; by eexists]. split; [by destruct g as [? ? []]|].
    assert (Hmtx : inside (at_ g) = false → mtx (sh x) !! proc g = None).
    { intros Hin. destruct (mtx (sh x) !! proc g) as [j|] eqn:Hm; [|done]. exfalso.
      apply (rc_mtx x Hr) in Hm as (h & Hj & _ & Hh). pose proof (Hnodel j h Hj) as Hd.
      destruct (lg_ok x Hg j h Hj) as [Hok _]. destruct (at_ h) as [| | | | | |got r| |] eqn:Hat; try done.
      destruct Hok as [[id' ->] _]. destruct (one_holder x i j id id' Hl) as [-> _]; [by rewrite (slot_at x i g)|by rewrite (slot_at x j h), Hat|].
      rewrite Hi in Hj. injection Hj as <-. by rewrite Hat in Hin. }
    destruct (at_ g); auto.
  - exists i0, g0. split; [done|]. split; [|by left]. split; [done|].
    assert (hold_of (at_ g0) = None) as Hn.
    { destruct (hold_of (at_ g0)) as [id|] eqn:Ho; [|done]. rewrite (lk_hold x Hl i0 id) in Hk; [done|].
      by rewrite (slot_at x i0 g0). }
    destruct (lg_ok x Hg i0 g0 Hi0) as [Hok _].
    destruct (at_ g0); try done. destruct Hok as [[? ->] _]. done.
Qed.
End healthy.

(** *** Commits are never taken back *)
Lemma step_commits i g s g' s' : gstep k i g s = Done (g', s') → commits s `prefix_of` commits s'.
Proof.
  unfold gstep. destruct (at_ g) as [|id|id ok|id|got|got r|got r|r|r].
  - by destruct (cli_Grant 10 _); intros [= _ <-].
  - by destruct (tryLock id k _); intros [= _ <-].
  - by intros [= _ <-].
  - destruct (mtx s !! proc g); [done|]. by intros [= _ <-].
  - destruct (cli_Txn None _ _) as [[b|e] w]; intros [= _ <-]; [by apply prefix_app_r|done].
  - destruct (mtx s !! proc g); [done|]. by intros [= _ <-].
  - destruct (lockRecord s (proc g) !! k) as [id|]; [|by intros [= _ <-]].
    by destruct (cli_Revoke id _) as [[] w]; intros [= _ <-].
  - by intros [= _ <-].
  - done.
Qed.
Lemma steps_commits es : ∀ x y, steps (gstep k) es x = Done y → commits (sh x) `prefix_of` commits (sh y).
Proof.
  induction es as [|e es IH]; intros x y; simpl; [by intros [= <-]|].
  destruct (step (gstep k) e x) as [z| |] eqn:Hz; [|done|done]. intros Hy%IH. etrans; [|exact Hy].
  destruct e as [g|i]; simpl in Hz; [by injection Hz as <-|]. destruct (gs x !! i) as [g|]; [|done].
  destruct (gstep k i g (sh x)) as [[g' s']| |] eqn:Hs; [|done|done]. injection Hz as <-. by eapply step_commits.
Qed.

(** *** A call that runs without interruption *)
Section alone.
Variables (i : nat) (q : nat) (l : list KV).
Abbreviation run_to := (solo (gstep (W := W) k) i).
Lemma lock_loop_solo fuel : ∀ id s r w, lock_loop fuel id k (store s) = Some (r, w) →
  run_to (Call q l (LTry id), s)
    (Call q l match r with Ok _ => LRecord id | Err _ => LTxn None end, with_store w s).
Proof.
  induction fuel as [|fuel IH]; intros id s r w; simpl; [done|].
  destruct (tryLock id k (store s)) as [[ok|e] w1] eqn:Ht.
  - intros Hl. eapply (solo_step _ _ _ _ (Call q l (LSleep id ok), with_store w1 s)); [unfold gstep; simpl; by rewrite Ht|].
    eapply solo_step; [reflexivity|]. destruct ok; [injection Hl as <- <-; apply rtc_refl|].
    by apply (IH id (with_store (cli_Sleep w1) (with_store w1 s))).
  - intros [= <- <-]. eapply solo_step; [unfold gstep; simpl; rewrite Ht; reflexivity|]. apply rtc_refl.
Qed.
(** The end of a call, from the transaction on. *)
Lemma unlock_solo got s : mtx s !! q = None →
  let '(r, w) := cli_Txn None (omap etcd_op_of l) (store s) in
  let '(_, rec, w) := UnLock k (lockRecord s q) w in
  ∃ s', run_to (Call q l (LTxn got), s)
      (Call q l (LDone match r with Err e => Err e | Ok _ => Ok tt end), s') ∧
    store s' = w ∧ lockRecord s' q = rec ∧ mtx s' = mtx s.
Proof.
  intros Hm. destruct (cli_Txn None _ _) as [r w] eqn:Ht.
  set (r' := match r with Err e => Err e | Ok _ => Ok tt end).
  assert (∃ s1, run_to (Call q l (LTxn got), s) (Call q l (LUnLock got r'), s1) ∧
    store s1 = w ∧ recs s1 = recs s ∧ mtx s1 = mtx s) as (s1 & Hrun & Hw & Hrec & Hm1).
  { destruct r as [b|e]; eexists;
      (split; [eapply solo_step; [unfold gstep; simpl; rewrite Ht; reflexivity|apply rtc_refl]|done]). }
  assert (Hlr : lockRecord s1 q = lockRecord s q) by (unfold lockRecord; by rewrite Hrec).
  assert (Hback : ∀ m : gmap nat nat, m !! q = None → delete q (<[q := i]> m) = m) by (intros; by rewrite delete_insert_id).
  set (s2 := with_mtx (<[q := i]> (mtx s1)) s1).
  assert (Hin : run_to (Call q l (LTxn got), s) (Call q l (LRevoke got r'), s2)).
  { etrans; [exact Hrun|]. eapply solo_step; [|apply rtc_refl]. unfold gstep. simpl.
    assert (mtx s1 !! q = None) as -> by (by rewrite Hm1). done. }
  set (g := Call q l (LRevoke got r')) in *.
  assert (Hstep : gstep k i g s2 =
    match lockRecord s q !! k with
    | None => Done (goto g (LDone r'), with_mtx (delete q (mtx s2)) s2)
    | Some id =>
        match cli_Revoke id w with
        | (Err _, w) => Done (goto g (LDone r'), with_mtx (delete q (mtx s2)) (with_store w s2))
        | (Ok _, w) => Done (goto g (LDelete r'), with_store w s2)
        end
    end).
  { unfold gstep. simpl. change (lockRecord s2 q) with (lockRecord s1 q). by rewrite Hlr, Hw. }
  unfold UnLock. destruct (lockRecord s q !! k) as [id|] eqn:Hid; [destruct (cli_Revoke id w) as [[u|e] w1] eqn:Hr|].
  - eexists. split; [etrans; [exact Hin|]; eapply solo_step; [exact Hstep|]; eapply solo_step; [reflexivity|apply rtc_refl]|].
    simpl. split; [done|]. split; [|by rewrite Hm1, Hback].
    etrans; [exact (lockRecord_insert q q (delete k (lockRecord s1 q)) s1)|].
    by rewrite decide_True, Hlr.
  - eexists. split; [etrans; [exact Hin|]; eapply solo_step; [exact Hstep|apply rtc_refl]|]. simpl. by rewrite Hm1, Hback.
  - eexists. split; [etrans; [exact Hin|]; eapply solo_step; [exact Hstep|apply rtc_refl]|]. simpl. by rewrite Hm1, Hback.
Qed.
Lemma AtomicMultiKVOp_solo fuel s r rec w : mtx s !! q = None →
  AtomicMultiKVOp fuel k l (lockRecord s q) (store s) = Some (r, rec, w) →
  ∃ s', run_to (Call q l LGrant, s) (Call q l (LDone r), s') ∧
    store s' = w ∧ lockRecord s' q = rec ∧ mtx s' = mtx s.
Proof.
  intros Hm. unfold AtomicMultiKVOp.
  destruct (Lock fuel k (lockRecord s q) (store s)) as [[[a rec1] w1]|] eqn:Hlock; [|done].
  assert (∃ got s1, run_to (Call q l LGrant, s) (Call q l (LTxn got), s1) ∧
    store s1 = w1 ∧ lockRecord s1 q = rec1 ∧ mtx s1 = mtx s) as (got & s1 & Hrun & Hw & Hrec & Hm1).
  { unfold Lock in Hlock. destruct (cli_Grant 10 (store s)) as [[id|e] w2] eqn:Hg.
    - destruct (lock_loop fuel id k w2) as [[b w3]|] eqn:Hloop; [|done].
      apply (lock_loop_solo fuel id (with_store w2 s)) in Hloop.
      assert (run_to (Call q l LGrant, s) (Call q l (LTry id), with_store w2 s)) as Hgr
        by (eapply solo_step; [unfold gstep; simpl; by rewrite Hg|apply rtc_refl]).
      destruct b as [u|e]; injection Hlock as <- <- <-.
      + exists (Some id), (with_record q (<[k := id]> (lockRecord s q)) (with_store w3 s)). split.
        * etrans; [exact Hgr|]. etrans; [exact Hloop|]. eapply solo_step; [|apply rtc_refl].
          unfold gstep. simpl. by rewrite Hm.
        * split; [done|]. split; [|done]. by rewrite lockRecord_insert, decide_True.
      + exists None, (with_store w3 s). split; [|done]. etrans; [exact Hgr|exact Hloop].
    - injection Hlock as <- <- <-. exists None, (with_store w2 s). split; [|done].
      eapply solo_step; [unfold gstep; simpl; by rewrite Hg|apply rtc_refl]. }
  pose proof (unlock_solo got s1) as Hun. rewrite Hw, Hrec, Hm1 in Hun. specialize (Hun Hm).
  destruct (cli_Txn None _ w1) as [b w2]. destruct (UnLock k rec1 w2) as [[c rec2] w3].
  destruct Hun as (s' & Hrun' & ?). intros Hr. exists s'.
  assert (r = match b with Err e => Err e | Ok _ => Ok tt end ∧ rec = rec2 ∧ w = w3) as (-> & -> & ->)
    by (by destruct b; simplify_eq).
  split; [by etrans|done].
Qed.
End alone.
End facts.
End LockConcFacts.

(** ** Theorems *)
Module LockConcTheorems.
Import Etcd EtcdFacts LockConc LockConcFacts.
Section theorems.
Context {W : Type} `{EtcdLaws W}.
Implicit Types (x y : procs W) (es : list (event goroutine)).

Lemma reach k w0 es x : (∀ w : W, cli_Sleep w = w) → healthy w0 → kvs w0 !! k = None →
  Forall (event_ok (fresh k)) es → steps (gstep k) es (start w0) = Done x → inv k w0 x.
Proof.
  intros Hq Hh Hk. apply (steps_keep _ (fresh k)); [|intros y i g g' s'|by apply inv_start].
  - intros y g. by apply inv_begin.
  - intros Hy Hi Hs. by apply (inv_step k w0 Hq y i g g' s').
Qed.



(** C14. From every state they reach all calls can run to their end, although a call
    that finds the key tries again for ever. *)
Theorem atomic_ops_finish k w0 es x :
  (∀ w : W, cli_Sleep w = w) → healthy w0 → kvs w0 !! k = None → Forall (event_ok (fresh k)) es →
  steps (gstep k) es (start w0) = Done x →
  ∃ js y, length js ≤ total rank (gs x) ∧ steps (gstep k) (Sched <$> js) x = Done y ∧
    length (gs y) = length (gs x) ∧ ∀ i g, gs y !! i = Some g → finished g = true.
Proof.
  intros Hq Hh Hk Hes Hx. apply (all_finish _ rank finished (inv k w0)); [|by eapply reach].
  clear x Hx. intros x i0 g0 Hx Hi0 Hf0.
  destruct (somebody_can k w0 x i0 g0 Hx Hi0 Hf0) as (i & g & Hi & Hcan & Hor).
  destruct (advance k w0 Hq x i g Hx Hi Hcan) as (p & s & Hs & Hm).
  exists i, g, (goto g p), s. split; [done|]. split; [done|]. split; [by eapply moves_rank|by eapply inv_moves].
Qed.

(** A call that finds the mutexes free and runs without interruption does what
    the sequential [Etcd.AtomicMultiKVOp] does: the same result, lock record and
    calls of etcd, errors included. *)
Theorem alone_is_AtomicMultiKVOp k x i q l fuel r rec w :
  gs x !! i = Some (new_call q l) → mtx (sh x) !! q = None →
  AtomicMultiKVOp fuel k l (lockRecord (sh x) q) (store (sh x)) = Some (r, rec, w) →
  ∃ n s, steps (gstep k) (replicate n (Sched i)) x = Done (Pool s (<[i := Call q l (LDone r)]> (gs x))) ∧
    store s = w ∧ lockRecord s q = rec ∧ mtx s = mtx (sh x).
Proof.
  intros Hi Hm Hop. destruct (AtomicMultiKVOp_solo k i q l fuel (sh x) r rec w Hm Hop) as (s & Hrun & Hs).
  destruct (solo_steps _ i _ _ Hrun x Hi eq_refl) as [n Hn]. by exists n, s.
Qed.

(** C37. [AtomicMultiKVOp] drops the error of [Lock], and [UnLock] looks the lease up
    by the name of the lock: a call whose lease is not granted releases the lock of
    another call of its process, which is about to commit, and a third call takes
    the lock while that one still believes to have it. *)
Theorem failed_lock_breaks_exclusion k x i j m q l l' g id id' e w1 :
  gs x !! i = Some (new_call q l) → gs x !! j = Some (Call q l' (LTxn (Some id))) →
  gs x !! m = Some g → at_ g = LTry id' → j ≠ m →
  lockRecord (sh x) q !! k = Some id → mtx (sh x) !! q = None → Forall (λ kv, Key kv ≠ k) l →
  kvs (store (sh x)) !! k = Some (GoStr.Itoa id, id) →
  id ∈ live (store (sh x)) → id' ∈ live (store (sh x)) → id' ≠ id →
  cli_Grant 10 (store (sh x)) = (Err e, w1) → healthy w1 →
  ∃ y, steps (gstep k) [Sched i; Sched i; Sched i; Sched i; Sched m] x = Done y ∧
    gs y !! j = Some (Call q l' (LTxn (Some id))) ∧ gs y !! m = Some (goto g (LSleep id' true)).
Proof.
  intros Hi Hj Hm Hg Hjm Hrec Hmtx Hl Hk Hid Hid' Hne Hgrant Hh.
  assert (i ≠ j ∧ i ≠ m) as [Hij Him] by (split; intros ->; simplify_eq/=).
  pose proof (law_Grant 10 (store (sh x))) as L. rewrite Hgrant in L. destruct L as (Hk1 & _ & Hl1 & _).
  specialize (Hl1 e eq_refl).
  destruct (Txn_healthy (omap etcd_op_of l) w1 Hh (etcd_op_of_lease l)) as (w2 & Ht & Hh2 & Hl2 & Hk2).
  destruct (Revoke_healthy id w2 Hh2) as (w3 & Hr & Hh3 & Hl3 & Hk3); [rewrite Hl2; set_solver|].
  destruct (tryLock_free id' k w3 Hh3) as (w4 & Htry & _); [rewrite Hl3, Hl2; set_solver| |].
  { rewrite Hk3. apply map_lookup_filter_None. right.
    destruct (spared_ops k _ (ops_spare k l Hl) (kvs w1)) as (Hsame & _).
    rewrite Hk2, Hsame, Hk1, Hk. intros q' [= <-]. simpl. tauto. }
  set (g1 := Call q l (LTxn None)). set (g2 := Call q l (LUnLock None (Ok tt))).
  set (g3 := Call q l (LRevoke None (Ok tt))). set (g4 := Call q l (LDelete (Ok tt))).
  set (s2 := with_commit i l (with_store w2 (with_store w1 (sh x)))).
  set (s3 := with_mtx (<[q := i]> (mtx s2)) s2).
  assert (S1 : gstep k i (new_call q l) (sh x) = Done (g1, with_store w1 (sh x)))
    by (unfold gstep; simpl; by rewrite Hgrant).
  assert (S2 : gstep k i g1 (with_store w1 (sh x)) = Done (g2, s2)) by (unfold gstep; simpl; by rewrite Ht).
  assert (S3 : gstep k i g2 s2 = Done (g3, s3)) by (unfold gstep; simpl; by rewrite Hmtx).
  assert (S4 : gstep k i g3 s3 = Done (g4, with_store w3 s3)).
  { unfold gstep. simpl. change (lockRecord s3 q) with (lockRecord (sh x) q). by rewrite Hrec, Hr. }
  assert (S5 : gstep k m g (with_store w3 s3) = Done (goto g (LSleep id' true), with_store w4 (with_store w3 s3)))
    by (unfold gstep; rewrite Hg; simpl; by rewrite Htry).
  assert (Hself : ∀ h, <[i := h]> (gs x) !! i = Some h) by (intros h; by eapply lookup_self).
  eexists. split.
  - rewrite (steps_sched _ i _ _ _ _ _ Hi S1).
    rewrite (steps_sched _ i g1 g2 s2) by (exact (Hself g1) || exact S2). simpl gs. rewrite list_insert_insert_eq.
    rewrite (steps_sched _ i g2 g3 s3) by (exact (Hself g2) || exact S3). simpl gs. rewrite list_insert_insert_eq.
    rewrite (steps_sched _ i g3 g4 (with_store w3 s3)) by (exact (Hself g3) || exact S4).
    simpl gs. rewrite list_insert_insert_eq.
    rewrite (steps_sched _ m g (goto g (LSleep id' true)) (with_store w4 (with_store w3 s3)));
      [reflexivity|simpl; by rewrite list_lookup_insert_ne|exact S5].
  - simpl. split; [by rewrite !list_lookup_insert_ne|].
    apply list_lookup_insert_eq. rewrite length_insert. by eapply lookup_lt_Some.
Qed.
End theorems.

(** *** Witnesses: etcd in memory, two processes *)
Import MemEtcd.
Definition ex_key : string := "/mysh/dash/eplock".
Definition ex_put (v : string) : list KV := [MkKV OP_PUT "/mysh/dash/uid/u/endpoint" v].
Definition ex_w0 : mem := EtcdTheorems.ex_store.
Definition ex_after (w : mem) (es : list (event goroutine)) : procs mem :=
  match steps (gstep ex_key) es (start w) with Done x => x | _ => start w end.
(** Two calls of process 0 and one of process 1: the second has committed and holds
    the mutex of its process, the others have tried in vain. *)
Definition ex_busy : list (event goroutine) :=
  [Spawn (new_call 0 (ex_put "a")); Spawn (new_call 0 EtcdTheorems.ex_kvl); Spawn (new_call 1 (ex_put "c"));
   Sched 0; Sched 1; Sched 2; Sched 1; Sched 0; Sched 1; Sched 2; Sched 1; Sched 1; Sched 1].
(** All three have returned. *)
Definition ex_rest : list (event goroutine) :=
  [Sched 1; Sched 1] ++ [Sched 2] ++ replicate 6 (Sched 2) ++ [Sched 0] ++ replicate 7 (Sched 0) ++ [Sched 2].
Lemma ex_contended_fresh : Forall (event_ok (fresh ex_key)) ex_busy.
Proof. repeat constructor; discriminate. Qed.
Lemma ex_busy_run : steps (gstep ex_key) ex_busy (start ex_w0) = Done (ex_after ex_w0 ex_busy).
Proof. vm_compute. done. Qed.

Definition ex_end : procs mem :=
  match steps (gstep ex_key) ex_rest (ex_after ex_w0 ex_busy) with Done x => x | _ => start ex_w0 end.
Lemma atomic_ops_finish_witness :
  ∃ js y, length js ≤ total rank (gs (ex_after ex_w0 ex_busy)) ∧
    steps (gstep ex_key) (Sched <$> js) (ex_after ex_w0 ex_busy) = Done y ∧
    length (gs y) = length (gs (ex_after ex_w0 ex_busy)) ∧ ∀ i g, gs y !! i = Some g → finished g = true.
Proof.
  apply (atomic_ops_finish ex_key ex_w0 ex_busy); [done|reflexivity|reflexivity|exact ex_contended_fresh|exact ex_busy_run].
Defined.
Lemma alone_is_AtomicMultiKVOp_witness :
  ∃ rec w, AtomicMultiKVOp 1 ex_key EtcdTheorems.ex_kvl ∅ ex_w0 = Some (Ok tt, rec, w) ∧
  ∃ n s, steps (gstep ex_key) (replicate n (Sched 0)) (Pool (Sh ∅ ∅ ex_w0 []) [new_call 0 EtcdTheorems.ex_kvl]) =
      Done (Pool s [Call 0 EtcdTheorems.ex_kvl (LDone (Ok tt))]) ∧
    store s = w ∧ lockRecord s 0 = rec ∧ mtx s = ∅.
Proof.
  destruct (AtomicMultiKVOp_spec 0 ex_key EtcdTheorems.ex_kvl ∅ ex_w0) as (rec & w & Hop & _);
    [reflexivity|done|reflexivity|repeat constructor; discriminate|].
  exists rec, w. split; [exact Hop|].
  apply (alone_is_AtomicMultiKVOp ex_key (Pool (Sh ∅ ∅ ex_w0 []) [new_call 0 EtcdTheorems.ex_kvl]) 0 0
    EtcdTheorems.ex_kvl 1 (Ok tt) rec w); [reflexivity|reflexivity|exact Hop].
Defined.
(** The fourth call of etcd fails: the grant for the second call of process 0. *)
Definition ex_faulty : mem := Mem (mkvs ex_w0) ∅ [FOk; FOk; FOk; FDrop].
Definition ex_before : list (event goroutine) :=
  [Spawn (new_call 0 EtcdTheorems.ex_kvl); Spawn (new_call 0 (ex_put "b")); Spawn (new_call 1 (ex_put "c"));
   Sched 0; Sched 0; Sched 0; Sched 0; Sched 2].
Lemma failed_lock_breaks_exclusion_witness :
  steps (gstep ex_key) ex_before (start ex_faulty) = Done (ex_after ex_faulty ex_before) ∧
  ∃ y, steps (gstep ex_key) [Sched 1; Sched 1; Sched 1; Sched 1; Sched 2] (ex_after ex_faulty ex_before) = Done y ∧
    gs y !! 0 = Some (Call 0 EtcdTheorems.ex_kvl (LTxn (Some 1%Z))) ∧
    gs y !! 2 = Some (goto (Call 1 (ex_put "c") (LTry 2)) (LSleep 2 true)).
Proof.
  split; [vm_compute; reflexivity|].
  eapply (failed_lock_breaks_exclusion ex_key (ex_after ex_faulty ex_before) 1 0 2 0 (ex_put "b")
    EtcdTheorems.ex_kvl (Call 1 (ex_put "c") (LTry 2)) 1 2 timeout);
    try (vm_compute; reflexivity); try discriminate.
  repeat constructor; discriminate.
Defined.
End LockConcTheorems.
