(* ===== verification/CliConc.v ===== *)
(** * server/server.go: goroutines that share a client manager

    Each request to a proxy or a dash runs in a goroutine of its own and calls the
    other servers through a manager of clients.  Module [CliConc] cuts a method of
    a manager at its accesses of [cliMap] and of the mutex: [ensureCliExists] tests
    the map first without the mutex, then with it, and the method reads the map
    without it.  An assignment to a Go map is not atomic: an access of the map by
    another goroutine while it goes on ends the process. *)

From S2P Require Import Prelude GoStr Proto Caches Pool.

Module CliConc.
Import CliManager.
(** What the goroutine does next; a [c] is the client it has. *)
Inductive pc (C R : Type) :=
  | KTest                          (* _, ok := cliMap[endpoint] *)
  | KLock
  | KTestAgain
  | KDial
  | KAssign (c : C)                (* cliMap[endpoint] = c begins *)
  | KAssigned (c : C)              (* and ends *)
  | KUnlock
  | KGet                           (* cli := cliMap[endpoint] *)
  | KCall (c : C)                  (* the rpc *)
  | KDone (c : C) (r : result R).
Arguments KTest {C R}.
Arguments KLock {C R}.
Arguments KTestAgain {C R}.
Arguments KDial {C R}.
Arguments KAssign {C R} _.
Arguments KAssigned {C R} _.
Arguments KUnlock {C R}.
Arguments KGet {C R}.
Arguments KCall {C R} _.
Arguments KDone {C R} _ _.
(** A call of a method for an endpoint. *)
Record goroutine (C Q R : Type) := Call { endpoint : string; req : Q; at_ : pc C R }.
Arguments Call {C Q R} _ _ _.
Arguments endpoint {C Q R} _.
Arguments req {C Q R} _.
Arguments at_ {C Q R} _.
(** The manager, what it is connected to, and the clients made so far. *)
Record manager (C W : Type) := Manager {
  clients : gmap string C;
  assigning : bool;                (* an assignment to [clients] goes on *)
  mtx : option nat;                (* the goroutine that holds the mutex *)
  net : W;
  dialled : list (string * C);
}.
Arguments Manager {C W} _ _ _ _ _.
Arguments clients {C W} _.
Arguments assigning {C W} _.
Arguments mtx {C W} _.
Arguments net {C W} _.
Arguments dialled {C W} _.

Section steps.
Context {C W Q R : Type}.
Variable newCli : string → W → outcome (C * W).
Variable rpc : C → Q → W → result R * W.
Implicit Types (s : manager C W) (g : goroutine C Q R).

Definition goto g (p : pc C R) : goroutine C Q R := Call (endpoint g) (req g) p.
Definition set_mtx (m : option nat) s : manager C W :=
  Manager (clients s) (assigning s) m (net s) (dialled s).
(** [k] goes on with what the map has for the key. *)
Definition map_read {A} (key : string) s (k : option C → outcome A) : outcome A :=
  if assigning s then Panic "concurrent map read and map write" else k (clients s !! key).
Definition gstep (i : nat) g s : outcome (goroutine C Q R * manager C W) :=
  let ep := endpoint g in
  match at_ g with
  | KTest => map_read ep s (λ o, Done (goto g (match o with Some _ => KGet | None => KLock end), s))
  | KLock => match mtx s with Some _ => Block | None => Done (goto g KTestAgain, set_mtx (Some i) s) end
  | KTestAgain => map_read ep s (λ o, Done (goto g (match o with Some _ => KUnlock | None => KDial end), s))
  | KDial =>
      run (c, w) <- newCli ep (net s) ;;
      Done (goto g (KAssign c), Manager (clients s) (assigning s) (mtx s) w (dialled s ++ [(ep, c)]))
  | KAssign c =>
      if assigning s then Panic "concurrent map writes"
      else Done (goto g (KAssigned c), Manager (clients s) true (mtx s) (net s) (dialled s))
  | KAssigned c => Done (goto g KUnlock, Manager (<[ep := c]> (clients s)) false (mtx s) (net s) (dialled s))
  | KUnlock => Done (goto g KGet, set_mtx None s)
  | KGet =>
      map_read ep s (λ o, match o with
        | None => Panic "nil pointer dereference"
        | Some c => Done (goto g (KCall c), s)
        end)
  | KCall c =>
      let '(r, w) := rpc c (req g) (net s) in
      Done (goto g (KDone c r), Manager (clients s) (assigning s) (mtx s) w (dialled s))
  | KDone _ _ => Block
  end.
Definition fresh g : Prop := at_ g = KTest.
Definition start (m : gmap string C) (w : W) : pool (goroutine C Q R) (manager C W) :=
  Pool (Manager m false None w []) [].
End steps.

(** The goroutine is between [Lock] and [Unlock]. *)
Definition inside {C R} (p : pc C R) : bool :=
  match p with KTestAgain | KDial | KAssign _ | KAssigned _ | KUnlock => true | _ => false end.
(** The client it made and has not put into the map, and the one it uses. *)
Definition made {C R} (p : pc C R) : option C := match p with KAssign c | KAssigned c => Some c | _ => None end.
Definition used {C R} (p : pc C R) : option C := match p with KCall c | KDone c _ => Some c | _ => None end.
End CliConc.

Module CliConcFacts.
Import CliManager CliConc.
Section facts.
Context {C W Q R : Type}.
Variable newCli : string → W → outcome (C * W).
Variable rpc : C → Q → W → result R * W.
Implicit Types (s : manager C W) (g : goroutine C Q R) (x : pool (goroutine C Q R) (manager C W)).
Abbreviation gstep := (gstep newCli rpc).

(** What a goroutine knows about its endpoint. *)
Definition knows (m : gmap string C) g : Prop :=
  match at_ g with
  | KDial | KAssign _ | KAssigned _ => m !! endpoint g = None
  | KUnlock | KGet => is_Some (m !! endpoint g)
  | KCall c | KDone c _ => m !! endpoint g = Some c
  | _ => True
  end.
Record inv (m0 : gmap string C) x : Prop := {
  inv_mtx i g : gs x !! i = Some g → inside (at_ g) = true → mtx (sh x) = Some i;
  inv_held i : mtx (sh x) = Some i → ∃ g, gs x !! i = Some g ∧ inside (at_ g) = true;
  inv_assigning i g c : gs x !! i = Some g → at_ g = KAssigned c → assigning (sh x) = true;
  inv_assigned : assigning (sh x) = true → ∃ i g c, gs x !! i = Some g ∧ at_ g = KAssigned c;
  inv_knows i g : gs x !! i = Some g → knows (clients (sh x)) g;
  inv_old : m0 ⊆ clients (sh x);
  inv_made i g c : gs x !! i = Some g → made (at_ g) = Some c → (endpoint g, c) ∈ dialled (sh x);
  inv_clients ep c : clients (sh x) !! ep = Some c → m0 !! ep = Some c ∨ (ep, c) ∈ dialled (sh x);
  inv_dialled ep c : (ep, c) ∈ dialled (sh x) → clients (sh x) !! ep = Some c ∨
    ∃ i g, gs x !! i = Some g ∧ endpoint g = ep ∧ made (at_ g) = Some c;
  inv_once : NoDup (dialled (sh x)).*1;
  inv_new ep c : (ep, c) ∈ dialled (sh x) → m0 !! ep = None;
}.
Lemma mgr_start m w : inv m (start m w).
Proof.
  split; simpl; try (intros *; rewrite lookup_nil); try done; [by left|set_solver|constructor|set_solver].
Qed.
Lemma inv_fresh m0 x g : inv m0 x → fresh g → inv m0 (Pool (sh x) (gs x ++ [g])).
Proof.
  intros [] Hg. unfold fresh in Hg.
  assert (Hl : ∀ i h, gs x !! i = Some h → (gs x ++ [g]) !! i = Some h) by (intros; by apply lookup_app_l_Some).
  split; simpl; try done.
  - intros i h [Hi| ->]%lookup_spawned; [eauto|by rewrite Hg].
  - naive_solver.
  - intros i h c [Hi| ->]%lookup_spawned; [eauto|by rewrite Hg].
  - naive_solver.
  - intros i h [Hi| ->]%lookup_spawned; [eauto|]. unfold knows. by rewrite Hg.
  - intros i h c [Hi| ->]%lookup_spawned; [eauto|by rewrite Hg].
  - intros ep c Hd. destruct (inv_dialled0 ep c Hd) as [?|(i & h & Hi & ?)]; [by left|right]. eauto.
Qed.
(** Two goroutines do not have the mutex. *)
Lemma alone m0 x i j g h : inv m0 x → gs x !! i = Some g → gs x !! j = Some h →
  inside (at_ g) = true → inside (at_ h) = true → i = j.
Proof. intros Hx Hi Hj Hg Hh. pose proof (inv_mtx _ _ Hx i g Hi Hg). pose proof (inv_mtx _ _ Hx j h Hj Hh). congruence. Qed.
Lemma made_inside (p : pc C R) c : made p = Some c → inside p = true.
Proof. by destruct p. Qed.

(** Goroutine [i] goes to [p]; what the others rely on stays. *)
Lemma inv_moved m0 x i g p s' : inv m0 x → gs x !! i = Some g →
  (mtx s' = Some i ↔ inside p = true) →
  (∀ j, j ≠ i → mtx s' = Some j ↔ mtx (sh x) = Some j) →
  (assigning s' = true ↔ (∃ c, p = KAssigned c) ∨
    ∃ j h c, j ≠ i ∧ gs x !! j = Some h ∧ at_ h = KAssigned c) →
  knows (clients s') (goto g p) →
  (∀ j h, j ≠ i → gs x !! j = Some h → knows (clients s') h) →
  clients (sh x) ⊆ clients s' → dialled (sh x) ⊆ dialled s' →
  (∀ c, made p = Some c → (endpoint g, c) ∈ dialled s') →
  (∀ ep c, clients s' !! ep = Some c → m0 !! ep = Some c ∨ (ep, c) ∈ dialled s') →
  (∀ ep c, (ep, c) ∈ dialled s' → clients s' !! ep = Some c ∨ (endpoint g = ep ∧ made p = Some c) ∨
    ∃ j h, j ≠ i ∧ gs x !! j = Some h ∧ endpoint h = ep ∧ made (at_ h) = Some c) →
  NoDup (dialled s').*1 → (∀ ep c, (ep, c) ∈ dialled s' → m0 !! ep = None) →
  inv m0 (Pool s' (<[i := goto g p]> (gs x))).
Proof.
  intros Hx Hi Hm Hmo Ha Hk Hko Hc Hd Hmade Hcl Hdi Hn Hnew.
  pose proof (lookup_self x i g (goto g p) Hi) as Hself.
  assert (Hother : ∀ j h, j ≠ i → gs x !! j = Some h → <[i := goto g p]> (gs x) !! j = Some h)
    by (intros; by rewrite list_lookup_insert_ne).
  split; simpl; try done.
  - intros j h [[-> ->]|[Hj Hh]]%(lookup_moved x i g); [by intros ?%Hm| |done].
    intros ?. apply Hmo; [done|]. by apply (inv_mtx _ _ Hx j h).
  - intros j Hj. destruct (decide (j = i)) as [->|Hne]; [exists (goto g p); split; [done|by apply Hm]|].
    apply Hmo, (inv_held _ _ Hx) in Hj as (h & Hh & ?); [|done]. exists h. split; [by apply Hother|done].
  - intros j h c [[-> ->]|[Hj Hh]]%(lookup_moved x i g); [| |done]; intros Hat; apply Ha; simpl in Hat; eauto 10.
  - intros [[c ->]|(j & h & c & Hj & Hh & Hat)]%Ha; [by exists i, (goto g (KAssigned c)), c|].
    exists j, h, c. split; [by apply Hother|done].
  - intros j h [[-> ->]|[Hj Hh]]%(lookup_moved x i g); [done|by eapply Hko|done].
  - etrans; [by apply inv_old|done].
  - intros j h c [[-> ->]|[Hj Hh]]%(lookup_moved x i g); [apply Hmade| |done].
    intros ?. apply Hd. by apply (inv_made _ _ Hx j).
  - intros ep c [?|[[? ?]|(j & h & Hj & Hh & ?)]]%Hdi; [by left|right..].
    + by exists i, (goto g p).
    + exists j, h. split; [by apply Hother|done].
Qed.
Lemma mtx_inside m0 x i g : inv m0 x → gs x !! i = Some g → mtx (sh x) = Some i ↔ inside (at_ g) = true.
Proof.
  intros Hx Hi. split; [|by apply (inv_mtx _ _ Hx)]. intros (h & Hh & ?)%(inv_held _ _ Hx). by simplify_eq.
Qed.
(** Who assigns, from goroutine [i]'s view. *)
Lemma assigning_iff m0 x i g : inv m0 x → gs x !! i = Some g →
  assigning (sh x) = true ↔ (∃ c, at_ g = KAssigned c) ∨
    ∃ j h c, j ≠ i ∧ gs x !! j = Some h ∧ at_ h = KAssigned c.
Proof.
  intros Hx Hi. split.
  - intros (j & h & c & Hj & Hat)%(inv_assigned _ _ Hx).
    destruct (decide (j = i)) as [->|Hne]; [left; exists c; by simplify_eq|right; by exists j, h, c].
  - intros [[c Hc]|(j & h & c & _ & Hj & Hat)]; by eapply (inv_assigning _ _ Hx).
Qed.
Lemma dialled_iff m0 x i g ep c : inv m0 x → gs x !! i = Some g → (ep, c) ∈ dialled (sh x) →
  clients (sh x) !! ep = Some c ∨ (endpoint g = ep ∧ made (at_ g) = Some c) ∨
    ∃ j h, j ≠ i ∧ gs x !! j = Some h ∧ endpoint h = ep ∧ made (at_ h) = Some c.
Proof.
  intros Hx Hi [?|(j & h & Hj & He & Hm)]%(inv_dialled _ _ Hx); [by left|right].
  destruct (decide (j = i)) as [->|Hne]; [left; by simplify_eq|right; by exists j, h].
Qed.
(** Steps that touch only the mutex and the net. *)
Lemma inv_quiet m0 x i g p m w : inv m0 x → gs x !! i = Some g →
  made (at_ g) = None → made p = None →
  (m = Some i ↔ inside p = true) → (∀ j, j ≠ i → m = Some j ↔ mtx (sh x) = Some j) →
  knows (clients (sh x)) (goto g p) →
  inv m0 (Pool (Manager (clients (sh x)) (assigning (sh x)) m w (dialled (sh x))) (<[i := goto g p]> (gs x))).
Proof.
  intros Hx Hi Hg Hp Hm Hmo Hk.
  apply (inv_moved m0 x i g p); simpl; try done.
  - rewrite (assigning_iff m0 x i g Hx Hi). split; (intros [[c Hc]|?]; [|by right]).
    + by rewrite Hc in Hg.
    + by rewrite Hc in Hp.
  - intros j h _. apply (inv_knows _ _ Hx).
  - intros c. by rewrite Hp.
  - apply (inv_clients _ _ Hx).
  - intros ep c [?|[[? Hc]|?]]%(dialled_iff m0 x i g ep c Hx Hi); [by left|by rewrite Hg in Hc|by right; right].
  - apply (inv_once _ _ Hx).
  - apply (inv_new _ _ Hx).
Qed.
(** The same, when the mutex stays with whom it is. *)
Lemma inv_silent m0 x i g p w : inv m0 x → gs x !! i = Some g →
  made (at_ g) = None → made p = None → inside p = inside (at_ g) →
  knows (clients (sh x)) (goto g p) →
  inv m0 (Pool (Manager (clients (sh x)) (assigning (sh x)) (mtx (sh x)) w (dialled (sh x)))
    (<[i := goto g p]> (gs x))).
Proof.
  intros Hx Hi Hg Hp Hin Hk. apply inv_quiet; try done. rewrite Hin. by eapply mtx_inside.
Qed.
Lemma map_read_inv {A} key s (k : option C → outcome A) a :
  map_read key s k = Done a → k (clients s !! key) = Done a.
Proof. unfold map_read. by destruct (assigning s). Qed.
Lemma eta s : s = Manager (clients s) (assigning s) (mtx s) (net s) (dialled s).
Proof. by destruct s. Qed.

(** The steps of the goroutine that makes a client. *)
Lemma inv_dial m0 x i g c w : inv m0 x → gs x !! i = Some g → at_ g = KDial →
  inv m0 (Pool (Manager (clients (sh x)) (assigning (sh x)) (mtx (sh x)) w (dialled (sh x) ++ [(endpoint g, c)]))
    (<[i := goto g (KAssign c)]> (gs x))).
Proof.
  intros Hx Hi Hat. pose proof (inv_knows _ _ Hx i g Hi) as Hk. unfold knows in Hk. rewrite Hat in Hk.
  pose proof (mtx_inside m0 x i g Hx Hi) as Hm. rewrite Hat in Hm.
  assert (Hnew : ∀ c', (endpoint g, c') ∉ dialled (sh x)).
  { intros c' [Hc|[[_ Hc]|(j & h & Hj & Hh & _ & Hc)]]%(dialled_iff m0 x i g _ c' Hx Hi).
    - by rewrite Hk in Hc.
    - by rewrite Hat in Hc.
    - apply Hj. apply (alone m0 x j i h g Hx Hh Hi); [by eapply made_inside|by rewrite Hat]. }
  apply (inv_moved m0 x i g (KAssign c)); simpl; try done.
  - rewrite (assigning_iff m0 x i g Hx Hi), Hat. naive_solver.
  - intros j h _. apply (inv_knows _ _ Hx).
  - set_solver.
  - intros c' [= <-]. set_solver.
  - intros ep c' [?|?]%(inv_clients _ _ Hx); [by left|right; set_solver].
  - intros ep c' [Hd|[= -> ->]%list_elem_of_singleton]%elem_of_app; [|by right; left].
    apply (dialled_iff m0 x i g _ c' Hx Hi) in Hd as [?|[[_ Hc]|?]]; [by left|by rewrite Hat in Hc|by right; right].
  - rewrite fmap_app. apply NoDup_app. split; [apply (inv_once _ _ Hx)|]. split; [|by apply NoDup_singleton].
    intros ep ([ep' c'] & -> & Hin)%list_elem_of_fmap Hs%list_elem_of_singleton. simpl in Hs. subst ep'.
    by eapply Hnew.
  - intros ep c' [Hd|[= -> ->]%list_elem_of_singleton]%elem_of_app; [by apply (inv_new _ _ Hx ep c')|].
    destruct (m0 !! endpoint g) as [c0|] eqn:H0; [|done].
    pose proof (lookup_weaken _ _ _ _ H0 (inv_old _ _ Hx)). congruence.
Qed.
Lemma inv_assign m0 x i g c : inv m0 x → gs x !! i = Some g → at_ g = KAssign c →
  inv m0 (Pool (Manager (clients (sh x)) true (mtx (sh x)) (net (sh x)) (dialled (sh x)))
    (<[i := goto g (KAssigned c)]> (gs x))).
Proof.
  intros Hx Hi Hat. pose proof (inv_knows _ _ Hx i g Hi) as Hk. unfold knows in Hk. rewrite Hat in Hk.
  pose proof (mtx_inside m0 x i g Hx Hi) as Hm. rewrite Hat in Hm.
  apply (inv_moved m0 x i g (KAssigned c)); simpl; try done.
  - split; [intros _; left; by exists c|done].
  - intros j h _. apply (inv_knows _ _ Hx).
  - intros c' [= <-]. apply (inv_made _ _ Hx i); [done|by rewrite Hat].
  - apply (inv_clients _ _ Hx).
  - intros ep c' Hd. apply (dialled_iff m0 x i g _ c' Hx Hi) in Hd. by rewrite Hat in Hd.
  - apply (inv_once _ _ Hx).
  - apply (inv_new _ _ Hx).
Qed.
Lemma inv_assign_ends m0 x i g c : inv m0 x → gs x !! i = Some g → at_ g = KAssigned c →
  inv m0 (Pool (Manager (<[endpoint g := c]> (clients (sh x))) false (mtx (sh x)) (net (sh x)) (dialled (sh x)))
    (<[i := goto g KUnlock]> (gs x))).
Proof.
  intros Hx Hi Hat. pose proof (inv_knows _ _ Hx i g Hi) as Hk. unfold knows in Hk. rewrite Hat in Hk.
  pose proof (mtx_inside m0 x i g Hx Hi) as Hm. rewrite Hat in Hm.
  apply (inv_moved m0 x i g KUnlock); simpl; try done.
  - split; [done|]. intros [[? ?]|(j & h & c' & Hj & Hh & Hc)]; [done|]. exfalso. apply Hj.
    apply (alone m0 x j i h g Hx Hh Hi); [by rewrite Hc|by rewrite Hat].
  - unfold knows. simpl. by rewrite lookup_insert_eq.
  - intros j h Hj Hh. pose proof (inv_knows _ _ Hx j h Hh) as Hkj. unfold knows in *.
    destruct (at_ h) as [| | | |c'|c'| | |c'|c' r'] eqn:Hath; try done.
    all: try (exfalso; apply Hj, (alone m0 x j i h g Hx Hh Hi); [by rewrite Hath|by rewrite Hat]).
    all: destruct (decide (endpoint h = endpoint g)) as [He|He];
      [rewrite He in *; rewrite Hk in Hkj; try done; by destruct Hkj|by rewrite lookup_insert_ne].
  - by apply insert_subseteq.
  - intros ep c' [[<- <-]|[_ Hc]]%lookup_insert_Some; [right|by apply (inv_clients _ _ Hx)].
    apply (inv_made _ _ Hx i); [done|by rewrite Hat].
  - intros ep c' Hd. apply (dialled_iff m0 x i g _ c' Hx Hi) in Hd as [Hc|[[<- Hc]|?]]; [| |by right; right].
    + left. rewrite lookup_insert_ne; [done|]. intros <-. by rewrite Hk in Hc.
    + rewrite Hat in Hc. injection Hc as <-. left. apply lookup_insert_eq.
  - apply (inv_once _ _ Hx).
  - apply (inv_new _ _ Hx).
Qed.

Lemma mgr_step m0 x i g g' s' : inv m0 x → gs x !! i = Some g →
  gstep i g (sh x) = Done (g', s') → inv m0 (Pool s' (<[i := g']> (gs x))).
Proof.
  intros Hx Hi. pose proof (inv_knows _ _ Hx i g Hi) as Hk. unfold knows in Hk.
  pose proof (mtx_inside m0 x i g Hx Hi) as Hm. unfold gstep, CliConc.gstep.
  destruct (at_ g) as [| | | |c|c| | |c|c r] eqn:Hat; simpl in Hk, Hm.
  - intros [= <- <-]%map_read_inv. rewrite (eta (sh x)) at 1.
    destruct (clients (sh x) !! endpoint g) eqn:He;
      (apply inv_silent; rewrite ?Hat; try done); unfold knows; simpl; by rewrite He.
  - destruct (mtx (sh x)) eqn:Hno; [done|]. intros [= <- <-].
    apply inv_quiet; rewrite ?Hat; try done. intros j Hj. rewrite Hno. naive_solver.
  - intros [= <- <-]%map_read_inv. rewrite (eta (sh x)) at 1.
    destruct (clients (sh x) !! endpoint g) eqn:He;
      (apply inv_silent; rewrite ?Hat; try done); unfold knows; simpl; by rewrite He.
  - destruct (newCli _ _) as [[c w]| |]; [|done|done]. intros [= <- <-]. by apply inv_dial.
  - destruct (assigning (sh x)); [done|]. intros [= <- <-]. by apply inv_assign.
  - intros [= <- <-]. by apply (inv_assign_ends m0 x i g c).
  - intros [= <- <-]. apply inv_quiet; rewrite ?Hat; try done.
    intros j Hj. split; [done|]. intros Hmj. exfalso. apply Hj. destruct Hm as [_ Hm]. rewrite Hm in Hmj by done. congruence.
  - intros Hr%map_read_inv. destruct (clients (sh x) !! endpoint g) eqn:He; [|done].
    injection Hr as <- <-. rewrite (eta (sh x)) at 1. apply inv_silent; rewrite ?Hat; done.
  - destruct (rpc _ _ _) as [r w]. intros [= <- <-]. apply inv_silent; rewrite ?Hat; done.
  - done.
Qed.
Lemma steps_inv m0 es x y : inv m0 x → Forall (event_ok fresh) es → steps gstep es x = Done y → inv m0 y.
Proof. apply steps_keep; [intros; by apply inv_fresh|intros; by eapply mgr_step]. Qed.
(** Clients stay. *)
Lemma gstep_grows m0 x i g g' s' : inv m0 x → gs x !! i = Some g → gstep i g (sh x) = Done (g', s') →
  clients (sh x) ⊆ clients s'.
Proof.
  intros Hx Hi. pose proof (inv_knows _ _ Hx i g Hi) as Hk. unfold knows in Hk.
  unfold gstep, CliConc.gstep, map_read. destruct (at_ g); simpl in Hk.
  all: try (repeat (case_match; simpl); try done; by intros [= <- <-]).
  - by destruct (newCli _ _) as [[c w]| |]; [intros [= <- <-]|..].
  - intros [= <- <-]. by apply insert_subseteq.
Qed.
Lemma steps_grow m0 es x y : inv m0 x → Forall (event_ok fresh) es → steps gstep es x = Done y →
  clients (sh x) ⊆ clients (sh y).
Proof.
  intros Hx Hes Hs. apply (steps_keep gstep fresh (λ z, inv m0 z ∧ clients (sh x) ⊆ clients (sh z))) in Hs;
    [by destruct Hs| | |done|done].
  - intros z g [Hz ?] Hg. split; [by apply inv_fresh|done].
  - intros z i g g' s' [Hz ?] Hi Hg. split; [by eapply mgr_step|]. etrans; [done|]. by eapply gstep_grows.
Qed.
(** What ends the process. *)
Lemma gstep_panics m0 x i g msg : inv m0 x → gs x !! i = Some g → gstep i g (sh x) = Panic msg →
  newCli (endpoint g) (net (sh x)) = Panic msg ∨
  msg = "concurrent map read and map write" ∧
    ∃ j h c, j ≠ i ∧ gs x !! j = Some h ∧ at_ h = KAssigned c.
Proof.
  intros Hx Hi. pose proof (inv_knows _ _ Hx i g Hi) as Hk. unfold knows in Hk.
  assert (Hr : ∀ {A} key (k : option C → outcome A), inside (at_ g) = false ∨ at_ g = KTestAgain →
    map_read key (sh x) k = Panic msg → k (clients (sh x) !! key) = Panic msg ∨
    msg = "concurrent map read and map write" ∧ ∃ j h c, j ≠ i ∧ gs x !! j = Some h ∧ at_ h = KAssigned c).
  { intros A key k Hat. unfold map_read. destruct (assigning (sh x)) eqn:Ha; [|by left]. intros [= <-]. right.
    split; [done|]. apply (assigning_iff m0 x i g Hx Hi) in Ha as [[c Hc]|?]; [|done].
    rewrite Hc in Hat. by destruct Hat. }
  unfold gstep, CliConc.gstep. destruct (at_ g) as [| | | |c|c| | |c|c r] eqn:Hat; simpl in Hk.
  - intros [?|?]%Hr; [done|by right|by left].
  - by destruct (mtx (sh x)).
  - intros [?|?]%Hr; [done|by right|by right].
  - destruct (newCli _ _) as [[c w]|m|]; [done|intros [= ->]; by left|done].
  - destruct (assigning (sh x)) eqn:Ha; [|done]. intros _. exfalso.
    apply (assigning_iff m0 x i g Hx Hi) in Ha as [[c' Hc]|(j & h & c' & Hj & Hh & Hc)]; [by rewrite Hat in Hc|].
    apply Hj. apply (alone m0 x j i h g Hx Hh Hi); [by rewrite Hc|by rewrite Hat].
  - done.
  - done.
  - intros [Hp|?]%Hr; [|by right|by left]. destruct Hk as [c Hc]. by rewrite Hc in Hp.
  - by destruct (rpc _ _ _).
  - done.
Qed.

(** *** Endpoints the manager knows *)
Definition known (m0 : gmap string C) g : Prop := fresh g ∧ is_Some (m0 !! endpoint g).
Record warm (m0 : gmap string C) x : Prop := {
  warm_clients : clients (sh x) = m0;
  warm_quiet : assigning (sh x) = false;
  warm_gs i g : gs x !! i = Some g → is_Some (m0 !! endpoint g) ∧
    match at_ g with KTest | KGet | KCall _ | KDone _ _ => True | _ => False end;
}.
Lemma warm_step m0 x e : warm m0 x → event_ok (known m0) e →
  (∃ y, step gstep e x = Done y ∧ warm m0 y) ∨ step gstep e x = Block.
Proof.
  intros [Hc Ha Hg] He. subst m0. destruct e as [g|i]; simpl in *.
  - left. eexists. split; [done|]. split; [done|done|]. intros i h [Hi| ->]%lookup_spawned; [by eapply Hg|].
    destruct He as [He ?]. by rewrite He.
  - destruct (gs x !! i) as [g|] eqn:Hi; [|by right]. destruct (Hg i g Hi) as [[c0 Hk] Hat].
    assert (Hw : ∀ p w, match p with KTest | KGet | KCall _ | KDone _ _ => True | _ => False end →
      warm (clients (sh x)) (Pool (Manager (clients (sh x)) (assigning (sh x)) (mtx (sh x)) w (dialled (sh x)))
        (<[i := goto g p]> (gs x)))).
    { intros p w Hp. split; [done|done|]. intros j h [[-> ->]|[_ Hj]]%(lookup_moved x i g); [by eauto|by eapply Hg|done]. }
    unfold gstep, CliConc.gstep, map_read. rewrite Ha, Hk.
    destruct (at_ g) as [| | | |c|c| | |c|c r]; try done; simpl.
    + left. eexists. split; [done|]. rewrite (eta (sh x)) at 2. by apply Hw.
    + left. eexists. split; [done|]. rewrite (eta (sh x)) at 2. by apply Hw.
    + left. destruct (rpc _ _ _) as [r w]. simpl. eexists. split; [done|]. rewrite <- Ha. by apply Hw.
    + by right.
Qed.
End facts.
End CliConcFacts.

(** ** Theorems *)
Module CliConcTheorems.
Import CliManager CliConc CliConcFacts.
Section theorems.
Context {C W Q R : Type}.
Variable newCli : string → W → outcome (C * W).
Variable rpc : C → Q → W → result R * W.
Implicit Types (g : goroutine C Q R) (x y : pool (goroutine C Q R) (manager C W)).
Abbreviation gstep := (gstep newCli rpc).

(** C29. The double check of [ensureCliExists] works.  In every state that any
    number of calls of a manager's methods reach, at most one client was made for
    an endpoint, and none for one that the manager had at the start; every call
    uses the client the manager has for its endpoint; clients are never replaced
    or removed later on.  A call ends the process only if dialling does, or if it
    reads the map while another call assigns to it. *)
Theorem one_client_per_endpoint m0 w es x :
  Forall (event_ok fresh) es → steps gstep es (start m0 w) = Done x →
  NoDup (dialled (sh x)).*1 ∧
  (∀ ep c, (ep, c) ∈ dialled (sh x) → m0 !! ep = None) ∧
  (∀ i g c, gs x !! i = Some g → used (at_ g) = Some c → clients (sh x) !! endpoint g = Some c) ∧
  (∀ es' y, Forall (event_ok fresh) es' → steps gstep es' x = Done y → clients (sh x) ⊆ clients (sh y)) ∧
  (∀ i g msg, gs x !! i = Some g → gstep i g (sh x) = Panic msg →
    newCli (endpoint g) (net (sh x)) = Panic msg ∨
    msg = "concurrent map read and map write" ∧
      ∃ j h c, j ≠ i ∧ gs x !! j = Some h ∧ at_ h = KAssigned c).
Proof.
  intros Hes Hs. apply (steps_inv newCli rpc m0 es) in Hs as Hx; [|apply mgr_start|done].
  split_and!; [apply (inv_once _ _ Hx)|apply (inv_new _ _ Hx)| | |].
  - intros i g c Hi Hu. pose proof (inv_knows _ _ Hx i g Hi) as Hk. unfold knows in Hk.
    by destruct (at_ g); simplify_eq/=.
  - intros es' y Hes' Hy. by eapply steps_grow.
  - intros i g msg Hi Hp. by eapply gstep_panics.
Qed.

(** C38. A new endpoint can end the process.  When the manager has no client for an
    endpoint, a call for it and any other call can be scheduled so that the second
    reads the map while the first assigns to it. *)
Theorem map_race_ends_process m0 w (ep ep' : string) (q q' : Q) c w' :
  m0 !! ep = None → newCli ep w = Done (c, w') →
  ∃ es, Forall (event_ok fresh) es ∧
    steps gstep es (start m0 w) = Panic "concurrent map read and map write".
Proof.
  intros Hm Hc. exists ([Spawn (Call ep q KTest); Spawn (Call ep' q' KTest)] ++ (Sched <$> [0; 0; 0; 0; 0; 1])).
  split; [by repeat constructor|]. simpl. unfold map_read. simpl. rewrite Hm. simpl. rewrite Hm. simpl.
  unfold goto, set_mtx. simpl.
  assert (gstep 0 (Call ep q KDial) (Manager m0 false (Some 0) w []) =
    Done (Call ep q (KAssign c), Manager m0 false (Some 0) w' [(ep, c)])) as ->; [|done].
  unfold gstep, CliConc.gstep. simpl. by rewrite Hc.
Qed.

(** Calls for endpoints that the manager knows are safe: whatever they are and
    however they are scheduled, nothing ends the process. *)
Theorem known_endpoints_are_safe m0 w es msg :
  Forall (event_ok (known m0)) es → steps gstep es (start m0 w) ≠ Panic msg.
Proof.
  assert (Hx : warm m0 (start (Q := Q) (R := R) m0 w)) by (split; simpl; [done|done|intros i g; by rewrite lookup_nil]).
  revert Hx. generalize (start (Q := Q) (R := R) m0 w). induction es as [|e es IH]; [done|].
  intros x Hx [He Hes]%Forall_cons. simpl.
  destruct (warm_step newCli rpc m0 x e Hx He) as [(y & -> & Hy)| ->]; [by apply IH|done].
Qed.
End theorems.

(** A call that finds the mutex free, and runs without interruption, does what
    the sequential method of the manager does. *)
Theorem alone_is_method {W Q R : Type} `{Grpc W} (newCli : string → W → outcome (conn * W))
    (rpc : conn → Q → W → result R * W) (x : pool (goroutine conn Q R) (manager conn W)) i ep q r m' w' :
  gs x !! i = Some (Call ep q KTest) → assigning (sh x) = false → mtx (sh x) = None →
  method newCli rpc ep q (clients (sh x)) (net (sh x)) = Done (r, m', w') →
  ∃ n s c, steps (gstep newCli rpc) (replicate n (Sched i)) x =
      Done (Pool s (<[i := Call ep q (KDone c r)]> (gs x))) ∧
    clients s = m' ∧ net s = w' ∧ mtx s = None ∧ assigning s = false.
Proof.
  destruct x as [[m a mt w d] l]. simpl. intros Hi -> -> Hm.
  assert (∃ s c, solo (gstep newCli rpc) i (Call ep q KTest, Manager m false None w d) (Call ep q (KDone c r), s) ∧
    clients s = m' ∧ net s = w' ∧ mtx s = None ∧ assigning s = false) as (s & c & Hsolo & Hs).
  { unfold method, ensureCliExists in Hm. destruct (m !! ep) as [c|] eqn:Hep; simpl in Hm.
    - rewrite Hep in Hm. destruct (rpc c q w) as [r1 w1] eqn:Hr. injection Hm as <- <- <-.
      exists (Manager m false None w1 d), c. split; [|by split_and!].
      eapply solo_step; [unfold gstep, map_read; simpl; by rewrite Hep|].
      eapply solo_step; [unfold gstep, map_read; simpl; by rewrite Hep|].
      eapply solo_step; [unfold gstep; simpl; by rewrite Hr|]. apply rtc_refl.
    - destruct (newCli ep w) as [[c w1]| |] eqn:Hc; [|done|done]. simpl in Hm. rewrite lookup_insert_eq in Hm.
      destruct (rpc c q w1) as [r1 w2] eqn:Hr. injection Hm as <- <- <-.
      exists (Manager (<[ep := c]> m) false None w2 (d ++ [(ep, c)])), c. split; [|by split_and!].
      eapply solo_step; [unfold gstep, map_read; simpl; by rewrite Hep|].
      eapply solo_step; [done|].
      eapply solo_step; [unfold gstep, map_read; simpl; by rewrite Hep|].
      eapply solo_step; [unfold gstep; simpl; by rewrite Hc|].
      do 3 (eapply solo_step; [done|]).
      eapply solo_step; [unfold gstep, map_read; simpl; by rewrite lookup_insert_eq|].
      eapply solo_step; [unfold gstep; simpl; by rewrite Hr|]. apply rtc_refl. }
  destruct (solo_steps _ i _ _ Hsolo (Pool (Manager m false None w d) l) Hi eq_refl) as [n Hn].
  exists n, s, c. by split.
Qed.

(** *** Witnesses: two servers, the number of connections as the net *)
Definition ex_dial (ep : string) (w : nat) : outcome (string * nat) := Done (ep, S w).
Definition ex_rpc (c : string) (q : nat) (w : nat) : result nat * nat := (Ok q, w).
(** Two calls for one endpoint test the map before either has made a client. *)
Definition ex_es : list (event (goroutine string nat nat)) :=
  [Spawn (Call "[::]:8083" 7 KTest); Spawn (Call "[::]:8083" 8 KTest)] ++
  (Sched <$> [0; 1; 0; 0; 0; 0; 0; 0; 1; 1; 1; 1; 1; 0; 0]).
Definition ex_end : pool (goroutine string nat nat) (manager string nat) :=
  match steps (gstep ex_dial ex_rpc) ex_es (start ∅ 0) with Done x => x | _ => start ∅ 0 end.
Lemma one_client_per_endpoint_witness :
  dialled (sh ex_end) = [("[::]:8083", "[::]:8083")] ∧ (at_ <$> gs ex_end) = [KDone "[::]:8083" (Ok 7); KDone "[::]:8083" (Ok 8)] ∧
  NoDup (dialled (sh ex_end)).*1.
Proof.
  split; [vm_compute; reflexivity|]. split; [vm_compute; reflexivity|].
  refine (proj1 (one_client_per_endpoint ex_dial ex_rpc ∅ 0 ex_es ex_end _ _)); [|vm_compute; reflexivity].
  unfold ex_es. repeat (apply Forall_cons; split; [done|]). by repeat constructor.
Defined.
Lemma map_race_ends_process_witness : ∃ es, Forall (event_ok fresh) es ∧
  steps (gstep ex_dial ex_rpc) es (start ∅ 0) = Panic "concurrent map read and map write".
Proof. by apply (map_race_ends_process ex_dial ex_rpc ∅ 0 "[::]:8083" "[::]:8084" 1 2 "[::]:8083" 1). Defined.
Lemma known_endpoints_are_safe_witness :
  steps (gstep ex_dial ex_rpc) ex_es (start {["[::]:8083" := "c"]} 0) ≠ Panic "concurrent map read and map write".
Proof.
  apply (known_endpoints_are_safe ex_dial ex_rpc). unfold ex_es.
  repeat (apply Forall_cons; split; [try done; split; [done|by eexists]|]). by repeat constructor.
Defined.
End CliConcTheorems.
