(* ===== verification/Dash.v ===== *)
(** * server/server.go: the dash server

    Module [Dash] is [DashServer] and the helpers it calls: it maps every user to
    a search server and keeps the map in etcd, with an index from servers to
    users; module [DashController] feeds the hash ring from the registry.
    [index_ok] is the invariant of the two maps. *)

From S2P Require Import Prelude GoStr Json JsonObj Crypto Etcd Elect HashRing EventCtl Proto Caches.

(** The keys, from cons/cons.go. *)
Definition ProxyRegistryPrefix : string := "/mysh/proxy/".
Definition ServerRegistryPrefix : string := "/mysh/server/".
Definition DashEpQueryFormat : string := "/mysh/dash/uid/%v/endpoint".
Definition DashUidsQueryFormat : string := "/mysh/dash/endpoint/%v/uids/%v".
Definition DashEpLock : string := "/mysh/dash/eplock".

(** The state of a dash process: the ring, the suspended users, the locks it
    holds, its clients, and the services. *)
Record dstate (W C : Type) := DS {
  hr : hashRing;
  pauses : gmap string bool;
  lockRecord : gmap string Z;
  scClientCache : gmap string C;
  pcClientCache : gmap string C;
  services : W;
}.
Arguments DS {W C} _ _ _ _ _ _.
Arguments hr {W C} _.
Arguments pauses {W C} _.
Arguments lockRecord {W C} _.
Arguments scClientCache {W C} _.
Arguments pcClientCache {W C} _.
Arguments services {W C} _.

(** [hr.GetNode]: one turn of the ring suffices, or it never ends. *)
Definition ring_GetNode (r : hashRing) (key : string) : outcome (result string) :=
  match HashRing.GetNode (Z.to_nat (slotNum r)) r key with Some x => Done x | None => Block end.

Module Dash.
Section dash.
Context {W : Type} `{EtcdClient W} `{Grpc W}.
(** How many times [Lock] is tried. *)
Variable fuel : nat.
Abbreviation D := (io (dstate W conn)).

Definition svc {A} (c : W → A * W) : D A := λ s,
  let '(a, w) := c (services s) in
  Done (a, DS (hr s) (pauses s) (lockRecord s) (scClientCache s) (pcClientCache s) w).
Definition set_pauses (f : gmap string bool → gmap string bool) : D unit := λ s,
  Done (tt, DS (hr s) (f (pauses s)) (lockRecord s) (scClientCache s) (pcClientCache s) (services s)).
Definition uidSuspend (uid : string) : D unit := set_pauses (λ m, Suspend.uidSuspend m uid).
Definition uidResume (uid : string) : D unit := set_pauses (λ m, Suspend.uidResume m uid).
(** Waits for ever, unless another call resumes the user. *)
Definition waitUid (uid : string) : D unit := λ s,
  match Suspend.waitUid [pauses s] uid with Some _ => Done (tt, s) | None => Block end.
Definition GetNode (key : string) : D (result string) := λ s,
  run x <- ring_GetNode (hr s) key ;; Done (x, s).
Definition AtomicMultiKVOp (lockId : string) (kvs : list Etcd.KV) : D (result unit) := λ s,
  match Etcd.AtomicMultiKVOp fuel lockId kvs (lockRecord s) (services s) with
  | None => Block
  | Some (r, rec, w) => Done (r, DS (hr s) (pauses s) rec (scClientCache s) (pcClientCache s) w)
  end.
(** A call through [scClientCache], and through [d.pcClientCache]. *)
Definition sc_call {Q R} (m : string → Q → gmap string conn → W → outcome (result R * gmap string conn * W))
    (endpoint : string) (q : Q) : D (result R) := λ s,
  run (r, cs, w) <- m endpoint q (scClientCache s) (services s) ;;
  Done (r, DS (hr s) (pauses s) (lockRecord s) cs (pcClientCache s) w).
Definition pc_call {Q R} (m : string → Q → gmap string conn → W → outcome (result R * gmap string conn * W))
    (endpoint : string) (q : Q) : D (result R) := λ s,
  run (r, cs, w) <- m endpoint q (pcClientCache s) (services s) ;;
  Done (r, DS (hr s) (pauses s) (lockRecord s) (scClientCache s) cs w).

Definition ep_key (uid : string) : string := GoStr.Sprintf DashEpQueryFormat [uid].
Definition uids_key (endpoint uid : string) : string := GoStr.Sprintf DashUidsQueryFormat [endpoint; uid].

Definition addEpInfo (uid endpoint : string) : D (result unit) :=
  AtomicMultiKVOp DashEpLock
    [Etcd.MkKV Etcd.OP_PUT (ep_key uid) endpoint;
     Etcd.MkKV Etcd.OP_PUT (uids_key endpoint uid) ""].
Definition updateEpInfo (uid oldEndpoint newEndpoint : string) : D (result unit) :=
  AtomicMultiKVOp DashEpLock
    [Etcd.MkKV Etcd.OP_PUT (ep_key uid) newEndpoint;
     Etcd.MkKV Etcd.OP_DEL (uids_key oldEndpoint uid) "";
     Etcd.MkKV Etcd.OP_PUT (uids_key newEndpoint uid) ""].
Definition allocEndpoint (uid : string) : D (result string) :=
  do n <- GetNode uid ;;
  match n with
  | Err e => mret (Err e)
  | Ok hashedEndpoint =>
    do r <- addEpInfo uid hashedEndpoint ;;
    match r with Err e => mret (Err e) | Ok _ => mret (Ok hashedEndpoint) end
  end.

(** [filepath.Rel] of every registered proxy. *)
Fixpoint proxy_eps (nodes : list string) : result (list string) :=
  match nodes with
  | [] => Ok []
  | pn :: nodes =>
    match GoStr.Rel ProxyRegistryPrefix pn with
    | Err e => Err e
    | Ok ep => match proxy_eps nodes with Err e => Err e | Ok eps => Ok (ep :: eps) end
    end
  end.
Fixpoint clean_proxies (eps : list string) (uid : string) : D (result unit) :=
  match eps with
  | [] => mret (Ok tt)
  | pe :: eps =>
    do r <- pc_call CliManager.pcm_CleanUidCache pe (MkCleanRequest uid) ;;
    match r with Err e => mret (Err e) | Ok _ => clean_proxies eps uid end
  end.
Definition cleanUidCache (uid : string) : D (result unit) :=
  if decide (uid = "") then mret (Err (Errorf "uid can't be empty"))
  else
    do _ <- uidSuspend uid ;;
    do r <- svc (Etcd.ListKeyByPrefix ProxyRegistryPrefix) ;;
    do e <- match r with
      | Err e => mret (Err e)
      | Ok proxyNodes =>
        match proxy_eps proxyNodes with
        | Err e => mret (Err e)
        | Ok proxyEps => clean_proxies proxyEps uid
        end
      end ;;
    do _ <- uidResume uid ;;
    mret e.
Fixpoint clean_all (uids : list string) : D (result unit) :=
  match uids with
  | [] => mret (Ok tt)
  | uid :: uids =>
    do r <- cleanUidCache uid ;;
    match r with Err e => mret (Err e) | Ok _ => clean_all uids end
  end.

(** The part of [UidEndpoint] between [uidSuspend] and the deferred
    [uidResume]. *)
Definition migrate (uid curEndpoint hashedEp : string) : D (reply CommonQueryResponse) :=
  do uids <- svc (Etcd.ListKeyByPrefix (GoStr.Sprintf DashUidsQueryFormat [curEndpoint])) ;;
  match uids with
  | Err e => mret (None, Some e)
  | Ok uids =>
    do r <- clean_all uids ;;
    match r with
    | Err e => mret (None, Some e)
    | Ok _ =>
      do _ <- sc_call CliManager.scm_UidLogout curEndpoint (MkUidLogoutRequest uid) ;;
      do e <- updateEpInfo uid curEndpoint hashedEp ;;
      mret (Some (MkCommonQueryResponse hashedEp), match e with Err e => Some e | Ok _ => None end)
    end
  end.
Definition serving (r : result HealthCheckResponse) : bool :=
  match r with Ok resp => bool_decide (hc_Status resp = SERVING) | Err _ => false end.

Definition UidEndpoint (uid : string) : D (reply CommonQueryResponse) :=
  do _ <- waitUid uid ;;
  do v <- svc (Etcd.GetKV (ep_key uid)) ;;
  match v with
  | Err e =>
    if decide (e = ErrEmptyValue) then
      do r <- allocEndpoint uid ;;
      match r with
      | Err e => mret (None, Some e)
      | Ok endpoint => mret (Some (MkCommonQueryResponse endpoint), None)
      end
    else mret (None, Some e)
  | Ok curEndpoint =>
    do n <- GetNode uid ;;
    match n with
    | Err e => mret (None, Some e)
    | Ok hashedEp =>
      if decide (hashedEp ≠ curEndpoint) then
        do resp <- sc_call CliManager.scm_Check hashedEp (MkHealthCheckRequest "") ;;
        if negb (serving resp) then mret (Some (MkCommonQueryResponse curEndpoint), None)
        else
          do _ <- uidSuspend uid ;;
          do a <- migrate uid curEndpoint hashedEp ;;
          do _ <- uidResume uid ;;
          mret a
      else mret (Some (MkCommonQueryResponse curEndpoint), None)
    end
  end.

(** The response is built before the error is looked at. *)
Definition ClientUid (req : string) : D (reply CommonQueryResponse) :=
  do v <- svc (Etcd.GetKV (GoStr.Sprintf "uid.%v" [req])) ;;
  mret (match v with
    | Ok v => (Some (MkCommonQueryResponse v), None)
    | Err e => (Some (MkCommonQueryResponse ""), Some e)
    end).
Definition UidState (req : string) : D (reply CommonQueryResponse) :=
  do v <- svc (Etcd.GetKV (GoStr.Sprintf "state.%v" [req])) ;;
  mret (match v with
    | Ok v => (Some (MkCommonQueryResponse v), None)
    | Err e => (Some (MkCommonQueryResponse ""), Some e)
    end).
(** [json.Unmarshal(vbytes, ss)] is given a slice, not a pointer: it always
    returns an error. *)
Definition UidClients (req : string) : D (reply CommonQueryListResponse) :=
  do v <- svc (Etcd.GetKV (GoStr.Sprintf "endpoint.%v" [req])) ;;
  match v with
  | Err e => mret (None, Some e)
  | Ok _ => mret (None, Some (Errorf "json: Unmarshal(non-pointer []string)"))
  end.

(** *** [Run]: the interceptor answers for every process but the leader *)
Definition intercept {R} (selfID : string) (handler : D (reply R)) : D (reply R) :=
  do isleader <- svc (Elect.IsLeader DashLeaderKey selfID) ;;
  match isleader with
  | Ok true => handler
  | _ => mret (None, Some ErrNotLeader)
  end.
End dash.
End Dash.

(** ** The ring follows the registry *)
Module DashController.
Import Sucker.
(** The callbacks of [NewDashController]; [fuel] bounds the probing. *)
Definition addFunc (fuel : nat) (kv : EtcdSuckerEventObj) (r : hashRing) : option hashRing :=
  match GoStr.Rel ServerRegistryPrefix (Key kv) with
  | Err _ => Some r
  | Ok node => snd <$> HashRing.AddNode fuel r node
  end.
Definition updateFunc (kv : EtcdSuckerEventObj) (r : hashRing) : hashRing := r.
Definition delFunc (kv : EtcdSuckerEventObj) (r : hashRing) : hashRing :=
  match GoStr.Rel ServerRegistryPrefix (Key kv) with
  | Err _ => r
  | Ok node => (HashRing.DelNode r node).2
  end.
Definition deal (fuel : nat) (e : Event EtcdSuckerEventObj) (r : hashRing) : option hashRing :=
  match OPType e with
  | op_add => addFunc fuel (Obj e) r
  | op_update => Some (updateFunc (Obj e) r)
  | op_del => Some (delFunc (Obj e) r)
  end.
(** The ring after the callbacks ran on these events, in this order. *)
Fixpoint deal_all (fuel : nat) (es : list (Event EtcdSuckerEventObj)) (r : hashRing)
    : option hashRing :=
  match es with [] => Some r | e :: es => r ← deal fuel e r; deal_all fuel es r end.

(** [init]: the ring [hr] of the process. *)
Definition init : outcome hashRing :=
  match HashRing.NewHashRing HashRingSlotNum HashRingVNodeNum with
  | Ok r => Done r
  | Err e => Panic (error_text e)
  end.
(** [NewDashController], given what etcd answers its sucker; the callbacks run on
    what [ec] handles. *)
Definition EtcdEndpoints : string := "localhost:2379".
Record DashController := MkDashController {
  sucker : EtcdSucker;
  ec : Ctl.Controller EtcdSuckerEventObj;
}.
Definition NewDashController (first : result (list EtcdSuckerEventObj)) (watch : list WatchEvent)
    : DashController :=
  MkDashController (NewEtcdSucker EtcdEndpoints ServerRegistryPrefix [EtcdSuckerWithRecursive])
    (Ctl.NewController (GetSucker first watch)).
End DashController.

(** ** The two maps in etcd *)
Module DashFacts.
Import Dash.

Lemma ep_key_eq uid : ep_key uid = "/mysh/dash/uid/" +:+ uid +:+ "/endpoint".
Proof. done. Qed.
Lemma uids_key_eq ep uid : uids_key ep uid = "/mysh/dash/endpoint/" +:+ ep +:+ "/uids/" +:+ uid.
Proof.
  unfold uids_key, DashUidsQueryFormat. simpl. unfold GoStr.extra_args.
  by rewrite GoStr.sapp_nil_r.
Qed.
Lemma ep_key_inj uid uid' : ep_key uid = ep_key uid' → uid = uid'.
Proof. rewrite !ep_key_eq. intros Heq%(inj (String.append _)). by apply GoStr.app_inj_r in Heq. Qed.
Lemma name_no_slash x : GoStr.name_ok x = true → GoStr.has_char GoStr.slash x = false.
Proof. intros Hx. apply GoStr.name_ok_spec in Hx. tauto. Qed.
Lemma uids_inj ep u ep' u' :
  GoStr.name_ok ep = true → GoStr.name_ok ep' = true →
  ep +:+ "/uids/" +:+ u = ep' +:+ "/uids/" +:+ u' → ep = ep' ∧ u = u'.
Proof.
  intros He He' Heq. assert (ep = ep') as ->.
  { apply (f_equal (λ s, head (GoStr.Split s GoStr.slash))) in Heq.
    change ("/uids/" +:+ u) with (String GoStr.slash ("uids/" +:+ u)) in Heq.
    change ("/uids/" +:+ u') with (String GoStr.slash ("uids/" +:+ u')) in Heq.
    rewrite !GoStr.Split_app in Heq by auto using name_no_slash. by injection Heq. }
  split; [done|]. apply (inj (String.append ep')) in Heq. by apply (inj (String.append "/uids/")).
Qed.
Lemma uids_key_inj ep u ep' u' :
  GoStr.name_ok ep = true → GoStr.name_ok ep' = true →
  uids_key ep u = uids_key ep' u' → ep = ep' ∧ u = u'.
Proof.
  intros He He'. rewrite !uids_key_eq. intros Heq%(inj (String.append _)). by apply uids_inj.
Qed.
Lemma ep_uids_ne uid ep u : ep_key uid ≠ uids_key ep u.
Proof. rewrite ep_key_eq, uids_key_eq. discriminate. Qed.
Lemma ep_lock_ne uid : ep_key uid ≠ DashEpLock.
Proof. rewrite ep_key_eq. discriminate. Qed.
Lemma uids_lock_ne ep uid : uids_key ep uid ≠ DashEpLock.
Proof. rewrite uids_key_eq. discriminate. Qed.

(** A user id that the program's formats keep apart. *)
Definition plain_uid (uid : string) : bool :=
  GoStr.name_ok uid && negb (GoStr.HasPrefix uid "%").

(** The map from users to servers, and its index, agree. *)
Definition endpoint_of (m : gmap string (string * Z)) (uid : string) : option string :=
  fst <$> m !! ep_key uid.
Record index_ok (m : gmap string (string * Z)) : Prop := {
  idx_agree uid ep : plain_uid uid = true → GoStr.name_ok ep = true →
    endpoint_of m uid = Some ep ↔ is_Some (m !! uids_key ep uid);
  idx_plain uid ep : plain_uid uid = true → endpoint_of m uid = Some ep → GoStr.name_ok ep = true;
  idx_keys k : is_Some (m !! k) → GoStr.HasPrefix k "/mysh/dash/endpoint/" = true →
    ∃ ep uid, GoStr.name_ok ep = true ∧ plain_uid uid = true ∧ k = uids_key ep uid;
}.

(** The map after a user got a server. *)
Definition moved (m : gmap string (string * Z)) (uid : string) (old : option string) (ep : string)
    : gmap string (string * Z) :=
  <[uids_key ep uid := ("", 0%Z)]>
    (match old with Some o => delete (uids_key o uid) | None => id end
       (<[ep_key uid := (ep, 0%Z)]> m)).

Lemma moved_endpoint m uid old ep uid' :
  endpoint_of (moved m uid old ep) uid' = if decide (uid' = uid) then Some ep else endpoint_of m uid'.
Proof.
  unfold endpoint_of, moved. rewrite lookup_insert_ne by (apply not_eq_sym, ep_uids_ne).
  assert (∀ o : string, delete (uids_key o uid) (<[ep_key uid := (ep, 0%Z)]> m) !! ep_key uid' =
    <[ep_key uid := (ep, 0%Z)]> m !! ep_key uid') as Hd.
  { intros o. rewrite lookup_delete_ne; [done|]. apply not_eq_sym, ep_uids_ne. }
  assert ((<[ep_key uid := (ep, 0%Z)]> m : gmap string (string * Z)) !! ep_key uid' =
    if decide (uid' = uid) then Some (ep, 0%Z) else m !! ep_key uid') as Hi.
  { rewrite lookup_insert. repeat case_decide; try done; subst; try done.
    by destruct (ep_key_inj _ _ ltac:(eassumption)). }
  destruct old as [o|]; [rewrite Hd|unfold id]; rewrite Hi; by case_decide.
Qed.
Lemma moved_index m uid ep : index_ok m → plain_uid uid = true → GoStr.name_ok ep = true →
  endpoint_of m uid ≠ Some ep → index_ok (moved m uid (endpoint_of m uid) ep).
Proof.
  intros [Ha Hp Hk] Huid Hep Hne.
  assert (Hn : ∀ u, plain_uid u = true → GoStr.name_ok u = true).
  { intros u Hu. unfold plain_uid in Hu. by bool_prop. }
  split.
  - intros uid' ep' Hu' He'. rewrite moved_endpoint. unfold moved.
    destruct (decide (uids_key ep' uid' = uids_key ep uid)) as [Heq|Hneq].
    + apply uids_key_inj in Heq as [-> ->]; [|done|done].
      rewrite lookup_insert_eq, decide_True by done. naive_solver.
    + rewrite lookup_insert_ne by done. destruct (decide (uid' = uid)) as [->|Huu].
      * assert (ep ≠ ep') by congruence. destruct (endpoint_of m uid) as [o|] eqn:Ho; unfold id.
        -- rewrite lookup_delete. case_decide as Hdel; [split; [congruence|by intros []]|].
           rewrite lookup_insert_ne by apply ep_uids_ne. rewrite <- Ha by done.
           split; [congruence|]. intros Hoo. exfalso. apply Hdel. rewrite Ho in Hoo.
           by injection Hoo as ->.
        -- rewrite lookup_insert_ne by apply ep_uids_ne. rewrite <- Ha, Ho by done.
           split; congruence.
      * rewrite (Ha uid' ep') by done.
        destruct (endpoint_of m uid) as [o|] eqn:Ho; unfold id.
        -- rewrite lookup_delete_ne; [by rewrite lookup_insert_ne by apply ep_uids_ne|].
           intros Heq. apply uids_key_inj in Heq as [_ <-]; [done| |done]. by apply (Hp uid).
        -- by rewrite lookup_insert_ne by apply ep_uids_ne.
  - intros uid' ep' Hu'. rewrite moved_endpoint. case_decide; [by intros [= <-]|by apply Hp].
  - intros k Hsome Hpre. destruct (decide (k = uids_key ep uid)) as [->|Hke]; [by exists ep, uid|].
    unfold moved in Hsome. rewrite lookup_insert_ne in Hsome by done.
    assert (k ≠ ep_key uid) as Hkk.
    { intros ->. rewrite ep_key_eq in Hpre. done. }
    destruct (endpoint_of m uid) as [o|]; unfold id in Hsome.
    + rewrite lookup_delete in Hsome. case_decide; [by destruct Hsome|].
      rewrite lookup_insert_ne in Hsome by done. by apply Hk.
    + rewrite lookup_insert_ne in Hsome by done. by apply Hk.
Qed.

(** The prefix [UidEndpoint] lists: the format lacks an argument. *)
Lemma missing_prefix ep :
  GoStr.Sprintf DashUidsQueryFormat [ep] = "/mysh/dash/endpoint/" +:+ ep +:+ "/uids/" +:+ "%!v(MISSING)".
Proof. done. Qed.
Lemma missing_matches_none m ep k : index_ok m → GoStr.name_ok ep = true → is_Some (m !! k) →
  GoStr.HasPrefix k (GoStr.Sprintf DashUidsQueryFormat [ep]) = false.
Proof.
  intros Hm Hep Hk. apply not_true_iff_false. intros Hpre. rewrite missing_prefix in Hpre.
  apply GoStr.HasPrefix_spec in Hpre as [rest ->].
  destruct (idx_keys m Hm _ Hk) as (ep' & uid & He' & Hu & Heq).
  { rewrite GoStr.sapp_assoc. apply GoStr.HasPrefix_app. }
  rewrite uids_key_eq in Heq. rewrite !GoStr.sapp_assoc in Heq. apply (inj (String.append _)) in Heq.
  apply uids_inj in Heq as [_ <-]; [|done|done].
  unfold plain_uid in Hu. bool_prop. done.
Qed.

(** *** The services around the dash server

    A call of a search server leaves etcd answering and the keys of the dash
    alone; dialling without transport security succeeds.  [ds_good] is what the
    services need to hold all the time; [ds_released a uid]: the server at [a]
    keeps nothing of the user, which [UidLogout] brings about, and which the
    server of a user must have done before the map names another one. *)
Definition dash_key (k : string) : Prop := GoStr.HasPrefix k "/mysh/dash/" = true.
Definition same {W} `{EtcdLaws W} (w w' : W) : Prop :=
  healthy w' ∧ ∀ k, dash_key k → kvs w' !! k = kvs w !! k.
Class DashServices (W : Type) `{EtcdLaws W} `{Grpc W} := {
  ds_good : W → Prop;
  ds_released : string → string → W → Prop;
  ds_conn : string → conn → Prop;
  ds_Sleep (w : W) : cli_Sleep w = w;
  ds_Dial a (w : W) : healthy w → ds_good w →
    ∃ c w', DialInsecure a w = (Ok c, w') ∧ same w w' ∧ ds_good w' ∧ ds_conn a c;
  ds_Check a c q (w : W) : ds_conn a c → healthy w → ds_good w →
    same w (rpc_Check c q w).2 ∧ ds_good (rpc_Check c q w).2;
  ds_UidLogout a c q (w : W) : ds_conn a c → healthy w → ds_good w →
    same w (rpc_UidLogout c q w).2 ∧ ds_good (rpc_UidLogout c q w).2 ∧
    ds_released a (ul_Uid q) (rpc_UidLogout c q w).2;
  ds_GetKV k (w : W) : healthy w → ds_good w → ds_good (Etcd.GetKV k w).2;
  ds_List p (w : W) : healthy w → ds_good w → ds_good (Etcd.ListKeyByPrefix p w).2;
  ds_record fuel lockId kvl rec (w : W) r rec' w' uid ep : healthy w → ds_good w →
    Etcd.AtomicMultiKVOp fuel lockId kvl rec w = Some (r, rec', w') → healthy w' →
    kvs w' = moved (kvs w) uid (endpoint_of (kvs w) uid) ep →
    (∀ old, endpoint_of (kvs w) uid = Some old → ds_released old uid w) → ds_good w';
}.

Lemma ep_dash uid : dash_key (ep_key uid).
Proof.
  unfold dash_key. rewrite ep_key_eq.
  apply (GoStr.HasPrefix_app "/mysh/dash/" ("uid/" +:+ uid +:+ "/endpoint")).
Qed.
Lemma uids_dash ep uid : dash_key (uids_key ep uid).
Proof.
  unfold dash_key. rewrite uids_key_eq.
  apply (GoStr.HasPrefix_app "/mysh/dash/" ("endpoint/" +:+ ep +:+ "/uids/" +:+ uid)).
Qed.
Lemma endpoint_dash k : GoStr.HasPrefix k "/mysh/dash/endpoint/" = true → dash_key k.
Proof.
  intros [r ->]%GoStr.HasPrefix_spec. unfold dash_key.
  apply (GoStr.HasPrefix_app "/mysh/dash/" ("endpoint/" +:+ r)).
Qed.
Lemma endpoint_of_same m m' uid : (∀ k, dash_key k → m' !! k = m !! k) →
  endpoint_of m' uid = endpoint_of m uid.
Proof. intros Hs. unfold endpoint_of. by rewrite Hs by apply ep_dash. Qed.
Lemma index_same m m' : (∀ k, dash_key k → m' !! k = m !! k) → index_ok m → index_ok m'.
Proof.
  intros Hs [Ha Hp Hk]. split.
  - intros uid ep Hu He. rewrite (endpoint_of_same m m') by done.
    rewrite Hs by apply uids_dash. by apply Ha.
  - intros uid ep. rewrite (endpoint_of_same m m') by done. by apply Hp.
  - intros k Hsome Hpre. apply Hk; [|done]. by rewrite <- Hs by by apply endpoint_dash.
Qed.

(** The dash's keys outside the two maps, as that of the leader. *)
Definition unmapped (k : string) : Prop :=
  dash_key k ∧ (∀ u, k ≠ ep_key u) ∧ ∀ e u, k ≠ uids_key e u.
Lemma moved_unmapped m uid old ep k : unmapped k → moved m uid old ep !! k = m !! k.
Proof.
  intros (_ & He & Hu). unfold moved. rewrite lookup_insert_ne by done.
  destruct old as [o|]; unfold id; [rewrite lookup_delete_ne by done|]; by rewrite lookup_insert_ne by done.
Qed.
Lemma leader_unmapped : unmapped DashLeaderKey.
Proof.
  split; [by vm_compute|]. split; [intros u; rewrite ep_key_eq|intros e u; rewrite uids_key_eq]; discriminate.
Qed.

Section facts.
Context {W : Type} `{DashServices W}.
Variable fuel : nat.
Implicit Types s : dstate W conn.

(** The invariant of a dash process. *)
Record dash_ok s : Prop := {
  do_healthy : healthy (services s);
  do_lock : kvs (services s) !! DashEpLock = None;
  do_index : index_ok (kvs (services s));
  do_ring : RingFacts.ok (hr s);
  do_nodes : addedNode (hr s) ≠ ∅;
  do_plain a : a ∈ addedNode (hr s) → GoStr.name_ok a = true;
  do_vnodes : (0 < vNodeNum (hr s))%Z;
  do_good : ds_good (services s);
  do_conns ep c : scClientCache s !! ep = Some c → ds_conn ep c;
}.

Lemma moved_lock m uid old ep : moved m uid old ep !! DashEpLock = m !! DashEpLock.
Proof.
  unfold moved. rewrite lookup_insert_ne by apply uids_lock_ne.
  destruct old as [o|]; unfold id; [rewrite lookup_delete_ne by apply uids_lock_ne|];
    by rewrite lookup_insert_ne by apply ep_lock_ne.
Qed.

Lemma atomic_ok s kvl : healthy (services s) → kvs (services s) !! DashEpLock = None →
  Forall (λ kv, Etcd.Key kv ≠ DashEpLock) kvl →
  ∃ rec' w', Dash.AtomicMultiKVOp (S fuel) DashEpLock kvl s =
      Done (Ok tt, DS (hr s) (pauses s) rec' (scClientCache s) (pcClientCache s) w') ∧
    healthy w' ∧ kvs w' = foldl apply_op (kvs (services s)) (omap Etcd.etcd_op_of kvl) ∧
    Etcd.AtomicMultiKVOp (S fuel) DashEpLock kvl (lockRecord s) (services s) = Some (Ok tt, rec', w').
Proof.
  intros Hh Hl Hk. unfold Dash.AtomicMultiKVOp.
  destruct (EtcdFacts.AtomicMultiKVOp_spec fuel DashEpLock kvl (lockRecord s) (services s) Hh)
    as (rec' & w' & He & Hkv & _ & _ & Hh'); [apply ds_Sleep|done|done|].
  exists rec', w'. by rewrite He.
Qed.

(** A call on a search server. *)
Definition conns_ok (m : gmap string conn) : Prop := ∀ ep c, m !! ep = Some c → ds_conn ep c.
Lemma method_ok {Q R} (rpc : conn → Q → W → result R * W) (P : W → Prop) ep q m (w : W) :
  (∀ c w, ds_conn ep c → healthy w → ds_good w →
     same w (rpc c q w).2 ∧ ds_good (rpc c q w).2 ∧ P (rpc c q w).2) →
  conns_ok m → healthy w → ds_good w →
  ∃ r m' w', CliManager.method CliManager.newSCServerCli rpc ep q m w = Done (r, m', w') ∧
    same w w' ∧ ds_good w' ∧ conns_ok m' ∧ P w'.
Proof.
  intros Hrpc Hm Hw Hg. unfold CliManager.method, CliManager.ensureCliExists.
  destruct (m !! ep) as [c|] eqn:Hc.
  - simpl. rewrite Hc. pose proof (Hrpc c w (Hm _ _ Hc) Hw Hg) as Hs. destruct (rpc c q w) as [r w'].
    destruct Hs as (? & ? & ?). exists r, m, w'. by split_and!.
  - unfold CliManager.newSCServerCli, CliManager.dial_or_panic.
    destruct (ds_Dial ep w Hw Hg) as (c & w1 & -> & [Hw1 Hs1] & Hg1 & Hc1). simpl.
    rewrite lookup_insert_eq.
    pose proof (Hrpc c w1 Hc1 Hw1 Hg1) as [[Hw2 Hs2] [Hg2 HP]]. destruct (rpc c q w1) as [r w2].
    simpl in *. do 3 eexists. split; [done|]. split; [|split_and!; [done| |done]].
    + split; [done|]. intros k Hk. by rewrite Hs2, Hs1.
    + intros ep' c' [[<- <-]|[_ ?]]%lookup_insert_Some; [done|by apply Hm].
Qed.

Lemma list_none p (w : W) : healthy w → ds_good w →
  (∀ k, is_Some (kvs w !! k) → GoStr.HasPrefix k p = false) →
  ∃ w', Etcd.ListKeyByPrefix p w = (Ok [], w') ∧ same w w' ∧ ds_good w'.
Proof.
  intros Hw Hg Hno. pose proof (ds_List p w Hw Hg) as Hg'. revert Hg'. unfold Etcd.ListKeyByPrefix. pose proof (law_GetPrefix p w) as L.
  destruct (cli_GetPrefix p w) as [r w']. destruct L as (_ & Hk & Hl & Hok).
  destruct (Hok Hw) as [Hw' Hr]. destruct r as [l|]; [|done]. intros Hg'. exists w'.
  destruct (Hl l eq_refl) as [_ Hin]. destruct l as [|[k v] l].
  - split; [done|]. split; [|done]. split; [done|]. by rewrite Hk.
  - destruct (proj1 (Hin k v)) as [Hpre [lease Hkv]]; [set_solver|].
    rewrite Hno in Hpre; [done|]. by rewrite Hkv.
Qed.

Lemma ring_node s uid : dash_ok s → plain_uid uid = true →
  ∃ node, ring_GetNode (hr s) uid = Done (Ok node) ∧ GoStr.name_ok node = true.
Proof.
  intros Hs Hu. assert (uid ≠ "") as Hne by (by intros ->).
  destruct (RingTheorems.GetNode_owner (hr s) uid) as (v & Hg & Hin);
    [apply Hs|done|apply Hs|apply Hs|].
  exists (addr v). unfold ring_GetNode. rewrite Hg. split; [done|]. by apply (do_plain s Hs).
Qed.

(** What is left of the invariant when only the services changed. *)
Lemma dash_services s rec sc pc p w : dash_ok s → healthy w →
  index_ok (kvs w) → kvs w !! DashEpLock = None → ds_good w → conns_ok sc →
  dash_ok (DS (hr s) p rec sc pc w).
Proof. intros [] ?????. by split. Qed.
Lemma dash_same s w : dash_ok s → same (services s) w →
  healthy w ∧ index_ok (kvs w) ∧ kvs w !! DashEpLock = None.
Proof.
  intros Hs [Hw Hk]. split; [done|]. split; [by eapply index_same, do_index|].
  rewrite Hk; [apply Hs|done].
Qed.

(** Recording a server for a user. *)
Lemma record_ok s uid ep : dash_ok s → plain_uid uid = true → GoStr.name_ok ep = true →
  endpoint_of (kvs (services s)) uid ≠ Some ep →
  (∀ old, endpoint_of (kvs (services s)) uid = Some old → ds_released old uid (services s)) →
  ∃ rec w,
    (match endpoint_of (kvs (services s)) uid with
     | None => Dash.addEpInfo (S fuel) uid ep
     | Some old => Dash.updateEpInfo (S fuel) uid old ep
     end) s = Done (Ok tt, DS (hr s) (pauses s) rec (scClientCache s) (pcClientCache s) w) ∧
    healthy w ∧ kvs w = moved (kvs (services s)) uid (endpoint_of (kvs (services s)) uid) ep ∧
    ds_good w.
Proof.
  intros Hs Hu He Hne Hrel. pose proof (do_good s Hs) as Hg. pose proof (do_healthy s Hs) as Hh. unfold Dash.addEpInfo, Dash.updateEpInfo.
  destruct (endpoint_of (kvs (services s)) uid) as [old|] eqn:Ho.
  - destruct (atomic_ok s
      [Etcd.MkKV Etcd.OP_PUT (ep_key uid) ep; Etcd.MkKV Etcd.OP_DEL (uids_key old uid) "";
       Etcd.MkKV Etcd.OP_PUT (uids_key ep uid) ""]) as (rec & w & Ha & Hw & Hk & Hat); [apply Hs|apply Hs| |].
    + repeat constructor; simpl; apply ep_lock_ne || apply uids_lock_ne.
    + exists rec, w. split; [done|]. split; [done|]. split; [done|].
      eapply (ds_record _ _ _ _ _ _ _ _ uid ep Hh Hg Hat Hw); rewrite Ho; [exact Hk|exact Hrel].
  - destruct (atomic_ok s
      [Etcd.MkKV Etcd.OP_PUT (ep_key uid) ep; Etcd.MkKV Etcd.OP_PUT (uids_key ep uid) ""])
      as (rec & w & Ha & Hw & Hk & Hat); [apply Hs|apply Hs| |].
    + repeat constructor; simpl; apply ep_lock_ne || apply uids_lock_ne.
    + exists rec, w. split; [done|]. split; [done|]. split; [done|].
      eapply (ds_record _ _ _ _ _ _ _ _ uid ep Hh Hg Hat Hw); rewrite Ho; [exact Hk|exact Hrel].
Qed.

(** The answer of [UidEndpoint] and what it leaves behind. *)
Record answered s uid (ep : string) s' : Prop := {
  an_ok : dash_ok s';
  an_endpoint uid' : endpoint_of (kvs (services s')) uid' =
    if decide (uid' = uid) then Some ep else endpoint_of (kvs (services s)) uid';
  an_proxies : pcClientCache s' = pcClientCache s;
  an_ring : hr s' = hr s;
  an_pauses : pauses s' = pauses s ∨ pauses s' = delete uid (pauses s);
  an_unmapped k : unmapped k → kvs (services s') !! k = kvs (services s) !! k;
}.

Lemma wait_free s uid : Suspend.uidSuspensive (pauses s) uid = false → Dash.waitUid uid s = Done (tt, s).
Proof. intros Hp. unfold Dash.waitUid. simpl. by rewrite Hp. Qed.

Lemma migrate_ok s uid cur node : dash_ok s → plain_uid uid = true → GoStr.name_ok node = true →
  endpoint_of (kvs (services s)) uid = Some cur → node ≠ cur →
  ∃ s', Dash.migrate (S fuel) uid cur node s =
      Done ((Some (MkCommonQueryResponse node), None), s') ∧ dash_ok s' ∧
    (∀ uid', endpoint_of (kvs (services s')) uid' =
      if decide (uid' = uid) then Some node else endpoint_of (kvs (services s)) uid') ∧
    pcClientCache s' = pcClientCache s ∧ hr s' = hr s ∧ pauses s' = pauses s ∧
    ∀ k, unmapped k → kvs (services s') !! k = kvs (services s) !! k.
Proof.
  intros Hs Hu Hn Hc Hne. unfold Dash.migrate.
  destruct (list_none (GoStr.Sprintf DashUidsQueryFormat [cur]) (services s)) as (w1 & Hl & Hw1 & Hg1);
    [apply Hs|apply Hs| |].
  { intros k Hk. eapply missing_matches_none; [apply Hs| |done]. by eapply (idx_plain _ (do_index s Hs)). }
  set (s1 := DS (hr s) (pauses s) (lockRecord s) (scClientCache s) (pcClientCache s) w1).
  rewrite (io_bind_Done _ _ _ (Ok []) s1) by (unfold Dash.svc; by rewrite Hl).
  cbn [Dash.clean_all]. rewrite (io_bind_Done _ _ _ (Ok tt) s1) by done.
  destruct (method_ok rpc_UidLogout (ds_released cur uid) cur (MkUidLogoutRequest uid) (scClientCache s) w1)
    as (r & m & w2 & Hm & Hw2 & Hg2 & Hm2 & Hrel);
    [intros c w; apply (ds_UidLogout cur c (MkUidLogoutRequest uid))|exact (do_conns s Hs)|apply Hw1|done|].
  set (s2 := DS (hr s) (pauses s) (lockRecord s) m (pcClientCache s) w2).
  rewrite (io_bind_Done _ _ _ r s2)
    by (unfold Dash.sc_call, CliManager.scm_UidLogout; simpl; by rewrite Hm).
  assert (Hsame : same (services s) w2).
  { destruct Hw1 as [? Hk1], Hw2 as [? Hk2]. split; [done|]. intros k Hk. by rewrite Hk2, Hk1. }
  assert (Hs2 : dash_ok s2).
  { destruct (dash_same _ _ Hs Hsame) as (? & ? & ?). by apply dash_services. }
  assert (Hep2 : ∀ u, endpoint_of (kvs (services s2)) u = endpoint_of (kvs (services s)) u).
  { intros u. apply endpoint_of_same, Hsame. }
  destruct (record_ok s2 uid node Hs2 Hu Hn) as (rec & w3 & Hup & Hw3 & Hk3 & Hg3);
    [rewrite Hep2; congruence|rewrite Hep2, Hc; by intros old [= <-]|].
  rewrite Hep2, Hc in Hup, Hk3. rewrite (io_bind_Done _ _ _ _ _ Hup).
  eexists. split; [done|]. split.
  - apply (dash_services s2); [done|done| | |done|done].
    + rewrite Hk3, <- Hc, <- Hep2. apply moved_index; [apply Hs2|done|done|]. rewrite Hep2. congruence.
    + rewrite Hk3, moved_lock. apply Hs2.
  - split; [|do 3 (split; [done|])].
    + intros u. simpl. rewrite Hk3, moved_endpoint. case_decide; [done|]. apply Hep2.
    + intros k Hk. simpl. rewrite Hk3, moved_unmapped by done. apply Hsame, Hk.
Qed.

(** *** [UidEndpoint], case by case

    What a read of the user's key answers, and the state it leaves. *)
Definition read_state s (w : W) : dstate W conn :=
  DS (hr s) (pauses s) (lockRecord s) (scClientCache s) (pcClientCache s) w.
Lemma read_ok s uid : dash_ok s →
  ∃ w, Dash.svc (Etcd.GetKV (ep_key uid)) s =
      Done (match endpoint_of (kvs (services s)) uid with Some cur => Ok cur | None => Err ErrEmptyValue end,
            read_state s w) ∧
    dash_ok (read_state s w) ∧ kvs w = kvs (services s).
Proof.
  intros Hs. destruct (EtcdFacts.GetKV_healthy (ep_key uid) (services s)) as (w & Hget & Hw & Hk & _); [apply Hs|].
  exists w. pose proof (ds_GetKV (ep_key uid) (services s) (do_healthy s Hs) (do_good s Hs)) as Hg.
  rewrite Hget in Hg. split; [|split; [|done]].
  - unfold Dash.svc, endpoint_of. rewrite Hget. by destruct (kvs (services s) !! ep_key uid) as [[cur l]|].
  - apply dash_services; rewrite ?Hk; [done|done|apply Hs|apply Hs|done|exact (do_conns s Hs)].
Qed.
Lemma node_eq s s1 uid node : ring_GetNode (hr s) uid = Done (Ok node) → hr s1 = hr s →
  Dash.GetNode uid s1 = Done (Ok node, s1).
Proof. intros Hnode Hr. unfold Dash.GetNode. by rewrite Hr, Hnode. Qed.

(** A new user. *)
Lemma alloc_ok s uid node : dash_ok s → plain_uid uid = true → GoStr.name_ok node = true →
  ring_GetNode (hr s) uid = Done (Ok node) → endpoint_of (kvs (services s)) uid = None →
  ∃ s', Dash.allocEndpoint (S fuel) uid s = Done (Ok node, s') ∧ answered s uid node s'.
Proof.
  intros Hs Hu Hplain Hnode Hnew.
  destruct (record_ok s uid node Hs Hu Hplain) as (rec & w & Hadd & Hw & Hk & Hg);
    [by rewrite Hnew|by rewrite Hnew|]. rewrite Hnew in Hadd, Hk.
  eexists. split.
  - unfold Dash.allocEndpoint. rewrite (io_bind_Done _ _ _ _ _ (node_eq s s uid node Hnode eq_refl)).
    by rewrite (io_bind_Done _ _ _ _ _ Hadd).
  - split; simpl; [| |done|done|by left|].
    + apply (dash_services s); [done|done| | |done|exact (do_conns s Hs)].
      * rewrite Hk. pose proof (moved_index (kvs (services s)) uid node) as Hmi. rewrite Hnew in Hmi.
        by apply Hmi; [apply Hs|..].
      * rewrite Hk, moved_lock. apply Hs.
    + intros u. by rewrite Hk, moved_endpoint.
    + intros k Hun. by rewrite Hk, moved_unmapped.
Qed.
(** A user whom the ring wants elsewhere: the other server is asked first. *)
Definition ask_and_move (uid cur node : string) : io (dstate W conn) (reply CommonQueryResponse) :=
  do resp <- Dash.sc_call CliManager.scm_Check node (MkHealthCheckRequest "") ;;
  if negb (Dash.serving resp) then mret (Some (MkCommonQueryResponse cur), None)
  else
    do _ <- Dash.uidSuspend uid ;;
    do a <- Dash.migrate (S fuel) uid cur node ;;
    do _ <- Dash.uidResume uid ;;
    mret a.
Lemma move_ok s uid cur node : dash_ok s → plain_uid uid = true → GoStr.name_ok node = true →
  endpoint_of (kvs (services s)) uid = Some cur → node ≠ cur →
  ∃ ep s', ask_and_move uid cur node s = Done ((Some (MkCommonQueryResponse ep), None), s') ∧
    answered s uid ep s' ∧ (ep = node ∨ ep = cur).
Proof.
  intros Hs Hu Hplain Hcur Hne.
  destruct (method_ok rpc_Check (λ _, True) node (MkHealthCheckRequest "") (scClientCache s) (services s))
    as (r & m & w2 & Hm & Hw2 & Hg2 & Hm2 & _); [|exact (do_conns s Hs)|apply Hs|apply Hs|].
  { intros c w Hc Hw Hg. by destruct (ds_Check node c (MkHealthCheckRequest "") w Hc Hw Hg). }
  set (s2 := λ p, DS (hr s) p (lockRecord s) m (pcClientCache s) w2).
  unfold ask_and_move. rewrite (io_bind_Done _ _ _ r (s2 (pauses s)))
    by (unfold Dash.sc_call, CliManager.scm_Check; simpl; by rewrite Hm).
  destruct (dash_same s w2 Hs Hw2) as (? & ? & ?).
  assert (Hs2 : ∀ p, dash_ok (s2 p)) by (intros p; by apply (dash_services s)).
  assert (Hep2 : ∀ u, endpoint_of (kvs w2) u = endpoint_of (kvs (services s)) u)
    by (intros u; apply endpoint_of_same, Hw2).
  assert (Hun2 : ∀ k, unmapped k → kvs w2 !! k = kvs (services s) !! k)
    by (intros k [Hk _]; by apply Hw2).
  destruct (Dash.serving r); [change (negb true) with false|change (negb false) with true]; cbv iota.
  - set (s3 := s2 (Suspend.uidSuspend (pauses s) uid)).
    rewrite (io_bind_Done _ _ _ tt s3) by done.
    destruct (migrate_ok s3 uid cur node (Hs2 _) Hu Hplain) as (s4 & Hmig & Hs4 & Hep4 & Hpc4 & Hhr4 & Hpa4 & Hun4);
      [by rewrite <- Hcur; apply Hep2|done|].
    rewrite (io_bind_Done _ _ _ _ _ Hmig). simpl. eexists node, _. split; [done|]. split; [|by left].
    split; simpl; [by destruct Hs4; split|intros u; rewrite Hep4; case_decide; [done|apply Hep2]|done|done|..].
    + right. rewrite Hpa4. simpl. unfold Suspend.uidResume, Suspend.uidSuspend. by rewrite delete_insert_eq.
    + intros k Hk. rewrite Hun4 by done. by apply Hun2.
  - exists cur, (s2 (pauses s)). split; [done|]. split; [|by right].
    split; simpl; [apply Hs2| |done|done|by left|exact Hun2].
    intros u. rewrite Hep2. case_decide; [by subst|done].
Qed.
(** What holds of the state before the read. *)
Lemma answered_read s uid ep w s' : kvs w = kvs (services s) →
  answered (read_state s w) uid ep s' → answered s uid ep s'.
Proof.
  intros Hk [Hok He Hpc Hr Hp Hun]. split; [done|..|done|done|done|].
  - intros u. rewrite He. simpl. by rewrite Hk.
  - intros k Hun'. rewrite Hun by done. simpl. by rewrite Hk.
Qed.
Lemma UidEndpoint_ok s uid : dash_ok s → plain_uid uid = true →
  Suspend.uidSuspensive (pauses s) uid = false →
  ∃ ep node s', Dash.UidEndpoint (S fuel) uid s =
      Done ((Some (MkCommonQueryResponse ep), None), s') ∧ answered s uid ep s' ∧
    ring_GetNode (hr s) uid = Done (Ok node) ∧
    (ep = node ∨ endpoint_of (kvs (services s)) uid = Some ep).
Proof.
  intros Hs Hu Hp. destruct (ring_node s uid Hs Hu) as (node & Hnode & Hplain).
  unfold Dash.UidEndpoint. rewrite (io_bind_Done _ _ _ _ _ (wait_free s uid Hp)).
  destruct (read_ok s uid Hs) as (w & Hread & Hs1 & Hk). rewrite (io_bind_Done _ _ _ _ _ Hread).
  set (s1 := read_state s w). assert (Hep1 : ∀ u, endpoint_of (kvs (services s1)) u = endpoint_of (kvs (services s)) u)
    by (intros u; unfold endpoint_of; simpl; by rewrite Hk).
  pose proof (node_eq s s1 uid node Hnode eq_refl) as Hgn.
  destruct (endpoint_of (kvs (services s)) uid) as [cur|] eqn:Hcur.
  - rewrite (io_bind_Done _ _ _ _ _ Hgn). case_decide as Hne.
    + destruct (move_ok s1 uid cur node Hs1 Hu Hplain) as (ep & s' & He & Ha & Hor); [by rewrite Hep1|done|].
      exists ep, node, s'. split; [exact He|]. split; [by eapply answered_read|]. split; [done|].
      destruct Hor as [-> | ->]; [by left|by right].
    + subst cur. exists node, node, s1. split; [done|]. split; [|by split; [|left]].
      apply (answered_read s uid node w); [done|]. split; [done| |done|done|by left|done].
      intros u. case_decide; [subst; by rewrite Hep1|done].
  - rewrite decide_True by done.
    destruct (alloc_ok s1 uid node Hs1 Hu Hplain Hnode) as (s' & He & Ha); [by rewrite Hep1|].
    rewrite (io_bind_Done _ _ _ _ _ He). exists node, node, s'. split; [done|].
    split; [by eapply answered_read|by split; [|left]].
Qed.

(** The interceptor, when the leader key holds what an elector wrote. *)
Lemma intercept_eq s selfID e l : dash_ok s →
  kvs (services s) !! DashLeaderKey = Some (Elect.info_String e, l) →
  JsonObj.year_ok (ElectTime e) = true →
  ∃ w, let s1 := DS (hr s) (pauses s) (lockRecord s) (scClientCache s) (pcClientCache s) w in
    Elect.IsLeader DashLeaderKey selfID (services s) = (Ok (bool_decide (Json.Coerce (ElectorID e) = selfID)), w) ∧
    kvs w = kvs (services s) ∧ dash_ok s1 ∧ ∀ R (handler : io (dstate W conn) (reply R)),
      Dash.intercept selfID handler s =
      (if decide (Json.Coerce (ElectorID e) = selfID) then handler else mret (None, Some ErrNotLeader)) s1.
Proof.
  intros Hs Hlead Hy.
  destruct (Electors.IsLeader_healthy DashLeaderKey selfID (services s) _ l (do_healthy s Hs) Hlead)
    as (w & His & Hw & Hk & _).
  rewrite ElectFacts.leader_ID_String in His by done. exists w. split; [done|]. split; [done|]. split.
  - pose proof (ds_GetKV DashLeaderKey _ (do_healthy s Hs) (do_good s Hs)) as Hg.
    apply (f_equal snd) in His. rewrite ElectFacts.IsLeader_world in His. simpl in His. rewrite His in Hg.
    apply dash_services; rewrite ?Hk; [done|done|apply Hs|apply Hs|done|exact (do_conns s Hs)].
  - intros R handler. unfold Dash.intercept.
    rewrite (io_bind_Done _ _ _ _ (DS (hr s) (pauses s) (lockRecord s) (scClientCache s) (pcClientCache s) w))
      by (unfold Dash.svc; rewrite His; reflexivity).
    case_bool_decide; by case_decide.
Qed.
End facts.
End DashFacts.

(** ** The ring and the order of events *)
Module RegistryFacts.
Import Sucker DashController.
Definition server_obj (node : string) : EtcdSuckerEventObj :=
  MkObj (ServerRegistryPrefix +:+ node) "".
Lemma Rel_server node : GoStr.name_ok node = true →
  GoStr.Rel ServerRegistryPrefix (ServerRegistryPrefix +:+ node) = Ok node.
Proof.
  intros Hn. apply (GoStr.Rel_absdir ["mysh"; "server"]); [done|by repeat constructor|done].
Qed.
Definition add_event (node : string) := MkEvent op_add (server_obj node).
Definition del_event (node : string) := MkEvent op_del (server_obj node).

Lemma deal_add fuel r node : GoStr.name_ok node = true →
  deal fuel (add_event node) r = snd <$> HashRing.AddNode fuel r node.
Proof. intros Hn. unfold deal, addFunc. simpl. by rewrite Rel_server. Qed.
Lemma deal_del fuel r node : GoStr.name_ok node = true →
  deal fuel (del_event node) r = Some (HashRing.DelNode r node).2.
Proof. intros Hn. unfold deal, delFunc. simpl. by rewrite Rel_server. Qed.

Lemma deal_all_cons fuel e es r r1 : deal fuel e r = Some r1 →
  deal_all fuel (e :: es) r = deal_all fuel es r1.
Proof. intros He. cbn [deal_all]. by rewrite He. Qed.

(** A run of the controller that handles the deletion first. *)
Lemma reorders {A} n (a b : A) : 0 < n →
  let e1 := MkEvent op_add a in let e2 := MkEvent op_del b in
  ∃ c, rtc (Ctl.no_stop n) (Ctl.NewController [e1; e2]) c ∧ Ctl.pending c = 0 ∧
    Ctl.handled c = [e2; e1].
Proof.
  intros Hn e1 e2. eexists. split; [|shelve].
  eapply rtc_l; [split; [apply Ctl.step_take|done]|].
  eapply rtc_l; [split; [apply Ctl.step_send; simpl; lia|done]|].
  eapply rtc_l; [split; [apply Ctl.step_take|done]|].
  eapply rtc_l; [split; [apply Ctl.step_send; simpl; unfold Ctl.upd; simpl; lia|done]|].
  eapply rtc_l; [split; [eapply (Ctl.step_handle _ op_del); reflexivity|done]|].
  eapply rtc_l; [split; [eapply (Ctl.step_handle _ op_add); reflexivity|done]|].
  apply rtc_refl. Unshelve. split; reflexivity.
Qed.
End RegistryFacts.

(** ** Theorems about the dash server *)
Module DashTheorems.
Import Dash DashFacts DashController RegistryFacts.
Section theorems.
Context {W : Type} `{DashServices W}.

(** C8. [UidEndpoint] for a plain user id, with etcd answering and its lock
    free: the answer is the server the ring has for the user, or the one the user
    had; the map in etcd then says what was answered, no other user is moved,
    the map and its index still agree, the lock is free again and the user not
    suspended.  When a user is moved no client of a proxy is used: the proxies'
    caches keep the old server. *)
Theorem UidEndpoint_answers_and_records fuel (s : dstate W conn) uid :
  dash_ok s → plain_uid uid = true → Suspend.uidSuspensive (pauses s) uid = false →
  ∃ ep node s', UidEndpoint (S fuel) uid s = Done ((Some (MkCommonQueryResponse ep), None), s') ∧
    ring_GetNode (hr s) uid = Done (Ok node) ∧
    (ep = node ∨ endpoint_of (kvs (services s)) uid = Some ep) ∧
    dash_ok s' ∧ Suspend.uidSuspensive (pauses s') uid = false ∧
    (∀ uid', endpoint_of (kvs (services s')) uid' =
      if decide (uid' = uid) then Some ep else endpoint_of (kvs (services s)) uid') ∧
    pcClientCache s' = pcClientCache s.
Proof.
  intros Hs Hu Hp. destruct (UidEndpoint_ok fuel s uid Hs Hu Hp) as (ep & node & s' & He & Ha & Hn & Hor).
  exists ep, node, s'. split; [done|]. split; [done|]. split; [done|]. split; [apply Ha|].
  split; [|split; [apply Ha|apply Ha]].
  destruct (an_pauses _ _ _ _ Ha) as [-> | ->]; [done|].
  unfold Suspend.uidSuspensive. by rewrite lookup_delete_eq.
Qed.

(** The users of a server are never found: the query format has two
    arguments and [UidEndpoint] gives it one, so the prefix it lists matches no
    key, although the index has a key for every user of the server. *)
Theorem users_of_endpoint_not_found (s : dstate W conn) uid ep :
  dash_ok s → plain_uid uid = true → endpoint_of (kvs (services s)) uid = Some ep →
  is_Some (kvs (services s) !! uids_key ep uid) ∧
  ∃ w, Etcd.ListKeyByPrefix (GoStr.Sprintf DashUidsQueryFormat [ep]) (services s) = (Ok [], w).
Proof.
  intros Hs Hu He. pose proof (idx_plain _ (do_index s Hs) uid ep Hu He) as Hp.
  split; [by apply (idx_agree _ (do_index s Hs))|].
  destruct (list_none (GoStr.Sprintf DashUidsQueryFormat [ep]) (services s)) as (w & Hl & _);
    [apply Hs|apply Hs| |by exists w].
  intros k Hk. by eapply missing_matches_none; [apply Hs|..].
Qed.

(** Only the leader answers.  With the leader key holding what an elector
    wrote, the interceptor of a dash process of that elector's address runs the
    handler, which answers and records; the interceptor of any other process
    answers "not leader" and leaves its state and the dash's keys alone. *)
Theorem only_the_leader_answers fuel (s : dstate W conn) uid selfID e l :
  dash_ok s → plain_uid uid = true → Suspend.uidSuspensive (pauses s) uid = false →
  kvs (services s) !! DashLeaderKey = Some (Elect.info_String e, l) →
  JsonObj.year_ok (ElectTime e) = true →
  (selfID = Json.Coerce (ElectorID e) →
     ∃ ep s', intercept selfID (UidEndpoint (S fuel) uid) s =
         Done ((Some (MkCommonQueryResponse ep), None), s') ∧
       dash_ok s' ∧ endpoint_of (kvs (services s')) uid = Some ep) ∧
  (selfID ≠ Json.Coerce (ElectorID e) → ∀ R (handler : io (dstate W conn) (reply R)),
     ∃ w, intercept selfID handler s =
         Done ((None, Some ErrNotLeader),
               DS (hr s) (pauses s) (lockRecord s) (scClientCache s) (pcClientCache s) w) ∧
       kvs w = kvs (services s)).
Proof.
  intros Hs Hu Hp Hlead Hy. destruct (intercept_eq s selfID e l Hs Hlead Hy) as (w & _ & Hk & Hs1 & Hstep).
  split.
  - intros ->. rewrite Hstep, decide_True by done.
    destruct (UidEndpoint_ok fuel _ uid Hs1 Hu Hp) as (ep & node & s' & Hd & Ha & _).
    exists ep, s'. split; [done|]. split; [apply Ha|]. by rewrite (an_endpoint _ _ _ _ Ha), decide_True.
  - intros Hne R handler. rewrite Hstep, decide_False by congruence. by exists w.
Qed.
End theorems.

(** A server that registers and leaves can stay in the ring: the controller
    may handle the deletion before the addition, and the ring then keeps a node
    that is gone; in the order of the events it would not. *)
Theorem reordered_events_keep_dead_node n r node :
  0 < n → RingFacts.ok r → slotNum r = HashRingSlotNum →
  GoStr.name_ok node = true → node ∉ addedNode r →
  Z.to_nat (vNodeNum r) ≤ RingFacts.free_count r →
  (∃ r', deal_all RingProbe.probe_bound [add_event node; del_event node] r = Some r' ∧
     node ∉ addedNode r') ∧
  ∃ c r', rtc (Ctl.no_stop n) (Ctl.NewController [add_event node; del_event node]) c ∧
    Ctl.pending c = 0 ∧ deal_all RingProbe.probe_bound (Ctl.handled c) r = Some r' ∧
    node ∈ addedNode r'.
Proof.
  intros Hn Hok Hsl Hnode Hnew Hfree. assert (node ≠ "") as Hne by (by intros ->).
  destruct (RingTheorems.AddNode_adds r node Hok Hsl Hne Hnew Hfree) as (r1 & Hadd & Hok1 & Had & _).
  assert (node ∈ addedNode r1) as Hin by (rewrite Had; by apply elem_of_union_l, elem_of_singleton_2).
  split.
  - destruct (RingTheorems.DelNode_deletes r1 node Hok1 Hne Hin) as (r2 & Hdel & _ & Hd2 & _).
    exists r2. split.
    { rewrite (deal_all_cons _ _ _ _ r1) by (by rewrite deal_add, Hadd).
      by rewrite (deal_all_cons _ _ _ _ r2) by (by rewrite deal_del, Hdel). }
    rewrite Hd2. intros [_ Hno]%elem_of_difference.
    by apply Hno, elem_of_singleton.
  - destruct (reorders n (server_obj node) (server_obj node) Hn) as (c & Hc & Hp & Hh).
    exists c, r1. split; [done|]. split; [done|]. rewrite Hh. split; [|done].
    change (MkEvent op_del (server_obj node)) with (del_event node).
    change (MkEvent op_add (server_obj node)) with (add_event node).
    assert (HashRing.DelNode r node = (Err (Errorf "node not exist when delete node."), r)) as Hdel.
    { unfold HashRing.DelNode. by rewrite decide_False, decide_True. }
    rewrite (deal_all_cons _ _ _ _ r) by (by rewrite deal_del, Hdel).
    by rewrite (deal_all_cons _ _ _ _ r1) by (by rewrite deal_add, Hadd).
Qed.

(** *** Witnesses: etcd in memory, servers that answer *)
Import MemEtcd.
#[local] Program Instance mem_grpc : Grpc mem := {|
  conn := string;
  DialInsecure a w := (Ok a, w);
  DialTLS a w := (Ok a, w);
  rpc_Search _ _ w := (Err (Errorf "unavailable"), w);
  rpc_Upload _ _ w := (Err (Errorf "unavailable"), w);
  rpc_Login _ _ w := (Err (Errorf "unavailable"), w);
  rpc_Logout _ _ w := (Err (Errorf "unavailable"), w);
  rpc_CleanUidCache _ _ w := (Ok (MkCleanResponse 200), w);
  rpc_UidLogout _ _ w := (Ok (MkUidLogoutResponse 200), w);
  rpc_Check _ _ w := (Ok (MkHealthCheckResponse SERVING), w);
  rpc_UidEndpoint _ _ w := (Err (Errorf "unavailable"), w);
|}.
#[local] Program Instance mem_services : DashServices mem := {|
  ds_good _ := True; ds_released _ _ _ := True; ds_conn a c := a = c |}.
Next Obligation. done. Qed.
Next Obligation. intros a w Hw _. by exists a, w. Qed.
Next Obligation. by intros a c q w. Qed.
Next Obligation. by intros a c q w. Qed.
Solve All Obligations with done.

(** One node in the ring, and a user who has a server that left. *)
Definition ex_map : gmap string (string * Z) := moved ∅ "alice" None "[::]:9000".
Lemma ex_map_ok : index_ok ex_map.
Proof.
  assert (endpoint_of ∅ "alice" = None) as He by (unfold endpoint_of; by rewrite lookup_empty).
  pose proof (moved_index ∅ "alice" "[::]:9000") as Hm. rewrite He in Hm. apply Hm; [|done|done|done].
  split.
  - intros uid ep _ _. unfold endpoint_of. rewrite !lookup_empty. split; [done|by intros []].
  - intros uid ep _. unfold endpoint_of. by rewrite lookup_empty.
  - intros k [? Hk]. by rewrite lookup_empty in Hk.
Qed.
Lemma ex_dash : ∃ s : dstate mem conn, dash_ok s ∧ kvs (services s) = ex_map ∧ pauses s = ∅.
Proof.
  destruct RingTheorems.ex_add as (r & _ & Hok & Hin & Hv & _).
  exists (DS r ∅ ∅ ∅ ∅ (Mem ex_map ∅ [])). split; [|done]. split; simpl; try done.
  - apply ex_map_ok.
  - rewrite Hin. apply non_empty_singleton_L.
  - intros a. rewrite Hin. by intros ->%elem_of_singleton.
  - by rewrite Hv.
Qed.
Lemma UidEndpoint_answers_and_records_witness :
  ∃ s : dstate mem conn, kvs (services s) = ex_map ∧
  ∃ ep node s', UidEndpoint 1 "alice" s = Done ((Some (MkCommonQueryResponse ep), None), s') ∧
    ring_GetNode (hr s) "alice" = Done (Ok node) ∧
    (ep = node ∨ endpoint_of (kvs (services s)) "alice" = Some ep) ∧
    dash_ok s' ∧ Suspend.uidSuspensive (pauses s') "alice" = false ∧
    (∀ uid', endpoint_of (kvs (services s')) uid' =
      if decide (uid' = "alice") then Some ep else endpoint_of (kvs (services s)) uid') ∧
    pcClientCache s' = pcClientCache s.
Proof.
  destruct ex_dash as (s & Hs & Hk & Hp). exists s. split; [exact Hk|].
  apply (UidEndpoint_answers_and_records 0 s "alice" Hs); [reflexivity|rewrite Hp; reflexivity].
Defined.
Definition ex_led : gmap string (string * Z) :=
  <[DashLeaderKey := (Elect.info_String Elect.ex_info, 17%Z)]> ex_map.
Lemma ex_led_ok : index_ok ex_led.
Proof.
  assert (Hsame : ∀ k, k ≠ DashLeaderKey → ex_led !! k = ex_map !! k).
  { intros k Hk. by apply lookup_insert_ne. }
  destruct ex_map_ok as [Ha Hp Hk].
  assert (Hep : ∀ u, endpoint_of ex_led u = endpoint_of ex_map u).
  { intros u. unfold endpoint_of. rewrite Hsame; [done|].
    rewrite ep_key_eq. discriminate. }
  split.
  - intros uid ep Hu He. rewrite Hep, Hsame; [by apply Ha|]. rewrite uids_key_eq. discriminate.
  - intros uid ep. rewrite Hep. apply Hp.
  - intros k Hsome Hpre. apply Hk; [|done]. rewrite <- Hsame; [done|]. by intros ->.
Qed.
Lemma only_the_leader_answers_witness :
  ∃ s : dstate mem conn, kvs (services s) = ex_led ∧
  (":8082" = Json.Coerce ":8082" → ∃ ep s', intercept ":8082" (UidEndpoint 1 "alice") s =
      Done ((Some (MkCommonQueryResponse ep), None), s') ∧
    dash_ok s' ∧ endpoint_of (kvs (services s')) "alice" = Some ep) ∧
  (":8082" ≠ Json.Coerce ":8082" → ∀ R (handler : io (dstate mem conn) (reply R)),
     ∃ w, intercept ":8082" handler s =
         Done ((None, Some ErrNotLeader),
               DS (hr s) (pauses s) (lockRecord s) (scClientCache s) (pcClientCache s) w) ∧
       kvs w = kvs (services s)).
Proof.
  destruct ex_dash as (s & Hs & Hk & Hp).
  exists (DS (hr s) ∅ (lockRecord s) (scClientCache s) (pcClientCache s) (Mem ex_led ∅ [])).
  split; [reflexivity|].
  apply (only_the_leader_answers 0 _ "alice" ":8082" Elect.ex_info 17%Z);
    [|reflexivity|reflexivity|reflexivity|reflexivity].
  destruct Hs. split; [reflexivity|vm_compute; reflexivity|exact ex_led_ok|assumption..].
Defined.
Lemma users_of_endpoint_not_found_witness :
  ∃ s : dstate mem conn, is_Some (kvs (services s) !! uids_key "[::]:9000" "alice") ∧
  ∃ w, Etcd.ListKeyByPrefix (GoStr.Sprintf DashUidsQueryFormat ["[::]:9000"]) (services s) = (Ok [], w).
Proof.
  destruct ex_dash as (s & Hs & Hk & Hp). exists s.
  apply (users_of_endpoint_not_found s "alice" "[::]:9000" Hs); [reflexivity|rewrite Hk; reflexivity].
Defined.
Lemma reordered_events_keep_dead_node_witness :
  (∃ r', deal_all RingProbe.probe_bound [add_event "[::]:8083"; del_event "[::]:8083"]
           RingTheorems.ex_ring = Some r' ∧ "[::]:8083" ∉ addedNode r') ∧
  ∃ c r', rtc (Ctl.no_stop 1024) (Ctl.NewController [add_event "[::]:8083"; del_event "[::]:8083"]) c ∧
    Ctl.pending c = 0 ∧ deal_all RingProbe.probe_bound (Ctl.handled c) RingTheorems.ex_ring = Some r' ∧
    "[::]:8083" ∈ addedNode r'.
Proof.
  apply reordered_events_keep_dead_node;
    [lia|exact RingTheorems.ex_ring_ok|reflexivity|reflexivity|apply not_elem_of_empty|exact RingTheorems.ex_free].
Defined.
End DashTheorems.
