(* ===== verification/Registry.v ===== *)
(** * The ring follows the registry

    The composition of the event controller, the callbacks of [NewDashController]
    and the hash ring: what the ring of a dash holds after the events of a watch of
    the registry of servers, in whatever order the goroutines of the controller
    handle them.  [watched] states what a watch of etcd delivers. *)

From S2P Require Import Prelude GoStr EventCtl HashRing Dash.

Module Registry.
Import Sucker DashController.

(** A key of the registry. *)
Definition server_kv (node v : string) : EtcdSuckerEventObj := MkObj (ServerRegistryPrefix +:+ node) v.
(** etcd: a watch of the registry that starts with the servers [X] and ends with
    [X'].  A put of a key that is there is no creation; only a key that is there is
    deleted. *)
Inductive watched : gset string → list WatchEvent → gset string → Prop :=
  | watched_nil X : watched X [] X
  | watched_put X node v created es X' : GoStr.name_ok node = true → (created = true ↔ node ∉ X) →
      watched ({[node]} ∪ X) es X' → watched X (MkWatch 0 created (server_kv node v) :: es) X'
  | watched_delete X node es X' : GoStr.name_ok node = true → node ∈ X → watched (X ∖ {[node]}) es X' →
      watched X (MkWatch 1 false (server_kv node "") :: es) X'.

(** An event about the server [node]. *)
Definition about (e : Event EtcdSuckerEventObj) (node : string) : Prop :=
  GoStr.name_ok node = true ∧ ∃ v, Obj e = server_kv node v.
(** What an event does to the set of nodes. *)
Definition apply_event (X : gset string) (t : optype) (node : string) : gset string :=
  match t with op_add => {[node]} ∪ X | op_update => X | op_del => X ∖ {[node]} end.
End Registry.

(** ** Facts *)
Module RegistryRing.
Import Sucker DashController Registry RingFacts RingNames HashRing.

(** *** The slots in use *)
Lemma used_free (l : list (option virtualNode)) :
  length (omap id l) + length (filter (λ o, o = None) l) = length l.
Proof.
  induction l as [|o l IH]; [done|]. rewrite filter_cons. destruct o as [v|]; case_decide; simplify_eq/=; lia.
Qed.
Lemma names_NoDup (l : list (option virtualNode)) :
  (∀ i j v w, l !! i = Some (Some v) → l !! j = Some (Some w) → name v = name w → i = j) →
  NoDup (name <$> omap id l).
Proof.
  induction l as [|o l IH]; intros Hinj; [constructor|].
  assert (NoDup (name <$> omap id l)) as Hl
    by (apply IH; intros i j v w Hi Hj Hn; assert (S i = S j) by (by apply (Hinj _ _ v w)); lia).
  destruct o as [v|]; [|done]. simpl. constructor; [|done].
  intros (w & Hw & (o & [j Hj]%list_elem_of_lookup_1 & Ho)%list_elem_of_omap)%list_elem_of_fmap.
  unfold id in Ho. subst o.
  by specialize (Hinj 0 (S j) v w eq_refl Hj Hw).
Qed.
Lemma slot_lookup hr i v : vnodeSlice hr !! i = Some (Some v) → slot_at hr i = Some v.
Proof. unfold slot_at. by intros ->. Qed.
(** A ring with room for a node has a free slot for each of its virtual nodes. *)
Lemma free_enough hr : ok hr →
  Z.to_nat (slotNum hr) ≤ free_count hr + size (addedNode hr) * Z.to_nat (vNodeNum hr).
Proof.
  intros [Hr _]. pose proof (used_free (vnodeSlice hr)) as Hu. rewrite (ring_length _ _ Hr) in Hu.
  set (all := elements (addedNode hr) ≫= λ a, vname_of a <$> seq 0 (Z.to_nat (vNodeNum hr))).
  assert (length all = size (addedNode hr) * Z.to_nat (vNodeNum hr)) as Hall.
  { unfold all. change (size (addedNode hr)) with (length (elements (addedNode hr))). induction (elements (addedNode hr)) as [|a l IH]; [done|].
    rewrite bind_cons, length_app, length_fmap, length_seq, IH. done. }
  assert (name <$> omap id (vnodeSlice hr) ⊆+ all) as Hsub.
  { apply NoDup_submseteq.
    - apply names_NoDup. intros i j v w Hi%slot_lookup Hj%slot_lookup Hn.
      assert (nodeVNameMap hr !! name v = Some i) as H1 by (apply (ring_map _ _ Hr); eauto).
      assert (nodeVNameMap hr !! name v = Some j) as H2 by (apply (ring_map _ _ Hr); eauto). congruence.
    - intros nm (v & -> & (o & [i Hi]%list_elem_of_lookup_1 & Ho)%list_elem_of_omap)%list_elem_of_fmap.
      unfold id in Ho. subst o. apply slot_lookup in Hi.
      destruct (ring_slot _ _ Hr i v Hi) as (k & [Ha Hk] & ->). apply list_elem_of_bind.
      exists (addr v). split; [|by apply elem_of_elements]. apply list_elem_of_fmap. exists k.
      split; [done|]. apply elem_of_seq. lia. }
  apply submseteq_length in Hsub. rewrite length_fmap in Hsub. unfold free_count. lia.
Qed.

(** *** The callbacks *)
Definition fits (U : gset string) hr : Prop :=
  ok hr ∧ slotNum hr = HashRingSlotNum ∧ vNodeNum hr = HashRingVNodeNum ∧ addedNode hr ⊆ U.
Lemma fits_free U hr node : (size U ≤ 128)%nat → fits U hr → node ∈ U → node ∉ addedNode hr →
  Z.to_nat (vNodeNum hr) ≤ free_count hr.
Proof.
  intros HU (Hok & Hs & Hv & Hsub) Hin Hnew. pose proof (free_enough hr Hok) as Hf. rewrite Hs, Hv in *.
  assert (size ({[node]} ∪ addedNode hr) ≤ size U) as Hsz by (apply subseteq_size; set_solver).
  rewrite size_union, size_singleton in Hsz by set_solver.
  change (Z.to_nat HashRingSlotNum) with 4096 in Hf. change (Z.to_nat HashRingVNodeNum) with 32 in *. lia.
Qed.
Lemma deal_ok U hr e node : (size U ≤ 128)%nat → fits U hr → about e node → node ∈ U →
  ∃ hr', deal RingProbe.probe_bound e hr = Some hr' ∧ fits U hr' ∧
    addedNode hr' = apply_event (addedNode hr) (OPType e) node.
Proof.
  intros HU Hfit (Hn & v & Hobj) Hin. pose proof Hfit as (Hok & Hs & Hv & Hsub).
  assert (node ≠ "") as Hne by (by intros ->).
  assert (GoStr.Rel ServerRegistryPrefix (Key (Obj e)) = Ok node) as Hrel
    by (rewrite Hobj; by apply RegistryFacts.Rel_server).
  unfold deal, addFunc, delFunc. rewrite Hrel. destruct (OPType e); simpl.
  - destruct (decide (node ∈ addedNode hr)) as [Hadded|Hnew].
    + exists hr. unfold HashRing.AddNode. rewrite decide_False, decide_True by done.
      split; [done|]. split; [done|]. set_solver.
    + destruct (RingTheorems.AddNode_adds hr node Hok Hs Hne Hnew) as (hr' & -> & Hok' & Had & Hs' & Hv' & _);
        [by eapply fits_free|].
      exists hr'. split; [done|]. split; [|done]. split_and!; [done|congruence|congruence|set_solver].
  - by exists hr.
  - destruct (decide (node ∈ addedNode hr)) as [Hadded|Hnew].
    + destruct (RingTheorems.DelNode_deletes hr node Hok Hne Hadded) as (hr' & -> & Hok' & Had & Hs' & Hv' & _).
      exists hr'. split; [done|]. split; [|done]. split_and!; [done|congruence|congruence|set_solver].
    + exists hr. unfold HashRing.DelNode. rewrite decide_False, decide_True by done.
      split; [done|]. split; [done|]. simpl. set_solver.
Qed.
(** The ring after [es]; who is in it. *)
Lemma deal_all_ok U es : (size U ≤ 128)%nat → Forall (λ e, ∃ node, about e node ∧ node ∈ U) es →
  ∀ hr, fits U hr → ∃ hr', deal_all RingProbe.probe_bound es hr = Some hr' ∧ fits U hr' ∧
    ∀ node,
      (node ∈ addedNode hr' → node ∈ addedNode hr ∨ ∃ e, e ∈ es ∧ OPType e = op_add ∧ about e node) ∧
      ((∀ e, e ∈ es → about e node → OPType e ≠ op_del) →
       node ∈ addedNode hr ∨ (∃ e, e ∈ es ∧ OPType e = op_add ∧ about e node) → node ∈ addedNode hr').
Proof.
  intros HU. induction 1 as [|e es (node0 & Hab & Hin) _ IH]; intros hr Hfit.
  { exists hr. split; [done|]. split; [done|]. intros node. split; [by left|].
    intros _ [?|(e & []%elem_of_nil & _)]. done. }
  destruct (deal_ok U hr e node0 HU Hfit Hab Hin) as (hr1 & Hd & Hfit1 & Had1).
  destruct (IH hr1 Hfit1) as (hr' & Hd' & Hfit' & Hin'). exists hr'.
  split; [by rewrite (RegistryFacts.deal_all_cons _ _ _ _ hr1)|]. split; [done|].
  assert (Hsame : ∀ node, about e node → node = node0).
  { intros node (_ & v & Ho). destruct Hab as (_ & v0 & Ho0). rewrite Ho in Ho0.
    unfold server_kv in Ho0. injection Ho0 as Ho0 _. by apply (inj (String.append _)) in Ho0. }
  intros node. destruct (Hin' node) as [Hfrom Hto]. split.
  - intros [H1|(e' & ? & ?)]%Hfrom; [|right; exists e'; split; [by right|done]].
    rewrite Had1 in H1. destruct (OPType e) eqn:Ht; simpl in H1; [|by left|left; set_solver].
    apply elem_of_union in H1 as [->%elem_of_singleton|?]; [right|by left]. exists e. split; [by left|done].
  - intros Hno Hor. apply Hto; [intros e' He'; apply Hno; by right|].
    destruct Hor as [H1|(e' & [->|He']%elem_of_cons & Ht & Hab')]; [| |right; by exists e'].
    + left. rewrite Had1. destruct (OPType e) eqn:Ht; simpl; [set_solver|done|].
      apply elem_of_difference. split; [done|]. intros ->%elem_of_singleton. by apply (Hno e); [left|..].
    + left. rewrite Had1, Ht. simpl. rewrite (Hsame node Hab'). set_solver.
Qed.
End RegistryRing.

(** *** What the controller has handled *)
Module RegistryEvents.
Import Sucker Registry Ctl.
Lemma in_type {A} (e : Event A) es : e ∈ of_type (OPType e) es ↔ e ∈ es.
Proof. unfold of_type. rewrite list_elem_of_filter. naive_solver. Qed.
Lemma handled_in {A} n (es : list (Event A)) c e : rtc (step n) (NewController es) c → e ∈ handled c → e ∈ es.
Proof.
  intros Hr He. destruct (reach_inv _ _ _ (OPType e) Hr (new_typed es)) as [_ Hall].
  rewrite all_of_new in Hall. apply in_type. rewrite <- Hall. unfold all_of. rewrite !elem_of_app. left. by apply in_type.
Qed.
Lemma all_handled {A} n (es : list (Event A)) c e : rtc (step n) (NewController es) c → pending c = 0 →
  e ∈ handled c ↔ e ∈ es.
Proof.
  intros Hr Hp. destruct (reach_inv _ _ _ (OPType e) Hr (new_typed es)) as [Ht Hall].
  rewrite all_of_new, pending_0 in Hall by done. by rewrite <- (in_type e (handled c)), Hall, in_type.
Qed.
(** Every event of a watch is about a server. *)
Lemma watched_about X es X' : watched X es X' → Forall (λ e, ∃ node, about e node) (of_watch <$> es).
Proof.
  induction 1 as [|X node v new es X' Hn Hnew _ IH|X node es X' Hn Hin _ IH]; simpl; constructor; try done;
    exists node; (split; [done|by eexists]).
Qed.
Lemma about_unique e a b : about e a → about e b → a = b.
Proof.
  intros (_ & v & Ha) (_ & w & Hb). rewrite Ha in Hb. unfold server_kv in Hb. injection Hb as Hb _.
  by apply (inj (String.append _)) in Hb.
Qed.
(** The servers at the end: those at the start and those that joined. *)
Lemma watched_end X es X' : watched X es X' → ∀ node,
  (∀ e, e ∈ of_watch <$> es → about e node → OPType e ≠ op_del) →
  node ∈ X' ↔ node ∈ X ∨ ∃ e, e ∈ of_watch <$> es ∧ OPType e = op_add ∧ about e node.
Proof.
  induction 1 as [X|X node0 v created es X' Hn Hcr _ IH|X node0 es X' Hn Hin _ IH]; intros node Hno.
  - split; [by left|]. intros [?|(e & []%elem_of_nil & _)]. done.
  - rewrite fmap_cons in *. set (e0 := of_watch _) in *.
    assert (about e0 node0) as H0 by (split; [done|by exists v]).
    rewrite IH, elem_of_union, elem_of_singleton by (intros e He; apply Hno; by right). split.
    + intros [[->|?]|(e & ? & ?)]; [|by left|right; exists e; split; [by right|done]].
      destruct (decide (node0 ∈ X)) as [|Hnew]; [by left|]. right. exists e0. split; [by left|].
      split; [|done]. unfold e0. simpl. by rewrite (proj2 Hcr Hnew).
    + intros [?|(e & [->|He]%elem_of_cons & Ht & Hab)]; [by left; right| |right; by exists e].
      left. left. by apply (about_unique e0).
  - rewrite fmap_cons in *. set (e0 := of_watch _) in *.
    assert (about e0 node0) as H0 by (split; [done|by eexists]).
    assert (node ≠ node0) as Hne by (intros ->; by apply (Hno e0); [left|..]).
    rewrite IH by (intros e He; apply Hno; by right). split.
    + intros [?|(e & ? & ?)]; [left; set_solver|right; exists e; split; [by right|done]].
    + intros [?|(e & [->|He]%elem_of_cons & Ht & Hab)]; [left; set_solver|done|right; by exists e].
Qed.
(** The same for what the sucker sends. *)
Section sucked.
Variables (kvs : list (string * string)) (watch : list WatchEvent) (X' : gset string).
Hypothesis kvs_ok : Forall (λ kv, GoStr.name_ok kv.1 = true) kvs.
Hypothesis watch_ok : watched (list_to_set kvs.*1) watch X'.
Abbreviation events := (GetSucker (Ok ((λ kv, server_kv kv.1 kv.2) <$> kvs)) watch).
Lemma sucked_about e : e ∈ events → ∃ node, about e node.
Proof.
  intros He. cut (Forall (λ e, ∃ node, about e node) events); [rewrite Forall_forall; auto|].
  apply Forall_app. split; [|by eapply watched_about]. rewrite !Forall_fmap. eapply Forall_impl; [exact kvs_ok|].
  intros [a v] Ha. exists a. split; [exact Ha|by exists v].
Qed.
Lemma sucked_start node : node ∈ (list_to_set kvs.*1 : gset string) ↔
  ∃ e, e ∈ MkEvent op_add <$> ((λ kv, server_kv kv.1 kv.2) <$> kvs) ∧ about e node.
Proof.
  rewrite elem_of_list_to_set. split.
  - intros ([a v] & -> & Hkv)%list_elem_of_fmap. exists (MkEvent op_add (server_kv a v)). split.
    + apply list_elem_of_fmap. eexists. split; [done|]. apply list_elem_of_fmap. by exists (a, v).
    + rewrite Forall_forall in kvs_ok. split; [by apply (kvs_ok (a, v))|by exists v].
  - intros (e & (o & -> & ([a v] & -> & Hkv)%list_elem_of_fmap)%list_elem_of_fmap & (_ & w & Ho)).
    simpl in Ho. unfold server_kv in Ho. injection Ho as Ho _. apply (inj (String.append _)) in Ho as <-.
    apply list_elem_of_fmap. by exists (a, v).
Qed.
Lemma sucked_end node : (∀ e, e ∈ events → about e node → OPType e ≠ op_del) →
  node ∈ X' ↔ ∃ e, e ∈ events ∧ OPType e = op_add ∧ about e node.
Proof.
  intros Hno. rewrite (watched_end _ _ _ watch_ok) by (intros e He; apply Hno, elem_of_app; by right).
  rewrite sucked_start. split.
  - intros [(e & He & Hab)|(e & He & ? & ?)]; exists e; (split; [apply elem_of_app; auto|]); [|done].
    split; [|done]. by apply list_elem_of_fmap in He as (o & -> & _).
  - intros (e & [He|He]%elem_of_app & Ht & Hab); [left|right]; by exists e.
Qed.
End sucked.
End RegistryEvents.

(** ** Theorems *)
Module RegistryTheorems.
Import Sucker DashController Registry RegistryRing RegistryEvents Ctl.

(** C16. The ring follows the registry.  The sucker of a dash reads the servers that
    are registered and watches the registry from there; then in every state the
    event controller reaches, with any queue length, the callbacks that have run
    have all returned and left a well-formed ring of registered servers; and when
    every event is handled, each server that never left in the meantime is in the
    ring exactly if it is in the registry.  The ring has room for 128 servers. *)
Theorem ring_follows_registry n (kvs : list (string * string)) watch X' (U : gset string) r0 c :
  init = Done r0 →
  Forall (λ kv, GoStr.name_ok kv.1 = true) kvs → watched (list_to_set kvs.*1) watch X' →
  let events := GetSucker (Ok ((λ kv, server_kv kv.1 kv.2) <$> kvs)) watch in
  (∀ e node, e ∈ events → about e node → node ∈ U) → size U ≤ 128 →
  rtc (step n) (ec (NewDashController (Ok ((λ kv, server_kv kv.1 kv.2) <$> kvs)) watch)) c →
  ∃ r, deal_all RingProbe.probe_bound (handled c) r0 = Some r ∧ RingFacts.ok r ∧ addedNode r ⊆ U ∧
    (pending c = 0 → ∀ node, (∀ e, e ∈ events → about e node → OPType e ≠ op_del) →
      node ∈ addedNode r ↔ node ∈ X').
Proof.
  intros Hnew Hok Hw events HU Hsz Hr.
  destruct (RingFacts.new_ok HashRingSlotNum HashRingVNodeNum) as (r1 & Hnew1 & Hring & Hs & Hv & Hadd); [done|done|].
  unfold init in Hnew. rewrite Hnew1 in Hnew. injection Hnew as ->. change (ec _) with (NewController events) in Hr.
  destruct (deal_all_ok U (handled c) Hsz) with (hr := r0) as (r & Hd & (Hrok & _ & _ & Hsub) & Hin).
  { apply Forall_forall. intros e He%(handled_in n events c e Hr).
    destruct (sucked_about kvs watch X' Hok Hw e He) as [node Hab]. exists node. split; [done|]. by eapply HU. }
  { split_and!; [done|done|done|]. rewrite Hadd. set_solver. }
  exists r. split; [done|]. split; [done|]. split; [done|]. intros Hp node Hno.
  assert (Hh : ∀ e, e ∈ handled c ↔ e ∈ events) by (intros e; by apply (all_handled n)).
  rewrite (sucked_end kvs watch X' Hok Hw node Hno). fold events. setoid_rewrite <- Hh.
  destruct (Hin node) as [Hfrom Hto]. split.
  - intros [H0|?]%Hfrom; [rewrite Hadd in H0; by apply not_elem_of_empty in H0|done].
  - intros ?. apply Hto; [intros e' He'; by apply Hno, Hh|by right].
Qed.

(** *** Witness: one server is registered, another joins, and the first renews its key *)
Definition ex_kvs : list (string * string) := [("[::]:8083", "17")].
Definition ex_watch : list WatchEvent :=
  [MkWatch 0 true (server_kv "[::]:8084" "18"); MkWatch 0 false (server_kv "[::]:8083" "19")].
Definition ex_servers : gset string := {["[::]:8083"; "[::]:8084"]}.
Definition ex_events := GetSucker (Ok ((λ kv, server_kv kv.1 kv.2) <$> ex_kvs)) ex_watch.
Lemma ex_watched : ∃ X', watched (list_to_set ex_kvs.*1) ex_watch X' ∧ "[::]:8083" ∈ X' ∧ "[::]:8084" ∈ X'.
Proof.
  eexists. split; [|split].
  - apply watched_put; [done|set_solver|]. apply watched_put; [done|set_solver|]. apply watched_nil.
  - set_solver.
  - set_solver.
Qed.
Lemma ring_follows_registry_witness : ∃ (X' : gset string) c,
  "[::]:8084" ∈ X' ∧ rtc (step 1) (NewController ex_events) c ∧ pending c = 0 ∧
  ∃ r, deal_all RingProbe.probe_bound (handled c) RingTheorems.ex_ring = Some r ∧ RingFacts.ok r ∧
    addedNode r ⊆ ex_servers ∧
    (pending c = 0 → ∀ node, (∀ e, e ∈ ex_events → about e node → OPType e ≠ op_del) →
      node ∈ addedNode r ↔ node ∈ X').
Proof.
  destruct ex_watched as (X' & Hw & _ & Hin).
  destruct (drains 1 (NewController ex_events)) as (c & Hr%no_stop_step & Hp); [lia|done|].
  exists X', c. split; [exact Hin|]. split; [exact Hr|]. split; [exact Hp|].
  apply (ring_follows_registry 1 ex_kvs ex_watch X' ex_servers RingTheorems.ex_ring c);
    [reflexivity|by repeat constructor|exact Hw| | |exact Hr].
  - intros e node He Hab. unfold ex_servers.
    apply elem_of_cons in He as [->|[->|[->|[]%elem_of_nil]%elem_of_cons]%elem_of_cons].
    + rewrite (about_unique _ node "[::]:8083" Hab); [set_solver|by split; [|eexists]].
    + rewrite (about_unique _ node "[::]:8084" Hab); [set_solver|by split; [|eexists]].
    + rewrite (about_unique _ node "[::]:8083" Hab); [set_solver|by split; [|eexists]].
  - vm_compute. lia.
Defined.
End RegistryTheorems.
