(* ===== verification/DashConc.v ===== *)
(** * server/server.go: the goroutines of a dash server

    grpc runs every [UidEndpoint] of a dash server in a goroutine of its own, and
    the controller changes the ring in another.  Module [DashConc] cuts
    [DashServer.UidEndpoint] at its calls of etcd, of the ring, of the search
    servers and of the table of suspended users; a call is one step, and the
    transaction of [AtomicMultiKVOp] with its lock is one call.  [waitUid] is a
    goroutine that cannot move. *)

From S2P Require Import Prelude GoStr Etcd HashRing Proto Caches Dash Pool.

Module DashConc.
Import Dash.

(** ** The program counter of [UidEndpoint] *)
Inductive pc :=
  | UWait                                        (* waitUid *)
  | UGet                                         (* etcd.GetKV *)
  | UAlloc                                       (* allocEndpoint: hr.GetNode *)
  | UAdd (ep : string)                           (* allocEndpoint: addEpInfo *)
  | UNode (cur : string)                         (* hr.GetNode *)
  | UCheck (cur node : string)                   (* scClientCache.Check *)
  | USuspend (cur node : string)                 (* uidSuspend *)
  | UList (cur node : string)                    (* etcd.ListKeyByPrefix *)
  | UClean (cur node : string) (uids : list string)
  | ULogout (cur node : string)                  (* scClientCache.UidLogout *)
  | UUpdate (cur node : string)                  (* updateEpInfo *)
  | UResume (r : reply CommonQueryResponse)      (* the deferred uidResume *)
  | UDone (r : reply CommonQueryResponse).
(** A request, or a change of the ring by the controller. *)
Inductive goroutine :=
  | GUid (uid : string) (p : pc)
  | GRing (r : hashRing) (done : bool).

Section steps.
Context {W : Type} `{EtcdClient W} `{Grpc W}.
(** How many times [Lock] is tried. *)
Variable fuel : nat.
Abbreviation state := (dstate W conn).

Definition call {A} (c : io state A) (g : A → goroutine) (s : state) : outcome (goroutine * state) :=
  run (a, s) <- c s ;; Done (g a, s).
Definition answer (ep : string) : reply CommonQueryResponse := (Some (MkCommonQueryResponse ep), None).
Definition fails (e : error) : reply CommonQueryResponse := (None, Some e).
Definition uid_step (uid : string) (p : pc) (s : state) : outcome (goroutine * state) :=
  let goto := GUid uid in
  match p with
  | UWait => call (waitUid uid) (λ _, goto UGet) s
  | UGet => call (svc (Etcd.GetKV (ep_key uid))) (λ v, goto
      match v with
      | Ok cur => UNode cur
      | Err e => if decide (e = ErrEmptyValue) then UAlloc else UDone (fails e)
      end) s
  | UAlloc => call (GetNode uid) (λ n, goto match n with Ok ep => UAdd ep | Err e => UDone (fails e) end) s
  | UAdd ep => call (addEpInfo fuel uid ep) (λ r, goto
      match r with Ok _ => UDone (answer ep) | Err e => UDone (fails e) end) s
  | UNode cur => call (GetNode uid) (λ n, goto
      match n with
      | Ok node => if decide (node ≠ cur) then UCheck cur node else UDone (answer cur)
      | Err e => UDone (fails e)
      end) s
  | UCheck cur node => call (sc_call CliManager.scm_Check node (MkHealthCheckRequest "")) (λ r, goto
      (if negb (serving r) then UDone (answer cur) else USuspend cur node)) s
  | USuspend cur node => call (uidSuspend uid) (λ _, goto (UList cur node)) s
  | UList cur node => call (svc (Etcd.ListKeyByPrefix (GoStr.Sprintf DashUidsQueryFormat [cur]))) (λ l, goto
      match l with Ok uids => UClean cur node uids | Err e => UResume (fails e) end) s
  | UClean cur node uids =>
      match uids with
      | [] => Done (goto (ULogout cur node), s)
      | u :: uids => call (cleanUidCache u) (λ r, goto
          match r with Ok _ => UClean cur node uids | Err e => UResume (fails e) end) s
      end
  | ULogout cur node => call (sc_call CliManager.scm_UidLogout cur (MkUidLogoutRequest uid))
      (λ _, goto (UUpdate cur node)) s
  | UUpdate cur node => call (updateEpInfo fuel uid cur node) (λ e, goto
      (UResume (Some (MkCommonQueryResponse node), match e with Err e => Some e | Ok _ => None end))) s
  | UResume r => call (uidResume uid) (λ _, goto (UDone r)) s
  | UDone _ => Block
  end.
Definition gstep (i : nat) (g : goroutine) (s : state) : outcome (goroutine * state) :=
  match g with
  | GUid uid p => uid_step uid p s
  | GRing r false =>
      Done (GRing r true, DS r (pauses s) (lockRecord s) (scClientCache s) (pcClientCache s) (services s))
  | GRing _ true => Block
  end.
Definition fresh (g : goroutine) : Prop :=
  match g with GUid uid p => p = UWait ∧ DashFacts.plain_uid uid = true | GRing _ d => d = false end.
Definition proc := pool goroutine state.
End steps.
Arguments proc W {_}.
End DashConc.

(** ** Facts *)
Module DashConcFacts.
Import Dash DashFacts DashConc.

(** The keys and the values of the map are what counts. *)
Lemma index_ext m m' : (∀ uid, endpoint_of m' uid = endpoint_of m uid) →
  (∀ k, is_Some (m' !! k) ↔ is_Some (m !! k)) → index_ok m → index_ok m'.
Proof.
  intros He Hk [Ha Hp Hd]. split.
  - intros uid ep Hu Hn. rewrite He, Hk. by apply Ha.
  - intros uid ep. rewrite He. apply Hp.
  - intros k. rewrite Hk. apply Hd.
Qed.
(** A user who has a server already is given the same one again. *)
Lemma moved_again m uid old ep : index_ok m → plain_uid uid = true → endpoint_of m uid = Some ep →
  (∀ o, old = Some o → GoStr.name_ok o = true ∧ o ≠ ep) → index_ok (moved m uid old ep).
Proof.
  intros Hm Hu He Ho. assert (Hn : GoStr.name_ok ep = true) by (by eapply idx_plain).
  apply (index_ext m); [|intros k|done].
  - intros u. rewrite moved_endpoint. case_decide; [by subst|done].
  - assert (is_Some (m !! uids_key ep uid)) as Hi by (by apply (idx_agree m Hm)).
    assert (is_Some (m !! ep_key uid)) as Hk.
    { unfold endpoint_of in He. by destruct (m !! ep_key uid). }
    unfold moved. rewrite lookup_insert_is_Some. destruct old as [o|]; unfold id.
    + destruct (Ho o eq_refl) as [Hno Hne]. rewrite lookup_delete_is_Some, lookup_insert_is_Some.
      assert (¬ is_Some (m !! uids_key o uid)) as Hnot.
      { rewrite <- (idx_agree m Hm) by done. congruence. }
      split; [intros [<-|[_ [_ [<-|[_ ?]]]]]; done|]. intros Hk'.
      destruct (decide (uids_key ep uid = k)) as [|H1]; [by left|]. right. split; [done|].
      split; [by intros <-|]. destruct (decide (ep_key uid = k)); [by left|by right].
    + rewrite lookup_insert_is_Some. split; [intros [<-|[_ [<-|[_ ?]]]]; done|]. intros Hk'.
      destruct (decide (uids_key ep uid = k)) as [|H1]; [by left|]. right. split; [done|].
      destruct (decide (ep_key uid = k)); [by left|by right].
Qed.

(** The entry of the user under [b] outlives a move that takes the user for one of [a]. *)
Lemma overtaken m uid a b c : plain_uid uid = true →
  GoStr.name_ok a = true → GoStr.name_ok b = true → GoStr.name_ok c = true → a ≠ b → b ≠ c →
  is_Some (moved (moved m uid (Some a) b) uid (Some a) c !! uids_key b uid).
Proof.
  intros Hu Ha Hb Hc Hab Hbc.
  assert (Hne : ∀ d, GoStr.name_ok d = true → d ≠ b → uids_key d uid ≠ uids_key b uid)
    by (intros d Hd Hdb Heq; apply uids_key_inj in Heq as [? _]; done).
  unfold moved at 1. rewrite lookup_insert_ne by (by apply Hne).
  rewrite lookup_delete_ne by (by apply Hne). rewrite lookup_insert_ne by apply ep_uids_ne.
  unfold moved. rewrite lookup_insert_eq. by eexists.
Qed.

(** *** A request that runs without interruption *)
Section alone.
Context {W : Type} `{EtcdClient W} `{Grpc W}.
Variables (fuel i : nat) (uid : string).
Abbreviation run_to := (solo (gstep (W := W) fuel) i).
Lemma call_solo {A} p (c : io (dstate W conn) A) f a s s' c' :
  gstep fuel i (GUid uid p) s = call c f s → c s = Done (a, s') → run_to (f a, s') c' →
  run_to (GUid uid p, s) c'.
Proof. intros Hg Hc Hs. eapply solo_step; [|exact Hs]. rewrite Hg. unfold call. by rewrite Hc. Qed.
Ltac one := eapply call_solo; [reflexivity|eassumption|cbv beta zeta].
Ltac finished := apply rtc_refl.
Lemma clean_solo cur node uids : ∀ s r s', clean_all uids s = Done (r, s') →
  run_to (GUid uid (UClean cur node uids), s)
    (GUid uid match r with Ok _ => ULogout cur node | Err e => UResume (fails e) end, s').
Proof.
  induction uids as [|u uids IH]; intros s r s'; cbn [clean_all].
  - intros [= <- <-]. eapply solo_step; [reflexivity|finished].
  - intros ([x|e] & s1 & Hc & Hk)%io_bind_inv.
    + one. by apply IH.
    + injection Hk as <- <-. one. finished.
Qed.
Lemma migrate_solo cur node s r s' : migrate fuel uid cur node s = Done (r, s') →
  run_to (GUid uid (UList cur node), s) (GUid uid (UResume r), s').
Proof.
  intros ([uids|e] & s1 & Hl & Hk)%io_bind_inv; [|injection Hk as <- <-; one; finished]. one.
  apply io_bind_inv in Hk as (c & s2 & Hc & Hk). apply (clean_solo cur node) in Hc. etrans; [exact Hc|].
  destruct c as [x|e]; [|injection Hk as <- <-; finished].
  apply io_bind_inv in Hk as (l & s3 & Hlog & Hk). one.
  apply io_bind_inv in Hk as (u & s4 & Hup & Hk). injection Hk as <- <-. one. finished.
Qed.
Lemma UidEndpoint_solo s r s' : UidEndpoint fuel uid s = Done (r, s') →
  run_to (GUid uid UWait, s) (GUid uid (UDone r), s').
Proof.
  intros (x & s1 & Hw & Hk)%io_bind_inv. one.
  apply io_bind_inv in Hk as (v & s2 & Hget & Hk). one. destruct v as [cur|e].
  - apply io_bind_inv in Hk as (n & s3 & Hn & Hk). one.
    destruct n as [node|e]; [|injection Hk as <- <-; finished].
    destruct (decide (node ≠ cur)); [|injection Hk as <- <-; finished].
    apply io_bind_inv in Hk as (resp & s4 & Hc & Hk). one.
    destruct (negb (serving resp)); [injection Hk as <- <-; finished|].
    apply io_bind_inv in Hk as (y & s5 & Hsu & Hk). one.
    apply io_bind_inv in Hk as (a & s6 & Hm & Hk). apply migrate_solo in Hm. etrans; [exact Hm|].
    apply io_bind_inv in Hk as (z & s7 & Hr & Hk). injection Hk as <- <-. one. finished.
  - case_decide; [|injection Hk as <- <-; finished].
    apply io_bind_inv in Hk as (a & s3 & Ha & Hk). unfold allocEndpoint in Ha.
    apply io_bind_inv in Ha as (n & s4 & Hn & Ha). one.
    destruct n as [ep|e1]; [|injection Ha as <- <-; injection Hk as <- <-; finished].
    apply io_bind_inv in Ha as (b & s5 & Hadd & Ha). one.
    destruct b as [u|e1]; injection Ha as <- <-; injection Hk as <- <-; finished.
Qed.
End alone.

(** *** Requests while the ring stands still

    Every user has the server it had at first ([home0]) or the one the ring wants
    ([node_of]).  The servers behave, whatever they hold. *)
Section still.
Context {W : Type} `{DashServices W}.
Hypothesis anything : ∀ w : W, ds_good w.
Variable fuel : nat.
Variables (r0 : hashRing) (home0 : string → option string).
Hypothesis r0_ok : RingFacts.ok r0 ∧ addedNode r0 ≠ ∅ ∧ (0 < vNodeNum r0)%Z ∧
  ∀ a, a ∈ addedNode r0 → GoStr.name_ok a = true.
Hypothesis home0_plain : ∀ uid ep, plain_uid uid = true → home0 uid = Some ep → GoStr.name_ok ep = true.
Implicit Types s : dstate W conn.

Definition node_of (uid : string) : string :=
  match ring_GetNode r0 uid with Done (Ok n) => n | _ => "" end.
Definition recorded s : string → option string := endpoint_of (kvs (services s)).
Record sok s : Prop := {
  sk_healthy : healthy (services s);
  sk_lock : kvs (services s) !! DashEpLock = None;
  sk_index : index_ok (kvs (services s));
  sk_ring : hr s = r0;
  sk_conns : conns_ok (scClientCache s);
  sk_rec uid : plain_uid uid = true → recorded s uid = home0 uid ∨ recorded s uid = Some (node_of uid);
}.
(** Who has moved stays. *)
Definition keeps s s' : Prop := ∀ uid, recorded s uid = Some (node_of uid) → recorded s' uid = Some (node_of uid).
Lemma sok_dash s : sok s → dash_ok s.
Proof.
  intros [Hh Hl Hi Hr Hc _]. destruct r0_ok as (Ho & Hn & Hv & Hp). by split; rewrite ?Hr.
Qed.
Lemma node_of_eq s uid : sok s → plain_uid uid = true →
  ring_GetNode (hr s) uid = Done (Ok (node_of uid)) ∧ GoStr.name_ok (node_of uid) = true.
Proof.
  intros Hs Hu. destruct (ring_node s uid (sok_dash s Hs) Hu) as (n & Hn & Hp). unfold node_of.
  rewrite <- (sk_ring s Hs), Hn. done.
Qed.
Lemma sok_kvs s s' : sok s → healthy (services s') → hr s' = hr s → conns_ok (scClientCache s') →
  (∀ k, dash_key k → kvs (services s') !! k = kvs (services s) !! k) → sok s' ∧ keeps s s'.
Proof.
  intros [Hh Hl Hi Hr Hc Hrec] Hh' Hr' Hc' Hk.
  assert (Hsame : ∀ uid, recorded s' uid = recorded s uid) by (intros uid; by apply endpoint_of_same).
  split; [|intros uid; by rewrite Hsame]. split; [done| | |congruence|done|].
  - by rewrite Hk.
  - by eapply index_same.
  - intros uid Hu. rewrite Hsame. auto.
Qed.
(** A user is recorded with the server the ring wants. *)
Lemma sok_moved s uid old rec w : sok s → plain_uid uid = true → healthy w →
  kvs w = moved (kvs (services s)) uid old (node_of uid) →
  (old = recorded s uid ∧ recorded s uid ≠ Some (node_of uid) ∨
   recorded s uid = Some (node_of uid) ∧ ∀ o, old = Some o → GoStr.name_ok o = true ∧ o ≠ node_of uid) →
  let s' := DS (hr s) (pauses s) rec (scClientCache s) (pcClientCache s) w in
  sok s' ∧ keeps s s' ∧ recorded s' uid = Some (node_of uid).
Proof.
  intros Hs Hu Hw Hk Hold s'. destruct (node_of_eq s uid Hs Hu) as [_ Hn].
  assert (He : ∀ u, recorded s' u = if decide (u = uid) then Some (node_of uid) else recorded s u).
  { intros u. unfold recorded, s'. simpl. rewrite Hk. apply moved_endpoint. }
  split; [split|split]; simpl.
  - done.
  - rewrite Hk, moved_lock. apply Hs.
  - rewrite Hk. destruct Hold as [[-> Hne]|[He' Ho]].
    + apply moved_index; [apply Hs|done|done|exact Hne].
    + apply moved_again; [apply Hs|done|exact He'|done].
  - apply Hs.
  - apply Hs.
  - intros u Hu'. rewrite He. case_decide; [subst; by right|]. by apply Hs.
  - intros u Hr. rewrite He. case_decide; [by subst|done].
  - rewrite He. by rewrite decide_True.
Qed.
Lemma add_eq s uid ep : healthy (services s) → kvs (services s) !! DashEpLock = None → ∃ rec w,
  addEpInfo (S fuel) uid ep s = Done (Ok tt, DS (hr s) (pauses s) rec (scClientCache s) (pcClientCache s) w) ∧
  healthy w ∧ kvs w = moved (kvs (services s)) uid None ep.
Proof.
  intros Hs Hl. destruct (atomic_ok fuel s
    [Etcd.MkKV Etcd.OP_PUT (ep_key uid) ep; Etcd.MkKV Etcd.OP_PUT (uids_key ep uid) ""])
    as (rec & w & Ha & Hw & Hk & _); [done|done| |by exists rec, w].
  repeat constructor; simpl; apply ep_lock_ne || apply uids_lock_ne.
Qed.
Lemma update_eq s uid old ep : healthy (services s) → kvs (services s) !! DashEpLock = None → ∃ rec w,
  updateEpInfo (S fuel) uid old ep s = Done (Ok tt, DS (hr s) (pauses s) rec (scClientCache s) (pcClientCache s) w) ∧
  healthy w ∧ kvs w = moved (kvs (services s)) uid (Some old) ep.
Proof.
  intros Hs Hl. destruct (atomic_ok fuel s
    [Etcd.MkKV Etcd.OP_PUT (ep_key uid) ep; Etcd.MkKV Etcd.OP_DEL (uids_key old uid) "";
     Etcd.MkKV Etcd.OP_PUT (uids_key ep uid) ""])
    as (rec & w & Ha & Hw & Hk & _); [done|done| |by exists rec, w].
  repeat constructor; simpl; apply ep_lock_ne || apply uids_lock_ne.
Qed.

Lemma update_step i uid old ep s s' : updateEpInfo (S fuel) uid old ep s = Done (Ok tt, s') →
  gstep (S fuel) i (GUid uid (UUpdate old ep)) s = Done (GUid uid (UResume (answer ep)), s').
Proof. intros Hup. simpl. unfold call. by rewrite Hup. Qed.

(** What a request knows at each point. *)
Definition good_endpoint uid s (ep : string) : Prop :=
  home0 uid = Some ep ∨ (ep = node_of uid ∧ recorded s uid = Some ep).
Definition good_reply uid s (r : reply CommonQueryResponse) : Prop := ∃ ep, r = answer ep ∧ good_endpoint uid s ep.
Definition moving uid (cur node : string) : Prop := node = node_of uid ∧ cur ≠ node ∧ home0 uid = Some cur.
Definition pc_ok uid s (p : pc) : Prop :=
  match p with
  | UWait | UGet => True
  | UAlloc => home0 uid = None
  | UAdd ep => home0 uid = None ∧ ep = node_of uid
  | UNode cur => good_endpoint uid s cur
  | UCheck cur node | USuspend cur node | UList cur node | ULogout cur node | UUpdate cur node => moving uid cur node
  | UClean cur node uids => moving uid cur node ∧ uids = []
  | UResume r | UDone r => good_reply uid s r
  end.
Lemma pc_keeps uid s s' p : keeps s s' → pc_ok uid s p → pc_ok uid s' p.
Proof.
  intros Hk. assert (He : ∀ ep, good_endpoint uid s ep → good_endpoint uid s' ep).
  { intros ep [?|[-> Hr]]; [by left|]. right. split; [done|]. by apply Hk. }
  assert (Hr : ∀ r, good_reply uid s r → good_reply uid s' r) by (intros r (ep & -> & ?); exists ep; auto).
  destruct p; simpl; auto.
Qed.
(** The steps left. *)
Definition rank_pc (p : pc) : nat :=
  match p with
  | UWait => 12 | UGet => 11 | UAlloc | UNode _ => 10 | UAdd _ | UCheck _ _ => 9 | USuspend _ _ => 8
  | UList _ _ => 7 | UClean _ _ _ => 6 | ULogout _ _ => 5 | UUpdate _ _ => 4 | UResume _ => 1 | UDone _ => 0
  end.
Definition pauses_after (uid : string) (p : pc) (m : gmap string bool) : gmap string bool :=
  match p with USuspend _ _ => Suspend.uidSuspend m uid | UResume _ => Suspend.uidResume m uid | _ => m end.
(** Between [uidSuspend] and [uidResume]. *)
Definition suspends (p : pc) : bool :=
  match p with UList _ _ | UClean _ _ _ | ULogout _ _ | UUpdate _ _ | UResume _ => true | _ => false end.
Definition suspends_after (p : pc) : bool :=
  match p with USuspend _ _ => true | UResume _ => false | _ => suspends p end.
(** The steps of a request that does not wait: the next point, and the state. *)
Definition moves_to uid p s : Prop :=
  ∃ p' s', gstep (S fuel) 0 (GUid uid p) s = Done (GUid uid p', s') ∧ sok s' ∧ keeps s s' ∧ pc_ok uid s' p' ∧
    rank_pc p' < rank_pc p ∧ pauses s' = pauses_after uid p (pauses s) ∧ suspends p' = suspends_after p.
Lemma call_moves {A} uid p s (c : io (dstate W conn) A) f a s' p' :
  gstep (S fuel) 0 (GUid uid p) s = call c f s → c s = Done (a, s') → f a = GUid uid p' →
  sok s' ∧ keeps s s' → pc_ok uid s' p' → rank_pc p' < rank_pc p →
  pauses s' = pauses_after uid p (pauses s) → suspends p' = suspends_after p → moves_to uid p s.
Proof.
  intros Hg Hc Hf [Hs Hk] Hp Hr Hpa Hsu. exists p', s'. rewrite Hg. unfold call. rewrite Hc. simpl. by rewrite Hf.
Qed.
Lemma still s : sok s → sok s ∧ keeps s s.
Proof. by split; [|intros uid]. Qed.
(** A call on a search server. *)
Lemma sc_moves {Q R} uid p s (rpc : conn → Q → W → result R * W) ep q f p' :
  (∀ c w, ds_conn ep c → healthy w → ds_good w → same w (rpc c q w).2) →
  gstep (S fuel) 0 (GUid uid p) s = call (sc_call (λ e, CliManager.method CliManager.newSCServerCli rpc e) ep q) f s →
  sok s → (∀ r, f r = GUid uid (p' r)) → (∀ r s', keeps s s' → pc_ok uid s' (p' r)) →
  (∀ r, rank_pc (p' r) < rank_pc p) → pauses_after uid p (pauses s) = pauses s →
  (∀ r, suspends (p' r) = suspends_after p) → moves_to uid p s.
Proof.
  intros Hrpc Hg Hs Hf Hp Hr Hpa Hsu.
  destruct (method_ok rpc (λ _, True) ep q (scClientCache s) (services s)) as (r & m & w & Hm & [Hw Hk] & _ & Hc & _);
    [intros c w Hc Hw Hgd; split_and!; [by apply Hrpc|apply anything|done]|apply (sk_conns s Hs)|apply Hs|apply anything|].
  set (s' := DS (hr s) (pauses s) (lockRecord s) m (pcClientCache s) w).
  assert (sok s' ∧ keeps s s') as [Hs' Hks] by (by apply sok_kvs).
  eapply (call_moves uid p s _ f r s' (p' r)); [exact Hg|unfold sc_call; by rewrite Hm|apply Hf|done|by apply Hp|apply Hr|done|apply Hsu].
Qed.
Lemma read_moves s uid : sok s → plain_uid uid = true → moves_to uid UGet s.
Proof.
  intros Hs Hu. destruct (read_ok s uid (sok_dash s Hs)) as (w & Hread & Hd & Hk).
  assert (sok (read_state s w) ∧ keeps s (read_state s w)) as Hs'.
  { apply sok_kvs; [done|apply Hd|done|apply Hs|]. intros k _. simpl. by rewrite Hk. }
  pose proof (sk_rec s Hs uid Hu) as Hrec. unfold recorded in Hrec.
  destruct (endpoint_of (kvs (services s)) uid) as [cur|] eqn:He.
  - eapply (call_moves uid UGet s _ _ _ _ (UNode cur) eq_refl Hread); [done|done| |simpl; lia|done|done].
    destruct Hrec as [Hh|[= Hn]]; [by left|right]. split; [done|]. unfold recorded. simpl. by rewrite Hk.
  - eapply (call_moves uid UGet s _ _ _ _ UAlloc eq_refl Hread); [by rewrite decide_True|done| |simpl; lia|done|done].
    by destruct Hrec.
Qed.
Lemma node_moves s uid cur : sok s → plain_uid uid = true → good_endpoint uid s cur → moves_to uid (UNode cur) s.
Proof.
  intros Hs Hu Hcur. destruct (node_of_eq s uid Hs Hu) as [Hn _].
  pose proof (node_eq s s uid (node_of uid) Hn eq_refl) as Hg. destruct (decide (node_of uid = cur)) as [He|Hne].
  - eapply (call_moves uid (UNode cur) s _ _ _ _ (UDone (answer cur)) eq_refl Hg);
      [by rewrite decide_False by (intros []; done)|by apply still|by exists cur|simpl; lia|done|done].
  - eapply (call_moves uid (UNode cur) s _ _ _ _ (UCheck cur (node_of uid)) eq_refl Hg);
      [by rewrite decide_True|by apply still| |simpl; lia|done|done].
    destruct Hcur as [Hh|[-> _]]; [|done]. by split_and!.
Qed.
Lemma add_moves s uid : sok s → plain_uid uid = true → home0 uid = None → moves_to uid (UAdd (node_of uid)) s.
Proof.
  intros Hs Hu Hh. destruct (add_eq s uid (node_of uid) (sk_healthy s Hs) (sk_lock s Hs)) as (rec & w & Hadd & Hw & Hk).
  destruct (sok_moved s uid None rec w Hs Hu Hw Hk) as (Hs' & Hkeep & Hr).
  { destruct (sk_rec s Hs uid Hu) as [Hr|Hr]; [left; rewrite Hr, Hh|by right]. done. }
  eapply (call_moves uid (UAdd (node_of uid)) s _ _ _ _ (UDone (answer (node_of uid))) eq_refl Hadd);
    [done|done| |simpl; lia|done|done].
  exists (node_of uid). split; [done|]. by right.
Qed.
Lemma update_moves s uid cur : sok s → plain_uid uid = true → home0 uid = Some cur → cur ≠ node_of uid →
  moves_to uid (UUpdate cur (node_of uid)) s.
Proof.
  intros Hs Hu Hh Hne. destruct (update_eq s uid cur (node_of uid) (sk_healthy s Hs) (sk_lock s Hs)) as (rec & w & Hup & Hw & Hk).
  assert (Hcur : recorded s uid = Some cur → GoStr.name_ok cur = true)
    by (intros Hr; by eapply (idx_plain _ (sk_index s Hs))).
  destruct (sok_moved s uid (Some cur) rec w Hs Hu Hw Hk) as (Hs' & Hkeep & Hr).
  { destruct (sk_rec s Hs uid Hu) as [Hr|Hr]; [left; rewrite Hr, Hh; split; congruence|right].
    split; [done|]. intros o [= <-]. split; [|done]. by apply (home0_plain uid). }
  eapply (call_moves uid (UUpdate cur (node_of uid)) s _ _ _ _ (UResume (answer (node_of uid))) eq_refl Hup);
    [done|done| |simpl; lia|done|done].
  exists (node_of uid). split; [done|]. by right.
Qed.
Lemma uid_moves uid p s : sok s → plain_uid uid = true → pc_ok uid s p → (∀ r, p ≠ UDone r) →
  (p = UWait → Suspend.uidSuspensive (pauses s) uid = false) → moves_to uid p s.
Proof.
  intros Hs Hu Hp Hd Hw. destruct p as [| | |ep|cur|cur node|cur node|cur node|cur node uids|cur node|cur node|r|r];
    simpl in Hp.
  - eapply (call_moves uid UWait s _ _ _ _ UGet eq_refl (wait_free s uid (Hw eq_refl)));
      [done|by apply still|done|simpl; lia|done|done].
  - by apply read_moves.
  - destruct (node_of_eq s uid Hs Hu) as [Hn _].
    eapply (call_moves uid UAlloc s _ _ _ _ (UAdd (node_of uid)) eq_refl (node_eq s s uid _ Hn eq_refl));
      [done|by apply still|done|simpl; lia|done|done].
  - destruct Hp as [Hh ->]. by apply add_moves.
  - by apply node_moves.
  - eapply (sc_moves uid (UCheck cur node) s rpc_Check node (MkHealthCheckRequest "") _
      (λ r, if negb (serving r) then UDone (answer cur) else USuspend cur node)); [|reflexivity|done|done| | |done|].
    + intros c w Hc Hwh Hg. by apply (ds_Check node c (MkHealthCheckRequest "") w).
    + intros r s' _. destruct (negb (serving r)); [|done]. exists cur. split; [done|]. left. apply Hp.
    + intros r. destruct (negb (serving r)); simpl; lia.
    + intros r. by destruct (negb (serving r)).
  - eapply (call_moves uid (USuspend cur node) s _ _ tt _ (UList cur node) eq_refl eq_refl);
      [done| |done|simpl; lia|done|done]. by apply sok_kvs; [done|apply Hs|done|apply Hs|].
  - destruct Hp as (-> & Hne & Hh).
    destruct (list_none (GoStr.Sprintf DashUidsQueryFormat [cur]) (services s)) as (w & Hl & [Hwh Hk] & _);
      [apply Hs|apply anything| |].
    { intros k Hk. eapply missing_matches_none; [apply Hs|by apply (home0_plain uid)|done]. }
    eapply (call_moves uid (UList cur (node_of uid)) s _ _ (Ok [])
      (read_state s w) (UClean cur (node_of uid) []) eq_refl); [unfold svc; by rewrite Hl|done| |done|simpl; lia|done|done].
    by apply sok_kvs; [done|done|done|apply Hs|].
  - destruct Hp as [Hp ->]. exists (ULogout cur node), s. split; [reflexivity|]. destruct (still s Hs).
    split_and!; try done. simpl. lia.
  - eapply (sc_moves uid (ULogout cur node) s rpc_UidLogout cur (MkUidLogoutRequest uid) _
      (λ _, UUpdate cur node)); [|reflexivity|done|done|done|simpl; lia|done|done].
    intros c w Hc Hwh Hg. by apply (ds_UidLogout cur c (MkUidLogoutRequest uid) w).
  - destruct Hp as (-> & Hne & Hh). by apply update_moves.
  - eapply (call_moves uid (UResume r) s _ _ tt _ (UDone r) eq_refl eq_refl); [done| | |simpl; lia|done|done].
    + by apply sok_kvs; [done|apply Hs|done|apply Hs|].
    + exact Hp.
  - by destruct (Hd r).
Qed.

(** *** The process *)
Definition still_fresh (g : goroutine) : Prop := ∃ uid, g = GUid uid UWait ∧ plain_uid uid = true.
Record pinv (x : proc W) : Prop := {
  pi_state : sok (sh x);
  pi_gor i g : gs x !! i = Some g → ∃ uid p, g = GUid uid p ∧ plain_uid uid = true ∧ pc_ok uid (sh x) p;
  pi_pause uid : Suspend.uidSuspensive (pauses (sh x)) uid = true →
    ∃ i p, gs x !! i = Some (GUid uid p) ∧ suspends p = true;
}.
Implicit Types x : proc W.
Lemma pinv_spawn x g : pinv x → still_fresh g → pinv (Pool (sh x) (gs x ++ [g])).
Proof.
  intros [Hs Hg Hp] (uid & -> & Hu). split; [done|..]; simpl.
  - intros i g [Hi| ->]%lookup_spawned; [by eapply Hg|]. by exists uid, UWait.
  - intros u (i & p & Hi & Hsu)%Hp. exists i, p. split; [by apply lookup_app_l_Some|done].
Qed.
Lemma moved_pinv x i uid p p' s' : pinv x → gs x !! i = Some (GUid uid p) →
  sok s' → keeps (sh x) s' → pc_ok uid s' p' → pauses s' = pauses_after uid p (pauses (sh x)) →
  suspends p' = suspends_after p → pinv (Pool s' (<[i := GUid uid p']> (gs x))).
Proof.
  intros [Hs Hg Hp] Hi Hs' Hk Hpc Hpa Hsu. split; [done|..]; simpl.
  - intros j g [[-> ->]|[_ Hj]]%(lookup_moved _ _ _ _ _ _ Hi).
    + destruct (Hg i _ Hi) as (u & q & [= <- <-] & Hu & _). by exists uid, p'.
    + destruct (Hg j g Hj) as (u & q & -> & Hu & Hq). exists u, q. split_and!; [done|done|by eapply pc_keeps].
  - intros u Hsusp. rewrite Hpa in Hsusp.
    assert (Hself : u = uid → suspends p' = true → ∃ k q, <[i := GUid uid p']> (gs x) !! k = Some (GUid u q) ∧ suspends q = true).
    { intros -> Ht. exists i, p'. split; [by eapply lookup_self|done]. }
    assert (Hother : Suspend.uidSuspensive (pauses (sh x)) u = true → p' = p' →
      (u = uid → suspends p = true → suspends p' = true) →
      ∃ k q, <[i := GUid uid p']> (gs x) !! k = Some (GUid u q) ∧ suspends q = true).
    { intros (k & q & Hk' & Hq)%Hp _ Hsame. destruct (decide (k = i)) as [->|Hne].
      - rewrite Hi in Hk'. injection Hk' as <- <-. apply Hself; [done|by apply Hsame].
      - exists k, q. split; [by rewrite list_lookup_insert_ne|done]. }
    destruct p; simpl in Hsusp, Hsu; try (apply Hother; [done|done|by rewrite Hsu]).
    + unfold Suspend.uidSuspensive, Suspend.uidSuspend in Hsusp. rewrite lookup_insert in Hsusp.
      case_decide; [by apply Hself|]. by apply Hother; [|done|intros ?; congruence].
    + unfold Suspend.uidSuspensive, Suspend.uidResume in Hsusp. rewrite lookup_delete in Hsusp.
      case_decide; [done|]. by apply Hother; [|done|intros ?; congruence].
Qed.
(** The goroutine at [i] is not blocked. *)
Definition can_move uid p s : Prop :=
  (∀ r, p ≠ UDone r) ∧ (p = UWait → Suspend.uidSuspensive (pauses s) uid = false).
Lemma moves_can i uid p s g' s' : gstep (S fuel) i (GUid uid p) s = Done (g', s') → can_move uid p s.
Proof.
  intros Hs. split; [by intros r ->|intros ->]. revert Hs. simpl. unfold call, Dash.waitUid. simpl.
  by destruct (Suspend.uidSuspensive _ _).
Qed.
Lemma pinv_moves x i uid p : pinv x → gs x !! i = Some (GUid uid p) → can_move uid p (sh x) →
  ∃ p' s', gstep (S fuel) i (GUid uid p) (sh x) = Done (GUid uid p', s') ∧ rank_pc p' < rank_pc p ∧
    pinv (Pool s' (<[i := GUid uid p']> (gs x))).
Proof.
  intros Hx Hi [Hd Hw]. destruct (pi_gor x Hx i _ Hi) as (u & q & [= <- <-] & Hu & Hp).
  destruct (uid_moves uid p (sh x) (pi_state x Hx) Hu Hp Hd Hw)
    as (p' & s' & Hs & Hs' & Hk & Hp' & Hr & Hpa & Hsu).
  exists p', s'. split; [exact Hs|]. split; [done|]. by eapply moved_pinv.
Qed.
Lemma pinv_sched x i g g' s' : pinv x → gs x !! i = Some g → gstep (S fuel) i g (sh x) = Done (g', s') →
  pinv (Pool s' (<[i := g']> (gs x))).
Proof.
  intros Hx Hi Hs. destruct (pi_gor x Hx i g Hi) as (uid & p & -> & _ & _).
  destruct (pinv_moves x i uid p Hx Hi (moves_can _ _ _ _ _ _ Hs)) as (p' & s1 & Hs1 & _ & Hx').
  rewrite Hs in Hs1. by injection Hs1 as -> ->.
Qed.
Definition rank (g : goroutine) : nat := match g with GUid _ p => rank_pc p | GRing _ d => Nat.b2n (negb d) end.
Definition finished (g : goroutine) : bool :=
  match g with GUid _ (UDone _) => true | GUid _ _ => false | GRing _ d => d end.
(** The users in the table wait for somebody who can move. *)
Lemma some_request_moves x i g : pinv x → gs x !! i = Some g → finished g = false →
  ∃ j h h' s', gs x !! j = Some h ∧ gstep (S fuel) j h (sh x) = Done (h', s') ∧ rank h' < rank h ∧
    pinv (Pool s' (<[j := h']> (gs x))).
Proof.
  intros Hx Hi Hf. destruct (pi_gor x Hx i g Hi) as (uid & p & -> & _ & _).
  assert (∃ j q, gs x !! j = Some (GUid uid q) ∧ can_move uid q (sh x)) as (j & q & Hj & Hq).
  { destruct (Suspend.uidSuspensive (pauses (sh x)) uid) eqn:Hsu.
    - destruct (pi_pause x Hx uid Hsu) as (j & q & Hj & Hq). exists j, q. split; [done|].
      split; [by intros r ->|by intros ->].
    - exists i, p. split; [done|]. by split; [intros r ->|]. }
  destruct (pinv_moves x j uid q Hx Hj Hq) as (q' & s' & Hs & Hr & Hx'). by exists j, (GUid uid q), (GUid uid q'), s'.
Qed.
End still.

(** *** From a state of its own, with no request under way *)
Section started.
Context {W : Type} `{DashServices W}.
Hypothesis anything : ∀ w : W, ds_good w.
Variables (fuel : nat) (s0 : dstate W conn).
Hypothesis s0_ok : dash_ok s0.
Abbreviation home0 := (recorded s0).
Abbreviation pinv0 := (pinv (hr s0) home0).
Lemma s0_ring : RingFacts.ok (hr s0) ∧ addedNode (hr s0) ≠ ∅ ∧ (0 < vNodeNum (hr s0))%Z ∧
  ∀ a, a ∈ addedNode (hr s0) → GoStr.name_ok a = true.
Proof. by destruct s0_ok. Qed.
Lemma s0_home uid ep : plain_uid uid = true → home0 uid = Some ep → GoStr.name_ok ep = true.
Proof. apply s0_ok. Qed.
Lemma s0_pinv : pauses s0 = ∅ → pinv0 (Pool s0 []).
Proof.
  intros Hp. split; simpl.
  - destruct s0_ok. split; try done. by left.
  - intros i g Hi. done.
  - intros uid. rewrite Hp. unfold Suspend.uidSuspensive. by rewrite lookup_empty.
Qed.
Lemma started_pinv es x : pauses s0 = ∅ → Forall (event_ok still_fresh) es →
  steps (gstep (S fuel)) es (Pool s0 []) = Done x → pinv0 x.
Proof.
  intros Hp. apply (steps_keep _ still_fresh); [|intros y i g g' s'|by apply s0_pinv].
  - intros y g. apply pinv_spawn.
  - by apply pinv_sched; [|apply s0_ring|apply s0_home].
Qed.
Lemma node_of_ring x uid : pinv0 x → plain_uid uid = true → ring_GetNode (hr s0) uid = Done (Ok (node_of (hr s0) uid)).
Proof.
  intros Hx Hu. pose proof (pi_state _ _ x Hx) as Hs. rewrite <- (sk_ring _ _ _ Hs) at 1.
  by apply (node_of_eq anything _ home0 s0_ring _ _ Hs).
Qed.
End started.
End DashConcFacts.


(** ** Theorems about the goroutines of a dash server *)
Module DashConcTheorems.
Import Dash DashFacts DashConc DashConcFacts.
Section theorems.
Context {W : Type} `{DashServices W}.

(** C9. Any number of requests of any users, in any interleaving, while the ring
    stands still: in every reachable state the map of users and its index agree,
    the lock is free, every user has the server it had or the ring's, and every
    request that is done answered with one of the two; a request that answered
    with the ring's server has recorded it. *)
Theorem concurrent_lookups_agree fuel (s0 : dstate W conn) es x :
  (∀ w : W, ds_good w) → dash_ok s0 → pauses s0 = ∅ → Forall (event_ok still_fresh) es →
  steps (gstep (S fuel)) es (Pool s0 []) = Done x →
  index_ok (kvs (services (sh x))) ∧ kvs (services (sh x)) !! DashEpLock = None ∧
  (∀ uid, plain_uid uid = true → ∃ node, ring_GetNode (hr s0) uid = Done (Ok node) ∧
    (recorded (sh x) uid = recorded s0 uid ∨ recorded (sh x) uid = Some node)) ∧
  ∀ i uid r, gs x !! i = Some (GUid uid (UDone r)) → ∃ ep, r = answer ep ∧
    (recorded s0 uid = Some ep ∨ ring_GetNode (hr s0) uid = Done (Ok ep) ∧ recorded (sh x) uid = Some ep).
Proof.
  intros Hw Hs0 Hp Hes Hx. pose proof (started_pinv Hw fuel s0 Hs0 es x Hp Hes Hx) as Hi.
  split_and!; [apply Hi|apply Hi| |].
  - intros uid Hu. exists (node_of (hr s0) uid). split; [by eapply node_of_ring|]. by apply Hi.
  - intros i uid r Hg. destruct (pi_gor _ _ x Hi i _ Hg) as (u & p & [= <- <-] & Hu & ep & -> & He).
    exists ep. split; [done|]. destruct He as [?|[-> ?]]; [by left|right]. split; [by eapply node_of_ring|done].
Qed.

(** C10. They all finish: from every state reached in this way the requests under
    way can run to their end within the steps [total] counts, those that wait for a
    suspended user included. *)
Theorem lookups_finish fuel (s0 : dstate W conn) es x :
  (∀ w : W, ds_good w) → dash_ok s0 → pauses s0 = ∅ → Forall (event_ok still_fresh) es →
  steps (gstep (S fuel)) es (Pool s0 []) = Done x →
  ∃ js y, length js ≤ total rank (gs x) ∧ steps (gstep (S fuel)) (Sched <$> js) x = Done y ∧
    length (gs y) = length (gs x) ∧ ∀ i g, gs y !! i = Some g → finished g = true.
Proof.
  intros Hw Hs0 Hp Hes Hx. apply (all_finish _ rank finished (pinv (hr s0) (recorded s0))); [|by eapply started_pinv].
  intros y i g. apply (some_request_moves Hw); [by apply s0_ring|by apply s0_home].
Qed.


(** C39. When the ring changes between two requests of a user whom both are going
    to move, the index loses its agreement with the map: both requests delete the
    entry of the user under the first server, so that the entry the first of them
    makes stays, while the map has the server of the second. *)
Theorem ring_change_breaks_index fuel (x : proc W) i j uid a b c :
  healthy (services (sh x)) → kvs (services (sh x)) !! DashEpLock = None →
  gs x !! i = Some (GUid uid (UUpdate a b)) → gs x !! j = Some (GUid uid (UUpdate a c)) →
  plain_uid uid = true → GoStr.name_ok a = true → GoStr.name_ok b = true → GoStr.name_ok c = true →
  a ≠ b → b ≠ c →
  ∃ y, steps (gstep (S fuel)) [Sched i; Sched j] x = Done y ∧ recorded (sh y) uid = Some c ∧
    is_Some (kvs (services (sh y)) !! uids_key b uid) ∧ ¬ index_ok (kvs (services (sh y))).
Proof.
  intros Hh Hl Hi Hj Hu Ha Hb Hc Hab Hbc.
  destruct (update_eq fuel (sh x) uid a b Hh Hl) as (rec & w & Hup & Hw & Hk).
  set (s1 := DS _ _ _ _ _ w) in Hup.
  destruct (update_eq fuel s1 uid a c Hw) as (rec' & w' & Hup' & _ & Hk'); [simpl; by rewrite Hk, moved_lock|].
  assert (i ≠ j) as Hij by (intros ->; congruence).
  eexists. split.
  { cbn -[gstep]. rewrite Hi. rewrite (update_step _ _ _ _ _ _ _ Hup). cbn -[gstep].
    rewrite list_lookup_insert_ne by done. rewrite Hj, (update_step _ _ _ _ _ _ _ Hup'). reflexivity. }
  cbn [sh gs services]. assert (Hrec : endpoint_of (kvs w') uid = Some c)
    by (rewrite Hk', moved_endpoint; by rewrite decide_True).
  assert (Hidx : is_Some (kvs w' !! uids_key b uid)).
  { rewrite Hk'. simpl. rewrite Hk. by apply overtaken. }
  split_and!; [done|done|]. intros Hidx'. apply (idx_agree _ Hidx') in Hidx; [congruence|done|done].
Qed.

(** The table of suspended users does not count: when two requests move the same
    user, the end of one lets a third pass [waitUid] while the other still moves it. *)
Theorem resume_ends_every_suspension fuel (x : proc W) i j k uid r q :
  gs x !! i = Some (GUid uid (UResume r)) → gs x !! j = Some (GUid uid q) → suspends q = true →
  gs x !! k = Some (GUid uid UWait) → i ≠ j →
  ∃ y, steps (gstep fuel) [Sched i; Sched k] x = Done y ∧
    gs y !! j = Some (GUid uid q) ∧ gs y !! k = Some (GUid uid UGet).
Proof.
  intros Hi Hj Hq Hk Hij. assert (i ≠ k ∧ j ≠ k) as [Hik Hjk] by (split; intros ->; simplify_eq/=).
  eexists. split.
  { cbn -[waitUid]. rewrite Hi. cbn -[waitUid]. rewrite list_lookup_insert_ne by done. rewrite Hk. cbn -[waitUid].
    unfold call. rewrite wait_free; [reflexivity|].
    unfold Suspend.uidSuspensive, Suspend.uidResume. simpl. by rewrite lookup_delete_eq. }
  simpl. rewrite list_lookup_insert_ne by done. rewrite list_lookup_insert_ne by done. split; [done|].
  apply list_lookup_insert_eq. rewrite length_insert. by eapply lookup_lt_Some.
Qed.
End theorems.

(** *** Witnesses: etcd in memory, servers that answer, one node in the ring *)
Import MemEtcd.
#[local] Existing Instances DashTheorems.mem_grpc DashTheorems.mem_services.
Definition ex_ring_of (a : string) : hashRing :=
  match HashRing.AddNode RingProbe.probe_bound RingTheorems.ex_ring a with Some (Ok _, r) => r | _ => RingTheorems.ex_ring end.
(** The user alice has a server that left. *)
Definition ex_s0 : dstate mem conn :=
  DS (ex_ring_of "[::]:8083") ∅ ∅ ∅ ∅ (Mem DashTheorems.ex_map ∅ []).
Lemma ex_s0_ok : dash_ok ex_s0.
Proof.
  destruct RingTheorems.ex_add as (r & Hadd & Hok & Hin & Hv & _).
  assert (ex_ring_of "[::]:8083" = r) as Hr by (unfold ex_ring_of; rewrite Hadd; reflexivity).
  unfold ex_s0. rewrite Hr. clear Hadd Hr. split; simpl; try done.
  - apply DashTheorems.ex_map_ok.
  - rewrite Hin. apply non_empty_singleton_L.
  - intros a. rewrite Hin. by intros ->%elem_of_singleton.
  - by rewrite Hv.
Qed.
Definition ex_after (es : list (event goroutine)) : proc mem :=
  match steps (gstep 1) es (Pool ex_s0 []) with Done x => x | _ => Pool ex_s0 [] end.
Definition is_done {A} (o : outcome A) : bool := match o with Done _ => true | _ => false end.
Lemma ex_run es : is_done (steps (gstep 1) es (Pool ex_s0 [])) = true →
  steps (gstep 1) es (Pool ex_s0 []) = Done (ex_after es).
Proof. unfold ex_after. by destruct (steps _ _ _). Qed.
(** Two requests of alice pass [waitUid]; the first suspends her; a third waits;
    bob's request finishes in between. *)
Definition ex_busy : list (event goroutine) :=
  [Spawn (GUid "alice" UWait); Spawn (GUid "alice" UWait); Sched 0; Sched 1; Sched 0; Sched 0; Sched 0; Sched 0;
   Spawn (GUid "alice" UWait); Spawn (GUid "bob" UWait); Sched 3; Sched 3; Sched 3; Sched 3].
Lemma ex_busy_fresh : Forall (event_ok still_fresh) ex_busy.
Proof. repeat constructor; simpl; by eexists. Qed.
Lemma ex_busy_done : steps (gstep 1) ex_busy (Pool ex_s0 []) = Done (ex_after ex_busy).
Proof. apply ex_run. vm_compute. done. Qed.

Lemma concurrent_lookups_agree_witness :
  gs (ex_after ex_busy) !! 3 = Some (GUid "bob" (UDone (answer "[::]:8083"))) ∧
  index_ok (kvs (services (sh (ex_after ex_busy)))) ∧
  kvs (services (sh (ex_after ex_busy))) !! DashEpLock = None ∧
  (∀ uid, plain_uid uid = true → ∃ node, ring_GetNode (hr ex_s0) uid = Done (Ok node) ∧
    (recorded (sh (ex_after ex_busy)) uid = recorded ex_s0 uid ∨ recorded (sh (ex_after ex_busy)) uid = Some node)) ∧
  ∀ i uid r, gs (ex_after ex_busy) !! i = Some (GUid uid (UDone r)) → ∃ ep, r = answer ep ∧
    (recorded ex_s0 uid = Some ep ∨
     ring_GetNode (hr ex_s0) uid = Done (Ok ep) ∧ recorded (sh (ex_after ex_busy)) uid = Some ep).
Proof.
  split; [vm_compute; reflexivity|].
  apply (concurrent_lookups_agree 0 ex_s0 ex_busy); [done|exact ex_s0_ok|done|exact ex_busy_fresh|exact ex_busy_done].
Defined.
Lemma lookups_finish_witness :
  uid_step 1 "alice" UWait (sh (ex_after ex_busy)) = Block ∧ total rank (gs (ex_after ex_busy)) = 30 ∧
  ∃ js y, length js ≤ total rank (gs (ex_after ex_busy)) ∧ steps (gstep 1) (Sched <$> js) (ex_after ex_busy) = Done y ∧
    length (gs y) = length (gs (ex_after ex_busy)) ∧ ∀ i g, gs y !! i = Some g → finished g = true.
Proof.
  split; [vm_compute; reflexivity|]. split; [vm_compute; reflexivity|].
  apply (lookups_finish 0 ex_s0 ex_busy); [done|exact ex_s0_ok|done|exact ex_busy_fresh|exact ex_busy_done].
Defined.
Definition ex_answered : option (reply CommonQueryResponse * dstate mem conn) :=
  match UidEndpoint 1 "alice" ex_s0 with Done a => Some a | _ => None end.
(** A request of alice is about to move her to ":8083" when that server leaves and
    another joins; a request that passed [waitUid] with the first moves her there. *)
Definition ex_race : list (event goroutine) :=
  [Spawn (GUid "alice" UWait); Spawn (GUid "alice" UWait); Spawn (GRing (ex_ring_of "[::]:8084") false);
   Sched 0; Sched 1] ++ replicate 7 (Sched 0) ++ [Sched 2] ++ replicate 7 (Sched 1).
Lemma ring_change_breaks_index_witness :
  steps (gstep 1) ex_race (Pool ex_s0 []) = Done (ex_after ex_race) ∧
  ∃ y, steps (gstep 1) [Sched 0; Sched 1] (ex_after ex_race) = Done y ∧ recorded (sh y) "alice" = Some "[::]:8084" ∧
    is_Some (kvs (services (sh y)) !! uids_key "[::]:8083" "alice") ∧ ¬ index_ok (kvs (services (sh y))).
Proof.
  split; [apply ex_run; vm_compute; reflexivity|].
  apply (ring_change_breaks_index 0 (ex_after ex_race) 0 1 "alice" "[::]:9000" "[::]:8083" "[::]:8084");
    [vm_compute; reflexivity..|discriminate|discriminate].
Defined.
End DashConcTheorems.
