(* ===== verification/Proxy.v ===== *)
(** * server/server.go: the proxy

    Module [Proxy] is [ProxyServer] and [ProxyController]: requests are forwarded
    to the search server of the user, found in the endpoint cache or asked from
    the dash leader, and retried after connection errors. *)

From S2P Require Import Prelude GoStr Etcd Elect Proto Caches Server.
#[local] Open Scope Z_scope.

(** The state of a proxy process: [uidEndpointsCache], [proxyReqCount], the
    clients, and the network. *)
Record pstate (W C : Type) := PS {
  cache : gmap string scNode;
  reqCount : Z;
  endpointClis : gmap string C;
  dashClis : gmap string C;
  net : W;
}.
Arguments PS {W C} _ _ _ _ _.
Arguments cache {W C} _.
Arguments reqCount {W C} _.
Arguments endpointClis {W C} _.
Arguments dashClis {W C} _.
Arguments net {W C} _.

(** [atomic.AddInt32] wraps. *)
Definition int32 (x : Z) : Z := (x + 2 ^ 31) mod 2 ^ 32 - 2 ^ 31.
Definition in_int32 (x : Z) : Prop := - 2 ^ 31 ≤ x < 2 ^ 31.

Module Proxy.
Definition checkConnErr (e : error) : bool :=
  GoStr.Contains (error_text e) "connection error".
Definition checkLeaderUnavailableErr (e : error) : bool :=
  GoStr.Contains (error_text e) (error_text ErrNotLeader).

Section proxy.
Context {W : Type} `{EtcdClient W} `{Grpc W} `{Clock W}.
Abbreviation P := (io (pstate W conn)).

Definition svc {A} (c : W → A * W) : P A := λ s,
  let '(a, w) := c (net s) in
  Done (a, PS (cache s) (reqCount s) (endpointClis s) (dashClis s) w).
Definition set_cache (c : gmap string scNode) : P unit := λ s,
  Done (tt, PS c (reqCount s) (endpointClis s) (dashClis s) (net s)).
Definition AddInt32 (d : Z) : P unit := λ s,
  Done (tt, PS (cache s) (int32 (reqCount s + d)) (endpointClis s) (dashClis s) (net s)).
Definition sleep (d : Z) : P unit := svc (λ w, (tt, Sleep d w)).

(** [dashCliManager.UidEndpoint] *)
Definition dsm_UidEndpoint (q : CommonQueryRequest) : P (result CommonQueryResponse) :=
  do r <- svc (Elect.GetElectorID DashLeaderKey) ;;
  match r with
  | Err e => mret (Err e)
  | Ok endpoint => λ s,
    run (r, cs, w) <- CliManager.method CliManager.newDSServerCli rpc_UidEndpoint endpoint q
                        (dashClis s) (net s) ;;
    Done (r, PS (cache s) (reqCount s) (endpointClis s) cs w)
  end.

Definition uidEndpoint (uid : string) : P (result string) :=
  do s <- get_st ;;
  let '(ep, c) := StalingCache.Get (Now (net s)) (cache s) uid in
  do _ <- set_cache c ;;
  match ep with
  | Some ep => mret (Ok ep)
  | None =>
    do r <- dsm_UidEndpoint (MkCommonQueryRequest uid) ;;
    match r with
    | Err e => mret (Err e)
    | Ok resp =>
      do s <- get_st ;;
      do _ <- set_cache (StalingCache.Put (Now (net s)) (cache s) uid (q_Resp resp)) ;;
      mret (Ok (q_Resp resp))
    end
  end.

(** [for err != nil]: at most [fuel] times; [Block] when they do not suffice. *)
Fixpoint wait_endpoint (fuel : nat) (uid : string) : P (result string) :=
  match fuel with
  | O => block
  | S fuel =>
    do r <- uidEndpoint uid ;;
    match r with
    | Ok endpoint => mret (Ok endpoint)
    | Err e =>
      if negb (checkLeaderUnavailableErr e) then mret (Err e)
      else do _ <- sleep Second ;; wait_endpoint fuel uid
    end
  end.

(** The variables a [dealFunc] captures are part of the state. *)
Context {V : Type}.
Definition lift_p {A} (c : P A) : io (pstate W conn * V) A := λ sv,
  run (a, s) <- c sv.1 ;; Done (a, (s, sv.2)).
(** [dealFunc p endpoint]: the error, or nil. *)
Definition dealFunction : Type := string → string → io (pstate W conn * V) (option error).

(** [ctx] is the address of the peer, if the context has one; the decrement of
    the request count is deferred.  [fuel] bounds the retries. *)
Fixpoint doProxy (fuel : nat) (ctx : option string) (uid : string) (dealFunc : dealFunction)
    : io (pstate W conn * V) (result unit) :=
  match fuel with
  | O => block
  | S fuel =>
    do endpoint <- lift_p (wait_endpoint (S fuel) uid) ;;
    match endpoint with
    | Err e => mret (Err e)
    | Ok endpoint =>
      do _ <- lift_p (AddInt32 1) ;;
      do r <- match ctx with
        | None => mret (Err (Errorf "Can't get ip from peer"))
        | Some p =>
          do err <- dealFunc p endpoint ;;
          match err with
          | None => mret (Ok tt)
          | Some e =>
            if negb (checkConnErr e) then mret (Err e)
            else
              do _ <- lift_p (AddInt32 (-1)) ;;
              do s <- get_st ;;
              do _ <- lift_p (set_cache (StalingCache.Del (cache s.1) uid)) ;;
              do _ <- lift_p (sleep Second) ;;
              do _ <- doProxy fuel ctx uid dealFunc ;;
              do _ <- lift_p (AddInt32 1) ;;
              mret (Ok tt)
          end
        end ;;
      do _ <- lift_p (AddInt32 (-1)) ;;
      mret r
    end
  end.
End proxy.

Section handlers.
Context {W : Type} `{EtcdClient W} `{Grpc W} `{Clock W}.
Abbreviation P := (io (pstate W conn)).

(** A call of [endpointCliManager]; the captured [resp, err] are assigned, and
    [err] is returned. *)
Definition deal {Q R} (rpc : conn → Q → W → result R * W) (set_addr : Q → string → Q) (req : Q)
    : dealFunction (V := reply R) := λ p endpoint sv,
  run (r, cs, w) <- CliManager.method CliManager.newSearchServerCli rpc endpoint (set_addr req p)
                      (endpointClis sv.1) (net sv.1) ;;
  let '(resp, err) := match r with Ok a => (Some a, None) | Err e => (None, Some e) end in
  Done (err, (PS (cache sv.1) (reqCount sv.1) cs (dashClis sv.1) w, (resp, err))).
(** [var resp, err; if e := ps.doProxy(..); e != nil { return nil, e }; return resp, nil] *)
Definition handler {Q R} (fuel : nat) (ctx : option string) (uid : string)
    (rpc : conn → Q → W → result R * W) (set_addr : Q → string → Q) (req : Q) : P (reply R) := λ s,
  run (e, (s, (resp, _))) <- doProxy fuel ctx uid (deal rpc set_addr req) (s, (None, None)) ;;
  Done (match e with Err e => (None, Some e) | Ok _ => (resp, None) end, s).

Definition Search (fuel : nat) (ctx : option string) (req : SearchRequest) : P (reply SearchResponse) :=
  handler fuel ctx (se_Uid req) rpc_Search set_se_CliAddr req.
Definition Upload (fuel : nat) (ctx : option string) (req : UploadRequest) : P (reply UploadResponse) :=
  handler fuel ctx (up_Uid req) rpc_Upload set_up_CliAddr req.
Definition Login (fuel : nat) (ctx : option string) (req : LoginRequest) : P (reply LoginResponse) :=
  handler fuel ctx (li_Uid req) rpc_Login set_li_CliAddr req.
Definition Logout (fuel : nat) (ctx : option string) (req : LogoutRequest) : P (reply LogoutResponse) :=
  handler fuel ctx (lo_Uid req) rpc_Logout set_lo_CliAddr req.

(** [ProxyController.CleanUidCache]: it waits until no request is being
    forwarded. *)
Definition CleanUidCache (req : CleanRequest) : P (reply CleanResponse) := λ s,
  if decide (reqCount s = 0) then
    Done ((Some (MkCleanResponse 200), None),
          PS (StalingCache.Del (cache s) (cl_Uid req)) (reqCount s) (endpointClis s) (dashClis s) (net s))
  else Block.
End handlers.
End Proxy.

(** ** Facts *)
Create HintDb keeps.
Module ProxyFacts.
Import Proxy.

Lemma int32_id x : in_int32 x → int32 x = x.
Proof. intros [? ?]. unfold int32. rewrite Z.mod_small by lia. lia. Qed.
Lemma int32_back x : in_int32 x → int32 (int32 (x + 1) + -1) = x.
Proof.
  intros Hx. destruct (decide (x = 2 ^ 31 - 1)) as [->|Hne]; [done|].
  rewrite (int32_id (x + 1)) by (unfold in_int32 in *; lia).
  rewrite int32_id by (unfold in_int32 in *; lia). lia.
Qed.

Section facts.
Context {W : Type} `{EtcdClient W} `{Grpc W} `{Clock W}.
Implicit Types s : pstate W conn.

(** Calls that leave the request count alone. *)
Definition keeps_count {A} (c : io (pstate W conn) A) : Prop :=
  ∀ s a s', c s = Done (a, s') → reqCount s' = reqCount s.
Lemma svc_keeps {A} (c : W → A * W) : keeps_count (svc c).
Proof. intros s a s'. unfold svc. destruct (c (net s)). by intros [= _ <-]. Qed.
Lemma ret_keeps {A} (a : A) : keeps_count (mret a).
Proof. by intros s a' s' [= _ <-]. Qed.
Lemma bind_keeps {A B} (c : io (pstate W conn) A) (f : A → io (pstate W conn) B) :
  keeps_count c → (∀ a, keeps_count (f a)) → keeps_count (do x <- c ;; f x).
Proof.
  intros Hc Hf s b s' (a & s1 & Hc1 & Hc2)%io_bind_inv. rewrite (Hf _ _ _ _ Hc2). by eapply Hc.
Qed.
Lemma set_cache_keeps c : keeps_count (set_cache (W := W) c).
Proof. by intros s a s' [= _ <-]. Qed.
Lemma get_keeps : keeps_count (get_st (W := pstate W conn)).
Proof. by intros s a s' [= _ <-]. Qed.
#[local] Hint Resolve svc_keeps ret_keeps set_cache_keeps get_keeps : keeps.
Lemma dsm_keeps q : keeps_count (dsm_UidEndpoint q).
Proof.
  unfold dsm_UidEndpoint. apply bind_keeps; [auto with keeps|]. intros [ep|e]; [|auto with keeps].
  intros s a s'. destruct (CliManager.method _ _ _ _ _ _) as [[[r cs] w]| |]; simpl; [|done|done].
  by intros [= _ <-].
Qed.
Lemma uidEndpoint_keeps uid : keeps_count (uidEndpoint uid).
Proof.
  unfold uidEndpoint. apply bind_keeps; [auto with keeps|]. intros s.
  destruct (StalingCache.Get _ _ _) as [[ep|] c].
  - apply bind_keeps; auto with keeps.
  - apply bind_keeps; [auto with keeps|]. intros _. apply bind_keeps; [apply dsm_keeps|].
    intros [r|e]; [|auto with keeps].
    apply bind_keeps; [auto with keeps|]. intros s1. apply bind_keeps; auto with keeps.
Qed.
Lemma wait_keeps fuel uid : keeps_count (wait_endpoint fuel uid).
Proof.
  induction fuel as [|fuel IH]; [by intros s a s' ?|]. cbn [wait_endpoint].
  apply bind_keeps; [apply uidEndpoint_keeps|]. intros [ep|e]; [auto with keeps|].
  destruct (negb _); [auto with keeps|]. apply bind_keeps; [apply svc_keeps|done].
Qed.

(** On the state with captured variables. *)
Context {V : Type}.
Lemma lift_inv {A} (c : io (pstate W conn) A) (sv : pstate W conn * V) a sv' :
  lift_p c sv = Done (a, sv') → c sv.1 = Done (a, sv'.1) ∧ sv'.2 = sv.2.
Proof. unfold lift_p. destruct (c sv.1) as [[a1 s1]| |]; simpl; [|done|done]. by intros [= -> <-]. Qed.
Lemma AddInt32_eq d (sv : pstate W conn * V) a sv' : lift_p (AddInt32 d) sv = Done (a, sv') →
  reqCount sv'.1 = int32 (reqCount sv.1 + d) ∧ sv'.2 = sv.2.
Proof. intros [Hc Hv]%lift_inv. split; [|done]. unfold AddInt32 in Hc. by injection Hc as _ <-. Qed.

(** [doProxy] gives back every unit of the request count it takes. *)
Lemma doProxy_count dealFunc ctx uid :
  (∀ p ep sv e sv', dealFunc p ep sv = Done (e, sv') → reqCount sv'.1 = reqCount sv.1) →
  ∀ fuel (sv : pstate W conn * V) r sv', in_int32 (reqCount sv.1) →
  doProxy fuel ctx uid dealFunc sv = Done (r, sv') → reqCount sv'.1 = reqCount sv.1.
Proof.
  intros Hdeal. induction fuel as [|fuel IH]; intros sv r sv' Hin; [done|]. cbn [doProxy].
  intros (ep & sv1 & [He _]%lift_inv & Hk)%io_bind_inv. apply wait_keeps in He.
  destruct ep as [ep|e]; [|injection Hk as _ <-; done].
  apply io_bind_inv in Hk as (u1 & sv2 & [Hc2 _]%AddInt32_eq & Hk).
  apply io_bind_inv in Hk as (r1 & sv3 & Hbody & Hk).
  apply io_bind_inv in Hk as (u2 & sv4 & [Hc4 _]%AddInt32_eq & Hk). injection Hk as _ <-.
  assert (reqCount sv3.1 = reqCount sv2.1) as Heq.
  { destruct ctx as [p|]; [|injection Hbody as _ <-; done].
    apply io_bind_inv in Hbody as (err & sv5 & Hd & Hk). apply Hdeal in Hd.
    destruct err as [e|]; [|injection Hk as _ <-; done].
    destruct (negb (checkConnErr e)); [injection Hk as _ <-; done|].
    apply io_bind_inv in Hk as (u3 & sv6 & [Hc6 _]%AddInt32_eq & Hk).
    apply io_bind_inv in Hk as (s & sv7 & [= <- <-] & Hk).
    apply io_bind_inv in Hk as (u4 & sv8 & [Hc8 _]%lift_inv & Hk). apply set_cache_keeps in Hc8.
    apply io_bind_inv in Hk as (u5 & sv9 & [Hc9 _]%lift_inv & Hk). unfold sleep in Hc9.
    apply svc_keeps in Hc9.
    apply io_bind_inv in Hk as (r2 & sv10 & Hrec & Hk).
    apply io_bind_inv in Hk as (u6 & sv11 & [Hc11 _]%AddInt32_eq & Hk). injection Hk as _ <-.
    assert (reqCount sv9.1 = reqCount sv.1) as Hc9'.
    { rewrite Hc9, Hc8, Hc6, Hd, Hc2, He. by apply int32_back. }
    apply IH in Hrec; [|by rewrite Hc9']. rewrite Hc11, Hrec, Hc9', Hc2, He. done. }
  rewrite Hc4, Heq, Hc2, He. by apply int32_back.
Qed.
Lemma deal_keeps {Q R} (rpc : conn → Q → W → result R * W) set_addr req p ep sv e sv' :
  deal rpc set_addr req p ep sv = Done (e, sv') → reqCount sv'.1 = reqCount sv.1.
Proof.
  unfold deal. destruct (CliManager.method _ _ _ _ _ _) as [[[r cs] w]| |]; simpl; [|done|done].
  destruct r; by intros [= _ <-].
Qed.

(** The state after a request was counted, and after it failed to connect. *)
Definition counted s : pstate W conn :=
  PS (cache s) (int32 (reqCount s + 1)) (endpointClis s) (dashClis s) (net s).
Definition unconnected uid s : pstate W conn :=
  PS (StalingCache.Del (cache s) uid) (int32 (reqCount s + -1)) (endpointClis s) (dashClis s)
     (Sleep Second (net s)).
(** One round that ends in a connection error: the retry decides the captured
    variables, and the round returns nil. *)
Lemma doProxy_retry fuel p uid (dealFunc : dealFunction) (sv : pstate W conn * V) ep s1 e s2 v2 r s4 v4 :
  wait_endpoint (S fuel) uid sv.1 = Done (Ok ep, s1) →
  dealFunc p ep (counted s1, sv.2) = Done (Some e, (s2, v2)) → checkConnErr e = true →
  doProxy fuel (Some p) uid dealFunc (unconnected uid s2, v2) = Done (r, (s4, v4)) →
  ∃ s5, doProxy (S fuel) (Some p) uid dealFunc sv = Done (Ok tt, (s5, v4)).
Proof.
  intros Hep Hd He Hrec. eexists. cbn [doProxy].
  rewrite (io_bind_Done _ _ _ (Ok ep) (s1, sv.2)) by (unfold lift_p; by rewrite Hep).
  rewrite (io_bind_Done _ _ _ tt (counted s1, sv.2)) by done.
  rewrite (io_bind_Done _ _ _ (Ok tt) (counted s4, v4)); [reflexivity|].
  rewrite (io_bind_Done _ _ _ _ _ Hd), He. change (negb true) with false. cbv iota.
  set (s3 := PS (cache s2) (int32 (reqCount s2 + -1)) (endpointClis s2) (dashClis s2) (net s2)).
  rewrite (io_bind_Done _ _ _ tt (s3, v2)) by done.
  rewrite (io_bind_Done _ _ _ (s3, v2) (s3, v2)) by done.
  set (s3' := PS (StalingCache.Del (cache s3) uid) (reqCount s3) (endpointClis s3) (dashClis s3) (net s3)).
  rewrite (io_bind_Done _ _ _ tt (s3', v2)) by done.
  rewrite (io_bind_Done _ _ _ tt (unconnected uid s2, v2)) by done.
  rewrite (io_bind_Done _ _ _ _ _ Hrec). reflexivity.
Qed.
(** A round that ends in an answer, or in an error of the search server. *)
Definition uncounted s : pstate W conn :=
  PS (cache s) (int32 (reqCount s + -1)) (endpointClis s) (dashClis s) (net s).
Lemma doProxy_once fuel p uid (dealFunc : dealFunction) (sv : pstate W conn * V) ep s1 err s2 v2 :
  wait_endpoint (S fuel) uid sv.1 = Done (Ok ep, s1) →
  dealFunc p ep (counted s1, sv.2) = Done (err, (s2, v2)) →
  (∀ e, err = Some e → checkConnErr e = false) →
  doProxy (S fuel) (Some p) uid dealFunc sv =
    Done (match err with None => Ok tt | Some e => Err e end, (uncounted s2, v2)).
Proof.
  intros Hep Hd He. cbn [doProxy].
  rewrite (io_bind_Done _ _ _ (Ok ep) (s1, sv.2)) by (unfold lift_p; by rewrite Hep).
  rewrite (io_bind_Done _ _ _ tt (counted s1, sv.2)) by done.
  rewrite (io_bind_Done _ _ _ (match err with None => Ok tt | Some e => Err e end) (s2, v2)); [done|].
  rewrite (io_bind_Done _ _ _ _ _ Hd). destruct err as [e|]; [|done]. by rewrite He.
Qed.
End facts.
Section handlers.
Context {W : Type} `{EtcdClient W} `{Grpc W} `{Clock W}.
Lemma handler_once {Q R} fuel p uid (rpc : conn → Q → W → result R * W) set_addr req
    (s : pstate W conn) ep s1 r m w :
  wait_endpoint (S fuel) uid s = Done (Ok ep, s1) →
  CliManager.method CliManager.newSearchServerCli rpc ep (set_addr req p) (endpointClis s1) (net s1) =
    Done (r, m, w) →
  (∀ e, r = Err e → checkConnErr e = false) → in_int32 (reqCount s1) →
  handler (S fuel) (Some p) uid rpc set_addr req s =
    Done (match r with Ok a => (Some a, None) | Err e => (None, Some e) end,
          PS (cache s1) (reqCount s1) m (dashClis s1) w).
Proof.
  intros Hep Hm Hr Hin. unfold handler.
  rewrite (doProxy_once fuel p uid (deal rpc set_addr req) (s, (None, None)) ep s1
    (match r with Ok _ => None | Err e => Some e end)
    (PS (cache s1) (int32 (reqCount s1 + 1)) m (dashClis s1) w)
    (match r with Ok a => (Some a, None) | Err e => (None, Some e) end)); [|done|..].
  - unfold uncounted. simpl. rewrite int32_back by done. by destruct r.
  - unfold deal. cbn [fst counted endpointClis net]. rewrite Hm. by destruct r.
  - destruct r; [done|]. intros e1 [= ->]. by apply Hr.
Qed.
End handlers.
End ProxyFacts.

(** ** Theorems about the proxy *)
Module ProxyTheorems.
Import Proxy ProxyFacts.
Section theorems.
Context {W : Type} `{EtcdClient W} `{Grpc W} `{Clock W}.
Implicit Types s : pstate W conn.

(** Forwarding a request is balanced: whichever way it ends (an answer, an
    error, no peer, retries), the count of requests in flight is what it was, so
    that [CleanUidCache], which waits for zero, is not held up by it. *)
Theorem forwarding_keeps_count fuel ctx s :
  in_int32 (reqCount s) →
  (∀ req r s', Search fuel ctx req s = Done (r, s') → reqCount s' = reqCount s) ∧
  (∀ req r s', Upload fuel ctx req s = Done (r, s') → reqCount s' = reqCount s) ∧
  (∀ req r s', Login fuel ctx req s = Done (r, s') → reqCount s' = reqCount s) ∧
  (∀ req r s', Logout fuel ctx req s = Done (r, s') → reqCount s' = reqCount s).
Proof.
  intros Hin.
  assert (Hh : ∀ Q R uid (rpc : conn → Q → W → result R * W) set_addr req r s',
    handler fuel ctx uid rpc set_addr req s = Done (r, s') → reqCount s' = reqCount s).
  { intros Q R uid rpc set_addr req r s'. unfold handler.
    destruct (doProxy _ _ _ _ _) as [[e [s1 [resp err]]]| |] eqn:Hd; simpl; [|done|done].
    intros [= _ <-].
    apply (doProxy_count (deal rpc set_addr req) ctx uid) in Hd; [done| |done].
    intros. by eapply deal_keeps. }
  split_and!; intros req r s' Hr; by eapply Hh in Hr.
Qed.

(** The network answers except for [left w] more calls of the search server,
    which end in connection errors; the dash leader is known and answers. *)
Record flaky {Q R} (left : W → nat) (rpc : conn → Q → W → result R * W) (good : R → Prop) : Prop := {
  fl_rpc c q w : match left w with
    | O => ∃ a w', rpc c q w = (Ok a, w') ∧ good a
    | S n => ∃ e w', rpc c q w = (Err e, w') ∧ checkConnErr e = true ∧ left w' = n
    end;
  fl_dial a w : ∃ c w', DialInsecure a w = (Ok c, w') ∧ left w' = left w;
  fl_dash c q w : ∃ a w', rpc_UidEndpoint c q w = (Ok a, w') ∧ left w' = left w;
  fl_leader k w : ∃ id w', Elect.GetElectorID k w = (Ok id, w') ∧ left w' = left w ∧
    is_Some (GoStr.Split id (Ascii.ascii_of_nat 58) !! 1%nat);
  fl_sleep d w : left (Sleep d w) = left w;
}.

Lemma flaky_method {Q R Q' R'} left (rpc : conn → Q → W → result R * W) good
    (call : conn → Q' → W → result R' * W) newCli ep q m w :
  flaky left rpc good →
  (∃ c w', newCli ep w = Done (c, w') ∧ left w' = left w) →
  ∃ c m' w1, left w1 = left w ∧
    CliManager.method newCli call ep q m w = let '(r, w') := call c q w1 in Done (r, m', w').
Proof.
  intros Hf (c & w1 & Hnew & Hl). unfold CliManager.method, CliManager.ensureCliExists.
  destruct (m !! ep) as [c0|] eqn:Hm.
  - exists c0, m, w. simpl. by rewrite Hm.
  - rewrite Hnew. simpl. exists c, (<[ep := c]> m), w1. by rewrite lookup_insert_eq.
Qed.
Lemma flaky_search {Q R} left (rpc : conn → Q → W → result R * W) good a w :
  flaky left rpc good → ∃ c w', CliManager.newSearchServerCli a w = Done (c, w') ∧ left w' = left w.
Proof.
  intros Hf. unfold CliManager.newSearchServerCli, CliManager.dial_or_panic.
  destruct (fl_dial _ _ _ Hf a w) as (c & w' & -> & Hl). by exists c, w'.
Qed.
Lemma flaky_endpoint {Q R} left (rpc : conn → Q → W → result R * W) good uid s :
  flaky left rpc good →
  ∃ ep s1, uidEndpoint uid s = Done (Ok ep, s1) ∧ left (net s1) = left (net s).
Proof.
  intros Hf. unfold uidEndpoint. rewrite (io_bind_Done _ _ _ s s) by done.
  destruct (StalingCache.Get _ _ _) as [[ep|] c]; [by do 2 eexists|].
  set (s1 := PS c (reqCount s) (endpointClis s) (dashClis s) (net s)).
  rewrite (io_bind_Done _ _ _ tt s1) by done.
  assert (∃ r s2, dsm_UidEndpoint (MkCommonQueryRequest uid) s1 = Done (Ok r, s2) ∧
    left (net s2) = left (net s)) as (r & s2 & Hd & Hl).
  { unfold dsm_UidEndpoint, svc. unfold mbind, io_bind.
    destruct (fl_leader _ _ _ Hf DashLeaderKey (net s1)) as (id & w1 & -> & Hl1 & [port Hport]).
    destruct (flaky_method left rpc good rpc_UidEndpoint CliManager.newDSServerCli id
      (MkCommonQueryRequest uid) (dashClis s) w1 Hf) as (c2 & m & w2 & Hl2 & Hm).
    { unfold CliManager.newDSServerCli. rewrite Hport. unfold CliManager.dial_or_panic.
      destruct (fl_dial _ _ _ Hf ("www.myshell.top:" +:+ port) w1) as (c3 & w3 & -> & Hl3).
      by exists c3, w3. }
    simpl. rewrite Hm. destruct (fl_dash _ _ _ Hf c2 (MkCommonQueryRequest uid) w2) as (a & w4 & -> & Hl4).
    simpl. do 2 eexists. split; [done|]. simpl. change (net s1) with (net s) in Hl1. congruence. }
  rewrite (io_bind_Done _ _ _ _ _ Hd). do 2 eexists. split; [done|]. done.
Qed.

(** A request is forwarded in spite of connection errors: when the search
    server is unreachable for any number of calls and the dash answers, the
    handler retries, asking for the endpoint again each time, and returns the
    search server's answer after at most one more round. *)
Theorem forwarding_survives_connection_errors {Q R} left (rpc : conn → Q → W → result R * W) good
    set_addr uid p req fuel s :
  flaky left rpc good → (left (net s) < fuel)%nat →
  ∃ a s', handler fuel (Some p) uid rpc set_addr req s = Done ((Some a, None), s') ∧ good a.
Proof.
  intros Hf Hfuel.
  assert (Hall : ∀ fuel sv, (left (net sv.1) < fuel)%nat → ∃ a s',
    doProxy fuel (Some p) uid (deal rpc set_addr req) sv = Done (Ok tt, (s', (Some a, None))) ∧
    good a).
  { clear s fuel Hfuel. induction fuel as [|fuel IH]; intros sv Hlt; [lia|].
    destruct (flaky_endpoint left rpc good uid sv.1 Hf) as (ep & s1 & Hep & Hl1).
    assert (Hwait : wait_endpoint (S fuel) uid sv.1 = Done (Ok ep, s1))
      by (cbn [wait_endpoint]; by rewrite (io_bind_Done _ _ _ _ _ Hep)).
    destruct (flaky_method left rpc good rpc CliManager.newSearchServerCli ep (set_addr req p)
      (endpointClis s1) (net s1) Hf) as (c & m & w & Hw & Hm); [by eapply flaky_search|].
    pose proof (fl_rpc _ _ _ Hf c (set_addr req p) w) as Hrpc. rewrite Hw, Hl1 in Hrpc.
    destruct (left (net sv.1)) as [|n] eqn:Hn.
    - destruct Hrpc as (a & w' & Hr & Hg).
      eexists a, _. split; [|exact Hg].
      apply (doProxy_once fuel p uid (deal rpc set_addr req) sv ep s1 None
        (PS (cache s1) (int32 (reqCount s1 + 1)) m (dashClis s1) w') (Some a, None));
        [done|unfold deal; simpl fst; simpl endpointClis; simpl net; by rewrite Hm, Hr|done].
    - destruct Hrpc as (e & w' & Hr & He & Hl').
      set (s2 := PS (cache s1) (int32 (reqCount s1 + 1)) m (dashClis s1) w').
      destruct (IH (unconnected uid s2, (None, Some e))) as (a & s4 & Hrec & Hg).
      { simpl. rewrite (fl_sleep _ _ _ Hf). lia. }
      destruct (doProxy_retry fuel p uid (deal rpc set_addr req) sv ep s1 e s2
        (None, Some e) (Ok tt) s4 (Some a, None)) as [s5 Hs5];
        [done|unfold deal; simpl fst; simpl endpointClis; simpl net; by rewrite Hm, Hr|done|done|].
      by exists a, s5. }
  destruct (Hall fuel (s, (None, None)) Hfuel) as (a & s' & Hd & Hg).
  exists a, s'. split; [|done]. unfold handler. by rewrite Hd.
Qed.

(** The result of a retry is dropped: when the first call ends in a
    connection error and the retry in any other error, the handler returns
    neither a response nor an error. *)
Theorem failed_retry_returns_nil_nil {Q R} (rpc : conn → Q → W → result R * W) set_addr uid p req fuel
    s ep s1 s2 e e2 s4 :
  wait_endpoint (S fuel) uid s = Done (Ok ep, s1) →
  deal rpc set_addr req p ep (counted s1, (None, None)) = Done (Some e, (s2, (None, Some e))) →
  checkConnErr e = true →
  doProxy fuel (Some p) uid (deal rpc set_addr req) (unconnected uid s2, (None, Some e)) =
    Done (Err e2, (s4, (None, Some e2))) →
  ∃ s', handler (S fuel) (Some p) uid rpc set_addr req s = Done ((None, None), s').
Proof.
  intros Hep Hd He Hrec.
  destruct (doProxy_retry fuel p uid (deal rpc set_addr req) (s, (None, None))
    ep s1 e s2 _ _ s4 _ Hep Hd He Hrec) as [s5 Hs5].
  exists s5. unfold handler. by rewrite Hs5.
Qed.
End theorems.

(** *** Witnesses: a network whose calls of the search server fail as [next] says *)
Definition script_grpc {W} (next : W → option error * W) : Grpc W :=
  let fail {R} (a : R) (w : W) :=
    let '(e, w) := next w in (match e with Some e => Err e | None => Ok a end, w) in
  {|
    conn := string;
    DialInsecure a w := (Ok a, w);
    DialTLS a w := (Ok a, w);
    rpc_Search _ q w := fail (MkSearchResponse ["ls"; se_CliAddr q] 200) w;
    rpc_Upload _ _ w := fail (MkUploadResponse "" 200) w;
    rpc_Login _ _ w := fail (MkLoginResponse 200 "t") w;
    rpc_Logout _ _ w := fail (MkLogoutResponse 200) w;
    rpc_CleanUidCache _ _ w := (Ok (MkCleanResponse 200), w);
    rpc_UidLogout _ _ w := (Ok (MkUidLogoutResponse 200), w);
    rpc_Check _ _ w := (Ok (MkHealthCheckResponse SERVING), w);
    rpc_UidEndpoint _ _ w := (Ok (MkCommonQueryResponse "[::]:8083"), w);
  |}.
#[local] Instance still_clock {W} : Clock W := {| Now _ := 0; Sleep _ w := w |}.
(** An etcd that knows the leader, and nothing else. *)
#[local] Instance leader_etcd {W} : EtcdClient W := {|
  cli_Put _ _ _ w := (Ok tt, w);
  cli_Get _ w := (Ok (Some (Elect.info_String Elect.ex_info)), w);
  cli_GetPrefix _ w := (Ok [], w);
  cli_DeletePrefix _ w := (Ok tt, w);
  cli_Txn _ _ w := (Ok true, w);
  cli_Grant _ w := (Ok 1, w);
  cli_Revoke _ w := (Ok tt, w);
  cli_KeepAlive _ w := (Ok tt, w);
  cli_Sleep w := w;
|}.
Definition conn_error : error :=
  Errorf "rpc error: code = Unavailable desc = connection error: connection refused".

(** The number of failures left. *)
Definition next_nat (n : nat) : option error * nat :=
  match n with O => (None, O) | S n => (Some conn_error, n) end.
#[local] Instance nat_grpc : Grpc nat := script_grpc next_nat.
Definition ex_proxy {W} `{Grpc W} (w : W) : pstate W conn := PS ∅ 7 ∅ ∅ w.
Definition ex_req : SearchRequest := MkSearchRequest "alice" "ls" "t" "spoofed".

Lemma forwarding_keeps_count_witness :
  (∀ req r s', Search 5 (Some "1.2.3.4:5") req (ex_proxy 2%nat) = Done (r, s') → reqCount s' = 7) ∧
  (∀ req r s', Upload 5 (Some "1.2.3.4:5") req (ex_proxy 2%nat) = Done (r, s') → reqCount s' = 7) ∧
  (∀ req r s', Login 5 (Some "1.2.3.4:5") req (ex_proxy 2%nat) = Done (r, s') → reqCount s' = 7) ∧
  (∀ req r s', Logout 5 (Some "1.2.3.4:5") req (ex_proxy 2%nat) = Done (r, s') → reqCount s' = 7).
Proof. apply (forwarding_keeps_count 5 (Some "1.2.3.4:5") (ex_proxy 2%nat)). split; done. Defined.
Lemma ex_flaky : flaky (W := nat) id rpc_Search (λ a, se_ResponseCode a = 200).
Proof.
  split; try by (intros; do 2 eexists).
  intros c q [|n]; simpl; [by do 2 eexists|]. exists conn_error, n. split_and!; [done| |done].
  vm_compute. done.
Qed.
Lemma forwarding_survives_connection_errors_witness :
  ∃ a s', handler 3 (Some "1.2.3.4:5") "alice" rpc_Search set_se_CliAddr ex_req (ex_proxy 2%nat) =
    Done ((Some a, None), s') ∧ se_ResponseCode a = 200.
Proof. apply (forwarding_survives_connection_errors id _ _ _ _ _ _ _ _ ex_flaky). simpl. lia. Defined.

(** The errors to come. *)
Definition next_list (l : list error) : option error * list error :=
  match l with [] => (None, []) | e :: l => (Some e, l) end.
#[local] Instance list_grpc : Grpc (list error) := script_grpc next_list.
Definition ex_errors : list error := [conn_error; Errorf "rpc error: code = Internal"].
Definition ex_deal := deal (W := list error) rpc_Search set_se_CliAddr ex_req.
(** The states of the run. *)
Definition ex_s1 : pstate (list error) conn :=
  match wait_endpoint 3 "alice" (ex_proxy ex_errors) with Done (_, s) => s | _ => ex_proxy [] end.
Definition ex_s2 : pstate (list error) conn :=
  match ex_deal "1.2.3.4:5" "[::]:8083" (counted ex_s1, (None, None)) with
  | Done (_, (s, _)) => s | _ => ex_proxy [] end.
Definition ex_s4 : pstate (list error) conn :=
  match doProxy 2 (Some "1.2.3.4:5") "alice" ex_deal
    (unconnected "alice" ex_s2, (None, Some conn_error)) with
  | Done (_, (s, _)) => s | _ => ex_proxy [] end.
Lemma failed_retry_returns_nil_nil_witness :
  ∃ s', handler 3 (Some "1.2.3.4:5") "alice" rpc_Search set_se_CliAddr ex_req
    (ex_proxy ex_errors) = Done ((None, None), s').
Proof.
  apply (failed_retry_returns_nil_nil rpc_Search set_se_CliAddr "alice" "1.2.3.4:5" ex_req 2
    (ex_proxy ex_errors) "[::]:8083" ex_s1 ex_s2 conn_error (Errorf "rpc error: code = Internal") ex_s4);
    vm_compute; reflexivity.
Defined.
End ProxyTheorems.
