(* ===== verification/ProxyConc.v ===== *)
(** * server/server.go: the goroutines of a proxy

    grpc runs every request of a proxy in a goroutine of its own.  Module
    [ProxyConc] is that process as a step relation: the goroutines of the
    requests ([ProxyServer.doProxy], [uidEndpoint]) and of [CleanUidCache], cut at
    their operations on [uidEndpointsCacheMtx], on [proxyReqCount] and on the
    network, over the shared state of Proxy.v.  [sync.RWMutex] is modelled as the
    standard library implements it: a writer first excludes new readers, then waits
    for the active ones. *)

From S2P Require Import Prelude GoStr Etcd Elect Proto Caches Server Proxy Pool.
#[local] Open Scope Z_scope.

(** ** sync.RWMutex: the writer that announced itself, the active readers *)
Record rwmutex := RW { writer : option nat; readers : nat }.
Module RWMutex.
Definition RLock (l : rwmutex) : outcome rwmutex :=
  match writer l with None => Done (RW None (S (readers l))) | Some _ => Block end.
Definition RUnlock (l : rwmutex) : rwmutex := RW (writer l) (pred (readers l)).
(** The two halves of [Lock], by goroutine [i]. *)
Definition announce (i : nat) (l : rwmutex) : outcome rwmutex :=
  match writer l with None => Done (RW (Some i) (readers l)) | Some _ => Block end.
Definition acquire (l : rwmutex) : outcome rwmutex :=
  match readers l with O => Done l | S _ => Block end.
Definition Unlock (l : rwmutex) : rwmutex := RW None (readers l).
End RWMutex.

Module ProxyConc.
Import Proxy.

(** ** The requests of a proxy *)
Inductive request :=
  | QSearch (q : SearchRequest)
  | QUpload (q : UploadRequest)
  | QLogin (q : LoginRequest)
  | QLogout (q : LogoutRequest).
Inductive answer :=
  | ASearch (a : SearchResponse)
  | AUpload (a : UploadResponse)
  | ALogin (a : LoginResponse)
  | ALogout (a : LogoutResponse).
Definition req_Uid (q : request) : string :=
  match q with
  | QSearch q => se_Uid q | QUpload q => up_Uid q | QLogin q => li_Uid q | QLogout q => lo_Uid q
  end.

(** ** The program counter of a request

    [PGot] is past the lookup and not yet counted, [PCall] is counted. *)
Inductive pc :=
  | PRLock                                  (* uidEndpoint: RLock *)
  | PGet                                    (* uidEndpointsCache.Get *)
  | PRUnlock (ep : option string)           (* RUnlock; if ok return *)
  | PLock                                   (* Lock: the announcement *)
  | PAcquire                                (* Lock: the wait for readers *)
  | PAsk                                    (* dashCliManager.UidEndpoint *)
  | PPut (ep : string)                      (* uidEndpointsCache.Put *)
  | PUnlock (r : result string)             (* the deferred Unlock *)
  | PPause                                  (* time.Sleep before the next lookup *)
  | PGot (ep : string)                      (* atomic.AddInt32(&proxyReqCount, 1) *)
  | PCall (ep : string)                     (* dealFunc(p, endpoint) *)
  | PUncount                                (* atomic.AddInt32(&proxyReqCount, -1) *)
  | PDelLock | PDelAcquire | PDel | PDelUnlock
  | PSleep                                  (* time.Sleep before the retry *)
  | PRecount                                (* after the retry: AddInt32(.., 1) *)
  | PDefer (r : result unit)                (* the deferred AddInt32(.., -1) *)
  | PReturn (r : result unit).
(** The program counter of [CleanUidCache]. *)
Inductive cpc := CLock | CAcquire | CWait | CDel | CUnlock | CDone.

(** A goroutine.  [depth] counts the calls of [doProxy] that wait for the
    recursive call; [v] is the captured [resp, err]. *)
Inductive goroutine :=
  | GReq (q : request) (ctx : option string) (depth : nat) (p : pc) (v : reply answer)
  | GClean (uid : string) (p : cpc).

Section steps.
Context {W : Type} `{EtcdClient W} `{Grpc W} `{Clock W}.

(** The [dealFunc] of each handler, with its response as an [answer]. *)
Definition as_answer {Q R} (inj : R → answer) (rpc : conn → Q → W → result R * W)
    : conn → Q → W → result answer * W := λ c q w,
  let '(r, w) := rpc c q w in (match r with Ok a => Ok (inj a) | Err e => Err e end, w).
Definition dealFunc_of (q : request) : dealFunction (W := W) (V := reply answer) :=
  match q with
  | QSearch q => deal (as_answer ASearch rpc_Search) set_se_CliAddr q
  | QUpload q => deal (as_answer AUpload rpc_Upload) set_up_CliAddr q
  | QLogin q => deal (as_answer ALogin rpc_Login) set_li_CliAddr q
  | QLogout q => deal (as_answer ALogout rpc_Logout) set_lo_CliAddr q
  end.

(** The variables the goroutines share. *)
Record shared := Sh { st : pstate W conn; mtx : rwmutex }.
(** A step that leaves the mutex alone. *)
Definition plain {A} (c : io (pstate W conn) A) (g : A → goroutine) (s : shared)
    : outcome (goroutine * shared) :=
  run (a, st') <- c (st s) ;; Done (g a, Sh st' (mtx s)).
(** A step that only moves the mutex. *)
Definition locks (o : outcome rwmutex) (g : goroutine) (s : shared) : outcome (goroutine * shared) :=
  run l <- o ;; Done (g, Sh (st s) l).

(** One step of the request goroutine [i]; [Block]: it cannot move. *)
Definition req_step (i : nat) (q : request) (ctx : option string) (d : nat) (p : pc)
    (v : reply answer) (s : shared) : outcome (goroutine * shared) :=
  let uid := req_Uid q in
  let goto p := GReq q ctx d p v in
  let cache_op f g := plain (do s <- get_st ;; set_cache (f s)) (λ _, g) s in
  match p with
  | PRLock => locks (RWMutex.RLock (mtx s)) (goto PGet) s
  | PGet => plain
      (do s <- get_st ;;
       let '(ep, c) := StalingCache.Get (Now (net s)) (cache s) uid in
       do _ <- set_cache c ;; mret ep) (λ ep, goto (PRUnlock ep)) s
  | PRUnlock ep => locks (Done (RWMutex.RUnlock (mtx s)))
      (goto match ep with Some ep => PGot ep | None => PLock end) s
  | PLock => locks (RWMutex.announce i (mtx s)) (goto PAcquire) s
  | PAcquire => locks (RWMutex.acquire (mtx s)) (goto PAsk) s
  | PAsk => plain (dsm_UidEndpoint (MkCommonQueryRequest uid))
      (λ r, goto match r with Ok resp => PPut (q_Resp resp) | Err e => PUnlock (Err e) end) s
  | PPut ep => cache_op (λ s, StalingCache.Put (Now (net s)) (cache s) uid ep) (goto (PUnlock (Ok ep)))
  | PUnlock r => locks (Done (RWMutex.Unlock (mtx s)))
      (goto match r with
            | Ok ep => PGot ep
            | Err e => if negb (checkLeaderUnavailableErr e) then PReturn (Err e) else PPause
            end) s
  | PPause => plain (sleep Second) (λ _, goto PRLock) s
  | PGot ep => plain (AddInt32 1) (λ _, goto (PCall ep)) s
  | PCall ep =>
      match ctx with
      | None => Done (goto (PDefer (Err (Errorf "Can't get ip from peer"))), s)
      | Some a =>
          run (err, (st', v')) <- dealFunc_of q a ep (st s, v) ;;
          Done (GReq q ctx d
                  match err with
                  | None => PDefer (Ok tt)
                  | Some e => if negb (checkConnErr e) then PDefer (Err e) else PUncount
                  end v', Sh st' (mtx s))
      end
  | PUncount => plain (AddInt32 (-1)) (λ _, goto PDelLock) s
  | PDelLock => locks (RWMutex.announce i (mtx s)) (goto PDelAcquire) s
  | PDelAcquire => locks (RWMutex.acquire (mtx s)) (goto PDel) s
  | PDel => cache_op (λ s, StalingCache.Del (cache s) uid) (goto PDelUnlock)
  | PDelUnlock => locks (Done (RWMutex.Unlock (mtx s))) (goto PSleep) s
  | PSleep => plain (sleep Second) (λ _, GReq q ctx (S d) PRLock v) s
  | PRecount => plain (AddInt32 1) (λ _, goto (PDefer (Ok tt))) s
  | PDefer r => plain (AddInt32 (-1)) (λ _, goto (PReturn r)) s
  | PReturn _ =>
      match d with
      | O => Block                          (* the request is answered *)
      | S d => Done (GReq q ctx d PRecount v, s)
      end
  end.

(** One step of [CleanUidCache]: the poll of the count every 10 milliseconds. *)
Definition clean_step (i : nat) (uid : string) (p : cpc) (s : shared)
    : outcome (goroutine * shared) :=
  let goto := GClean uid in
  match p with
  | CLock => locks (RWMutex.announce i (mtx s)) (goto CAcquire) s
  | CAcquire => locks (RWMutex.acquire (mtx s)) (goto CWait) s
  | CWait =>
      if decide (reqCount (st s) = 0) then Done (goto CDel, s)
      else plain (sleep (10 * 1000000)) (λ _, goto CWait) s
  | CDel => plain (do s <- get_st ;; set_cache (StalingCache.Del (cache s) uid)) (λ _, goto CUnlock) s
  | CUnlock => locks (Done (RWMutex.Unlock (mtx s))) (goto CDone) s
  | CDone => Block
  end.
Definition gstep (i : nat) (g : goroutine) (s : shared) : outcome (goroutine * shared) :=
  match g with
  | GReq q ctx d p v => req_step i q ctx d p v s
  | GClean uid p => clean_step i uid p s
  end.

(** ** The process: requests and cleans arrive *)
Definition proc := pool goroutine shared.
Definition new_request (q : request) (ctx : option string) : goroutine :=
  GReq q ctx 0 PRLock (None, None).
Definition fresh (g : goroutine) : Prop :=
  match g with
  | GReq q ctx _ _ _ => g = new_request q ctx
  | GClean _ p => p = CLock
  end.
(** A proxy that starts: [NewProxyServer], and the package's variables. *)
Definition init_proc (w : W) : proc := Pool (Sh (PS ∅ 0 ∅ ∅ w) (RW None 0)) [].
End steps.
Arguments shared W {_}.
Arguments proc W {_}.
#[global] Arguments locks {_ _} _ _ _ : simpl never.
#[global] Arguments plain {_ _ _} _ _ _ : simpl never.
End ProxyConc.

(** ** Facts *)
Module ProxyConcFacts.
Import Proxy ProxyFacts ProxyConc.

(** What a goroutine holds: a unit of the count, the mutex as a writer (announced,
    or alone), the mutex as a reader. *)
Definition counted_req (g : goroutine) : bool :=
  match g with GReq _ _ _ (PCall _ | PUncount | PDefer _) _ => true | _ => false end.
Definition writing (g : goroutine) : bool :=
  match g with
  | GReq _ _ _ (PAcquire | PAsk | PPut _ | PUnlock _ | PDelAcquire | PDel | PDelUnlock) _
  | GClean _ (CAcquire | CWait | CDel | CUnlock) => true
  | _ => false
  end.
Definition exclusive (g : goroutine) : bool :=
  match g with
  | GReq _ _ _ (PAsk | PPut _ | PUnlock _ | PDel | PDelUnlock) _ | GClean _ (CWait | CDel | CUnlock) => true
  | _ => false
  end.
Definition reading (g : goroutine) : bool :=
  match g with GReq _ _ _ (PGet | PRUnlock _) _ => true | _ => false end.
(** How the mutex moves with a goroutine. *)
Inductive moves (i : nat) (g g' : goroutine) (l : rwmutex) : rwmutex → Prop :=
  | moves_none : writing g' = writing g → reading g' = reading g →
      (exclusive g' = true → exclusive g = true ∨ (writing g = true ∧ readers l = 0%nat)) →
      moves i g g' l l
  | moves_rlock : writer l = None → writing g' = writing g → exclusive g' = false →
      reading g = false → reading g' = true → moves i g g' l (RW None (S (readers l)))
  | moves_runlock : writing g' = writing g → exclusive g' = false →
      reading g = true → reading g' = false → moves i g g' l (RW (writer l) (pred (readers l)))
  | moves_announce : writer l = None → writing g = false → writing g' = true → exclusive g' = false →
      reading g' = reading g → moves i g g' l (RW (Some i) (readers l))
  | moves_unlock : writing g = true → writing g' = false → exclusive g' = false →
      reading g' = reading g → moves i g g' l (RW None (readers l)).

Section facts.
Context {W : Type} `{EtcdClient W} `{Grpc W} `{Clock W}.
Implicit Types (s : shared W) (x : proc W).

Lemma plain_inv {A} (c : io (pstate W conn) A) f s g' s' :
  plain c f s = Done (g', s') → ∃ a, c (st s) = Done (a, st s') ∧ mtx s' = mtx s ∧ g' = f a.
Proof. unfold plain. destruct (c (st s)) as [[a t]| |]; [|done|done]. intros [= <- <-]. by exists a. Qed.
Lemma locks_inv o g s g' s' :
  locks (W := W) o g s = Done (g', s') → ∃ l, o = Done l ∧ s' = Sh (st s) l ∧ g' = g.
Proof. unfold locks. destruct o as [l| |]; [|done|done]. intros [= <- <-]. by exists l. Qed.
Lemma deal_of_keeps q a ep sv e sv' :
  dealFunc_of (W := W) q a ep sv = Done (e, sv') → reqCount sv'.1 = reqCount sv.1.
Proof. destruct q; apply deal_keeps. Qed.
Lemma cache_op_keeps (f : pstate W conn → gmap string scNode) (t : pstate W conn) a t' :
  (do t <- get_st ;; set_cache (f t)) t = Done (a, t') → reqCount t' = reqCount t.
Proof. by intros [= _ <-]. Qed.
Lemma get_op_keeps uid (t : pstate W conn) a t' :
  (do t <- get_st ;;
   let '(ep, c) := StalingCache.Get (Now (net t)) (cache t) uid in
   do _ <- set_cache c ;; mret ep) t = Done (a, t') → reqCount t' = reqCount t.
Proof.
  unfold mbind at 1, io_bind, get_st, mbind. simpl. destruct (StalingCache.Get _ _ _). by intros [= _ <-].
Qed.

(** The unit of the count a goroutine holds. *)
Definition unit_of (g : goroutine) : Z := Z.of_nat (Nat.b2n (counted_req g)).
(** A step that only moves the mutex, or only the state. *)
Ltac inv_step Hs :=
  first [apply locks_inv in Hs as (l' & Hl & -> & ->)
        |apply plain_inv in Hs as (b & Hc & Hm & ->); rewrite Hm; clear Hm].
Ltac inv_lock Hl :=
  unfold RWMutex.RLock, RWMutex.announce, RWMutex.acquire in Hl; repeat case_match; try discriminate Hl;
  injection Hl as <-.
Ltac inv_count Hc :=
  first [apply get_op_keeps in Hc | apply dsm_keeps in Hc | apply cache_op_keeps in Hc
        |apply svc_keeps in Hc | injection Hc as _ <-].
Ltac moved :=
  split;
  [first [by apply moves_none | by apply moves_rlock | by apply moves_runlock | by apply moves_announce
         |by apply moves_unlock | apply moves_none; auto]
  |first [by left | by right]].
Lemma req_effect i q ctx d p v s g' s' : req_step i q ctx d p v s = Done (g', s') →
  let g := GReq q ctx d p v in
  moves i g g' (mtx s) (mtx s') ∧
  (unit_of g' = unit_of g ∧ reqCount (st s') = reqCount (st s) ∨
   reqCount (st s') = int32 (reqCount (st s) + (unit_of g' - unit_of g))).
Proof.
  intros Hs g. subst g. destruct p; simpl in Hs;
    try (inv_step Hs; first [inv_lock Hl | inv_count Hc]; repeat case_match; moved).
  - destruct ctx as [a|]; [|injection Hs as <- <-; moved].
    destruct (dealFunc_of q a ep (st s, v)) as [[err [t' v']]| |] eqn:Hd; [|done|done].
    injection Hs as <- <-. apply deal_of_keeps in Hd. simpl in *. repeat case_match; moved.
  - destruct d as [|d]; [done|]. injection Hs as <- <-. moved.
Qed.
Lemma clean_effect i uid p s g' s' : clean_step i uid p s = Done (g', s') →
  moves i (GClean uid p) g' (mtx s) (mtx s') ∧ unit_of g' = 0 ∧ reqCount (st s') = reqCount (st s).
Proof.
  intros Hs. destruct p; simpl in Hs; try discriminate Hs;
    try case_decide; try (inv_step Hs; first [inv_lock Hl | inv_count Hc]);
    try (injection Hs as <- <-); split;
    first [by apply moves_none | by apply moves_announce | by apply moves_unlock
          |apply moves_none; by auto | done].
Qed.
Lemma gstep_effect i g s g' s' : gstep i g s = Done (g', s') →
  moves i g g' (mtx s) (mtx s') ∧
  (unit_of g' = unit_of g ∧ reqCount (st s') = reqCount (st s) ∨
   reqCount (st s') = int32 (reqCount (st s) + (unit_of g' - unit_of g))).
Proof.
  destruct g as [q ctx d p v|uid p]; [apply req_effect|]. intros [? [? ?]]%clean_effect. auto.
Qed.

(** *** The invariant of the process *)
Record inv x : Prop := {
  inv_count : reqCount (st (sh x)) = int32 (Z.of_nat (many counted_req (gs x)));
  inv_writer i : writer (mtx (sh x)) = Some i ↔ ∃ g, gs x !! i = Some g ∧ writing g = true;
  inv_readers : readers (mtx (sh x)) = many reading (gs x);
  inv_excl i g : gs x !! i = Some g → exclusive g = true → many reading (gs x) = 0%nat;
}.
Lemma excl_writing g : exclusive g = true → writing g = true.
Proof. destruct g as [q ctx d [] v|uid []]; done. Qed.
Lemma int32_add a b : int32 (int32 a + b) = int32 (a + b).
Proof.
  unfold int32. f_equal.
  replace ((a + 2 ^ 31) mod 2 ^ 32 - 2 ^ 31 + b + 2 ^ 31) with ((a + 2 ^ 31) mod 2 ^ 32 + b) by lia.
  rewrite Zplus_mod_idemp_l. f_equal. lia.
Qed.
(** A new goroutine holds nothing. *)
Lemma inv_arrive x g : inv x → fresh g → inv (Pool (sh x) (gs x ++ [g])).
Proof.
  intros [Hcount Hwr Hrd Hex] Hg.
  assert (counted_req g = false ∧ writing g = false ∧ reading g = false) as (Hc & Hw & Hr).
  { destruct g as [q c d p v|uid p]; simpl in Hg; [injection Hg as -> -> ->|subst p]; done. }
  assert (Hm : ∀ f, f g = false → many f (gs x ++ [g]) = many f (gs x)).
  { intros f Hf. rewrite many_app, many_one, Hf. simpl. lia. }
  split; simpl; rewrite ?Hm by done; [done| |done|].
  - intros i. rewrite Hwr. split; intros (g' & Hi & Hg'); exists g'; (split; [|done]).
    + by apply lookup_app_l_Some.
    + apply lookup_spawned in Hi as [?| ->]; [done|congruence].
  - intros i g' [Hi| ->]%lookup_spawned Hg'; [by eapply Hex|]. apply excl_writing in Hg'. congruence.
Qed.
(** The writer is the only goroutine that writes. *)
Lemma writer_only x i j g h : inv x →
  gs x !! i = Some g → writing g = true → gs x !! j = Some h → writing h = true → i = j.
Proof.
  intros Hinv Hi Hg Hj Hh.
  assert (writer (mtx (sh x)) = Some i) as Hwi by (apply Hinv; by exists g).
  assert (writer (mtx (sh x)) = Some j) as Hwj by (apply Hinv; by exists h). congruence.
Qed.
Lemma no_writer x j h : inv x → writer (mtx (sh x)) = None → gs x !! j = Some h → writing h = false.
Proof.
  intros Hinv Hn Hj. destruct (writing h) eqn:Hh; [|done].
  assert (writer (mtx (sh x)) = Some j) by (apply Hinv; by exists h). congruence.
Qed.
Lemma still_writing x i g g' : gs x !! i = Some g → writing g' = writing g → ∀ j,
  (∃ h, gs x !! j = Some h ∧ writing h = true) ↔ (∃ h, <[i := g']> (gs x) !! j = Some h ∧ writing h = true).
Proof.
  intros Hi Hw j. split; intros (h & Hj & Hh).
  - destruct (decide (j = i)) as [->|Hne]; [|exists h; by rewrite list_lookup_insert_ne].
    exists g'. split; [by eapply lookup_self|]. congruence.
  - apply (lookup_moved _ _ _ _ _ _ Hi) in Hj as [[-> ->]|[? ?]]; [|by exists h].
    exists g. split; [done|congruence].
Qed.
(** A move keeps the mutex in agreement with what the goroutines hold. *)
Lemma moves_writer x i g g' s' : inv x → gs x !! i = Some g → moves i g g' (mtx (sh x)) (mtx s') →
  ∀ j, writer (mtx s') = Some j ↔ ∃ h, <[i := g']> (gs x) !! j = Some h ∧ writing h = true.
Proof.
  intros Hinv Hi Hm j. pose proof (inv_writer x Hinv j) as Hwr.
  pose proof (still_writing x i g g' Hi) as Hstill.
  inversion Hm as [Hw|Hn Hw|Hw|Hn Hw Hw'|Hw Hw']; cbn [writer].
  - by rewrite <- Hstill.
  - by rewrite <- Hstill, <- Hwr, Hn.
  - by rewrite <- Hstill.
  - split.
    + intros [= <-]. exists g'. split; [by eapply lookup_self|done].
    + intros (h & [[-> _]|[_ Hj]]%(lookup_moved _ _ _ _ _ _ Hi) & Hh); [done|].
      by rewrite (no_writer x j h) in Hh.
  - split; [done|]. intros (h & [[_ ->]|[Hne Hj]]%(lookup_moved _ _ _ _ _ _ Hi) & Hh); [congruence|].
    by destruct (Hne (writer_only x j i h g Hinv Hj Hh Hi Hw)).
Qed.
Lemma moves_readers x i g g' s' : inv x → gs x !! i = Some g → moves i g g' (mtx (sh x)) (mtx s') →
  readers (mtx s') = many reading (<[i := g']> (gs x)).
Proof.
  intros Hinv Hi Hm. pose proof (many_insert reading (gs x) i g g' Hi) as Hread.
  pose proof (inv_readers x Hinv) as Hrd.
  inversion Hm as [? Hr|? ? ? Hr Hr'|? ? Hr Hr'|? ? ? ? Hr|? ? ? Hr]; cbn [readers];
    first [rewrite Hr, Hr' in Hread | rewrite Hr in Hread]; cbn [Nat.b2n] in Hread; lia.
Qed.
Lemma moves_excl x i g g' s' : inv x → gs x !! i = Some g → moves i g g' (mtx (sh x)) (mtx s') →
  ∀ j h, <[i := g']> (gs x) !! j = Some h → exclusive h = true → readers (mtx s') = 0%nat.
Proof.
  intros Hinv Hi Hm j h Hj Hh. pose proof (inv_readers x Hinv) as Hrd.
  apply (lookup_moved _ _ _ _ _ _ Hi) in Hj as [[-> ->]|[Hne Hj]].
  - inversion Hm as [? ? He| | | |]; simpl; try congruence.
    destruct (He Hh) as [He'|[_ ?]]; [|done]. rewrite Hrd. by eapply (inv_excl x Hinv).
  - pose proof (inv_excl x Hinv j h Hj Hh) as H0r. apply excl_writing in Hh.
    inversion Hm as [|Hn|? ? Hr|Hn|]; simpl; try congruence.
    + by rewrite (no_writer x j h) in Hh.
    + by rewrite Hrd, H0r.
Qed.
Lemma inv_sched x i g g' s' : inv x → gs x !! i = Some g →
  gstep i g (sh x) = Done (g', s') → inv (Pool s' (<[i := g']> (gs x))).
Proof.
  intros Hinv Hi [Hm Hc]%gstep_effect. split; simpl.
  2: by apply (moves_writer x i g).
  2: by apply (moves_readers x i g).
  2: { intros j h Hj Hh. rewrite <- (moves_readers x i g g' s' Hinv Hi Hm).
       by eapply (moves_excl x i g g' s'). }
  pose proof (many_insert counted_req (gs x) i g g' Hi) as Hmany. unfold unit_of in Hc.
  pose proof (inv_count x Hinv) as Hcount. destruct Hc as [[Hu ->]| ->]; rewrite Hcount.
  - f_equal. lia.
  - rewrite int32_add. f_equal. lia.
Qed.
Lemma inv_init w : inv (init_proc w).
Proof.
  split; simpl; [done| |done|done]. intros i. split; [done|]. by intros (g & ? & _).
Qed.
(** A state a proxy that starts with the network [w] can reach. *)
Definition reachable x : Prop :=
  ∃ w es, Forall (event_ok fresh) es ∧ steps gstep es (init_proc w) = Done x.
Lemma reachable_inv x : reachable x → inv x.
Proof. intros (w & es & Hes & He). by apply (steps_keep gstep fresh inv inv_arrive inv_sched es _ _ (inv_init w)). Qed.

(** *** The cache *)
Lemma svc_cache {A} (c : W → A * W) (t : pstate W conn) a t' : svc c t = Done (a, t') →
  cache t' = cache t ∧ (a, net t') = c (net t).
Proof. unfold svc. destruct (c (net t)). by intros [= <- <-]. Qed.
Lemma dsm_cache q (t : pstate W conn) r t' : dsm_UidEndpoint q t = Done (r, t') → cache t' = cache t.
Proof.
  intros ([id|e] & t1 & [Hc _]%svc_cache & Hk)%io_bind_inv; [|by injection Hk as _ <-].
  rewrite <- Hc. destruct (CliManager.method _ _ _ _ _ _) as [[[r1 cs] w]| |]; [|done|done].
  by injection Hk as _ <-.
Qed.
Lemma deal_cache q a ep sv e sv' :
  dealFunc_of (W := W) q a ep sv = Done (e, sv') → cache sv'.1 = cache sv.1.
Proof.
  assert (Hd : ∀ Q (rpc : conn → Q → W → result answer * W) f q,
    deal rpc f q a ep sv = Done (e, sv') → cache sv'.1 = cache sv.1).
  { intros Q rpc f q0. unfold deal.
    destruct (CliManager.method _ _ _ _ _ _) as [[[r cs] w]| |]; simpl; [|done|done].
    destruct r; by intros [= _ <-]. }
  destruct q; apply Hd.
Qed.

(** The endpoint a request has looked up. *)
Definition in_hand (p : pc) : option string :=
  match p with
  | PRUnlock ep => ep
  | PPut ep | PUnlock (Ok ep) | PGot ep | PCall ep => Some ep
  | _ => None
  end.
Definition hand (g : goroutine) : option string :=
  match g with GReq _ _ _ p _ => in_hand p | GClean _ _ => None end.

(** From now on ([good] holds, and is kept by the network) the dash answers for the
    user [uid] with endpoints in [P]. *)
Record redirected (good : W → Prop) (uid : string) (P : string → Prop) : Prop := {
  rd_answer (t : pstate W conn) r t' : good (net t) →
    dsm_UidEndpoint (MkCommonQueryRequest uid) t = Done (Ok r, t') → P (q_Resp r);
  rd_ask q (t : pstate W conn) r t' : good (net t) → dsm_UidEndpoint q t = Done (r, t') → good (net t');
  rd_deal q a ep sv e sv' : good (net sv.1) → dealFunc_of q a ep sv = Done (e, sv') → good (net sv'.1);
  rd_sleep d w : good w → good (Sleep d w);
}.
Section redirected.
Context (good : W → Prop) (uid : string) (P : string → Prop) (Hgood : redirected good uid P).
Definition cache_new (t : pstate W conn) : Prop :=
  good (net t) ∧ ∀ n, cache t !! uid = Some n → P (Caches.val n).
Lemma cache_new_same t t' : cache t' = cache t → good (net t') → cache_new t → cache_new t'.
Proof. intros Hc Hg [_ Hn]. split; [done|]. by rewrite Hc. Qed.
Lemma cache_new_del t u :
  cache_new t → cache_new (PS (StalingCache.Del (cache t) u) (reqCount t) (endpointClis t) (dashClis t) (net t)).
Proof.
  intros [Hg Hn]. split; [done|]. intros n. unfold StalingCache.Del. simpl.
  intros [_ ?]%lookup_delete_Some. auto.
Qed.
Lemma cache_new_sleep t d a t' : cache_new t → sleep d t = Done (a, t') → cache_new t'.
Proof.
  intros Ht Hs. unfold sleep in Hs. apply svc_cache in Hs as [Hc Hn].
  apply (cache_new_same t); [done| |done]. injection Hn as _ ->. apply (rd_sleep _ _ _ Hgood), Ht.
Qed.
Lemma cache_new_get t a t' u : cache_new t →
  (do t <- get_st ;;
   let '(ep, c) := StalingCache.Get (Now (net t)) (cache t) u in
   do _ <- set_cache c ;; mret ep) t = Done (a, t') →
  cache_new t' ∧ (u = uid → ∀ ep, a = Some ep → P ep).
Proof.
  intros [Hg Hn]. unfold mbind at 1, io_bind, get_st, mbind, StalingCache.Get. simpl.
  destruct (cache t !! u) as [n|] eqn:Hu; [destruct (_ <? _)|]; intros [= <- <-].
  - split; [by split|]. intros -> ep [= <-]. by apply Hn.
  - split; [|done]. split; [done|]. intros m. simpl. intros [_ ?]%lookup_delete_Some. auto.
  - split; [by split|done].
Qed.
Lemma cache_new_put t u now ep : cache_new t → (u = uid → P ep) →
  cache_new (PS (StalingCache.Put now (cache t) u ep) (reqCount t) (endpointClis t) (dashClis t) (net t)).
Proof.
  intros [Hg Hn] Hp. split; [done|]. intros n. unfold StalingCache.Put. simpl.
  intros [[-> <-]|[_ ?]]%lookup_insert_Some; [by apply Hp|auto].
Qed.

(** A step of a request: what it has in hand afterwards it had before, or it is new. *)
Definition hands_on (q : request) (p p' : pc) : Prop :=
  req_Uid q = uid → ∀ ep, in_hand p' = Some ep → (in_hand p = Some ep ∨ P ep) ∧ (p' = PPut ep → P ep).
Lemma hands_none q p p' : in_hand p' = None → hands_on q p p'.
Proof. unfold hands_on. by intros ->. Qed.
Lemma hands_same q p p' : in_hand p' = in_hand p → (∀ ep, p' ≠ PPut ep) → hands_on q p p'.
Proof. intros Heq Hne _ ep Hep. split; [left; congruence|]. intros ->. by destruct (Hne ep). Qed.
Ltac handed := do 3 eexists; split; [done|]; repeat case_match; first [by apply hands_none | by apply hands_same].
Ltac counted Hc Hn :=
  let Ht := fresh in injection Hc as _ Ht; rewrite <- Ht; split; [by split; apply Hn|handed].
Lemma req_new i q ctx d p v s g' s' :
  cache_new (st s) → (∀ ep, p = PPut ep → req_Uid q = uid → P ep) →
  req_step i q ctx d p v s = Done (g', s') →
  cache_new (st s') ∧ ∃ d' p' v', g' = GReq q ctx d' p' v' ∧ hands_on q p p'.
Proof.
  intros Hn Hput Hs. destruct p; simpl in Hs;
    try (apply locks_inv in Hs as (l & _ & -> & ->); split; [done|handed]);
    try (apply plain_inv in Hs as (b & Hc & _ & ->)).
  - destruct (cache_new_get _ _ _ _ Hn Hc) as [Ht Hep]. split; [done|]. do 3 eexists. split; [done|].
    intros Hq ep Heq. split; [right; by apply Hep|done].
  - split.
    + apply (cache_new_same (st s)); [by eapply dsm_cache|by eapply (rd_ask _ _ _ Hgood), Hc; apply Hn|done].
    + do 3 eexists. split; [done|]. intros Hq ep Heq. destruct b as [resp|e]; [|done].
      injection Heq as <-. rewrite Hq in Hc. pose proof (rd_answer _ _ _ Hgood _ _ _ (proj1 Hn) Hc). auto.
  - injection Hc as _ Ht. rewrite <- Ht. split; [|handed]. apply cache_new_put; [done|]. by apply Hput.
  - split; [by eapply cache_new_sleep|handed].
  - counted Hc Hn.
  - destruct ctx as [a|]; [|injection Hs as <- <-; split; [done|handed]].
    destruct (dealFunc_of q a ep (st s, v)) as [[err [t' v']]| |] eqn:Hd; [|done|done].
    injection Hs as <- <-. split; [|handed].
    apply (cache_new_same (st s)); [by apply deal_cache in Hd| |done].
    apply (rd_deal _ _ _ Hgood) in Hd; [done|apply Hn].
  - counted Hc Hn.
  - injection Hc as _ Ht. rewrite <- Ht. split; [by apply cache_new_del|handed].
  - split; [by eapply cache_new_sleep|handed].
  - counted Hc Hn.
  - counted Hc Hn.
  - destruct d as [|d]; [done|]. injection Hs as <- <-. split; [done|handed].
Qed.
Lemma clean_new i u p s g' s' : cache_new (st s) → clean_step i u p s = Done (g', s') →
  cache_new (st s') ∧ ∃ p', g' = GClean u p'.
Proof.
  intros Hn Hs. destruct p; simpl in Hs; try case_decide; try (injection Hs as <- <-; eauto; fail); try done;
    try (apply locks_inv in Hs as (l & _ & -> & ->); eauto; fail);
    apply plain_inv in Hs as (b & Hc & _ & ->).
  - split; [by eapply cache_new_sleep|eauto].
  - injection Hc as _ Ht. rewrite <- Ht. split; [by apply cache_new_del|eauto].
Qed.

(** The requests of the user, after the clean: an endpoint in hand was in the same
    hand at the clean ([had]), or is new. *)
Context (had : nat → string → Prop).
Record renewed x : Prop := {
  rn_cache : cache_new (st (sh x));
  rn_put i q ctx d ep v : gs x !! i = Some (GReq q ctx d (PPut ep) v) → req_Uid q = uid → P ep;
  rn_hand i q ctx d p v ep : gs x !! i = Some (GReq q ctx d p v) → req_Uid q = uid →
    in_hand p = Some ep → had i ep ∨ P ep;
}.
Lemma renewed_spawn x g : renewed x → fresh g → renewed (Pool (sh x) (gs x ++ [g])).
Proof.
  intros [Hc Hp Hh] Hg. assert (hand g = None) as Hn.
  { destruct g as [q c d p v|u p]; simpl in Hg; [by injection Hg as -> -> ->|done]. }
  split; [done|..]; simpl.
  - intros i q ctx d ep v [Hi|Hi]%lookup_spawned; [by eapply Hp|]. by subst.
  - intros i q ctx d p v ep [Hi|Hi]%lookup_spawned Hq Hep; [by eapply Hh|]. subst. simpl in Hn. congruence.
Qed.
Lemma renewed_sched x i g g' s' : renewed x → gs x !! i = Some g → gstep i g (sh x) = Done (g', s') →
  renewed (Pool s' (<[i := g']> (gs x))).
Proof.
  intros [Hc Hp Hh] Hi Hs. destruct g as [q ctx d p v|u p]; simpl in Hs.
  - apply req_new in Hs as (Hc' & d' & p' & v' & -> & Hon); [|done|by intros ep -> Hq; by eapply Hp].
    split; [done|..]; simpl.
    + intros j q1 c1 d1 ep v1 [[-> Heq]|[Hne Hj]]%(lookup_moved _ _ _ _ _ _ Hi) Hq; [|by eapply Hp].
      simplify_eq/=. by apply (Hon Hq ep eq_refl).
    + intros j q1 c1 d1 p1 v1 ep [[-> Heq]|[Hne Hj]]%(lookup_moved _ _ _ _ _ _ Hi) Hq Hep; [|by eapply Hh].
      simplify_eq/=. destruct (Hon Hq ep Hep) as [[Hep'|?] _]; [by eapply Hh|by right].
  - apply clean_new in Hs as (Hc' & p' & ->); [|done]. split; [done|..]; simpl.
    + by intros j q1 c1 d1 ep v1 [[-> ?]|[Hne Hj]]%(lookup_moved _ _ _ _ _ _ Hi) Hq; [|eapply Hp].
    + by intros j q1 c1 d1 p1 v1 ep [[-> ?]|[Hne Hj]]%(lookup_moved _ _ _ _ _ _ Hi) Hq Hep; [|eapply Hh].
Qed.
End redirected.

(** *** A request that runs without interruption *)
Section alone.
Variables (i : nat) (q : request) (ctx : option string).
Abbreviation free := (RW None 0).
Ltac solo := eapply solo_step; [reflexivity|].
Lemma uidEndpoint_solo d v (t : pstate W conn) r t' : uidEndpoint (req_Uid q) t = Done (r, t') →
  solo gstep i (GReq q ctx d PRLock v, Sh t free)
    (GReq q ctx d match r with
                  | Ok ep => PGot ep
                  | Err e => if negb (checkLeaderUnavailableErr e) then PReturn (Err e) else PPause
                  end v, Sh t' free).
Proof.
  unfold uidEndpoint. rewrite (io_bind_Done _ _ _ t t) by done.
  destruct (StalingCache.Get (Now (net t)) (cache t) (req_Uid q)) as [ep c] eqn:Hget.
  set (t1 := PS c (reqCount t) (endpointClis t) (dashClis t) (net t)).
  rewrite (io_bind_Done _ _ _ tt t1) by done. intros Hk. solo.
  assert (gstep i (GReq q ctx d PGet v) (Sh t (RW None 1)) =
    Done (GReq q ctx d (PRUnlock ep) v, Sh t1 (RW None 1))) as Hg.
  { simpl. unfold plain. rewrite (io_bind_Done _ _ _ t t) by done. by rewrite Hget. }
  eapply solo_step; [exact Hg|]. solo. destruct ep as [ep|]; [by injection Hk as <- <-; apply rtc_refl|].
  apply io_bind_inv in Hk as (a & t2 & Hask & Hk). solo. solo.
  eapply solo_step; [cbn [gstep req_step]; unfold plain; cbn [st]; by rewrite Hask|].
  destruct a as [resp|e]; [|injection Hk as <- <-; solo; by apply rtc_refl].
  rewrite (io_bind_Done _ _ _ t2 t2) in Hk by done. injection Hk as <- <-. solo. solo. by apply rtc_refl.
Qed.
Lemma wait_solo d v fuel : ∀ (t : pstate W conn) r t', wait_endpoint fuel (req_Uid q) t = Done (r, t') →
  solo gstep i (GReq q ctx d PRLock v, Sh t free)
    (GReq q ctx d match r with Ok ep => PGot ep | Err e => PReturn (Err e) end v, Sh t' free).
Proof.
  induction fuel as [|fuel IH]; intros t r t'; [done|]. cbn [wait_endpoint].
  intros (a & t1 & Ha & Hk)%io_bind_inv. apply (uidEndpoint_solo d v) in Ha. etrans; [exact Ha|].
  destruct a as [ep|e]; [by injection Hk as <- <-; apply rtc_refl|].
  destruct (negb _); [by injection Hk as <- <-; apply rtc_refl|].
  apply io_bind_inv in Hk as (u & t2 & Hsl & Hk).
  eapply solo_step; [cbn [gstep req_step]; unfold plain; cbn [st]; by rewrite Hsl|]. by apply IH.
Qed.
Lemma doProxy_solo fuel : ∀ d (t : pstate W conn) v r t' v',
  doProxy fuel ctx (req_Uid q) (dealFunc_of q) (t, v) = Done (r, (t', v')) →
  solo gstep i (GReq q ctx d PRLock v, Sh t free) (GReq q ctx d (PReturn r) v', Sh t' free).
Proof.
  induction fuel as [|fuel IH]; intros d t v r t' v'; [done|]. cbn [doProxy].
  intros (ep & [t1 v1] & [He Hv]%lift_inv & Hk)%io_bind_inv. cbn [fst snd] in He, Hv. subst v1.
  apply (wait_solo d v) in He. etrans; [exact He|].
  destruct ep as [ep|e]; [|by injection Hk as <- <- <-; apply rtc_refl]. solo.
  rewrite (io_bind_Done _ _ _ tt (counted t1, v)) in Hk by done.
  apply io_bind_inv in Hk as (r2 & [t2 v2] & Hbody & Hk). injection Hk as <- <- <-.
  trans (GReq q ctx d (PDefer r2) v2, Sh t2 free); [|solo; by apply rtc_refl].
  destruct ctx as [a|]; [|injection Hbody as <- <- <-; solo; by apply rtc_refl].
  apply io_bind_inv in Hbody as (err & [t3 v3] & Hd & Hk).
  eapply solo_step; [cbn [gstep req_step]; unfold counted in Hd; cbn [st]; by rewrite Hd|].
  destruct err as [e|]; [|by injection Hk as <- <- <-; apply rtc_refl].
  destruct (negb (checkConnErr e)); [by injection Hk as <- <- <-; apply rtc_refl|].
  solo. solo. solo. solo. solo. solo.
  apply io_bind_inv in Hk as (u1 & tv4 & [= <- <-] & Hk).
  apply io_bind_inv in Hk as (t4 & tv5 & [= <- <-] & Hk).
  apply io_bind_inv in Hk as (u2 & tv6 & [= <- <-] & Hk).
  apply io_bind_inv in Hk as (u3 & tv7 & [= <- <-] & Hk).
  apply io_bind_inv in Hk as (r5 & [t8 v8] & Hrec & Hk).
  apply (IH (S d)) in Hrec. etrans; [exact Hrec|]. solo.
  apply io_bind_inv in Hk as (u4 & tv9 & [= <- <-] & Hk). injection Hk as <- <- <-. solo.
  by apply rtc_refl.
Qed.
End alone.

(** *** Progress

    The network answers: the dash with an endpoint, the search servers with
    anything but a connection error. *)
Record answering (good : W → Prop) : Prop := {
  an_ask q (t : pstate W conn) : good (net t) →
    ∃ r t', dsm_UidEndpoint q t = Done (Ok r, t') ∧ good (net t');
  an_deal q a ep sv : good (net sv.1) → ∃ err sv', dealFunc_of q a ep sv = Done (err, sv') ∧
    good (net sv'.1) ∧ ∀ e, err = Some e → checkConnErr e = false;
  an_sleep d w : good w → good (Sleep d w);
}.
(** The steps a goroutine has left. *)
Definition rank_pc (p : pc) : nat :=
  match p with
  | PReturn _ => 0 | PDefer _ => 1 | PRecount | PCall _ => 2 | PGot _ => 3
  | PUnlock (Ok _) => 4 | PPut _ => 5 | PAsk => 6 | PAcquire => 7 | PLock => 8 | PRUnlock _ => 9
  | PGet => 10 | PRLock => 11 | PPause => 12 | PUnlock (Err _) => 13 | PSleep => 15 | PDelUnlock => 16
  | PDel => 17 | PDelAcquire => 18 | PDelLock => 19 | PUncount => 20
  end%nat.
Definition rank (g : goroutine) : nat :=
  match g with
  | GReq _ _ d p _ => 3 * d + rank_pc p
  | GClean _ p =>
    match p with CDone => 0 | CUnlock => 1 | CDel => 2 | CWait => 3 | CAcquire => 4 | CLock => 5 end
  end%nat.
Definition finished (g : goroutine) : bool :=
  match g with
  | GReq _ _ d (PReturn _) _ => bool_decide (d = 0%nat)
  | GClean _ CDone => true
  | _ => false
  end.

(** What a goroutine waits for before it moves on. *)
Definition waits (g : goroutine) (s : shared W) : bool :=
  match g with
  | GReq _ _ _ (PRLock | PLock | PDelLock) _ | GClean _ CLock => bool_decide (writer (mtx s) ≠ None)
  | GReq _ _ _ (PAcquire | PDelAcquire) _ | GClean _ CAcquire => bool_decide (readers (mtx s) ≠ 0%nat)
  | GClean _ CWait => bool_decide (reqCount (st s) ≠ 0)
  | _ => false
  end.
Section answering.
Context (good : W → Prop) (Hnet : answering good).
(** A goroutine that does not wait gets closer to its end. *)
Definition advances (i : nat) (g : goroutine) s : Prop :=
  ∃ g' s', gstep i g s = Done (g', s') ∧ (rank g' < rank g)%nat ∧ good (net (st s')).
Lemma plain_advances i g {A} (c : io (pstate W conn) A) f s a t :
  gstep i g s = plain c f s → c (st s) = Done (a, t) → (rank (f a) < rank g)%nat → good (net t) →
  advances i g s.
Proof. intros Hg Hc Hr Ht. exists (f a), (Sh t (mtx s)). unfold plain in Hg. by rewrite Hg, Hc. Qed.
Lemma locks_advances i g o g' s l :
  gstep i g s = locks o g' s → o = Done l → (rank g' < rank g)%nat → good (net (st s)) → advances i g s.
Proof. intros Hg Hl Hr Ht. exists g', (Sh (st s) l). unfold locks in Hg. by rewrite Hg, Hl. Qed.
Ltac locked Hw := eapply locks_advances; [reflexivity|unfold RWMutex.RLock, RWMutex.announce, RWMutex.acquire; by rewrite ?Hw|simpl; lia|done].
Ltac goes := eapply plain_advances; [reflexivity|reflexivity|simpl; lia|done].
Lemma req_advances i q ctx d p v s : good (net (st s)) → waits (GReq q ctx d p v) s = false →
  finished (GReq q ctx d p v) = false → advances i (GReq q ctx d p v) s.
Proof.
  intros Hs Hw Hf. destruct p; simpl in Hw;
    try (apply bool_decide_eq_false, dec_stable in Hw; locked Hw); try goes.
  - destruct (StalingCache.Get (Now (net (st s))) (cache (st s)) (req_Uid q)) as [ep c] eqn:Hget.
    eapply plain_advances; [reflexivity|rewrite (io_bind_Done _ _ _ (st s) (st s)) by done; by rewrite Hget|simpl; lia|done].
  - eapply locks_advances; [reflexivity|reflexivity|destruct ep; simpl; lia|done].
  - destruct (an_ask _ Hnet (MkCommonQueryRequest (req_Uid q)) (st s) Hs) as (r & t & Hask & Ht).
    eapply plain_advances; [reflexivity|exact Hask|simpl; lia|done].
  - eapply locks_advances; [reflexivity|reflexivity| |done].
    destruct r as [ep|e]; [simpl; lia|]. destruct (negb _); simpl; lia.
  - eapply plain_advances; [reflexivity|reflexivity|simpl; lia|]. by apply (an_sleep _ Hnet).
  - destruct ctx as [a|]; [|eexists _, _; split; [reflexivity|]; split; [simpl; lia|done]].
    destruct (an_deal _ Hnet q a ep (st s, v) Hs) as (err & [t v'] & Hd & Ht & He).
    eexists _, _. split; [cbn [gstep req_step]; rewrite Hd; reflexivity|]. split; [|done].
    destruct err as [e|]; [rewrite (He e eq_refl)|]; simpl; lia.
  - locked Hw.
  - eapply plain_advances; [reflexivity|reflexivity|simpl; lia|]. by apply (an_sleep _ Hnet).
  - destruct d as [|d]; [done|]. eexists _, _. split; [reflexivity|]. split; [simpl; lia|done].
Qed.
Lemma clean_advances i uid p s : good (net (st s)) → waits (GClean uid p) s = false →
  finished (GClean uid p) = false → advances i (GClean uid p) s.
Proof.
  intros Hs Hw Hf. destruct p; simpl in Hw; try apply bool_decide_eq_false, dec_stable in Hw; try done;
    try (locked Hw); try goes.
  eexists _, _. split; [simpl; by rewrite decide_True|]. split; [simpl; lia|done].
Qed.
Lemma goroutine_advances i g s : good (net (st s)) → waits g s = false → finished g = false → advances i g s.
Proof. destruct g; [apply req_advances|apply clean_advances]. Qed.
End answering.

(** Somebody does not wait. *)
Lemma somebody_moves x i g : inv x → gs x !! i = Some g → finished g = false →
  ∃ j h, gs x !! j = Some h ∧ finished h = false ∧ waits h (sh x) = false.
Proof.
  intros Hinv Hi Hf. destruct (decide (readers (mtx (sh x)) = 0%nat)) as [Hr|Hr].
  - destruct (writer (mtx (sh x))) as [j|] eqn:Hw.
    + pose proof (proj1 (inv_writer x Hinv j) Hw) as (h & Hj & Hh).
      destruct (decide (reqCount (st (sh x)) = 0)) as [Hc|Hc].
      * exists j, h. split; [done|]. destruct h as [q c d [] v|u []]; try done; simpl;
          (split; [done|]); try (apply bool_decide_eq_false; by intros []).
      * assert (0 < many counted_req (gs x))%nat as (k & h' & Hk & Hh')%many_ex.
        { rewrite (inv_count x Hinv) in Hc. destruct (many counted_req (gs x)); [done|lia]. }
        exists k, h'. split; [done|]. by destruct h' as [q c d [] v|u []].
    + destruct g as [q c d p v|u p]; [|].
      * exists i, (GReq q c d p v). do 2 (split; [done|]). destruct p; simpl; try done;
          by apply bool_decide_eq_false; intros [].
      * exists i, (GClean u p). do 2 (split; [done|]). destruct p; simpl; try done;
          try (apply bool_decide_eq_false; by intros []).
        assert (writing (GClean u CWait) = false) by (by eapply no_writer). done.
  - assert (0 < many reading (gs x))%nat as (k & h & Hk & Hh)%many_ex
      by (rewrite <- (inv_readers x Hinv); lia).
    exists k, h. split; [done|]. by destruct h as [q c d [] v|u []].
Qed.

(** A client manager whose client answers in the state [w]. *)
Lemma method_answers {Q R} (call : conn → Q → W → result R * W) newCli ep q m w :
  (∃ c, newCli ep w = Done (c, w)) → (∀ c, ∃ a, call c q w = (Ok a, w)) →
  ∃ a m', CliManager.method newCli call ep q m w = Done (Ok a, m', w).
Proof.
  intros [c Hc] Hcall. unfold CliManager.method, CliManager.ensureCliExists.
  destruct (m !! ep) as [cl|] eqn:Hm; [|rewrite Hc]; simpl; [rewrite Hm|rewrite lookup_insert_eq].
  - destruct (Hcall cl) as [b ->]. by eexists _, _.
  - destruct (Hcall c) as [b ->]. by eexists _, _.
Qed.
(** Goroutines that want the mutex another goroutine has do not move. *)
Definition wants_mutex (g : goroutine) : bool :=
  match g with GReq _ _ _ (PRLock | PLock | PDelLock) _ | GClean _ CLock => true | _ => false end.
Lemma wants_blocks i j g s : writer (mtx s) = Some i → wants_mutex g = true → gstep j g s = Block.
Proof.
  intros Hw Hg. destruct g as [q c d [] v|u []]; try done;
    simpl; unfold locks, RWMutex.RLock, RWMutex.announce; by rewrite Hw.
Qed.
Lemma held_blocks es i j g h : ∀ x y, inv x → gs x !! i = Some g → writing g = true →
  gs x !! j = Some h → wants_mutex h = true → Forall (event_ok fresh) es → Sched i ∉ es →
  steps gstep es x = Done y → gs y !! i = Some g ∧ gs y !! j = Some h.
Proof.
  induction es as [|e es IH]; intros x y Hinv Hi Hg Hj Hh Hok Hes; simpl; [by intros [= <-]|].
  destruct (step gstep e x) as [z| |] eqn:He; [|done|done]. apply not_elem_of_cons in Hes as [Hne Hes].
  apply Forall_cons in Hok as [Hoke Hok].
  assert (writer (mtx (sh x)) = Some i) as Hw by (apply Hinv; by exists g).
  assert (e ≠ Sched j) as Hnj.
  { intros ->. simpl in He. rewrite Hj, (wants_blocks i j h (sh x) Hw Hh) in He. done. }
  apply IH; try done; [by eapply (step_keeps gstep fresh inv inv_arrive inv_sched)|by eapply step_stays|by eapply step_stays].
Qed.
End facts.
End ProxyConcFacts.

(** ** Theorems about the goroutines of a proxy *)
Module ProxyConcTheorems.
Import Proxy ProxyConc ProxyConcFacts.
Section theorems.
Context {W : Type} `{EtcdClient W} `{Grpc W} `{Clock W}.
Implicit Types x y : proc W.

(** C24. In every state a proxy reaches, with fewer than 2^31 goroutines: the
    request count is the number of requests being forwarded; whoever holds the
    mutex of the endpoint cache as a writer shares it with no writer and no reader;
    and [CleanUidCache] gets past its wait only when no request is being
    forwarded. *)
Theorem proxy_exclusion x : reachable x → (Z.of_nat (length (gs x)) < 2 ^ 31) →
  reqCount (st (sh x)) = Z.of_nat (many counted_req (gs x)) ∧
  (∀ i j g h, gs x !! i = Some g → gs x !! j = Some h →
    exclusive g = true → exclusive h || reading h = true → i = j) ∧
  (∀ i uid y, gs x !! i = Some (GClean uid CWait) → step gstep (Sched i) x = Done y →
    gs y !! i = Some (GClean uid CDel) → ∀ j g, gs x !! j = Some g → counted_req g = false).
Proof.
  intros Hinv%reachable_inv Hlen.
  assert (reqCount (st (sh x)) = Z.of_nat (many counted_req (gs x))) as Hcount.
  { rewrite (inv_count x Hinv). apply ProxyFacts.int32_id. pose proof (many_le counted_req (gs x)).
    unfold in_int32. lia. }
  split_and!; [done| |].
  - intros i j g h Hi Hj Hg [Hh|Hh]%orb_true_iff.
    + by eapply writer_only; eauto using excl_writing.
    + pose proof (many_0 _ _ _ _ (inv_excl x Hinv i g Hi Hg) Hj). congruence.
  - intros i uid y Hi Hs Hy j g Hj. apply (many_0 _ (gs x) j g); [|done]. simpl in Hs. rewrite Hi in Hs.
    simpl in Hs. case_decide; [lia|]. unfold plain in Hs. simpl in Hs. injection Hs as <-.
    simpl in Hy. by rewrite (lookup_self x i (GClean uid CWait) _ Hi) in Hy.
Qed.


(** A lookup survives the clean: a request that has looked up its endpoint and
    is not yet counted does not hold [CleanUidCache] up; the clean returns, and the
    request is then forwarded to the endpoint that was cleaned. *)
Theorem lookup_survives_clean x i j q a d ep v :
  gs x !! i = Some (GReq q a d (PGot ep) v) → gs x !! j = Some (GClean (req_Uid q) CLock) →
  mtx (sh x) = RW None 0 → reqCount (st (sh x)) = 0 →
  ∃ y z, steps gstep (replicate 5 (Sched j)) x = Done y ∧
    gs y !! j = Some (GClean (req_Uid q) CDone) ∧ cache (st (sh y)) !! req_Uid q = None ∧
    step gstep (Sched i) y = Done z ∧ gs z !! i = Some (GReq q a d (PCall ep) v).
Proof.
  intros Hi Hj Hm Hc. destruct x as [[t m] l]. simpl in *. subst m.
  assert (i ≠ j) as Hne by (intros ->; congruence).
  assert (j < length l)%nat as Hl by (by eapply lookup_lt_Some).
  rewrite Hj. simpl. rewrite (list_lookup_insert_eq l j) by done. simpl.
  rewrite list_insert_insert_eq, (list_lookup_insert_eq l j) by done. simpl.
  rewrite decide_True by done. simpl. rewrite list_insert_insert_eq, (list_lookup_insert_eq l j) by done. simpl.
  rewrite list_insert_insert_eq, (list_lookup_insert_eq l j) by done. simpl. rewrite list_insert_insert_eq.
  eexists _, _. split; [reflexivity|]. simpl. split; [by apply list_lookup_insert_eq|].
  split; [unfold StalingCache.Del; by rewrite lookup_delete_eq|].
  rewrite list_lookup_insert_ne by done. rewrite Hi. simpl. split; [reflexivity|]. simpl.
  apply list_lookup_insert_eq. rewrite length_insert. by eapply lookup_lt_Some.
Qed.

(** A proxy that asks the dash keeps the mutex: until the answer arrives no
    [CleanUidCache] begins, whatever the other goroutines do.  A dash server that
    calls [CleanUidCache] of the asking proxy before it answers waits for the proxy
    while the proxy waits for it. *)
Theorem asking_blocks_cleaning x es y i j q a d v uid :
  reachable x → gs x !! i = Some (GReq q a d PAsk v) → gs x !! j = Some (GClean uid CLock) →
  Forall (event_ok fresh) es → Sched i ∉ es → steps gstep es x = Done y →
  gs y !! i = Some (GReq q a d PAsk v) ∧ gs y !! j = Some (GClean uid CLock).
Proof. intros Hinv%reachable_inv Hi Hj Hok Hes Hs. by eapply (held_blocks es i j _ _ x y). Qed.

(** A request that finds the mutex free and runs without interruption does
    what the sequential [Proxy.doProxy] does: the same result, captured variables,
    cache, count and calls; the mutex is free again. *)
Theorem alone_is_doProxy fuel x i q ctx v r t v' :
  gs x !! i = Some (GReq q ctx 0 PRLock v) → mtx (sh x) = RW None 0 →
  doProxy fuel ctx (req_Uid q) (dealFunc_of q) (st (sh x), v) = Done (r, (t, v')) →
  ∃ n, steps gstep (replicate n (Sched i)) x =
    Done (Pool (Sh t (RW None 0)) (<[i := GReq q ctx 0 (PReturn r) v']> (gs x))).
Proof.
  intros Hi Hm Hd. apply (doProxy_solo i q ctx fuel 0) in Hd.
  apply (solo_steps gstep i _ _ Hd x Hi). destruct (sh x) as [t0 m]. simpl in *. by subst.
Qed.

(** C26. The goroutines of a proxy do not block one another: when the dash and the
    search servers answer, then from every state a proxy reaches all requests and
    cleans of that moment can run to their end, within as many steps as [total]
    counts. *)
Theorem requests_are_answered good x : answering good → reachable x → good (net (st (sh x))) →
  ∃ js y, (length js ≤ total rank (gs x))%nat ∧ steps gstep (Sched <$> js) x = Done y ∧
    length (gs y) = length (gs x) ∧ ∀ i g, gs y !! i = Some g → finished g = true.
Proof.
  intros Hnet Hinv%reachable_inv Hg.
  apply (all_finish gstep rank finished (λ x, inv x ∧ good (net (st (sh x))))); [|done].
  clear x Hinv Hg. intros x i0 g0 [Hinv Hg] Hi0 Hf0.
  destruct (somebody_moves x i0 g0 Hinv Hi0 Hf0) as (i & g & Hi & Hf & Hw).
  destruct (goroutine_advances good Hnet i g (sh x) Hg Hw Hf) as (g' & s' & Hs & Hr & Hg').
  exists i, g, g', s'. do 3 (split; [done|]). split; [by eapply inv_sched|done].
Qed.
End theorems.

(** *** Witnesses: a proxy whose dash always answers "[::]:8083" *)
#[local] Existing Instances ProxyTheorems.nat_grpc ProxyTheorems.still_clock ProxyTheorems.leader_etcd.
Definition ex_search (uid : string) : request := QSearch (MkSearchRequest uid "ls" "t" "spoofed").
Definition ex_after (es : list (event goroutine)) : proc nat :=
  match steps gstep es (init_proc 0%nat) with Done x => x | _ => init_proc 0%nat end.
(** The request 0 has looked up its endpoint, which the cache holds. *)
Definition ex_looked_up : list (event goroutine) :=
  Spawn (new_request (ex_search "alice") (Some "1.2.3.4:5")) :: replicate 8 (Sched 0).
(** A clean arrives and gets as far as its wait, or its deletion. *)
Definition ex_waiting : list (event goroutine) := ex_looked_up ++ [Spawn (GClean "alice" CLock); Sched 1; Sched 1].
Definition ex_deleting : list (event goroutine) := ex_waiting ++ [Sched 1].

Lemma ex_reach es : Forall (event_ok fresh) es → steps gstep es (init_proc 0%nat) = Done (ex_after es) →
  reachable (ex_after es).
Proof. intros Hes He. by exists 0%nat, es. Qed.

Lemma proxy_exclusion_witness :
  reqCount (st (sh (ex_after ex_waiting))) = Z.of_nat (many counted_req (gs (ex_after ex_waiting))) ∧
  (∀ i j g h, gs (ex_after ex_waiting) !! i = Some g → gs (ex_after ex_waiting) !! j = Some h →
    exclusive g = true → exclusive h || reading h = true → i = j) ∧
  (∀ i uid y, gs (ex_after ex_waiting) !! i = Some (GClean uid CWait) →
    step gstep (Sched i) (ex_after ex_waiting) = Done y → gs y !! i = Some (GClean uid CDel) →
    ∀ j g, gs (ex_after ex_waiting) !! j = Some g → counted_req g = false).
Proof. apply proxy_exclusion; [by apply ex_reach; [repeat constructor|vm_compute]|by vm_compute]. Defined.

Lemma ex_redirected : redirected (W := nat) (λ _, True) "alice" (λ ep, ep = "[::]:8083").
Proof.
  split; try done. intros t r t' _ (id & t1 & _ & Hk)%io_bind_inv. destruct id as [id|e]; [|done].
  unfold CliManager.method in Hk. destruct (CliManager.ensureCliExists _ _ _ _) as [[m w]| |]; [|done|done].
  cbn in Hk. case_match; simplify_eq/=. done.
Qed.
(** The clean deletes; the request 0 is forwarded to the endpoint it had; the
    request 2 of the same user arrives, asks the dash and is forwarded. *)
Definition ex_later : list (event goroutine) :=
  [Sched 1; Sched 1; Sched 0; Spawn (new_request (ex_search "alice") (Some "1.2.3.4:6"))] ++ replicate 9 (Sched 2).
Definition ex_end : proc nat :=
  match steps gstep ex_later (ex_after ex_deleting) with Done x => x | _ => init_proc 0%nat end.

Definition ex_race : proc nat := ex_after (ex_looked_up ++ [Spawn (GClean "alice" CLock)]).
Lemma lookup_survives_clean_witness :
  ∃ y z, steps gstep (replicate 5 (Sched 1)) ex_race = Done y ∧
    gs y !! 1%nat = Some (GClean "alice" CDone) ∧ cache (st (sh y)) !! "alice" = None ∧
    step gstep (Sched 0) y = Done z ∧
    gs z !! 0%nat = Some (GReq (ex_search "alice") (Some "1.2.3.4:5") 0 (PCall "[::]:8083") (None, None)).
Proof. apply (lookup_survives_clean ex_race 0 1 (ex_search "alice")); by vm_compute. Defined.

(** The request 0 asks the dash; a clean and another request come and go as far as
    they can. *)
Definition ex_asking : list (event goroutine) :=
  Spawn (new_request (ex_search "alice") (Some "1.2.3.4:5")) :: replicate 5 (Sched 0) ++ [Spawn (GClean "bob" CLock)].
Definition ex_others : list (event goroutine) := [Spawn (new_request (ex_search "carol") None); Spawn (GClean "alice" CLock)].
Lemma asking_blocks_cleaning_witness :
  let y := match steps gstep ex_others (ex_after ex_asking) with Done y => y | _ => init_proc 0%nat end in
  gs y !! 0%nat = Some (GReq (ex_search "alice") (Some "1.2.3.4:5") 0 PAsk (None, None)) ∧
  gs y !! 1%nat = Some (GClean "bob" CLock).
Proof.
  apply (asking_blocks_cleaning (ex_after ex_asking) ex_others).
  - by apply ex_reach; [repeat constructor|vm_compute].
  - by vm_compute.
  - by vm_compute.
  - by repeat constructor.
  - unfold ex_others. by intros [?|[?|[]%elem_of_nil]%elem_of_cons]%elem_of_cons.
  - by vm_compute.
Defined.

Definition ex_one : proc nat := ex_after [Spawn (new_request (ex_search "alice") (Some "1.2.3.4:5")); Spawn (GClean "bob" CLock)].
Definition ex_alone : option (pstate nat conn * reply answer) :=
  match doProxy 3 (Some "1.2.3.4:5") "alice" (dealFunc_of (ex_search "alice")) (st (sh ex_one), (None, None)) with
  | Done (_, s) => Some s
  | _ => None
  end.
Lemma alone_is_doProxy_witness :
  ∃ n, steps gstep (replicate n (Sched 0)) ex_one =
    Done (Pool (Sh (default (st (sh ex_one)) (fst <$> ex_alone)) (RW None 0))
      (<[0%nat := GReq (ex_search "alice") (Some "1.2.3.4:5") 0 (PReturn (Ok tt))
                (default (None, None) (snd <$> ex_alone))]> (gs ex_one))).
Proof. apply (alone_is_doProxy 3 ex_one 0 (ex_search "alice") (Some "1.2.3.4:5") (None, None)); by vm_compute. Defined.

(** The network without failures left answers. *)
Lemma ex_leader : Elect.GetElectorID DashLeaderKey 0%nat = (Ok ":8082", 0%nat).
Proof. vm_compute. done. Qed.
Lemma ex_answering : answering (W := nat) (λ n, n = 0%nat).
Proof.
  split; [| |done].
  - intros q [c n e d w] Hw. simpl in Hw. subst w. unfold dsm_UidEndpoint, svc, mbind, io_bind.
    cbn [net]. rewrite ex_leader. cbn [cache reqCount endpointClis dashClis net].
    destruct (method_answers (W := nat) rpc_UidEndpoint CliManager.newDSServerCli ":8082" q d 0%nat)
      as (a & m & ->); [by eexists|intros cl; by eexists|].
    simpl. eexists _, _. by split.
  - intros q a ep [[c n e d w] v] Hw. simpl in Hw. subst w.
    assert (Hd : ∀ Q (rpc : conn → Q → nat → result answer * nat) f q0,
      (∀ cl q1, ∃ ans, rpc cl q1 0%nat = (Ok ans, 0%nat)) →
      ∃ err sv', deal rpc f q0 a ep (PS c n e d 0%nat, v) = Done (err, sv') ∧ net sv'.1 = 0%nat ∧
        ∀ er, err = Some er → checkConnErr er = false).
    { intros Q rpc f q0 Hr. unfold deal. cbn [fst endpointClis net].
      destruct (method_answers (W := nat) rpc CliManager.newSearchServerCli ep (f q0 a) e 0%nat)
        as (b & m & ->); [by eexists|auto|].
      simpl. eexists _, _. by split. }
    destruct q as [q|q|q|q]; apply Hd; intros cl q1; by eexists.
Qed.
(** A request that asks the dash, another that waits for the mutex, a clean. *)
Definition ex_busy : proc nat := ex_after (ex_asking ++ [Spawn (new_request (ex_search "carol") None)]).
Lemma requests_are_answered_witness :
  ∃ js y, (length js ≤ 22)%nat ∧ steps gstep (Sched <$> js) ex_busy = Done y ∧
    length (gs y) = 3%nat ∧ ∀ i g, gs y !! i = Some g → finished g = true.
Proof.
  apply (requests_are_answered (λ n, n = 0%nat) ex_busy ex_answering).
  - by apply ex_reach; [repeat constructor|vm_compute].
  - by vm_compute.
Defined.
End ProxyConcTheorems.
