(* ===== verification/Util.v ===== *)
(** * util/util.go: retries, and the file helpers

    [Util.Retry] calls a function again after growing, random waits; what it
    promises is the relation [tries].  The helpers on files and connections are
    calls of class [Os]. *)

From S2P Require Import Prelude GoStr.
#[local] Open Scope Z_scope.

(** [rand.Int63n], for a positive bound. *)
Class Rand (W : Type) := {
  Int63n : Z → W → Z * W;
  Int63n_range n w : 0 < n → 0 ≤ (Int63n n w).1 < n;
}.
Definition int64 (x : Z) : Z := (x + 2 ^ 63) mod 2 ^ 64 - 2 ^ 63.
Lemma int64_id x : - 2 ^ 63 ≤ x < 2 ^ 63 → int64 x = x.
Proof. intros ?. unfold int64. rewrite Z.mod_small by lia. lia. Qed.

(** Package os, net and net/http, as the helpers use them. *)
Class Os (W : Type) := {
  file : Type;
  body : Type;
  os_IsDir : string → W → result bool * W;       (* [os.Stat], [IsDir] *)
  os_MkdirAll : string → W → result unit * W;
  os_OpenAppend : string → W → result file * W;
  os_CreateFile : string → W → result file * W;
  WriteString : file → string → W → result unit * W;
  net_DialClose : string → W → result unit * W;  (* [net.Dial] and [Close] *)
  http_Get : string → W → result body * W;
  body_Read : body → nat → W → result unit * W;
  io_CopyBody : file → body → W → result unit * W;
}.

Module Util.
(** An error of the function: a [stop] around one, or any other. *)
Inductive rerr := Stop (e : error) | Fail (e : error).

Section retry.
Context {W : Type} `{Rand W} `{Clock W}.
(** [rand.Int63n] panics when its argument is not positive; [fuel] bounds the
    calls. *)
Fixpoint Retry (fuel : nat) (attempts sleep : Z) (f : io W (option rerr)) : io W (option error) :=
  match fuel with
  | O => block
  | S fuel =>
    do err <- f ;;
    match err with
    | None => mret None
    | Some (Stop e) => mret (Some e)
    | Some (Fail e) =>
      let attempts := int64 (attempts - 1) in
      if 0 <? attempts then
        if sleep <=? 0 then panic "invalid argument to Int63n"
        else
          do jitter <- call (Int63n sleep) ;;
          let sleep := int64 (sleep + Z.quot jitter 2) in
          do _ <- call (λ w, (tt, Sleep sleep w)) ;;
          Retry fuel attempts (int64 (2 * sleep)) f
      else mret (Some e)
    end
  end.
End retry.

Section files.
Context {W : Type} `{Os W}.
Definition FileExist (f : string) (w : W) : bool * W :=
  match os_IsDir f w with (Ok isdir, w) => (negb isdir, w) | (Err _, w) => (false, w) end.
Definition writeFile (fn data : string) (openFunc : W → result file * W) (w : W) : result unit * W :=
  match os_MkdirAll (GoStr.Dir fn) w with
  | (Err e, w) => (Err e, w)
  | (Ok _, w) =>
    match openFunc w with
    | (Err e, w) => (Err e, w)
    | (Ok f, w) => WriteString f data w
    end
  end.
Definition AppendFile (fn data : string) (w : W) : result unit * W :=
  writeFile fn data (os_OpenAppend fn) w.
Definition OverWriteFile (fn data : string) (w : W) : result unit * W :=
  writeFile fn data (os_CreateFile fn) w.
Definition CheckTCP (endpoint : string) (w : W) : bool * W :=
  let '(r, w) := net_DialClose endpoint w in (is_ok r, w).
(** [cons.Domain]; [UserCrt] is the path of the user's certificate.  The first
    read asks for no byte. *)
Definition Domain : string := "www.myshell.top".
Definition PullCert (UserCrt : string) (w : W) : result unit * W :=
  match http_Get ("https://" +:+ Domain +:+ ":443/get_cert") w with
  | (Err e, w) => (Err e, w)
  | (Ok resp, w) =>
    match body_Read resp 0 w with
    | (Err e, w) => (Err e, w)
    | (Ok _, w) =>
      match os_MkdirAll (GoStr.Dir UserCrt) w with
      | (Err e, w) => (Err e, w)
      | (Ok _, w) =>
        match os_CreateFile UserCrt w with
        | (Err e, w) => (Err e, w)
        | (Ok f, w) => io_CopyBody f resp w
        end
      end
    end
  end.
End files.
End Util.

(** Files in memory; the run of the package's test. *)
Module MemOs.
#[local] Instance files : Os (gmap string string) := {|
  file := string;
  body := string;
  os_IsDir f w := (match w !! f with Some _ => Ok false | None => Err (Errorf "not found") end, w);
  os_MkdirAll _ w := (Ok tt, w);
  os_OpenAppend f w := (Ok f, match w !! f with Some _ => w | None => <[f := ""]> w end);
  os_CreateFile f w := (Ok f, <[f := ""]> w);
  WriteString f data w := (Ok tt, <[f := default "" (w !! f) +:+ data]> w);
  net_DialClose _ w := (Err (Errorf "connection refused"), w);
  http_Get _ w := (Ok "certificate", w);
  body_Read _ _ w := (Ok tt, w);
  io_CopyBody f b w := (Ok tt, <[f := default "" (w !! f) +:+ b]> w);
|}.
Example write_ex :
  let w := (Util.OverWriteFile "/tmp/tmp" "test" {["/tmp/tmp" := "old"]}).2 in
  let w := (Util.AppendFile "/tmp/tmp" "test" w).2 in
  let w := (Util.AppendFile "/tmp/tmp" "test" w).2 in
  w !! "/tmp/tmp" = Some "testtesttest" ∧ (Util.FileExist "/tmp/tmp" w).1 = true ∧
  (Util.PullCert "/home/u/mysh/cert/crt" w).2 !! "/home/u/mysh/cert/crt" = Some "certificate".
Proof. vm_compute. done. Qed.
End MemOs.

(** ** What [Retry] promises *)
Module UtilSpec.
Import Util.
Section spec.
Context {W : Type} `{Rand W} `{Clock W}.
Variable f : io W (option rerr).

(** [tries n ds w r w']: from [w], [f] is called until it succeeds, asks to
    stop, or has failed [n] times, with the waits [ds] in between; [r] is the
    result of the last call. *)
Inductive tries : nat → list Z → W → option error → W → Prop :=
  | tries_ok n w w' : f w = Done (None, w') → tries n [] w None w'
  | tries_stop n w e w' : f w = Done (Some (Stop e), w') → tries n [] w (Some e) w'
  | tries_last w e w' : f w = Done (Some (Fail e), w') → tries 1 [] w (Some e) w'
  | tries_again n w e w1 sleep d ds r w' :
      f w = Done (Some (Fail e), w1) →
      tries (S n) ds (Sleep d (Int63n sleep w1).2) r w' →
      tries (S (S n)) (d :: ds) w r w'.

(** The waits double at least, and grow by less than three. *)
Definition grows (sleep : Z) (ds : list Z) : Prop :=
  ∀ i d, ds !! i = Some d →
    sleep * 2 ^ Z.of_nat i ≤ d ∧ 2 * d < sleep * 3 ^ (Z.of_nat i + 1).

Lemma grows_cons sleep d ds : 0 < sleep → sleep ≤ d → 2 * d < 3 * sleep → grows (2 * d) ds →
  grows sleep (d :: ds).
Proof.
  intros Hs Hd Hd3 Hg [|i] x Hx; simpl in Hx.
  - injection Hx as <-. simpl. lia.
  - destruct (Hg i x Hx) as [Hlo Hhi]. rewrite Nat2Z.inj_succ, !Z.pow_succ_r in * by lia.
    assert (0 < 2 ^ Z.of_nat i) by (apply Z.pow_pos_nonneg; lia).
    assert (0 < 3 ^ (Z.of_nat i + 1)) by (apply Z.pow_pos_nonneg; lia).
    replace (Z.succ (Z.of_nat i) + 1) with (Z.succ (Z.of_nat i + 1)) by lia.
    rewrite Z.pow_succ_r by lia. nia.
Qed.

(** What the function, the waits and the random numbers keep, [Retry] keeps. *)
Lemma Retry_keeps (P : W → Prop) fuel : ∀ attempts sleep w r w',
  (∀ w r w', f w = Done (r, w') → P w → P w') → (∀ n w, P w → P (Int63n n w).2) →
  (∀ d w, P w → P (Sleep d w)) →
  Retry fuel attempts sleep f w = Done (r, w') → P w → P w'.
Proof.
  induction fuel as [|fuel IH]; intros attempts sleep w r w' Hf Hr Hs; [done|]. cbn [Retry].
  intros (e & w1 & Hw & Hk)%io_bind_inv Hp. apply Hf in Hw; [|done].
  destruct e as [[e|e]|]; [by injection Hk as _ <-| |by injection Hk as _ <-].
  destruct (0 <? _); [|by injection Hk as _ <-]. destruct (sleep <=? 0); [done|].
  apply io_bind_inv in Hk as (j & w2 & Hj & Hk). injection Hj as Hj.
  apply io_bind_inv in Hk as (u & w3 & Hd & Hk). injection Hd as _ <-.
  eapply IH; [done..|exact Hk|]. apply Hs. specialize (Hr sleep w1 Hw). by rewrite Hj in Hr.
Qed.

Lemma Retry_tries n : ∀ fuel sleep w,
  (∀ w, ∃ r w', f w = Done (r, w')) → (n < fuel)%nat → 0 < sleep →
  sleep * 3 ^ Z.of_nat (S n) < 2 ^ 63 → Z.of_nat (S n) < 2 ^ 63 →
  ∃ ds r w', Retry fuel (Z.of_nat (S n)) sleep f w = Done (r, w') ∧
    tries (S n) ds w r w' ∧ (length ds ≤ n)%nat ∧ grows sleep ds.
Proof.
  induction n as [|n IH]; intros [|fuel] sleep w Hf Hfuel Hs Hmax Hn; [lia| |lia|];
    (destruct (Hf w) as ([[e|e]|] & w1 & Hw);
     [exists [], (Some e), w1|idtac|exists [], None, w1]);
    cbn [Retry]; try (rewrite (io_bind_Done _ _ _ _ _ Hw));
    try (split_and!; [done|by constructor|simpl; lia|by intros i d]).
  - change (int64 (Z.of_nat 1 - 1)) with 0. exists [], (Some e), w1.
    split_and!; [done|by constructor|done|by intros i d].
  - pose proof (Int63n_range sleep w1 Hs) as Hj.
    destruct (Int63n sleep w1) as [j w2] eqn:Hjw. simpl in Hj.
    assert (Hp3 : 3 ^ Z.of_nat (S (S n)) = 3 * 3 ^ Z.of_nat (S n))
      by (rewrite (Nat2Z.inj_succ (S n)), Z.pow_succ_r; lia).
    assert (Hp3' : 3 ≤ 3 ^ Z.of_nat (S n)).
    { rewrite Nat2Z.inj_succ, Z.pow_succ_r by lia.
      assert (0 < 3 ^ Z.of_nat n) by (apply Z.pow_pos_nonneg; lia). lia. }
    assert (Hq : 0 ≤ Z.quot j 2 ∧ 2 * Z.quot j 2 < sleep).
    { rewrite Z.quot_div_nonneg by lia. pose proof (Z.div_mod j 2). pose proof (Z.mod_pos_bound j 2). lia. }
    set (d := sleep + Z.quot j 2).
    assert (Hd : sleep ≤ d ∧ 2 * d < 3 * sleep) by (unfold d; lia).
    assert (Hd64 : int64 d = d) by (apply int64_id; nia).
    assert (Hdd64 : int64 (2 * d) = 2 * d) by (apply int64_id; nia).
    destruct (IH fuel (2 * d) (Sleep d w2)) as (ds & r & w' & Hr & Ht & Hl & Hg); [done|lia|lia|nia|lia|].
    exists (d :: ds), r, w'. split_and!.
    + assert (int64 (Z.of_nat (S (S n)) - 1) = Z.of_nat (S n)) as -> by (rewrite int64_id; lia).
      destruct (Z.ltb_spec 0 (Z.of_nat (S n))); [|lia]. destruct (Z.leb_spec sleep 0); [lia|].
      rewrite (io_bind_Done _ _ _ j w2) by (unfold call; by rewrite Hjw).
      fold d. rewrite Hd64, Hdd64. by rewrite (io_bind_Done _ _ _ tt (Sleep d w2)) by done.
    + eapply (tries_again n w e w1 sleep); [done|]. by rewrite Hjw.
    + simpl. lia.
    + apply grows_cons; [done|lia|lia|done].
Qed.
End spec.
End UtilSpec.

Module UtilTheorems.
Import Util UtilSpec.
(** [Retry] with a positive wait and [n] attempts returns, whatever the
    random numbers: the function is called until it succeeds or asks to stop, at
    most [n] times, and the result is that of the last call; there are fewer
    waits than attempts, the [i]-th of at least 2^i times the given wait and less
    than 3^(i+1)/2 times it.  No arithmetic overflows while 3^n times the wait is
    an int64. *)
Theorem Retry_spec {W} `{Rand W} `{Clock W} (f : io W (option rerr)) n fuel sleep w :
  (∀ w, ∃ r w', f w = Done (r, w')) → (0 < n ≤ fuel)%nat → 0 < sleep →
  sleep * 3 ^ Z.of_nat n < 2 ^ 63 → Z.of_nat n < 2 ^ 63 →
  ∃ ds r w', Retry fuel (Z.of_nat n) sleep f w = Done (r, w') ∧
    tries f n ds w r w' ∧ (length ds < n)%nat ∧ grows sleep ds.
Proof.
  intros Hf Hn Hs Hmax Hn64. destruct n as [|n]; [lia|].
  destruct (Retry_tries f n fuel sleep w Hf) as (ds & r & w' & ? & ? & ? & ?); [lia..|].
  exists ds, r, w'. split_and!; [done..|lia|done].
Qed.

(** *** Witness: three attempts, three seconds, a function that fails twice *)
#[local] Program Instance ex_rand : Rand nat := {| Int63n n w := (n / 2, w) |}.
Next Obligation.
  intros n w Hn. simpl. split; [apply Z.div_pos; lia|apply Z.div_lt; lia].
Qed.
#[local] Instance ex_clock : Clock nat := {| Now _ := 0; Sleep _ w := w |}.
Definition ex_f : io nat (option rerr) := λ w,
  match w with O => Done (None, O) | S w => Done (Some (Fail (Errorf "auth invalid")), w) end.
Lemma Retry_spec_witness :
  ∃ ds r w', Retry 3 3 3000000000 ex_f 2%nat = Done (r, w') ∧
    tries ex_f 3 ds 2%nat r w' ∧ (length ds < 3)%nat ∧ grows 3000000000 ds.
Proof.
  apply (Retry_spec ex_f 3 3 3000000000 2%nat); [|lia..].
  intros [|w]; [exists None, 0%nat|exists (Some (Fail (Errorf "auth invalid"))), w]; reflexivity.
Defined.
End UtilTheorems.
