(* ===== verification/Client.v ===== *)
(** * util/client/client.go: logging in

    Module [Client] is the [loginer] of the shell over a cache of the user's
    name and password.  [KVCache] is the interface of that name, with the law a
    cache keeps; [mapCache] and [envCache] implement it. *)

From S2P Require Import Prelude GoStr Proto.
From Stdlib Require Import Ascii.

(** ** Caches *)
Class KVCache (C : Type) := { kv_Get : C → string → string; kv_Set : C → string → string → C }.
(** What is set is read back, where the cache can hold it. *)
Class KVCacheLaws (C : Type) `{KVCache C} := {
  holdable : string → string → Prop;
  kv_law c k v k' : holdable k v → kv_Get (kv_Set c k v) k' = if decide (k' = k) then v else kv_Get c k';
}.

Record mapCache := MapCache { cache : gmap string string }.
#[export] Instance mapCache_kv : KVCache mapCache := {|
  kv_Get mc key := default "" (cache mc !! key);
  kv_Set mc key val := MapCache (<[key := val]> (cache mc));
|}.
#[export] Program Instance mapCache_laws : KVCacheLaws mapCache := {| holdable _ _ := True |}.
Next Obligation.
  intros c k v k' _. simpl. rewrite lookup_insert. by repeat case_decide.
Qed.

(** The environment of the process; [os.Setenv] refuses names that are empty or
    hold an equals sign or a zero byte, and values with a zero byte; [Set] drops
    its error. *)
Record envCache := EnvCache { environ : gmap string string }.
Definition env_ok (k v : string) : bool :=
  negb (bool_decide (k = "")) && negb (GoStr.has_char "="%char k) &&
  negb (GoStr.has_char Ascii.zero k) && negb (GoStr.has_char Ascii.zero v).
#[export] Instance envCache_kv : KVCache envCache := {|
  kv_Get ec key := default "" (environ ec !! key);
  kv_Set ec key val := if env_ok key val then EnvCache (<[key := val]> (environ ec)) else ec;
|}.
#[export] Program Instance envCache_laws : KVCacheLaws envCache := {| holdable k v := env_ok k v = true |}.
Next Obligation.
  intros c k v k' Hk. simpl. rewrite Hk. simpl. rewrite lookup_insert. by repeat case_decide.
Qed.

(** ** The terminal *)
Class Terminal (W : Type) := {
  Print : string → W → W;
  (** [bufio.NewReader(os.Stdin).ReadLine()]; its error is dropped. *)
  ReadLine : W → string * W;
  ReadPassword : W → result string * W;
}.

Record loginer (C : Type) := Loginer { kvCache : C; once : bool }.
Arguments Loginer {C} _ _.
Arguments kvCache {C} _.
Arguments once {C} _.

Module Client.
Definition EnvKeyUid : string := "MYSH_UID".
Definition EnvKeyPs : string := "MYSH_PS".
Definition NewLoginer : loginer mapCache := Loginer (MapCache ∅) false.

Definition newline : string := String "010" "".

Section login.
Context {C W : Type} `{KVCache C} `{Grpc W} `{Terminal W}.
(** [l.client] *)
Variable client : conn.
Abbreviation L := (io (loginer C * W)).

Definition get (k : string) : L string := λ s, Done (kv_Get (kvCache s.1) k, s).
Definition set (k v : string) : L unit := λ s,
  Done (tt, (Loginer (kv_Set (kvCache s.1) k v) (once s.1), s.2)).
Definition svc {A} (c : W → A * W) : L A := λ s, let '(a, w) := c s.2 in Done (a, (s.1, w)).
Definition print (t : string) : L unit := svc (λ w, (tt, Print t w)).
(** [l.once.Do] *)
Definition do_once : L unit := λ s,
  if once s.1 then Done (tt, s)
  else
    (do _ <- set EnvKeyPs "" ;; set EnvKeyUid "") (Loginer (kvCache s.1) true, s.2).

(** The address of the client is left empty. *)
Definition rpc (u p : string) : L (result LoginResponse) :=
  svc (rpc_Login client (MkLoginRequest u p "")).

(** [for needLogin]: [fuel] bounds how often the user is asked. *)
Fixpoint ask (fuel : nat) : L (string * string) :=
  match fuel with
  | O => block
  | S fuel =>
    do _ <- print "Enter username: " ;;
    do u <- svc ReadLine ;;
    do _ <- print "Enter password: " ;;
    do p <- svc ReadPassword ;;
    match p with
    | Err _ => panic "ReadPassword"
    | Ok p =>
      do _ <- print newline ;;
      do _ <- set EnvKeyUid u ;;
      do _ <- set EnvKeyPs p ;;
      do resp <- rpc u p ;;
      match resp with
      | Err e => do _ <- print (error_text e +:+ newline) ;; ask fuel
      | Ok resp => mret (u, li_Token resp)
      end
    end
  end.
Definition Login (fuel : nat) : L (string * string) :=
  do _ <- do_once ;;
  do uid <- get EnvKeyUid ;;
  do ps <- get EnvKeyPs ;;
  if decide (uid = "" ∨ ps = "") then ask fuel
  else
    do resp <- rpc uid ps ;;
    match resp with
    | Ok resp => do uid <- get EnvKeyUid ;; mret (uid, li_Token resp)
    | Err _ => ask fuel
    end.
End login.
End Client.

(** ** What a login leaves behind *)
Module ClientFacts.
Import Client.
Section facts.
Context {C W : Type} `{KVCacheLaws C} `{Grpc W} `{Terminal W}.
Variable client : conn.
Hypothesis holds_all : ∀ k v, holdable (C := C) k v.

Lemma get_set (c : C) k v k' : kv_Get (kv_Set c k v) k' = if decide (k' = k) then v else kv_Get c k'.
Proof. apply kv_law, holds_all. Qed.

(** The cache holds the name and password of the call that was answered last. *)
Record logged (l' : loginer C) (w' : W) (u t : string) : Prop := {
  lg_uid : kv_Get (kvCache l') EnvKeyUid = u;
  lg_rpc : ∃ w0 resp, t = li_Token resp ∧
    rpc_Login client (MkLoginRequest u (kv_Get (kvCache l') EnvKeyPs) "") w0 = (Ok resp, w');
}.

Lemma ask_logged fuel : ∀ (l : loginer C) (w : W) u t l' w', once l = true →
  ask client fuel (l, w) = Done ((u, t), (l', w')) → once l' = true ∧ logged l' w' u t.
Proof.
  induction fuel as [|fuel IH]; intros l w u t l' w' Ho; [done|]. cbn [ask].
  unfold mbind, io_bind, svc, print, set, rpc, svc. simpl.
  destruct (ReadLine _) as [u1 w1]. simpl. destruct (ReadPassword _) as [[p|e] w2]; simpl; [|done].
  destruct (rpc_Login _ _ _) as [[resp|e] w3] eqn:Hrpc; simpl.
  - intros [= -> <- <- ->]. split; [done|]. split; simpl.
    + rewrite !get_set. done.
    + rewrite get_set, decide_True by done. eauto.
  - by apply IH.
Qed.
Lemma Login_logged fuel (l : loginer C) (w : W) u t l' w' :
  Login client fuel (l, w) = Done ((u, t), (l', w')) → once l' = true ∧ logged l' w' u t.
Proof.
  assert (∃ c, do_once (l, w) = Done (tt, (Loginer c true, w))) as [c Hc].
  { unfold do_once, set, mbind, io_bind. simpl. destruct l as [c []]; simpl; eauto. }
  unfold Login. rewrite (io_bind_Done _ _ _ _ _ Hc).
  rewrite (io_bind_Done _ _ _ (kv_Get c EnvKeyUid) (Loginer c true, w)) by done.
  rewrite (io_bind_Done _ _ _ (kv_Get c EnvKeyPs) (Loginer c true, w)) by done.
  case_decide; [by apply ask_logged|]. unfold mbind, io_bind, rpc, svc, get. simpl.
  destruct (rpc_Login _ _ _) as [[resp|e] w3] eqn:Hrpc; simpl; [|by apply ask_logged].
  intros [= <- <- <- <-]. split; [done|]. split; simpl; eauto.
Qed.
(** A login that needs no answer from the user. *)
Lemma Login_again fuel (l : loginer C) (w : W) resp w' :
  once l = true → kv_Get (kvCache l) EnvKeyUid ≠ "" → kv_Get (kvCache l) EnvKeyPs ≠ "" →
  rpc_Login client (MkLoginRequest (kv_Get (kvCache l) EnvKeyUid) (kv_Get (kvCache l) EnvKeyPs) "") w =
    (Ok resp, w') →
  Login client fuel (l, w) = Done ((kv_Get (kvCache l) EnvKeyUid, li_Token resp), (l, w')).
Proof.
  intros Ho Hu Hp Hrpc. unfold Login. rewrite (io_bind_Done _ _ _ tt (l, w)) by (unfold do_once; simpl; by rewrite Ho).
  rewrite (io_bind_Done _ _ _ (kv_Get (kvCache l) EnvKeyUid) (l, w)) by done.
  rewrite (io_bind_Done _ _ _ (kv_Get (kvCache l) EnvKeyPs) (l, w)) by done.
  rewrite decide_False by tauto. unfold mbind, io_bind, rpc, svc, get. simpl. by rewrite Hrpc.
Qed.
End facts.
End ClientFacts.

Module ClientTheorems.
Import Client ClientFacts.
(** A login that returns gives the name and the token of a call the server
    answered, made with the name and password the cache then holds; so later
    logins, as long as the server accepts these, ask nobody: they make one call
    and change nothing else. *)
Theorem Login_remembers {C W} `{KVCacheLaws C} `{Grpc W} `{Terminal W} (client : conn)
    fuel (l l' : loginer C) (w w' : W) u t :
  (∀ k v, holdable (C := C) k v) → Login client fuel (l, w) = Done ((u, t), (l', w')) →
  let p := kv_Get (kvCache l') EnvKeyPs in
  (∃ w0 resp, t = li_Token resp ∧ rpc_Login client (MkLoginRequest u p "") w0 = (Ok resp, w')) ∧
  (u ≠ "" → p ≠ "" → ∀ fuel2 w2 resp2 w3,
     rpc_Login client (MkLoginRequest u p "") w2 = (Ok resp2, w3) →
     Login client fuel2 (l', w2) = Done ((u, li_Token resp2), (l', w3))).
Proof.
  intros Hh Hl p. destruct (Login_logged client Hh fuel l w u t l' w' Hl) as [Ho [Hu Hr]].
  split; [exact Hr|]. intros Hun Hpn fuel2 w2 resp2 w3 Hrpc. subst u.
  by apply Login_again.
Qed.

(** *** Witness: the user is refused once, then accepted *)
#[local] Instance ex_terminal : Terminal nat := {|
  Print _ w := w;
  ReadLine w := ("alice", w);
  ReadPassword w := (Ok (match w with O => "secret" | S _ => "typo" end), w);
|}.
#[local] Instance ex_grpc : Grpc nat := {|
  conn := unit;
  DialInsecure _ w := (Ok tt, w);
  DialTLS _ w := (Ok tt, w);
  rpc_Search _ _ w := (Err (Errorf "unavailable"), w);
  rpc_Upload _ _ w := (Err (Errorf "unavailable"), w);
  rpc_Login _ r w :=
    if decide (li_Password r = "secret") then (Ok (MkLoginResponse 200 "t"), w)
    else (Err (Errorf "Incorrect username or password."), pred w);
  rpc_Logout _ _ w := (Err (Errorf "unavailable"), w);
  rpc_CleanUidCache _ _ w := (Err (Errorf "unavailable"), w);
  rpc_UidLogout _ _ w := (Err (Errorf "unavailable"), w);
  rpc_Check _ _ w := (Err (Errorf "unavailable"), w);
  rpc_UidEndpoint _ _ w := (Err (Errorf "unavailable"), w);
|}.
Definition ex_client : conn (W := nat) := tt.
Definition ex_logged : loginer mapCache :=
  Loginer (MapCache {[EnvKeyUid := "alice"; EnvKeyPs := "secret"]}) true.
Lemma Login_remembers_witness :
  Login (C := mapCache) ex_client 2 (NewLoginer, 1%nat) = Done (("alice", "t"), (ex_logged, 0%nat)) ∧
  Login (C := mapCache) ex_client 0 (ex_logged, 0%nat) = Done (("alice", "t"), (ex_logged, 0%nat)).
Proof.
  assert (Login (C := mapCache) ex_client 2 (NewLoginer, 1%nat) =
    Done (("alice", "t"), (ex_logged, 0%nat))) as Hl by (vm_compute; reflexivity).
  split; [exact Hl|].
  destruct (Login_remembers (C := mapCache) ex_client 2 NewLoginer ex_logged 1%nat 0%nat "alice" "t"
    ltac:(intros ? ?; exact I) Hl) as [_ Hagain].
  assert (kv_Get (kvCache ex_logged) EnvKeyPs = "secret") as Hp by (vm_compute; reflexivity).
  refine (Hagain _ _ 0%nat 0%nat (MkLoginResponse 200 "t") 0%nat _);
    [discriminate|rewrite Hp; discriminate|rewrite Hp; vm_compute; reflexivity].
Defined.
End ClientTheorems.
