(* ===== verification/Shell.v ===== *)
(** * cmd/mysh/mysh.go and cmd/mysh-agent/mysh-agent.go: the shell

    Module [Shell] is the code between the terminal and bash: the copying of
    streams, the relay of the keys, the search mode, and the handler that uploads
    the commands the agent posts.  The bytes of the terminal are the results of
    the calls of [stdinBuffer.ReadByte], [None] while the buffer is empty. *)

From S2P Require Import Prelude GoStr Json Proto Util Client.
#[local] Open Scope Z_scope.

(** ** streamCopy *)
Module StreamCopy.
(** The errors of a read: [EOF] is a variable of this package, which no reader
    returns; [io.EOF] is another one. *)
Inductive read_err := OwnEOF | IoEOF | ReadErr (e : error).
Inductive copy_err := CRead (e : read_err) | CWrite (e : error) | CShortWrite.
Section copy.
Context {W : Type}.
(** [dst.Write]: the number of bytes written, and the error. *)
Variable Write : list Z → W → Z * option error * W.
(** [src] by the results of its reads; [None]: all of them are used, and the
    loop waits for the next. *)
Fixpoint streamCopy (src : list (list Z * option read_err)) (written : Z) (w : W)
    : option (Z * option copy_err * W) :=
  match src with
  | [] => None
  | (buf, er) :: src =>
    let after written w :=
      match er with
      | Some OwnEOF => Some (written, None, w)
      | Some e => Some (written, Some (CRead e), w)
      | None => streamCopy src written w
      end in
    if decide (buf = []) then after written w
    else
      let '(nw, ew, w) := Write buf w in
      let written := if 0 <? nw then written + nw else written in
      match ew with
      | Some e => Some (written, Some (CWrite e), w)
      | None =>
        if decide (Z.of_nat (length buf) ≠ nw) then Some (written, Some CShortWrite, w)
        else after written w
      end
  end.
End copy.
(** [bytes.Buffer] writes everything. *)
Definition buffer_Write (b : list Z) (w : list Z) : Z * option error * list Z :=
  (Z.of_nat (length b), None, w ++ b).
End StreamCopy.

(** ** The process *)
Record shell (C W : Type) := Sh {
  loginer_ : loginer C;
  UidCache : string;
  clientToken : string;
  lastCommand : string;
  screen : list string;      (* what was written to standard output *)
  bashin : list Z;           (* what was written to [bashinBuffer] *)
  net : W;
}.
Arguments Sh {C W} _ _ _ _ _ _ _.
Arguments loginer_ {C W} _.
Arguments UidCache {C W} _.
Arguments clientToken {C W} _.
Arguments lastCommand {C W} _.
Arguments screen {C W} _.
Arguments bashin {C W} _.
Arguments net {C W} _.
Definition with_net {C W} (s : shell C W) (w : W) : shell C W :=
  Sh (loginer_ s) (UidCache s) (clientToken s) (lastCommand s) (screen s) (bashin s) w.

(** Clock and random numbers of a process, and of a process with the variables
    that a function captured. *)
#[export] Instance shell_clock {C W} `{Clock W} : Clock (shell C W) :=
  {| Now s := Now (net s); Sleep d s := with_net s (Sleep d (net s)) |}.
#[export] Program Instance shell_rand {C W} `{Rand W} : Rand (shell C W) :=
  {| Int63n n s := ((Int63n n (net s)).1, with_net s (Int63n n (net s)).2) |}.
Next Obligation. intros C W ? n s Hn. exact (Int63n_range n (net s) Hn). Qed.
#[export] Instance captured_clock {S V} `{Clock S} : Clock (S * V) :=
  {| Now s := Now s.1; Sleep d s := (Sleep d s.1, s.2) |}.
#[export] Program Instance captured_rand {S V} `{Rand S} : Rand (S * V) :=
  {| Int63n n s := ((Int63n n s.1).1, ((Int63n n s.1).2, s.2)) |}.
Next Obligation. intros S V ? n s Hn. exact (Int63n_range n s.1 Hn). Qed.

(** [exec.Command("/bin/bash", "-c", script).CombinedOutput()] *)
Class Exec (W : Type) := { CombinedOutput : string → W → string * W }.

Module Shell.
Definition ctrl (b : Z) : Z := Z.land b 31.
Definition ctrl_r : Z := ctrl 114.
Definition ctrl_c : Z := ctrl 99.
(** cons/cons.go *)
Definition ClientRetryTimes : Z := 3.
Definition ClientRetryInterval : Z := 3 * Second.

(** The variables of the search mode. *)
Record view := View {
  lastView : string;
  candidateCommands : list string;
  candidateCommandsIndex : Z;
  searchBuffer : list Z;
  searchIndex : Z;
}.
Definition start_view : view := View "" [] 0 [] 0.
Definition set_lastView (v : view) (x : string) : view :=
  View x (candidateCommands v) (candidateCommandsIndex v) (searchBuffer v) (searchIndex v).
Definition set_index (v : view) (i : Z) : view :=
  View (lastView v) (candidateCommands v) i (searchBuffer v) (searchIndex v).
Definition set_candidates (v : view) (l : list string) : view :=
  View (lastView v) l (candidateCommandsIndex v) (searchBuffer v) (searchIndex v).
Definition set_search (v : view) (b : list Z) (i : Z) : view :=
  View (lastView v) (candidateCommands v) (candidateCommandsIndex v) b i.
Definition ncandidates (v : view) : Z := Z.of_nat (length (candidateCommands v)).

Section shell.
Context {C W : Type} `{KVCache C} `{Grpc W} `{Terminal W} `{Clock W} `{Rand W} `{Exec W}.
(** The client [recorder], the pid of bash, and a bound on the questions of a
    login. *)
Variable recorder : conn.
Variable bashPid : Z.
Variable asks : nat.
Abbreviation M := (io (shell C W)).

Definition svc {A} (c : W → A * W) : M A := λ s,
  let '(a, w) := c (net s) in Done (a, with_net s w).
Definition stdout (t : string) : M unit := λ s,
  Done (tt, Sh (loginer_ s) (UidCache s) (clientToken s) (lastCommand s) (screen s ++ [t]) (bashin s) (net s)).
Definition to_bash (b : list Z) : M unit := λ s,
  Done (tt, Sh (loginer_ s) (UidCache s) (clientToken s) (lastCommand s) (screen s) (bashin s ++ b) (net s)).
Definition set_lastCommand (c : string) : M unit := λ s,
  Done (tt, Sh (loginer_ s) (UidCache s) (clientToken s) c (screen s) (bashin s) (net s)).
(** [login] *)
Definition login : M unit := λ s,
  run (ut, (l, w)) <- Client.Login recorder asks (loginer_ s, net s) ;;
  Done (tt, Sh l ut.1 ut.2 (lastCommand s) (screen s) (bashin s) w).

Definition printCSI (c : list Z) : M unit := stdout (string_of ([27; 91] ++ c)).
Definition saveCursor : M unit := printCSI [115].
Definition restoreCursor : M unit := printCSI [117].
Definition cleanLineTail : M unit := printCSI [75].

Definition checkForeGround (pid : Z) : M bool :=
  let scriptContent :=
    GoStr.Sprintf "ps aux | awk '{if($2==%v)print}' | grep +" [GoStr.Itoa pid] in
  do output <- svc (CombinedOutput scriptContent) ;;
  mret (negb (bool_decide (output = ""))).

(** *** The search mode *)
Definition cleanView : M unit := do _ <- restoreCursor ;; cleanLineTail.
(** [lastView] becomes the candidate at the index, if there is one. *)
Definition pick (v : view) : view :=
  if (0 <=? candidateCommandsIndex v) && (candidateCommandsIndex v <? ncandidates v) then
    match candidateCommands v !! Z.to_nat (candidateCommandsIndex v) with
    | Some c => set_lastView v c
    | None => v
    end
  else v.
Definition status_line (v : view) : string :=
  GoStr.Sprintf "C-R mode: ( %v ) %v" [string_of (searchBuffer v); lastView v].
Definition displaySearchStatus (v : view) : M view :=
  do _ <- cleanView ;;
  let v := pick v in
  do _ <- stdout (status_line v) ;;
  mret v.
Definition displayCommand (v : view) : M view :=
  do _ <- cleanView ;;
  let v := pick v in
  do _ <- to_bash (bytes_of (lastView v)) ;;
  mret v.

Definition prev_index (v : view) : view :=
  let i := candidateCommandsIndex v - 1 in
  set_index v (if i <? 0 then ncandidates v - 1 else i).
Definition next_index (v : view) : view :=
  let i := candidateCommandsIndex v + 1 in
  set_index v (if ncandidates v <=? i then 0 else i).
(** A key that is no command: the byte is added to the search, or a backspace
    removes the last one. *)
Definition edit (v : view) (b : Z) : view :=
  let v := set_index v 0 in
  if b =? 127 then
    let i := searchIndex v - 1 in
    if i <? 1 then set_search (set_candidates v [""]) [] 0
    else set_search v (take (Z.to_nat i) (searchBuffer v)) i
  else set_search v (searchBuffer v ++ [b]) (searchIndex v + 1).

(** The function given to [util.Retry]; it captures the view. *)
Definition search_once : io (shell C W * view) (option Util.rerr) := λ '(s, v),
  let '(r, w) := rpc_Search recorder
    (MkSearchRequest (UidCache s) (string_of (searchBuffer v)) (clientToken s) "") (net s) in
  let s := with_net s w in
  match r with
  | Err e => Done (Some (Util.Fail e), (s, v))
  | Ok resp =>
    if decide (se_ResponseCode resp = 200) then
      Done (None, (s, set_candidates v (se_Response resp)))
    else
      run (_, s) <- (if decide (se_ResponseCode resp = 403) then login s else Done (tt, s)) ;;
      Done (Some (Util.Fail (Errorf "auth invalid")), (s, v))
  end.
Definition search (v : view) : M view := λ s,
  if 0 <? searchIndex v then
    run (_, (s, v)) <- Util.Retry 3 ClientRetryTimes ClientRetryInterval search_once (s, v) ;;
    Done (v, s)
  else Done (v, s).

(** [polls] are the results of [ReadByte] from now on; the answer is what is left
    of them, or [None] when the loop still waits after the last. *)
Abbreviation polls := (list (option Z)).
Fixpoint search_loop (ps : polls) (v : view) : M (option polls) :=
  match ps with
  | [] => mret None
  | None :: ps => search_loop ps v
  | Some b :: ps =>
    if b =? ctrl_c then do _ <- cleanView ;; mret (Some ps)
    else if b =? 13 then do _ <- displayCommand v ;; mret (Some ps)
    else if b =? ctrl_r then do v <- displaySearchStatus (prev_index v) ;; search_loop ps v
    else if b =? 27 then
      match ps with
      | [] => mret None
      | None :: ps => search_loop ps v
      | Some b :: ps =>
        if negb (b =? 91) then panic "unknow CSI sequence"
        else
          match ps with
          | [] => mret None
          | None :: _ => panic "EOF"
          | Some c :: ps =>
            if (c =? 67) || (c =? 68) then do _ <- displayCommand v ;; mret (Some ps)
            else if c =? 65 then do v <- displaySearchStatus (prev_index v) ;; search_loop ps v
            else if c =? 66 then do v <- displaySearchStatus (next_index v) ;; search_loop ps v
            else search_loop ps v
          end
      end
    else
      do v <- search (edit v b) ;;
      do v <- displaySearchStatus v ;;
      search_loop ps v
  end.
(** Without a server the keys go to the search of bash. *)
Fixpoint offline_loop (ps : polls) : M (option polls) :=
  match ps with
  | [] => mret None
  | None :: ps => offline_loop ps
  | Some b :: ps =>
    do _ <- to_bash [b] ;;
    if (b =? 13) || (b =? 10) then mret (Some ps) else offline_loop ps
  end.
(** The check of the network and of the login, as in the upload handler. *)
Definition probe : M (result SearchResponse) := λ s,
  let '(r, w) := rpc_Search recorder (MkSearchRequest (UidCache s) "" (clientToken s) "") (net s) in
  Done (r, with_net s w).
Definition doSearch (ps : polls) : M (option polls) :=
  do resp <- probe ;;
  match resp with
  | Err _ => do _ <- to_bash [ctrl_r] ;; offline_loop ps
  | Ok resp =>
    do _ <- (if decide (se_ResponseCode resp = 403) then login else mret tt) ;;
    do _ <- saveCursor ;;
    do v <- displaySearchStatus start_view ;;
    search_loop ps v
  end.

(** *** The relay of the keys, in [Run]; [fuel] bounds its rounds *)
Fixpoint relay (fuel : nat) (ps : polls) : M unit :=
  match fuel, ps with
  | S fuel, Some b :: ps =>
    do fg <- (if b =? ctrl_r then checkForeGround bashPid else mret false) ;;
    if fg : bool then
      do rest <- doSearch ps ;;
      match rest with Some ps => relay fuel ps | None => mret tt end
    else do _ <- to_bash [b] ;; relay fuel ps
  | S fuel, None :: ps => relay fuel ps
  | _, _ => mret tt
  end.

(** *** Uploading *)
Definition upload_once (body : string) : M (option Util.rerr) := λ s,
  let '(r, w) := rpc_Upload recorder (MkUploadRequest (UidCache s) body (clientToken s) "") (net s) in
  let s := with_net s w in
  match r with
  | Err e => Done (Some (Util.Fail e), s)
  | Ok resp =>
    if decide (up_ResponseCode resp = 200) then Done (None, s)
    else
      run (_, s) <- (if decide (up_ResponseCode resp = 403) then login s else Done (tt, s)) ;;
      Done (Some (Util.Fail (Errorf "auth invalid")), s)
  end.
Definition uploadProxyHandler (body : string) : M unit := λ s,
  if decide (body = lastCommand s) then Done (tt, s)
  else (
    do rp <- probe ;;
    match rp with
    | Err _ => mret tt
    | Ok rp =>
      do _ <- (if decide (se_ResponseCode rp = 403) then login else mret tt) ;;
      do _ <- Util.Retry 3 ClientRetryTimes ClientRetryInterval (upload_once body) ;;
      set_lastCommand body
    end) s.

(** The deferred calls of [main]: the socket is removed by the caller. *)
Definition logout : M unit := λ s,
  let '(r, w) := rpc_Logout recorder (MkLogoutRequest (UidCache s) "") (net s) in
  let s := with_net s w in
  match r with
  | Ok resp =>
    if decide (lo_ResponseCode resp = 200) then stdout "Logout success!" s else Done (tt, s)
  | Err _ => Done (tt, s)
  end.
End shell.

(** The socket the shell listens on, and the one the agent dials. *)
Definition UnixSocketDir : string := "/tmp".
Definition unixSock (pid : Z) : string :=
  GoStr.Join [UnixSocketDir; "mysh." +:+ GoStr.Itoa pid +:+ ".sock"].
(** The value of the environment variable [MYSH_PID] *)
Definition fakeDial (mysh_pid : string) : string := "/tmp/mysh." +:+ mysh_pid +:+ ".sock".
(** The command the agent posts: its arguments, separated by blanks. *)
Definition agent_command (args : list string) : option string :=
  match args with
  | _ :: command :: args => Some (foldl (λ c a, c +:+ " " +:+ a) command args)
  | _ => None
  end.
End Shell.

(** ** Facts *)
Module ShellFacts.
Import Shell.

(** *** Copying *)
Lemma copy_chunks bufs e : ∀ written w,
  StreamCopy.streamCopy StreamCopy.buffer_Write (((λ b, (b, None)) <$> bufs) ++ [([], Some e)]) written w =
  Some (written + Z.of_nat (length (concat bufs)),
        match e with StreamCopy.OwnEOF => None | _ => Some (StreamCopy.CRead e) end,
        w ++ concat bufs).
Proof.
  induction bufs as [|b bufs IH]; intros written w; simpl.
  - rewrite Z.add_0_r, app_nil_r. by destruct e.
  - case_decide as Hb; [subst b; by rewrite IH|].
    destruct (Z.ltb_spec 0 (Z.of_nat (length b))) as [Hl|Hl].
    2:{ destruct b; [done|simpl in Hl; lia]. }
    rewrite decide_False by lia. rewrite IH, length_app, Nat2Z.inj_add, <- app_assoc, Z.add_assoc. done.
Qed.

Section facts.
Context {C W : Type} `{KVCache C} `{Grpc W} `{Terminal W} `{Clock W} `{Rand W} `{Exec W}.
Variable recorder : conn.
Variable asks : nat.
Implicit Types s : shell C W.

(** Calls that write neither to the screen nor to bash. *)
Definition silent (s s' : shell C W) : Prop := screen s' = screen s ∧ bashin s' = bashin s.
#[export] Instance silent_trans : Transitive silent.
Proof. intros s1 s2 s3 [] []. split; congruence. Qed.
Lemma login_silent s u s' : login recorder asks s = Done (u, s') → silent s s'.
Proof.
  unfold login. destruct (Client.Login _ _ _) as [[ut [l w]]| |]; simpl; [|done|done].
  by intros [= _ <-].
Qed.
Lemma probe_silent s r s' : probe recorder s = Done (r, s') → silent s s'.
Proof. unfold probe. destruct (rpc_Search _ _ _). by intros [= _ <-]. Qed.
Lemma maybe_login_silent (b : Prop) `{Decision b} s u s' :
  (if decide b then login recorder asks else mret tt) s = Done (u, s') → silent s s'.
Proof. case_decide; [apply login_silent|by intros [= _ <-]]. Qed.
Lemma search_silent v s v' s' : search recorder asks v s = Done (v', s') → silent s s'.
Proof.
  unfold search. destruct (0 <? _); [|by intros [= _ <-]].
  destruct (Util.Retry _ _ _ _ _) as [[r [s1 v1]]| |] eqn:Hr; simpl; [|done|done]. intros [= _ <-].
  apply (UtilSpec.Retry_keeps _ (λ sv, silent s sv.1) _ _ _ _ _ _) in Hr;
    [exact Hr| | | |by split]; try done.
  clear. intros [s1 v1] r [s2 v2]. unfold search_once. simpl.
  destruct (rpc_Search _ _ _) as [[resp|e] w]; [|by intros [= _ <- _]].
  case_decide; [by intros [= _ <- _]|].
  case_decide; simpl; [|by intros [= _ <- _]].
  destruct (login _ _ _) as [[u s3]| |] eqn:Hl; simpl; [|done|done]. intros [= _ <- _] Hs.
  apply login_silent in Hl. etrans; [exact Hs|]. exact Hl.
Qed.

(** *** The view *)
Lemma pick_pick v : pick (pick v) = pick v.
Proof.
  assert (pick v = v ∨ ∃ c, pick v = set_lastView v c ∧
    (0 <=? candidateCommandsIndex v) && (candidateCommandsIndex v <? ncandidates v) = true ∧
    candidateCommands v !! Z.to_nat (candidateCommandsIndex v) = Some c) as [Heq|(c & -> & Hi & Hc)].
  - unfold pick. destruct ((0 <=? _) && _); [|by left].
    destruct (candidateCommands v !! _) as [c|]; [right; by exists c|by left].
  - by rewrite !Heq.
  - unfold pick, set_lastView, ncandidates in *. simpl. by rewrite Hi, Hc.
Qed.
(** The screen ends with the status line of the view. *)
Definition displayed v s : Prop := pick v = v ∧ ∃ pre, screen s = pre ++ [status_line v].
Definition erase : list string := [string_of [27; 91; 117]; string_of [27; 91; 75]].
Lemma display_eq v s : ∃ s', displaySearchStatus v s = Done (pick v, s') ∧
  displayed (pick v) s' ∧ bashin s' = bashin s.
Proof.
  exists (match displaySearchStatus v s with Done (_, s') => s' | _ => s end).
  split; [reflexivity|]. split; [|reflexivity]. split; [apply pick_pick|]. by eexists.
Qed.
Lemma displayed_silent v s s' : displayed v s → silent s s' → displayed v s'.
Proof. intros [Hp [pre Hs]] [Hsc _]. split; [done|]. exists pre. congruence. Qed.
Lemma displayCommand_eq v s : displayed v s → ∃ s' pre, displayCommand v s = Done (v, s') ∧
  bashin s' = bashin s ++ bytes_of (lastView v) ∧ screen s' = pre ++ [status_line v] ++ erase.
Proof.
  intros [Hp [pre Hs]]. unfold displayCommand. rewrite Hp. eexists _, pre. split; [done|].
  split; [done|]. simpl. rewrite Hs. by rewrite <- !app_assoc.
Qed.

(** What a search session leaves in the input of bash. *)
Inductive ended (s s' : shell C W) : Prop :=
  | ended_quit : bashin s' = bashin s → ended s s'
  | ended_run pre typed cmd :
      screen s' = pre ++ [GoStr.Sprintf "C-R mode: ( %v ) %v" [typed; cmd]] ++ erase →
      bashin s' = bashin s ++ bytes_of cmd → ended s s'.
Lemma ended_display s s1 v : bashin s1 = bashin s → displayed v s1 → ∀ v' s',
  displayCommand v s1 = Done (v', s') → ended s s'.
Proof.
  intros Hb Hd v' s'. destruct (displayCommand_eq v s1 Hd) as (s2 & pre & -> & Hb2 & Hs2).
  intros [= _ <-]. eapply ended_run; [exact Hs2|]. by rewrite Hb2, Hb.
Qed.

(** One more status line, then the rest of the session. *)
Lemma display_then v (k : view → io (shell C W) (option (list (option Z)))) s s0 o s' :
  bashin s = bashin s0 →
  (do v <- displaySearchStatus v ;; k v) s = Done (o, s') →
  ∃ v1 s1, displayed v1 s1 ∧ bashin s1 = bashin s0 ∧ k v1 s1 = Done (o, s').
Proof.
  intros Hb. destruct (display_eq v s) as (s1 & Hd & Hdis & Hb1).
  rewrite (io_bind_Done _ _ _ _ _ Hd). intros Hk. exists (pick v), s1. split_and!; [done|congruence|done].
Qed.

Lemma search_loop_ended n : ∀ ps v s s0 o s', (length ps ≤ n)%nat →
  displayed v s → bashin s = bashin s0 → search_loop recorder asks ps v s = Done (o, s') →
  match o with Some rest => (length rest < length ps)%nat ∧ ended s0 s' | None => bashin s' = bashin s0 end.
Proof.
  induction n as [|n IH]; intros ps v s s0 o s' Hn Hd Hb.
  { destruct ps; [|simpl in Hn; lia]. by intros [= <- <-]. }
  assert (IH' : ∀ ps1 v1 s1, (length ps1 < length ps)%nat → displayed v1 s1 → bashin s1 = bashin s0 →
    search_loop recorder asks ps1 v1 s1 = Done (o, s') →
    match o with Some rest => (length rest < length ps)%nat ∧ ended s0 s' | None => bashin s' = bashin s0 end).
  { intros ps1 v1 s1 Hl Hd1 Hb1 Hloop.
    pose proof (IH ps1 v1 s1 s0 o s' ltac:(lia) Hd1 Hb1 Hloop) as Hi.
    destruct o; [|done]. destruct Hi. split; [lia|done]. }
  destruct ps as [|[b|] ps]; [by intros [= <- <-]| |apply (IH' ps v s); [simpl; lia|done..]].
  assert (Hshow : ∀ v1 ps1, (length ps1 ≤ length ps)%nat →
    (do v <- displaySearchStatus v1 ;; search_loop recorder asks ps1 v) s = Done (o, s') →
    match o with Some rest => (length rest < length (Some b :: ps))%nat ∧ ended s0 s'
    | None => bashin s' = bashin s0 end).
  { intros v1 ps1 Hl Hk. apply (display_then _ _ _ s0) in Hk as (v2 & s2 & Hd2 & Hb2 & Hk); [|done].
    by apply (IH' ps1 v2 s2); [simpl; lia|..]. }
  assert (Hcmd : ∀ ps1, (length ps1 ≤ length ps)%nat →
    (do _ <- displayCommand v ;; mret (Some ps1)) s = Done (o, s') →
    match o with Some rest => (length rest < length (Some b :: ps))%nat ∧ ended s0 s'
    | None => bashin s' = bashin s0 end).
  { intros ps1 Hl Hk. apply io_bind_inv in Hk as (v1 & s1 & Hc & Hk).
    injection Hk as <- <-. split; [simpl; lia|]. by eapply ended_display. }
  cbn [search_loop].
  destruct (b =? ctrl_c).
  { intros [= <- <-]. split; [simpl; lia|]. by apply ended_quit. }
  destruct (b =? 13); [by apply Hcmd|].
  destruct (b =? ctrl_r); [by apply Hshow|].
  destruct (b =? 27).
  { destruct ps as [|[b2|] ps]; [by intros [= <- <-]| |apply (IH' ps v s); [simpl; lia|done..]].
    destruct (negb (b2 =? 91)); [done|].
    destruct ps as [|[c|] ps]; [by intros [= <- <-]| |done].
    destruct ((c =? 67) || (c =? 68)); [apply Hcmd; simpl; lia|].
    destruct (c =? 65); [apply Hshow; simpl; lia|]. destruct (c =? 66); [apply Hshow; simpl; lia|].
    apply (IH' ps v s); [simpl; lia|done|done]. }
  intros (v1 & s1 & Hs1 & Hk)%io_bind_inv. apply search_silent in Hs1 as [Hsc1 Hb1].
  apply (display_then _ _ _ s0) in Hk as (v2 & s2 & Hd2 & Hb2 & Hk); [|congruence].
  by apply (IH' ps v2 s2); [simpl; lia|..].
Qed.

(** The keys up to the first end of line, and what follows it. *)
Fixpoint line (ps : list (option Z)) : list Z * option (list (option Z)) :=
  match ps with
  | [] => ([], None)
  | None :: ps => line ps
  | Some b :: ps =>
    if (b =? 13) || (b =? 10) then ([b], Some ps)
    else let '(l, r) := line ps in (b :: l, r)
  end.
Lemma offline_eq ps : ∀ s, ∃ s', offline_loop ps s = Done ((line ps).2, s') ∧
  bashin s' = bashin s ++ (line ps).1 ∧ screen s' = screen s.
Proof.
  induction ps as [|[b|] ps IH]; intros s; simpl.
  - eexists. split; [done|]. by rewrite app_nil_r.
  - set (s1 := Sh (loginer_ s) (UidCache s) (clientToken s) (lastCommand s) (screen s) (bashin s ++ [b]) (net s)).
    rewrite (io_bind_Done _ _ _ tt s1) by done. destruct ((b =? 13) || (b =? 10)); [by eexists|].
    destruct (IH s1) as (s' & -> & Hb & Hs). exists s'. destruct (line ps) as [l r]. simpl in *.
    split; [done|]. rewrite Hb. by rewrite <- app_assoc.
  - apply IH.
Qed.
End facts.
End ShellFacts.

(** ** Theorems about the shell *)
Module ShellTheorems.
Import Shell ShellFacts.
Section theorems.
Context {C W : Type} `{KVCache C} `{Grpc W} `{Terminal W} `{Clock W} `{Rand W} `{Exec W}.
Variable recorder : conn.
Variable asks : nat.
Implicit Types s : shell C W.

(** C32. Bash gets what the user was shown.  Whatever the keys and the server's
    answers, a search that ends left the input of bash alone, or added exactly the
    command of the last status line on the screen; while it goes on it adds
    nothing.  Without a server it adds control-R and the keys up to the first end
    of line, and gives the others back. *)
Theorem search_runs_what_is_shown ps s o s' :
  doSearch recorder asks ps s = Done (o, s') →
  ∃ r s1, probe recorder s = Done (r, s1) ∧
    match r with
    | Ok _ =>
      match o with
      | Some rest => (length rest < length ps)%nat ∧ ended s s'
      | None => bashin s' = bashin s
      end
    | Err _ => o = (line ps).2 ∧ bashin s' = bashin s ++ ctrl_r :: (line ps).1
    end.
Proof.
  unfold doSearch. intros (r & s1 & Hp & Hk)%io_bind_inv. exists r, s1. split; [done|].
  apply probe_silent in Hp as [_ Hb1]. destruct r as [resp|e].
  - apply io_bind_inv in Hk as (u & s2 & Hl & Hk). apply maybe_login_silent in Hl as [_ Hb2].
    apply io_bind_inv in Hk as (u3 & s3 & Hc & Hk). injection Hc as _ <-.
    apply (display_then _ _ _ s) in Hk as (v & s4 & Hd & Hb4 & Hk); [|simpl; congruence].
    by apply (search_loop_ended recorder asks (length ps) ps v s4 s o s').
  - apply io_bind_inv in Hk as (u & s2 & Hc & Hk). injection Hc as _ <-.
    destruct (offline_eq ps (Sh (loginer_ s1) (UidCache s1) (clientToken s1) (lastCommand s1)
      (screen s1) (bashin s1 ++ [ctrl_r]) (net s1))) as (s4 & Ho & Hb & _).
    rewrite Ho in Hk. injection Hk as <- <-. split; [done|]. rewrite Hb. simpl.
    by rewrite Hb1, <- app_assoc.
Qed.

(** What the upload handler does with a command: the one it handled last is
    skipped without a call; without a server nothing is uploaded and the command
    is not remembered; otherwise the upload is tried until the server takes it, at
    most three times with growing waits, and whatever came of it the command is
    remembered, so that the same command is skipped from then on. *)
Theorem upload_is_tried_then_skipped body s :
  (∀ s, ∃ r s', upload_once recorder asks body s = Done (r, s')) →
  (body = lastCommand s → uploadProxyHandler recorder asks body s = Done (tt, s)) ∧
  (body ≠ lastCommand s → ∀ r s1, probe recorder s = Done (r, s1) →
   match r with
   | Err _ => uploadProxyHandler recorder asks body s = Done (tt, s1)
   | Ok resp => se_ResponseCode resp ≠ 403 →
     ∃ ds e s2 s3, uploadProxyHandler recorder asks body s = Done (tt, s3) ∧
       UtilSpec.tries (upload_once recorder asks body) 3 ds s1 e s2 ∧
       UtilSpec.grows ClientRetryInterval ds ∧
       lastCommand s3 = body ∧ net s3 = net s2 ∧
       uploadProxyHandler recorder asks body s3 = Done (tt, s3)
   end).
Proof.
  intros Hup. assert (Hskip : ∀ s, body = lastCommand s →
    uploadProxyHandler recorder asks body s = Done (tt, s)).
  { intros s0 He. unfold uploadProxyHandler. by rewrite decide_True. }
  split; [apply Hskip|]. intros Hne r s1 Hp. unfold uploadProxyHandler at 1.
  assert (Hprobe : ∀ k : _ → io (shell C W) unit, (do rp <- probe recorder ;; k rp) s = k r s1)
    by (intros k; by rewrite (io_bind_Done _ _ _ _ _ Hp)).
  destruct r as [resp|e].
  - intros Hcode.
    destruct (UtilSpec.Retry_tries (upload_once recorder asks body) 2 3 ClientRetryInterval s1 Hup)
      as (ds & e & s2 & Hr & Ht & _ & Hg); [lia|done|done|done|].
    set (s3 := Sh (loginer_ s2) (UidCache s2) (clientToken s2) body (screen s2) (bashin s2) (net s2)).
    exists ds, e, s2, s3. split_and!; [|done..|by apply Hskip].
    rewrite decide_False by done. rewrite Hprobe. rewrite (decide_False (P := _ = 403)) by done.
    rewrite (io_bind_Done _ _ _ tt s1) by done.
    change ClientRetryTimes with (Z.of_nat 3). by rewrite (io_bind_Done _ _ _ _ _ Hr).
  - unfold uploadProxyHandler. rewrite decide_False by done. by rewrite Hprobe.
Qed.
End theorems.

(** *** Witnesses: a server that knows one command *)
#[local] Instance ex_terminal : Terminal unit := {|
  Print _ w := w; ReadLine w := ("alice", w); ReadPassword w := (Ok "secret", w) |}.
#[local] Instance ex_clock : Clock unit := {| Now _ := 0; Sleep _ w := w |}.
#[local] Program Instance ex_rand : Rand unit := {| Int63n n w := (0, w) |}.
Next Obligation. intros n w Hn. simpl. lia. Qed.
#[local] Instance ex_exec : Exec unit := {| CombinedOutput _ w := ("+", w) |}.
#[local] Instance ex_grpc : Grpc unit := {|
  conn := unit;
  DialInsecure _ w := (Ok tt, w);
  DialTLS _ w := (Ok tt, w);
  rpc_Search _ r w := (Ok (MkSearchResponse (if decide (se_SearchString r = "l") then ["ls -la"] else []) 200), w);
  rpc_Upload _ _ w := (Ok (MkUploadResponse "Invalid token" 503), w);
  rpc_Login _ _ w := (Ok (MkLoginResponse 200 "t"), w);
  rpc_Logout _ _ w := (Ok (MkLogoutResponse 200), w);
  rpc_CleanUidCache _ _ w := (Err (Errorf "unimplemented"), w);
  rpc_UidLogout _ _ w := (Err (Errorf "unimplemented"), w);
  rpc_Check _ _ w := (Err (Errorf "unimplemented"), w);
  rpc_UidEndpoint _ _ w := (Err (Errorf "unimplemented"), w);
|}.
Definition ex_recorder : conn (W := unit) := tt.
Definition ex_shell : shell mapCache unit := Sh Client.NewLoginer "alice" "t" "pwd" [] [] tt.
(** An l, and return; one more key follows. *)
Definition ex_keys : list (option Z) := [Some 108; None; Some 13; Some 120].
Definition ex_done : shell mapCache unit :=
  match doSearch ex_recorder 1 ex_keys ex_shell with Done (_, s) => s | _ => ex_shell end.
Lemma search_runs_what_is_shown_witness :
  bashin ex_done = bytes_of "ls -la" ∧
  ∃ r s1, probe ex_recorder ex_shell = Done (r, s1) ∧
    match r with
    | Ok _ => (length [Some 120] < length ex_keys)%nat ∧ ended ex_shell ex_done
    | Err _ => Some [Some 120] = (line ex_keys).2 ∧
        bashin ex_done = bashin ex_shell ++ ctrl_r :: (line ex_keys).1
    end.
Proof.
  split; [vm_compute; reflexivity|].
  apply (search_runs_what_is_shown ex_recorder 1 ex_keys ex_shell (Some [Some 120]) ex_done).
  vm_compute. reflexivity.
Defined.
Lemma upload_is_tried_then_skipped_witness :
  ∃ ds e s2 s3, uploadProxyHandler ex_recorder 1 "ls -la" ex_shell = Done (tt, s3) ∧
    UtilSpec.tries (upload_once ex_recorder 1 "ls -la") 3 ds ex_shell e s2 ∧
    UtilSpec.grows ClientRetryInterval ds ∧ lastCommand s3 = "ls -la" ∧ net s3 = net s2 ∧
    uploadProxyHandler ex_recorder 1 "ls -la" s3 = Done (tt, s3).
Proof.
  destruct (upload_is_tried_then_skipped ex_recorder 1 "ls -la" ex_shell) as [_ Hup].
  - intros s. unfold upload_once. simpl. eexists _, _. reflexivity.
  - exact (Hup ltac:(discriminate) (Ok (MkSearchResponse [] 200)) ex_shell eq_refl ltac:(discriminate)).
Defined.
End ShellTheorems.
