(* ===== verification/ShellMain.v ===== *)
(** * cmd/mysh and cmd/mysh-agent: the main functions

    Module [ShellMain] is the process around [Shell]: its initialisation, the
    server of the agent's posts, [Run] with the pty, and [main] with its deferred
    calls; and the agent, which bash runs at each prompt.  What the goroutines of
    [Run] and the upload handler do while bash runs is an argument. *)

From S2P Require Import Prelude GoStr Json Proto Caches Util Client Shell.
#[local] Open Scope Z_scope.

(** Packages os, os/user, os/signal, net, net/http, terminal, pty and credentials,
    as the main functions use them.  Of several values of a variable in an
    environment, [exec] passes on the last. *)
Class Tty (W : Type) := {
  user_Current : W → result string * W;             (* the home directory *)
  os_Getpid : W → Z;
  os_Setenv : string → string → W → W;
  os_Environ : W → gmap string string;
  os_Remove : string → W → result unit * W;
  os_RemoveAll : string → W → result unit * W;
  net_ListenUnix : string → W → result unit * W;
  http_PostUnix : string → string → W → result unit * W;
  LoadClientTLS : string → W → result unit * W;     (* credentials.NewClientTLSFromFile *)
  (** The pid of the command, which runs in the environment given. *)
  pty_Start : string → gmap string string → W → result Z * W;
  pty_Close : W → W;
  MakeRaw : W → result unit * W;
  Restore : W → W;
}.

Module ShellMain.
Import Shell.
(** How a process ends: [main] returns, [log.Fatal], or a panic of the goroutine
    of [main]. *)
Inductive ending := Returned | Fatal (e : error) | Panicked (msg : string).
(** How [Run] ends. *)
Inductive ran := RanOk | RanErr (e : error) | RanPanic (msg : string).
Definition EnvMyshPidKey : string := "MYSH_PID".
Definition quote : string := string_of [34].
Definition PROMPT_COMMAND : string :=
  "/usr/bin/mysh-agent $(history 1 | { read x cmd; echo " +:+ quote +:+ "$cmd" +:+ quote +:+ "; })".

Section process.
Context {C W : Type} `{KVCache C} `{Grpc W} `{Terminal W} `{Os W} `{Tty W}.

(** *** [init]: the client [recorder] *)
Definition UserCrt (home : string) : string := GoStr.Join [home; "mysh/cert/www.myshell.top.crt"].
Definition Port : Z := 8080.
(** cons, then cmd/mysh; os/user keeps its first answer. *)
Definition init : W → result conn * W + ending := λ w,
  match user_Current w with
  | (Err e, _) => inr (Fatal e)
  | (Ok home, w) =>
    let logDir := home +:+ "/mysh/log" in
    match os_MkdirAll logDir w with
    | (Err e, _) => inr (Panicked (error_text e))
    | (Ok _, w) =>
      match os_OpenAppend (GoStr.Join [logDir; "mysh.log"]) w with
      | (Err e, _) => inr (Panicked (error_text e))
      | (Ok _, w) =>
        match Util.PullCert (UserCrt home) w with
        | (Err e, _) => inr (Panicked (error_text e))
        | (Ok _, w) =>
          match LoadClientTLS (UserCrt home) w with
          | (Err e, _) => inr (Panicked (error_text e))
          | (Ok _, w) =>
            match DialTLS (Util.Domain +:+ ":" +:+ GoStr.Itoa Port) w with
            | (Err e, _) => inr (Panicked (error_text e))
            | (Ok c, w) => inl (Ok c, w)
            end
          end
        end
      end
    end
  end.

Section main.
Variable recorder : conn.
Variable asks : nat.
(** The goroutines of [Run], the resizing of the pty among them, and the handler,
    while bash with the pid given runs and its output is copied. *)
Variable during : Z → io (shell C W) unit.
Abbreviation M := (io (shell C W)).
Definition sys {A} (c : W → A * W) : M A := λ s, let '(a, w) := c (net s) in Done (a, with_net s w).
Definition sys_ (c : W → W) : M unit := sys (λ w, (tt, c w)).
Definition sock (s : shell C W) : string := unixSock (os_Getpid (net s)).

(** [uploadProxyServer], up to [http.Serve]; the error is fatal. *)
Definition uploadProxyServer : M (option error) := λ s,
  (do _ <- sys (os_Remove (sock s)) ;;
   do l <- sys (net_ListenUnix (sock s)) ;;
   mret (match l with Err e => Some e | Ok _ => None end)) s.
(** The deferred calls run in the reverse order. *)
Definition Run : M ran :=
  do env <- (λ s, Done (os_Environ (net s), s)) ;;
  do p <- sys (pty_Start "bash" (<["PROMPT_COMMAND" := PROMPT_COMMAND]> env)) ;;
  match p with
  | Err e => mret (RanErr e)
  | Ok bashPid =>
    do oldState <- sys MakeRaw ;;
    match oldState with
    | Err e => do _ <- sys_ pty_Close ;; mret (RanPanic (error_text e))
    | Ok _ =>
      do _ <- during bashPid ;;
      do _ <- sys_ Restore ;;
      do _ <- sys_ pty_Close ;;
      mret RanOk
    end
  end.
(** The two deferred calls of [main]. *)
Definition cleanup : M unit := λ s,
  (do r <- sys (os_RemoveAll (sock s)) ;;
   do _ <- (match r with Err e => stdout (error_text e) | Ok _ => mret tt end) ;;
   logout recorder) s.
(** The goroutine of [uploadProxyServer] gets as far as [http.Serve] before bash
    starts.  [log.Fatal] does not run the deferred calls. *)
Definition main : M ending :=
  do _ <- login recorder asks ;;
  do l <- uploadProxyServer ;;
  match l with
  | Some e => mret (Fatal e)
  | None =>
    do _ <- (λ s, sys_ (os_Setenv EnvMyshPidKey (GoStr.Itoa (os_Getpid (net s)))) s) ;;
    do r <- Run ;;
    match r with
    | RanErr e => mret (Fatal e)
    | RanPanic m => do _ <- cleanup ;; mret (Panicked m)
    | RanOk => do _ <- cleanup ;; mret Returned
    end
  end.
End main.

(** *** cmd/mysh-agent *)
Definition agent_init : W → option ending * W := λ w,
  match user_Current w with
  | (Err e, w) => (Some (Panicked (error_text e)), w)
  | (Ok home, w) =>
    let logDir := GoStr.Join [home; "mysh/agent"] in
    match os_MkdirAll logDir w with
    | (Err e, w) => (Some (Panicked (error_text e)), w)
    | (Ok _, w) =>
      match os_OpenAppend (GoStr.Join [logDir; "mysh-agent.log"]) w with
      | (Err e, w) => (Some (Panicked (error_text e)), w)
      | (Ok _, w) => (None, w)
      end
    end
  end.
(** The error of the post is logged. *)
Definition agent_main (args : list string) : W → W := λ w,
  match agent_command args with
  | None => w
  | Some command =>
      let pid := default "" (os_Environ w !! EnvMyshPidKey) in
      (http_PostUnix (fakeDial pid) command w).2
  end.
End process.
End ShellMain.

(** ** What the main functions rely on *)
Class TtyLaws (W : Type) `{Tty W} := {
  sockets : W → gset string;         (* the sockets in the file system *)
  raw : W → bool;                    (* the mode of the terminal *)
  same_tty w w' := sockets w' = sockets w ∧ raw w' = raw w ∧ os_Getpid w' = os_Getpid w;
  law_Setenv k v w : same_tty w (os_Setenv k v w) ∧ os_Environ (os_Setenv k v w) = <[k := v]> (os_Environ w);
  law_Start c env w : same_tty w (pty_Start c env w).2;
  law_Close w : same_tty w (pty_Close w);
  law_Remove p w : let '(r, w') := os_Remove p w in
    sockets w' ⊆ sockets w ∧ raw w' = raw w ∧ os_Getpid w' = os_Getpid w;
  law_RemoveAll p w : let '(r, w') := os_RemoveAll p w in
    (r = Ok tt → p ∉ sockets w') ∧ raw w' = raw w ∧ os_Getpid w' = os_Getpid w;
  law_Listen p w : let '(r, w') := net_ListenUnix p w in
    (r = Ok tt → p ∈ sockets w') ∧ raw w' = raw w ∧ os_Getpid w' = os_Getpid w;
  law_MakeRaw w : let '(r, w') := MakeRaw w in
    sockets w' = sockets w ∧ os_Getpid w' = os_Getpid w ∧ (∀ e, r = Err e → raw w' = raw w);
  law_Restore w : sockets (Restore w) = sockets w ∧ os_Getpid (Restore w) = os_Getpid w ∧ raw (Restore w) = false;
}.

(** ** Facts *)
Module ShellMainFacts.
Import Shell ShellMain.
Lemma unixSock_eq pid : unixSock pid = fakeDial (GoStr.Itoa pid).
Proof.
  set (n := "mysh." +:+ GoStr.Itoa pid +:+ ".sock").
  assert (GoStr.name_ok n = true) as Hn.
  { apply GoStr.name_ok_spec. split_and!; try discriminate. unfold n. rewrite !GoStr.has_char_app.
    by rewrite GoStr.has_char_Itoa_slash. }
  change (unixSock pid) with (GoStr.Join ["/tmp"; n]).
  change (fakeDial (GoStr.Itoa pid)) with (GoStr.abspath ["tmp"; n]).
  rewrite <- (GoStr.Clean_abspath ["tmp"; n]) by (done || by repeat constructor).
  unfold GoStr.Join. rewrite decide_False by (unfold n; done). done.
Qed.

Section facts.
Context {C W : Type} `{KVCache C} `{Grpc W} `{Terminal W} `{TtyLaws W}.
Implicit Types s : shell C W.
Variable recorder : conn.
(** What [main] calls besides leaves the terminal and the sockets alone. *)
Definition keeps_tty {A} (c : io (shell C W) A) : Prop :=
  ∀ s a s', c s = Done (a, s') → same_tty (net s) (net s').
Hypothesis logout_tty : ∀ q w, same_tty w (rpc_Logout recorder q w).2.

Lemma same_trans w1 w2 w3 : same_tty w1 w2 → same_tty w2 w3 → same_tty w1 w3.
Proof. intros (? & ? & ?) (? & ? & ?). split_and!; congruence. Qed.
Lemma sys_inv {A} (c : W → A * W) s a s' : sys (C := C) c s = Done (a, s') →
  ∃ w, c (net s) = (a, w) ∧ s' = with_net s w.
Proof. unfold sys. destruct (c (net s)) as [a' w]. intros [= -> <-]. by exists w. Qed.
Lemma sys__inv c s u s' : sys_ (C := C) c s = Done (u, s') → s' = with_net s (c (net s)).
Proof. unfold sys_. by intros (w & [= _ <-] & ->)%sys_inv. Qed.

Lemma cleanup_ends s s' : cleanup recorder s = Done (tt, s') →
  raw (net s') = raw (net s) ∧
  (sock s ∉ sockets (net s') ∨ ∃ e, error_text e ∈ screen s') ∧
  ∃ w r, rpc_Logout recorder (MkLogoutRequest (UidCache s) "") w = (r, net s').
Proof.
  unfold cleanup. intros (r & s1 & (w & Hr & ->)%sys_inv & Hk)%io_bind_inv.
  pose proof (law_RemoveAll (sock s) (net s)) as L. rewrite Hr in L. destruct L as (Hgone & Hraw & _).
  apply io_bind_inv in Hk as (u & s2 & Hp & Hl).
  assert (net s2 = w ∧ UidCache s2 = UidCache s ∧ (r = Ok tt ∨ ∃ e, error_text e ∈ screen s2)) as (Hn & Hu & Hor).
  { destruct r as [[]|e]; injection Hp as _ <-; [by split_and!; [..|left]|]. split_and!; [done..|right].
    exists e. simpl. apply elem_of_app. right. by left. }
  unfold logout in Hl. rewrite Hn, Hu in Hl. pose proof (logout_tty (MkLogoutRequest (UidCache s) "") w) as (Hs & Hr' & _).
  destruct (rpc_Logout recorder _ w) as [q w'] eqn:Hq. simpl in Hs, Hr'.
  assert (net s' = w' ∧ screen s2 ⊆ screen s') as [-> Hscr].
  { destruct q as [resp|e]; [case_decide|]; injection Hl as <-; simpl; (split; [done|]); set_solver. }
  split; [congruence|]. split; [|by eexists _, _]. destruct Hor as [->|(e & He)]; [left|right; exists e; by apply Hscr].
  rewrite Hs. by apply Hgone.
Qed.
Lemma listens s o s' : uploadProxyServer s = Done (o, s') →
  raw (net s') = raw (net s) ∧ os_Getpid (net s') = os_Getpid (net s) ∧
  match o with
  | None => sock s ∈ sockets (net s')
  | Some e => ∃ w, net_ListenUnix (sock s) w = (Err e, net s')
  end.
Proof.
  unfold uploadProxyServer. intros (r & s1 & (w & Hr & ->)%sys_inv & Hk)%io_bind_inv.
  pose proof (law_Remove (sock s) (net s)) as L. rewrite Hr in L. destruct L as (_ & Hraw & Hpid).
  apply io_bind_inv in Hk as (l & s2 & (w2 & Hl & ->)%sys_inv & Hk). simpl in Hl.
  pose proof (law_Listen (sock s) w) as L. rewrite Hl in L. destruct L as (Hin & Hraw2 & Hpid2).
  destruct l as [[]|e]; injection Hk as <- <-; simpl; split_and!; try congruence; [by apply Hin|by exists w].
Qed.
Section bash.
Variable during : Z → io (shell C W) unit.
Hypothesis during_tty : ∀ pid, keeps_tty (during pid).
Lemma Run_ends s r s' : Run during s = Done (r, s') → raw (net s) = false →
  raw (net s') = false ∧ os_Getpid (net s') = os_Getpid (net s) ∧ sockets (net s') = sockets (net s) ∧
  ∀ e, r = RanErr e → ∃ env w, pty_Start "bash" env w = (Err e, net s') ∧
    env = <["PROMPT_COMMAND" := PROMPT_COMMAND]> (os_Environ (net s)).
Proof.
  intros Hrun Hraw. unfold Run in Hrun. apply io_bind_inv in Hrun as (env & s0 & [= <- <-] & Hrun).
  apply io_bind_inv in Hrun as (p & s1 & (w1 & Hp & ->)%sys_inv & Hk). simpl in Hp.
  pose proof (law_Start "bash" (<["PROMPT_COMMAND" := PROMPT_COMMAND]> (os_Environ (net s))) (net s)) as (Hs1 & Hr1 & Hp1).
  rewrite Hp in Hs1, Hr1, Hp1. simpl in Hs1, Hr1, Hp1.
  destruct p as [pid|e]; [|injection Hk as <- <-; simpl; split_and!; [congruence..|]; intros e' [= ->]; by eexists _, _].
  apply io_bind_inv in Hk as (old & s2 & (w2 & Hm & ->)%sys_inv & Hk). simpl in Hm.
  pose proof (law_MakeRaw w1) as L. rewrite Hm in L. destruct L as (Hs2 & Hp2 & Hr2). destruct old as [[]|e].
  - apply io_bind_inv in Hk as ([] & s3 & Hd & Hk). apply during_tty in Hd as (Hs3 & Hr3 & Hp3). simpl in Hs3, Hr3, Hp3.
    apply io_bind_inv in Hk as (u & s4 & ->%sys__inv & Hk). apply io_bind_inv in Hk as (u' & s5 & ->%sys__inv & Hk).
    injection Hk as <- <-. simpl. pose proof (law_Restore (net s3)) as (Hs4 & Hp4 & Hr4).
    pose proof (law_Close (Restore (net s3))) as (Hs5 & Hr5 & Hp5). split_and!; [congruence..|done].
  - apply io_bind_inv in Hk as (u & s3 & ->%sys__inv & Hk). injection Hk as <- <-. simpl.
    pose proof (law_Close w2) as (Hs5 & Hr5 & Hp5). rewrite (Hr2 e eq_refl) in Hr5. split_and!; [congruence..|done].
Qed.
End bash.
End facts.
End ShellMainFacts.

(** ** Theorems *)
Module ShellMainTheorems.
Import Shell ShellMain ShellMainFacts.
Section theorems.
Context {C W : Type} `{KVCache C} `{Grpc W} `{Terminal W} `{TtyLaws W}.


(** The agent that bash runs at a prompt posts the command to the socket of the
    shell that started bash, also in a shell within a shell. *)
Theorem prompt_posts_to_own_shell (w w' : W) args command :
  os_Environ w' = <["PROMPT_COMMAND" := PROMPT_COMMAND]>
    (os_Environ (os_Setenv EnvMyshPidKey (GoStr.Itoa (os_Getpid w)) w)) →
  agent_command args = Some command →
  agent_main args w' = (http_PostUnix (unixSock (os_Getpid w)) command w').2.
Proof.
  intros He Ha. unfold agent_main. rewrite Ha, He. destruct (law_Setenv EnvMyshPidKey (GoStr.Itoa (os_Getpid w)) w) as [_ ->].
  rewrite lookup_insert_ne, lookup_insert_eq by discriminate. by rewrite unixSock_eq.
Qed.
End theorems.

(** *** Witness: a terminal in memory; a user types a password, and bash runs *)
Record tty := Tty_ { ex_sockets : gset string; ex_raw : bool; ex_env : gmap string string; bash_ok : bool }.
#[local] Instance ex_tty : Tty tty := {|
  user_Current w := (Ok "/home/u", w);
  os_Getpid _ := 4711;
  os_Setenv k v w := Tty_ (ex_sockets w) (ex_raw w) (<[k := v]> (ex_env w)) (bash_ok w);
  os_Environ := ex_env;
  os_Remove p w := (Ok tt, Tty_ (ex_sockets w ∖ {[p]}) (ex_raw w) (ex_env w) (bash_ok w));
  os_RemoveAll p w := (Ok tt, Tty_ (ex_sockets w ∖ {[p]}) (ex_raw w) (ex_env w) (bash_ok w));
  net_ListenUnix p w := (Ok tt, Tty_ ({[p]} ∪ ex_sockets w) (ex_raw w) (ex_env w) (bash_ok w));
  http_PostUnix _ _ w := (Ok tt, w);
  LoadClientTLS _ w := (Ok tt, w);
  pty_Start _ _ w := (if bash_ok w then Ok 4712 else Err (Errorf "out of pty devices"), w);
  pty_Close w := w;
  MakeRaw w := (Ok tt, Tty_ (ex_sockets w) true (ex_env w) (bash_ok w));
  Restore w := Tty_ (ex_sockets w) false (ex_env w) (bash_ok w);
|}.
#[local] Program Instance ex_tty_laws : TtyLaws tty := {| sockets := ex_sockets; raw := ex_raw |}.
Solve All Obligations with (intros; simpl; split_and?; done || set_solver).
#[local] Instance ex_grpc : Grpc tty := {|
  conn := unit;
  DialInsecure _ w := (Ok tt, w);
  DialTLS _ w := (Ok tt, w);
  rpc_Search _ _ w := (Ok (MkSearchResponse [] 200), w);
  rpc_Upload _ _ w := (Ok (MkUploadResponse "" 200), w);
  rpc_Login _ _ w := (Ok (MkLoginResponse 200 "t"), w);
  rpc_Logout _ _ w := (Ok (MkLogoutResponse 200), w);
  rpc_CleanUidCache _ _ w := (Err (Errorf "unimplemented"), w);
  rpc_UidLogout _ _ w := (Err (Errorf "unimplemented"), w);
  rpc_Check _ _ w := (Err (Errorf "unimplemented"), w);
  rpc_UidEndpoint _ _ w := (Err (Errorf "unimplemented"), w);
|}.
#[local] Instance ex_terminal : Terminal tty := {|
  Print _ w := w;
  ReadLine w := ("alice", w);
  ReadPassword w := (Ok "secret", w);
|}.
Definition ex_recorder : conn (W := tty) := tt.
Definition ex_session (bash_ok : bool) : shell mapCache tty :=
  Sh Client.NewLoginer "" "" "" [] [] (Tty_ ∅ false ∅ bash_ok).
(** Bash is sent a command. *)
Definition ex_during (pid : Z) : io (shell mapCache tty) unit := to_bash (bytes_of "ls").
Definition ex_main (bash_ok : bool) := main ex_recorder 1 ex_during (ex_session bash_ok).
Definition ex_end (bash_ok : bool) : shell mapCache tty :=
  match ex_main bash_ok with Done (_, s) => s | _ => ex_session bash_ok end.
Lemma ex_login ok s1 : login ex_recorder 1 (ex_session ok) = Done (tt, s1) →
  same_tty (net (ex_session ok)) (net s1).
Proof. by destruct ok; vm_compute; intros [= <-]. Qed.
End ShellMainTheorems.
