(* ===== verification/ShellConc.v ===== *)
(** * cmd/mysh/mysh.go: the goroutines of [Run]

    While bash runs, one goroutine copies the terminal to [stdinBuffer], one relays
    the keys from there to [bashinBuffer] and serves the search mode, and one copies
    [bashinBuffer] to the pty.  Module [ShellConc] is the three over their buffers;
    the relay is cut at its calls of [ReadByte], a copy between its read and its
    write.  A call on a buffer is one step. *)

From S2P Require Import Prelude GoStr Json Proto Util Client Shell Pool.
#[local] Open Scope Z_scope.

Module ShellConc.
Import Shell.
(** Where the relay calls [ReadByte]: in [Run], in the offline mode, and at three
    places of the search mode. *)
Inductive mode := MKeys | MOffline | MSearch (v : view) | MEsc (v : view) | MCsi (v : view).
(** A copier has read nothing, or the bytes it will write. *)
Inductive goroutine :=
  | GStdin (held : list Z)
  | GRelay (m : mode)
  | GPty (held : list Z).
(** [typed]: the terminal's input, by the reads that return it.  [bashinBuffer] is
    what was written to it, [bashin], without what was [taken]. *)
Record proc (C W : Type) := Proc {
  typed : list (list Z);
  stdinBuffer : list Z;
  taken : nat;
  pty : list Z;
  process : shell C W;
}.
Arguments Proc {C W} _ _ _ _ _.
Arguments typed {C W} _.
Arguments stdinBuffer {C W} _.
Arguments taken {C W} _.
Arguments pty {C W} _.
Arguments process {C W} _.
Definition bashinBuffer {C W} (p : proc C W) : list Z := drop (taken p) (bashin (process p)).

Section steps.
Context {C W : Type} `{KVCache C} `{Grpc W} `{Terminal W} `{Clock W} `{Rand W} `{Exec W}.
Variable recorder : conn.
Variable bashPid : Z.
Variable asks : nat.
Abbreviation M := (io (shell C W)).

(** [doSearch], up to its first [ReadByte] *)
Definition begin_search : M mode :=
  do resp <- probe recorder ;;
  match resp with
  | Err _ => do _ <- to_bash [ctrl_r] ;; mret MOffline
  | Ok resp =>
    do _ <- (if decide (se_ResponseCode resp = 403) then login recorder asks else mret tt) ;;
    do _ <- saveCursor ;;
    do v <- displaySearchStatus start_view ;;
    mret (MSearch v)
  end.
(** What the relay does with the result of a [ReadByte], up to the next. *)
Definition on_key (m : mode) (key : option Z) : M mode :=
  match m, key with
  | MKeys, Some b =>
    do fg <- (if b =? ctrl_r then checkForeGround bashPid else mret false) ;;
    if fg : bool then begin_search else do _ <- to_bash [b] ;; mret MKeys
  | MOffline, Some b =>
    do _ <- to_bash [b] ;; mret (if (b =? 13) || (b =? 10) then MKeys else MOffline)
  | MSearch v, Some b =>
    if b =? ctrl_c then do _ <- cleanView ;; mret MKeys
    else if b =? 13 then do _ <- displayCommand v ;; mret MKeys
    else if b =? ctrl_r then do v <- displaySearchStatus (prev_index v) ;; mret (MSearch v)
    else if b =? 27 then mret (MEsc v)
    else
      do v <- search recorder asks (edit v b) ;;
      do v <- displaySearchStatus v ;;
      mret (MSearch v)
  | MEsc v, None => mret (MSearch v)
  | MEsc v, Some b => if negb (b =? 91) then panic "unknow CSI sequence" else mret (MCsi v)
  | MCsi v, None => panic "EOF"
  | MCsi v, Some c =>
    if (c =? 67) || (c =? 68) then do _ <- displayCommand v ;; mret MKeys
    else if c =? 65 then do v <- displaySearchStatus (prev_index v) ;; mret (MSearch v)
    else if c =? 66 then do v <- displaySearchStatus (next_index v) ;; mret (MSearch v)
    else mret (MSearch v)
  | m, None => mret m
  end.
Fixpoint feed (ps : list (option Z)) (m : mode) : M mode :=
  match ps with [] => mret m | k :: ps => do m <- on_key m k ;; feed ps m end.

(** The length of [streamCopy]'s buffer is 32*1024; any will do. *)
Variable bufsize : nat.
Definition gstep (i : nat) (g : goroutine) (p : proc C W) : outcome (goroutine * proc C W) :=
  match g with
  | GStdin [] =>
      match typed p with
      | [] => Block
      | c :: cs => Done (GStdin c, Proc cs (stdinBuffer p) (taken p) (pty p) (process p))
      end
  | GStdin held => Done (GStdin [], Proc (typed p) (stdinBuffer p ++ held) (taken p) (pty p) (process p))
  | GRelay m =>
      run (m, s) <- on_key m (head (stdinBuffer p)) (process p) ;;
      Done (GRelay m, Proc (typed p) (tail (stdinBuffer p)) (taken p) (pty p) s)
  | GPty [] =>
      let c := take bufsize (bashinBuffer p) in
      Done (GPty c, Proc (typed p) (stdinBuffer p) (taken p + length c)%nat (pty p) (process p))
  | GPty held => Done (GPty [], Proc (typed p) (stdinBuffer p) (taken p) (pty p ++ held) (process p))
  end.
(** What [Run] starts. *)
Definition start (input : list (list Z)) (s : shell C W) : pool goroutine (proc C W) :=
  Pool (Proc input [] 0 [] s) [GStdin []; GRelay MKeys; GPty []].
End steps.
End ShellConc.

(** ** The relay as a machine that is fed keys *)
Create HintDb appends.
Module ShellConcFacts.
Import Shell ShellFacts ShellConc.
Section facts.
Context {C W : Type} `{KVCache C} `{Grpc W} `{Terminal W} `{Clock W} `{Rand W} `{Exec W}.
Variable recorder : conn.
Variable bashPid : Z.
Variable asks : nat.
Implicit Types s : shell C W.
Abbreviation feed := (feed recorder bashPid asks).
Abbreviation on_key := (on_key recorder bashPid asks).

(** The process after the keys. *)
Definition fed (ps : list (option Z)) (m : mode) s : outcome (shell C W) :=
  run (_, s) <- feed ps m s ;; Done s.
(** A loop of [doSearch] gave back the keys it did not read, or waits for more. *)
Definition resume (r : outcome (option (list (option Z)) * shell C W)) : outcome (shell C W) :=
  run (rest, s) <- r ;; match rest with Some ps => fed ps MKeys s | None => Done s end.

Lemma fed_cons k ps m s : fed (k :: ps) m s = (run (m, s) <- on_key m k s ;; fed ps m s).
Proof. unfold fed. simpl. unfold mbind, io_bind. by destruct (on_key m k s) as [[m1 s1]| |]. Qed.
Lemma feed_app ps ps' m s : feed (ps ++ ps') m s = (run (m, s) <- feed ps m s ;; feed ps' m s).
Proof.
  revert m s. induction ps as [|k ps IH]; intros m s; [done|]. simpl. unfold mbind, io_bind.
  destruct (on_key m k s) as [[m1 s1]| |]; simpl; [apply IH|done|done].
Qed.
Lemma resume_bind {A} (c : io (shell C W) A) (f : A → io (shell C W) (option (list (option Z)))) s :
  resume ((do a <- c ;; f a) s) = (run (a, s) <- c s ;; resume (f a s)).
Proof. unfold mbind, io_bind. by destruct (c s) as [[a s1]| |]. Qed.

Lemma offline_fed ps : ∀ s, fed ps MOffline s = resume (offline_loop ps s).
Proof.
  induction ps as [|[b|] ps IH]; intros s; [done| |].
  - rewrite fed_cons. cbn [offline_loop]. rewrite resume_bind. unfold mbind, io_bind. simpl.
    by destruct ((b =? 13) || (b =? 10)); simpl; [|rewrite IH].
  - rewrite fed_cons. apply IH.
Qed.
Lemma bind_run {A B} (c : io (shell C W) A) (f : A → io (shell C W) B) s :
  (do a <- c ;; f a) s = (run (a, s) <- c s ;; f a s).
Proof. done. Qed.
(** The same call first on both sides. *)
Lemma fed_bind {A} (c : io (shell C W) A) (f : A → io (shell C W) mode) ps s :
  (run (m, s) <- (do a <- c ;; f a) s ;; fed ps m s) =
  (run (a, s) <- c s ;; run (m, s) <- f a s ;; fed ps m s).
Proof. unfold mbind, io_bind. by destruct (c s) as [[a s1]| |]. Qed.
Lemma bind_ext {A B} (c : outcome A) (f g : A → outcome B) :
  (∀ a, f a = g a) → (run a <- c ;; f a) = (run a <- c ;; g a).
Proof. intros He. by destruct c; simpl. Qed.
Ltac same_call := rewrite fed_bind, resume_bind; apply bind_ext; intros [? ?].

Lemma search_fed n : ∀ ps v s, (length ps ≤ n)%nat →
  fed ps (MSearch v) s = resume (search_loop recorder asks ps v s).
Proof.
  induction n as [|n IH]; intros ps v s Hn; [by destruct ps; [|simpl in Hn; lia]|].
  destruct ps as [|[b|] ps]; [done| |rewrite fed_cons; apply (IH ps); simpl in Hn; lia].
  simpl in Hn. rewrite fed_cons. cbn [on_key ShellConc.on_key search_loop].
  destruct (b =? ctrl_c); [by same_call|]. destruct (b =? 13); [by same_call|].
  destruct (b =? ctrl_r); [same_call; apply IH; lia|].
  destruct (b =? 27).
  - destruct ps as [|[b2|] ps]; [done| |simpl; rewrite fed_cons; apply (IH ps); simpl in *; lia].
    simpl. rewrite fed_cons. cbn [on_key ShellConc.on_key].
    destruct (negb (b2 =? 91)); [done|]. simpl in Hn.
    destruct ps as [|[c|] ps]; [done| |done]. simpl. rewrite fed_cons. cbn [on_key ShellConc.on_key].
    simpl in Hn.
    destruct ((c =? 67) || (c =? 68)); [by same_call|].
    destruct (c =? 65); [same_call; apply IH; lia|].
    destruct (c =? 66); [same_call; apply IH; lia|]. apply IH. lia.
  - same_call. same_call. apply IH. lia.
Qed.
Lemma doSearch_fed ps s :
  (run (m, s) <- begin_search recorder asks s ;; fed ps m s) = resume (doSearch recorder asks ps s).
Proof.
  unfold begin_search, doSearch. same_call. case_match.
  - same_call. same_call. same_call. by apply (search_fed (length ps)).
  - same_call. apply offline_fed.
Qed.

(** What is left of the keys after a search is shorter. *)
Lemma doSearch_shorter ps s rest s' : doSearch recorder asks ps s = Done (Some rest, s') →
  (length rest ≤ length ps)%nat.
Proof.
  unfold doSearch. intros (r & s1 & _ & Hk)%io_bind_inv. destruct r as [resp|e].
  - apply io_bind_inv in Hk as (u & s2 & _ & Hk). apply io_bind_inv in Hk as (u3 & s3 & _ & Hk).
    apply (display_then _ _ _ s3) in Hk as (v & s4 & Hd & Hb4 & Hk); [|done].
    apply (search_loop_ended recorder asks (length ps) ps v s4 s3) in Hk; [|done..]. lia.
  - apply io_bind_inv in Hk as (u & s2 & _ & Hk). destruct (offline_eq ps s2) as (s4 & Ho & _).
    rewrite Ho in Hk. injection Hk as Hl _. clear Ho. revert rest Hl.
    induction ps as [|[b|] ps IH]; simpl; intros rest; [done| |intros ?%IH; lia].
    destruct ((b =? 13) || (b =? 10)); [intros [= <-]; lia|].
    destruct (line ps) as [l r]. intros ?%IH. lia.
Qed.
(** The relay is the machine, given enough rounds. *)
Lemma relay_fed fuel : ∀ ps s, (length ps ≤ fuel)%nat →
  relay recorder bashPid asks fuel ps s = (run s <- fed ps MKeys s ;; Done (tt, s)).
Proof.
  induction fuel as [|fuel IH]; intros ps s Hf; [by destruct ps; [|simpl in Hf; lia]|].
  destruct ps as [|[b|] ps]; [done| |rewrite fed_cons; apply (IH ps); simpl in Hf; lia].
  simpl in Hf. rewrite fed_cons. cbn [relay on_key ShellConc.on_key]. rewrite fed_bind.
  set (c := if b =? ctrl_r then _ else _). rewrite bind_run.
  destruct (c s) as [[fg s1]| |]; [|done|done]. simpl.
  destruct fg.
  - rewrite doSearch_fed. unfold mbind, io_bind.
    destruct (doSearch recorder asks ps s1) as [[rest s2]| |] eqn:Hd; [|done|done]. simpl.
    destruct rest as [rest|]; [|done]. apply doSearch_shorter in Hd. apply IH. lia.
  - unfold mbind, io_bind. simpl. apply IH. lia.
Qed.

(** *** What is written to bash is not taken back *)
Definition appends {A} (c : io (shell C W) A) : Prop :=
  ∀ s a s', c s = Done (a, s') → bashin s `prefix_of` bashin s'.
Lemma bind_appends {A B} (c : io (shell C W) A) (f : A → io (shell C W) B) :
  appends c → (∀ a, appends (f a)) → appends (do a <- c ;; f a).
Proof. intros Hc Hf s b s' (a & s1 & Ha & Hb)%io_bind_inv. etrans; [by eapply Hc|by eapply Hf]. Qed.
Lemma ret_appends {A} (a : A) : appends (mret a).
Proof. by intros s ? s' [= _ <-]. Qed.
Lemma panic_appends {A} t : appends (panic t : io (shell C W) A).
Proof. done. Qed.
Lemma silent_appends {A} (c : io (shell C W) A) :
  (∀ s a s', c s = Done (a, s') → silent s s') → appends c.
Proof. intros Hc s a s' Hs. apply Hc in Hs as [_ ->]. done. Qed.
Lemma stdout_appends t : appends (stdout t).
Proof. by intros s ? s' [= _ <-]. Qed.
Lemma to_bash_appends b : appends (to_bash b).
Proof. intros s ? s' [= _ <-]. by eexists. Qed.
Lemma foreground_appends pid : appends (checkForeGround pid).
Proof.
  intros s a s'. unfold checkForeGround, svc. unfold mbind, io_bind.
  destruct (CombinedOutput _ _). by intros [= _ <-].
Qed.
Lemma login_appends : appends (login recorder asks).
Proof. apply silent_appends. intros. by eapply login_silent. Qed.
Lemma probe_appends : appends (probe recorder).
Proof. apply silent_appends. intros. by eapply probe_silent. Qed.
Lemma search_appends v : appends (search recorder asks v).
Proof. apply silent_appends. intros. by eapply search_silent. Qed.
Hint Resolve ret_appends panic_appends stdout_appends to_bash_appends foreground_appends
  login_appends probe_appends search_appends : appends.
Ltac appends :=
  repeat first [solve [auto with appends]|progress cbv zeta|apply bind_appends; intros|case_match].
Lemma cleanView_appends : appends cleanView.
Proof. unfold cleanView, restoreCursor, cleanLineTail, printCSI. appends. Qed.
Lemma status_appends v : appends (displaySearchStatus v).
Proof. unfold displaySearchStatus. pose proof cleanView_appends. appends. Qed.
Lemma command_appends v : appends (displayCommand v).
Proof. unfold displayCommand. pose proof cleanView_appends. appends. Qed.
Hint Resolve cleanView_appends status_appends command_appends : appends.
Lemma on_key_appends m k : appends (on_key m k).
Proof. destruct m, k; unfold ShellConc.on_key, begin_search, saveCursor, printCSI; appends. Qed.

(** ** The invariant *)
Variable bufsize : nat.
Abbreviation gstep := (gstep recorder bashPid asks bufsize).
(** [input] was typed, [s0] is the process when [Run] starts. *)
Record running (input : list Z) s0 (x : pool goroutine (proc C W)) (ps : list (option Z))
    (h1 h2 : list Z) (m : mode) : Prop := {
  run_gs : gs x = [GStdin h1; GRelay m; GPty h2];
  run_fed : feed ps MKeys s0 = Done (m, process (sh x));
  run_in : omap id ps ++ stdinBuffer (sh x) ++ h1 ++ concat (typed (sh x)) = input;
  run_taken : (taken (sh x) ≤ length (bashin (process (sh x))))%nat;
  run_out : pty (sh x) ++ h2 = take (taken (sh x)) (bashin (process (sh x)));
}.
Definition inv input s0 x : Prop := ∃ ps h1 h2 m, running input s0 x ps h1 h2 m.

Lemma relays_start input s0 : inv (concat input) s0 (start input s0).
Proof. exists [], [], [], MKeys. split; try done. simpl. lia. Qed.
Lemma take_prefix {A} n (l l' : list A) : (n ≤ length l)%nat → l `prefix_of` l' → take n l' = take n l.
Proof. intros Hn [k ->]. by rewrite take_app_le. Qed.
Lemma relays_sched input s0 x i g g' p' : inv input s0 x → gs x !! i = Some g →
  gstep i g (sh x) = Done (g', p') → inv input s0 (Pool p' (<[i := g']> (gs x))).
Proof.
  intros (ps & h1 & h2 & m & [Hgs Hf Hin Ht Hout]) Hi Hs. rewrite Hgs in *.
  destruct i as [|[|[|i]]]; [| | |done]; injection Hi as <-; simpl in Hs.
  - destruct h1 as [|b h1]; [destruct (typed (sh x)) as [|c cs] eqn:Hty; [done|]|]; injection Hs as <- <-.
    + exists ps, c, h2, m. by split.
    + exists ps, [], h2, m. split; try done. simpl. rewrite <- Hin. by rewrite <- !app_assoc.
  - destruct (on_key m (head (stdinBuffer (sh x))) (process (sh x))) as [[m' s']| |] eqn:Hk; [|done|done].
    injection Hs as <- <-. exists (ps ++ [head (stdinBuffer (sh x))]), h1, h2, m'.
    pose proof (on_key_appends _ _ _ _ _ Hk) as Hp. split; simpl; [done| | | |].
    + rewrite feed_app, Hf. simpl. unfold mbind, io_bind. by rewrite Hk.
    + rewrite omap_app, <- Hin, <- app_assoc. f_equal. by destruct (stdinBuffer (sh x)).
    + pose proof (prefix_length _ _ Hp). lia.
    + rewrite Hout. symmetry. by apply take_prefix.
  - destruct h2 as [|b h2]; injection Hs as <- <-.
    + exists ps, h1, (take bufsize (bashinBuffer (sh x))), m. unfold bashinBuffer.
      rewrite app_nil_r in Hout. split; simpl; [done|done|done| |].
      * rewrite length_take, length_drop. lia.
      * rewrite Hout, length_take, length_drop. set (l := bashin (process (sh x))) in *.
        destruct (decide (bufsize ≤ length l - taken (sh x))%nat).
        -- rewrite Nat.min_l by done. by rewrite take_take_drop.
        -- rewrite Nat.min_r by lia. rewrite (take_ge (drop _ _)) by (rewrite length_drop; lia).
           rewrite take_drop. by rewrite take_ge by lia.
    + exists ps, h1, [], m. split; try done. simpl. by rewrite app_nil_r.
Qed.
Lemma relays_reach input s0 es x : Forall (event_ok (λ _, False)) es →
  steps gstep es (start input s0) = Done x → inv (concat input) s0 x.
Proof.
  intros Hes. apply (steps_keep gstep (λ _, False)); [done|intros; by eapply relays_sched|apply relays_start|done].
Qed.
End facts.
End ShellConcFacts.

(** ** Keys that begin no search *)
Module ShellConcPlain.
Import Shell ShellFacts ShellConc ShellConcFacts.
Section plain.
Context {C W : Type} `{KVCache C} `{Grpc W} `{Terminal W} `{Clock W} `{Rand W} `{Exec W}.
Variable recorder : conn.
Variable bashPid : Z.
Variable asks : nat.
Implicit Types (s : shell C W) (x : pool goroutine (proc C W)).
Variable bufsize : nat.
Abbreviation gstep := (gstep recorder bashPid asks bufsize).

Lemma feed_plain ps : ∀ s, Forall (λ b, b ≠ ctrl_r) (omap id ps) →
  ∃ s', feed recorder bashPid asks ps MKeys s = Done (MKeys, s') ∧ bashin s' = bashin s ++ omap id ps.
Proof.
  induction ps as [|[b|] ps IH]; intros s Hps; simpl.
  - exists s. by rewrite app_nil_r.
  - simpl in Hps. apply Forall_cons in Hps as [Hb Hps]. rewrite bind_run. cbn [on_key].
    destruct (Z.eqb_spec b ctrl_r); [done|]. rewrite !bind_run. simpl.
    edestruct IH as (s' & Hf & Hbi); [exact Hps|]. exists s'. split; [exact Hf|].
    rewrite Hbi. simpl. by rewrite <- app_assoc.
  - apply IH, Hps.
Qed.
(** The bytes on their way, each by the steps it has before it at most, and the
    reads of the terminal to come. *)
Definition way x : nat :=
  match gs x with
  | [GStdin h1; _; GPty h2] =>
      length (typed (sh x)) + 5 * length (concat (typed (sh x))) + 4 * length h1 +
      3 * length (stdinBuffer (sh x)) + 2 * length (bashinBuffer (sh x)) + length h2
  | _ => 0
  end.

(** As long as a byte is on its way some goroutine brings one closer. *)
Hypothesis some_buffer : (0 < bufsize)%nat.
Lemma closer input s0 x : Forall (λ b, b ≠ ctrl_r) input → bashin s0 = [] →
  inv recorder bashPid asks input s0 x → way x ≠ 0%nat →
  ∃ j g g' p, gs x !! j = Some g ∧ gstep j g (sh x) = Done (g', p) ∧
    (way (Pool p (<[j := g']> (gs x))) < way x)%nat.
Proof.
  intros Hplain Hs0 (ps & h1 & h2 & m & [Hgs Hf Hin Ht Hout]) Hw. unfold way in *. rewrite Hgs in *.
  destruct h2 as [|b2 h2].
  2: { exists 2%nat. do 3 eexists. split; [done|]. split; [done|]. unfold bashinBuffer. simpl. lia. }
  destruct (bashinBuffer (sh x)) as [|b l] eqn:Hb.
  2: { exists 2%nat. do 3 eexists. split; [done|]. split; [done|]. rewrite Hb.
    unfold bashinBuffer in *. simpl.
    rewrite <- drop_drop, Hb, length_drop, !length_take. cbn [length]. lia. }
  destruct (stdinBuffer (sh x)) as [|k l] eqn:Hstd.
  2: { assert (m = MKeys ∧ k ≠ ctrl_r) as [-> Hk].
    { rewrite <- Hin in Hplain. apply Forall_app in Hplain as [Hps Hk]. apply Forall_cons in Hk as [Hk _].
      destruct (feed_plain ps s0 Hps) as (s' & Hf' & _). rewrite Hf in Hf'. by injection Hf' as -> _. }
    exists 1%nat. do 3 eexists. split; [done|]. split.
    { simpl. rewrite Hstd. simpl. rewrite bind_run. destruct (Z.eqb_spec k ctrl_r); [done|]. reflexivity. }
    unfold bashinBuffer in *. simpl.
    apply (f_equal length) in Hb. rewrite length_drop in *. rewrite length_app. simpl in *. lia. }
  destruct h1 as [|b1 h1].
  2: { exists 0%nat. do 3 eexists. split; [done|]. split; [done|]. simpl. rewrite ?Hstd. simpl in *.
    unfold bashinBuffer in *. simpl. rewrite ?Hb. simpl. lia. }
  destruct (typed (sh x)) as [|c cs] eqn:Hty; [done|].
  exists 0%nat. do 3 eexists. split; [done|]. split; [simpl; by rewrite Hty|]. simpl.
  rewrite ?Hstd, length_app. unfold bashinBuffer in *. simpl. rewrite ?Hb. simpl. lia.
Qed.
Lemma all_arrive input s0 x : Forall (λ b, b ≠ ctrl_r) input → bashin s0 = [] →
  inv recorder bashPid asks input s0 x →
  ∃ js y, (length js ≤ way x)%nat ∧ steps gstep (Sched <$> js) x = Done y ∧ pty (sh y) = input.
Proof.
  intros Hplain Hs0. remember (way x) as n eqn:Hn. revert x Hn.
  induction (lt_wf n) as [n _ IH]. intros x -> Hx.
  destruct (decide (way x = 0%nat)) as [Hw|Hw].
  - exists [], x. split; [simpl; lia|]. split; [done|].
    destruct Hx as (ps & h1 & h2 & m & [Hgs Hf Hin Ht Hout]). unfold way in Hw. rewrite Hgs in Hw.
    assert (h1 = [] ∧ h2 = [] ∧ concat (typed (sh x)) = [] ∧ stdinBuffer (sh x) = [] ∧ bashinBuffer (sh x) = [])
      as (-> & -> & Hty & Hstd & Hb) by (split_and!; apply length_zero_iff_nil; lia).
    rewrite Hstd, Hty, !app_nil_r in Hin. rewrite <- Hin in Hplain |- *.
    destruct (feed_plain ps s0 Hplain) as (s' & Hf' & Hb'). rewrite Hf in Hf'. injection Hf' as _ <-.
    rewrite app_nil_r in Hout. rewrite Hout, take_ge; [by rewrite Hb', Hs0|].
    unfold bashinBuffer in Hb. apply (f_equal length) in Hb. rewrite length_drop in Hb. simpl in Hb. lia.
  - destruct (closer input s0 x Hplain Hs0 Hx Hw) as (j & g & g' & p & Hj & Hs & Hlt).
    destruct (IH _ Hlt _ eq_refl) as (js & y & Hl & Hy & Hp).
    { by eapply relays_sched. }
    exists (j :: js), y. split; [simpl; lia|]. split; [|done]. simpl. rewrite Hj, Hs. simpl. exact Hy.
Qed.
End plain.
End ShellConcPlain.

(** ** Theorems *)
Module ShellConcTheorems.
#[local] Arguments ShellConc.on_key : simpl never.
Import Shell ShellFacts ShellConc ShellConcFacts ShellConcPlain.
Section theorems.
Context {C W : Type} `{KVCache C} `{Grpc W} `{Terminal W} `{Clock W} `{Rand W} `{Exec W}.
Variable recorder : conn.
Variable bashPid : Z.
Variable asks : nat.
Implicit Types (s : shell C W) (x : pool goroutine (proc C W)).
Lemma scheds_ok js : Forall (event_ok (λ _ : goroutine, False)) (Sched <$> js).
Proof. induction js; by constructor. Qed.



(** The search mode depends on timing.  It reads what follows an escape without
    waiting: when the terminal delivers the three bytes of an arrow key in two reads,
    then either the second is copied in time and the key selects a command, or the
    relay comes first and panics, which ends the shell. *)
Theorem split_arrow_kills bufsize s0 v s1 :
  on_key recorder bashPid asks MKeys (Some ctrl_r) s0 = Done (MSearch v, s1) →
  let typed := start [[ctrl_r; 27; 91]; [65]] s0 in
  steps (gstep recorder bashPid asks bufsize) (Sched <$> [0; 0; 1; 1; 1; 1]%nat) typed = Panic "EOF" ∧
  ∃ x s2, steps (gstep recorder bashPid asks bufsize) (Sched <$> [0; 0; 0; 0; 1; 1; 1; 1]%nat) typed = Done x ∧
    gs x !! 1%nat = Some (GRelay (MSearch (pick (prev_index v)))) ∧
    displaySearchStatus (prev_index v) s1 = Done (pick (prev_index v), s2) ∧ process (sh x) = s2.
Proof.
  intros Hk typed. destruct (display_eq (prev_index v) s1) as (s2 & Hd & _).
  pose proof Hd as He. injection He as <-.
  split; [|do 2 eexists]; unfold typed, start; simpl; rewrite Hk; simpl; [done|].
  by split_and!.
Qed.
End theorems.

(** *** Witnesses: a server that knows one command; bash is in the foreground *)
#[local] Existing Instances ShellTheorems.ex_terminal ShellTheorems.ex_clock ShellTheorems.ex_rand
  ShellTheorems.ex_exec ShellTheorems.ex_grpc.
Import ShellTheorems.
Definition ex_step := gstep (C := mapCache) ex_recorder 4712 1 2.
(** A search for an l runs the command found; a q is typed too. *)
Definition ex_input : list (list Z) := [[18; 108]; [13; 113]].
Definition ex_js : list nat := [0; 0; 1; 1; 0; 1; 0; 1; 2; 2; 1; 2]%nat.
Definition ex_last : pool goroutine (proc mapCache unit) :=
  match steps ex_step (Sched <$> ex_js) (start ex_input ex_shell) with Done x => x | _ => start [] ex_shell end.
Example ex_last_ok : pty (sh ex_last) = bytes_of "ls" ∧ bashin (process (sh ex_last)) = bytes_of "ls -laq".
Proof. vm_compute. done. Qed.
Lemma split_arrow_kills_witness :
  steps ex_step (Sched <$> [0; 0; 1; 1; 1; 1]%nat) (start [[ctrl_r; 27; 91]; [65]] ex_shell) = Panic "EOF".
Proof.
  apply (split_arrow_kills ex_recorder 4712 1 2 ex_shell start_view
    match on_key ex_recorder 4712 1 MKeys (Some ctrl_r) ex_shell with Done (_, s) => s | _ => ex_shell end).
  vm_compute. reflexivity.
Defined.
End ShellConcTheorems.
