(* ===== verification/Start.v ===== *)
(** * server/server.go and the commands: starting the services

    Module [Start] is the [Run] functions: listen, load the certificate, register
    in etcd, serve.  What is registered is what the dash servers add to their
    ring. *)

From S2P Require Import Prelude GoStr Json Crypto Etcd Elect HashRing EventCtl Proto Auth Dash.
#[local] Open Scope Z_scope.

(** The grpc services a process serves. *)
Inductive service := SearchService | ServerController | ProxyController | DashService.
Class Net (W : Type) := {
  listener : Type;
  net_Listen : string → W → result listener * W;
  Addr : listener → string;
  (** [credentials.NewServerTLSFromFile] *)
  LoadTLS : string → string → W → result unit * W;
  (** [s.Serve]: it returns when the listener fails. *)
  Serve : listener → list service → W → result unit * W;
}.

Module Start.
(** cons/cons.go *)
Definition Key : string := "/var/lib/mysh/cert/www.myshell.top.key".
Definition Port : Z := 8080.
Definition EndpointPort : Z := 8083.

Section start.
Context {W : Type} `{EtcdClient W} `{Net W}.
Definition listen (port : string) (w : W) : result listener * W :=
  match net_Listen port w with
  | (Err e, w) => (Err (Errorf ("init network error: " +:+ error_text e)), w)
  | (Ok lis, w) => (Ok lis, w)
  end.
Definition colon (port : Z) : string := GoStr.Sprintf ":%v" [GoStr.Itoa port].
Definition register_and_serve (dir : string) (lis : listener) (ss : list service) (w : W) : result unit * W :=
  match Etcd.Register dir (Addr lis) w with
  | (Err e, w) => (Err e, w)
  | (Ok _, w) => Serve lis ss w
  end.
Definition with_tls (k : W → result unit * W) (w : W) : result unit * W :=
  match LoadTLS Auth.Crt Key w with
  | (Err e, w) => (Err (Errorf ("could not load TLS keys: " +:+ error_text e)), w)
  | (Ok _, w) => k w
  end.

Definition RunSearchService (port : Z) (w : W) : result unit * W :=
  match listen (colon port) w with
  | (Err e, w) => (Err e, w)
  | (Ok lis, w) => register_and_serve ServerRegistryPrefix lis [SearchService; ServerController] w
  end.
(** [SearchServer.Run]: without the controller. *)
Definition SearchServer_Run (port : Z) (w : W) : result unit * W :=
  match listen (colon port) w with
  | (Err e, w) => (Err e, w)
  | (Ok lis, w) => register_and_serve ServerRegistryPrefix lis [SearchService] w
  end.
Definition RunProxyService (port : Z) (w : W) : result unit * W :=
  match listen (colon port) w with
  | (Err e, w) => (Err e, w)
  | (Ok lis, w) =>
    with_tls (register_and_serve ProxyRegistryPrefix lis [ProxyController; SearchService]) w
  end.
Definition ProxyServer_Run (port : Z) (w : W) : result unit * W :=
  match listen (colon port) w with
  | (Err e, w) => (Err e, w)
  | (Ok lis, w) => with_tls (register_and_serve ProxyRegistryPrefix lis [SearchService]) w
  end.
(** [DashServer.Run]: it does not register; the goroutine it starts is
    [Elect.Elect] on [DashLeaderKey] with the address as id and a ttl of 3. *)
Definition dash_ttl : Z := 3.
Definition DashServer_Run (addr : string) (w : W) : result unit * W :=
  match listen addr w with
  | (Err e, w) => (Err e, w)
  | (Ok lis, w) => Serve lis [DashService] w
  end.
End start.

(** [CertServer.ServeHTTP]: the status and the body. *)
Definition ServeHTTP {W} (ReadFile : string → W → result string * W) (w : W) : Z * string * W :=
  match Auth.GetCert ReadFile w with
  | (Ok cert, w) => (200, cert, w)
  | (Err _, w) => (503, "load crt error", w)
  end.

(** The commands: what each main function runs. *)
Definition search_server_port : Z := 8084.
Section mains.
Context {W : Type} `{EtcdClient W} `{Net W}.
Definition main_server : W → result unit * W := RunSearchService search_server_port.
Definition main_proxy : W → result unit * W := RunProxyService Port.
Definition main_dash : W → result unit * W := DashServer_Run DashAddr.
End mains.
End Start.

(** ** Registration *)
Module StartFacts.
Import Start.
Section facts.
Context {W : Type} `{EtcdLaws W} `{Net W}.

Lemma Register_healthy ds addr (w : W) :
  ds ≠ [] → Forall (λ d, GoStr.name_ok d = true) ds → GoStr.name_ok addr = true → healthy w →
  ∃ id w', Etcd.Register (GoStr.absdir ds) addr w = (Ok tt, w') ∧ healthy w' ∧ id ∈ live w' ∧
    kvs w' = <[GoStr.absdir ds +:+ addr := (GoStr.Itoa id, id)]> (kvs w).
Proof.
  intros Hne Hds Ha Hh. unfold Etcd.Register. pose proof (law_Grant Etcd.LeaseTTL w) as L.
  destruct (cli_Grant Etcd.LeaseTTL w) as [[id|e] w1]; destruct L as (Hk1 & Hid & _ & Hok).
  2:{ by destruct (Hok Hh). }
  destruct (Hok Hh) as [Hh1 _]. destruct (Hid id eq_refl) as (_ & _ & Hl1 & _).
  rewrite (GoStr.Join_absdir ds addr) by done.
  pose proof (law_Put (GoStr.absdir ds +:+ addr) (GoStr.Itoa id) id w1) as L.
  destruct (cli_Put _ _ _ w1) as [r2 w2]. destruct L as (Hl2 & He2 & Hok2).
  destruct (Hok2 Hh1) as [Hh2 Hr2]. rewrite Hr2 in He2 by (rewrite Hl1; set_solver). simpl in He2.
  pose proof (law_KeepAlive id w2) as L. destruct (cli_KeepAlive id w2) as [r3 w3].
  destruct L as (Hl3 & Hk3 & Hok3). destruct (Hok3 Hh2) as [Hh3 Hr3].
  assert (id ∈ live w2) as Hin by (rewrite Hl2, Hl1; set_solver).
  rewrite (Hr3 Hin). exists id, w3. split_and!; [done|done|by rewrite Hl3|].
  by rewrite Hk3, He2, Hk1.
Qed.
End facts.
End StartFacts.

Module StartTheorems.
Import Start StartFacts DashController Sucker.
(** A server that starts joins the ring.  When a search service can listen
    and etcd answers, it registers before it serves: the registry gets one key,
    bound to a lease that lives, and the dash servers that see the key add to
    their ring exactly the address the service listens on, and take it out when
    they see the key go. *)
Theorem started_server_joins_the_ring {W} `{EtcdLaws W} `{Net W} port lis (w w1 : W) r :
  net_Listen (colon port) w = (Ok lis, w1) → healthy w1 → GoStr.name_ok (Addr lis) = true →
  RingFacts.ok r → slotNum r = HashRingSlotNum → Addr lis ∉ addedNode r →
  (Z.to_nat (vNodeNum r) ≤ RingFacts.free_count r)%nat →
  ∃ id w2, let key := ServerRegistryPrefix +:+ Addr lis in
    RunSearchService port w = Serve lis [SearchService; ServerController] w2 ∧
    kvs w2 = <[key := (GoStr.Itoa id, id)]> (kvs w1) ∧ id ∈ live w2 ∧
    ∃ r1, addFunc RingProbe.probe_bound (MkObj key (GoStr.Itoa id)) r = Some r1 ∧
      addedNode r1 = {[Addr lis]} ∪ addedNode r ∧
      ∀ v, addedNode (delFunc (MkObj key v) r1) = addedNode r.
Proof.
  intros Hlis Hh Ha Hok Hsl Hnew Hfree.
  assert (Addr lis ≠ "") as Hne by (intros He; by rewrite He in Ha).
  destruct (Register_healthy ["mysh"; "server"] (Addr lis) w1) as (id & w2 & Hreg & _ & Hlive & Hk);
    [done|by repeat constructor|done|done|].
  change (GoStr.absdir ["mysh"; "server"]) with ServerRegistryPrefix in *.
  exists id, w2. split_and!; [|done|done|].
  { unfold RunSearchService, listen, register_and_serve. by rewrite Hlis, Hreg. }
  assert (∀ v, GoStr.Rel ServerRegistryPrefix (Key (MkObj (ServerRegistryPrefix +:+ Addr lis) v)) =
    Ok (Addr lis)) as Hrel by (intros v; by apply RegistryFacts.Rel_server).
  destruct (RingTheorems.AddNode_adds r (Addr lis) Hok Hsl Hne Hnew Hfree)
    as (r1 & Hadd & Hok1 & Had & _).
  exists r1. unfold addFunc, delFunc. rewrite Hrel, Hadd. split_and!; [done|done|].
  intros v. rewrite Hrel.
  destruct (RingTheorems.DelNode_deletes r1 (Addr lis) Hok1 Hne) as (r2 & -> & _ & Hd & _);
    [rewrite Had; set_solver|]. simpl. rewrite Hd, Had. set_solver.
Qed.

(** *** Witness: etcd in memory, a network that listens everywhere *)
Import MemEtcd.
#[local] Instance mem_net : Net mem := {|
  listener := string;
  net_Listen a w := (Ok ("[::]" +:+ a), w);
  Addr l := l;
  LoadTLS _ _ w := (Ok tt, w);
  Serve _ _ w := (Err (Errorf "use of closed network connection"), w);
|}.
Definition ex_w : mem := Mem ∅ ∅ [].
Definition ex_lis : listener (W := mem) := "[::]:8084".
Lemma started_server_joins_the_ring_witness :
  ∃ id w2, let key := ServerRegistryPrefix +:+ "[::]:8084" in
    main_server ex_w = Serve ex_lis [SearchService; ServerController] w2 ∧
    kvs w2 = <[key := (GoStr.Itoa id, id)]> (kvs ex_w) ∧ id ∈ live w2 ∧
    ∃ r1, addFunc RingProbe.probe_bound (MkObj key (GoStr.Itoa id)) RingTheorems.ex_ring = Some r1 ∧
      addedNode r1 = {["[::]:8084"]} ∪ addedNode RingTheorems.ex_ring ∧
      ∀ v, addedNode (delFunc (MkObj key v) r1) = addedNode RingTheorems.ex_ring.
Proof.
  apply (started_server_joins_the_ring search_server_port ex_lis ex_w ex_w RingTheorems.ex_ring);
    [vm_compute; reflexivity|reflexivity|reflexivity|exact RingTheorems.ex_ring_ok|reflexivity| |
     exact RingTheorems.ex_free].
  apply not_elem_of_empty.
Defined.
End StartTheorems.
