(* ===== verification/Cert.v ===== *)
(** * The certificate: cmd/mysh-cert-server, util.PullCert and the start of a shell

    A shell pulls the certificate of the servers each time it starts, over
    https://www.myshell.top/get_cert, and trusts what is then in its file.  Module
    [Cert] is the server's main function; the theorems compose it with
    [Util.PullCert] and with [ShellMain.init]. *)

From Stdlib Require Ascii.
From S2P Require Import Prelude GoStr Proto Auth Start Util ShellMain.
#[local] Open Scope Z_scope.

Module Cert.
Section server.
Context {S : Type} (ReadFile : string → S → result string * S).
(** net/http: the handler of a path, or the page of [http.NotFound]. *)
Definition handler : Type := S → Z * string * S.
Definition NotFound : handler := λ s, (404, "404 page not found" +:+ String (Ascii.ascii_of_nat 10) "", s).
Definition ServeMux (pats : list (string * handler)) (path : string) : handler :=
  match list_find (λ p, p.1 = path) pats with Some (_, (_, h)) => h | None => NotFound end.
(** [main]: what the process answers on the port, and the port. *)
Definition main : string → handler := ServeMux [("/get_cert", Start.ServeHTTP ReadFile)].
Definition addr : string := ":8081".
End server.
End Cert.

(** ** What the client relies on

    [content] is the body of a response, [opened] the file of a handle.  [GET]
    returns a response whatever its status is.  [io.Copy] may stop in the middle. *)
Class DiskLaws (W : Type) `{Os W} `{Grpc W} `{Tty W} := {
  disk : W → gmap string string;
  content : body (W := W) → string;
  opened : file (W := W) → string;
  law_http_Get u w : disk (http_Get u w).2 = disk w;
  law_body_Read b n w : disk (body_Read b n w).2 = disk w;
  law_MkdirAll d w : disk (os_MkdirAll d w).2 = disk w;
  law_CreateFile f w : let '(r, w') := os_CreateFile f w in
    match r with Ok h => opened h = f ∧ disk w' = <[f := ""]> (disk w) | Err _ => disk w' = disk w end;
  law_CopyBody h b w : let '(r, w') := io_CopyBody h b w in
    ∃ part rest, content b = part +:+ rest ∧ (r = Ok tt → rest = "") ∧
      disk w' = <[opened h := default "" (disk w !! opened h) +:+ part]> (disk w);
  law_LoadClientTLS f w : disk (LoadClientTLS f w).2 = disk w;
  law_DialTLS a w : disk (DialTLS a w).2 = disk w;
}.

Module CertFacts.
(** The body of the answer at the path the client asks for. *)
Lemma main_serves {S} (ReadFile : string → S → result string * S) srv :
  (Cert.main ReadFile "/get_cert" srv).1.2 =
    match (ReadFile Auth.Crt srv).1 with Ok cert => cert | Err _ => "load crt error" end.
Proof.
  unfold Cert.main, Cert.ServeMux. simpl. unfold Start.ServeHTTP, Auth.GetCert.
  by destruct (ReadFile _ _) as [[?|?] ?].
Qed.

Section facts.
Context {W : Type} `{DiskLaws W}.

(** What [PullCert] does to the files. *)
Lemma PullCert_disk crt w r w' : Util.PullCert crt w = (r, w') →
  (∀ f, f ≠ crt → disk w' !! f = disk w !! f) ∧
  match r with
  | Ok _ => ∃ resp, (http_Get ("https://" +:+ Util.Domain +:+ ":443/get_cert") w).1 = Ok resp ∧
      disk w' !! crt = Some (content resp)
  | Err _ => disk w' !! crt = disk w !! crt ∨
      ∃ resp part rest, (http_Get ("https://" +:+ Util.Domain +:+ ":443/get_cert") w).1 = Ok resp ∧
        content resp = part +:+ rest ∧ disk w' !! crt = Some part
  end.
Proof.
  unfold Util.PullCert. pose proof (law_http_Get ("https://" +:+ Util.Domain +:+ ":443/get_cert") w) as Hg.
  destruct (http_Get _ w) as [[resp|e] w1]; simpl in Hg; [|intros [= <- <-]; rewrite Hg; auto].
  pose proof (law_body_Read resp 0 w1) as Hr.
  destruct (body_Read _ _ w1) as [[?|e] w2]; simpl in Hr; [|intros [= <- <-]; rewrite Hr, Hg; auto].
  pose proof (law_MkdirAll (GoStr.Dir crt) w2) as Hm.
  destruct (os_MkdirAll _ w2) as [[?|e] w3]; simpl in Hm; [|intros [= <- <-]; rewrite Hm, Hr, Hg; auto].
  pose proof (law_CreateFile crt w3) as Hc.
  destruct (os_CreateFile crt w3) as [[h|e] w4]; [|intros [= <- <-]; rewrite Hc, Hm, Hr, Hg; auto].
  destruct Hc as [Ho Hc]. intros Hcopy. pose proof (law_CopyBody h resp w4) as L. rewrite Hcopy in L.
  destruct L as (part & rest & Hp & Hok & Hd). rewrite Ho, Hc, lookup_insert_eq, insert_insert_eq in Hd.
  simpl in Hd. rewrite Hd, Hm, Hr, Hg. split; [intros f Hf; by rewrite lookup_insert_ne|].
  rewrite lookup_insert_eq. destruct r as [[]|e]; [|right; by exists resp, part, rest].
  exists resp. split; [done|]. by rewrite Hp, (Hok eq_refl), GoStr.sapp_nil_r.
Qed.
End facts.
End CertFacts.

(** ** Theorems *)
Module CertTheorems.
Import CertFacts.
Section theorems.
Context {W S : Type} `{DiskLaws W} (ReadFile : string → S → result string * S).
(** The state of the server. *)
Variable srv : W → S.
(** What answers https://www.myshell.top passes /get_cert to the server's port. *)
Hypothesis front : ∀ w resp, (http_Get ("https://" +:+ Util.Domain +:+ ":443/get_cert") w).1 = Ok resp →
  content resp = (Cert.main ReadFile "/get_cert" (srv w)).1.2.
(** A certificate is needed to dial. *)
Variable is_pem : string → bool.
Hypothesis pem : ∀ f w u, (LoadClientTLS f w).1 = Ok u → ∃ s, disk w !! f = Some s ∧ is_pem s = true.

(** C34. The certificate a shell pulls is the one the servers read: when [PullCert]
    returns nil the user's file holds exactly the file [cons.Crt] of the server.
    Its status is not looked at: when the server cannot read the file, [PullCert]
    returns nil all the same, and the certificate the user had is replaced by the
    text of the error.  Otherwise the file is as it was, or a part of the answer.  No other file
    changes. *)
Theorem pulled_certificate crt w r w' :
  Util.PullCert crt w = (r, w') →
  let page := (Cert.main ReadFile "/get_cert" (srv w)).1.2 in
  page = match (ReadFile Auth.Crt (srv w)).1 with Ok cert => cert | Err _ => "load crt error" end ∧
  (∀ f, f ≠ crt → disk w' !! f = disk w !! f) ∧
  (r = Ok tt → disk w' !! crt = Some page) ∧
  (r ≠ Ok tt → disk w' !! crt = disk w !! crt ∨
    ∃ part rest, page = part +:+ rest ∧ disk w' !! crt = Some part).
Proof.
  intros [Hf Hr]%PullCert_disk page. split; [apply main_serves|]. split; [done|].
  destruct r as [[]|e]; split; try done.
  - intros _. destruct Hr as (resp & Hg & ->). by rewrite (front _ _ Hg).
  - intros _. destruct Hr as [?|(resp & part & rest & Hg & Hp & ->)]; [by left|right].
    exists part, rest. split; [|done]. by rewrite <- Hp, (front _ _ Hg).
Qed.

(** A shell starts with the certificate the servers have now, or not at all.
    When its initialisation succeeds, the server could read its certificate when it
    was asked, in [w1], and the user's file holds exactly that one, whatever was there
    before; the shell has no other way to start, so without an answer of the
    certificate server, and while the server cannot read its file, no shell starts. *)
Theorem shell_starts_with_served_certificate w c w' :
  is_pem "load crt error" = false → ShellMain.init w = inl (Ok c, w') →
  ∃ home cert w1, (user_Current w).1 = Ok home ∧ (ReadFile Auth.Crt (srv w1)).1 = Ok cert ∧
    is_pem cert = true ∧ disk w' !! ShellMain.UserCrt home = Some cert.
Proof.
  intros Hbad. unfold ShellMain.init.
  destruct (user_Current w) as [[home|?] w0]; [|done].
  destruct (os_MkdirAll _ w0) as [[?|?] w1]; [|done].
  destruct (os_OpenAppend _ w1) as [[?|?] w2]; [|done].
  destruct (Util.PullCert _ w2) as [[[]|?] w3] eqn:Hpull; [|done].
  apply PullCert_disk in Hpull as (_ & resp & Hg & Hd). rewrite (front _ _ Hg) in Hd.
  pose proof (pem (ShellMain.UserCrt home) w3) as Hp.
  pose proof (law_LoadClientTLS (ShellMain.UserCrt home) w3) as Hl.
  destruct (LoadClientTLS _ w3) as [[u|?] w4]; [|done]. simpl in Hp, Hl.
  destruct (Hp u eq_refl) as (cert & Hc & Hpem). rewrite Hd in Hc. injection Hc as <-.
  pose proof (law_DialTLS (Util.Domain +:+ ":" +:+ GoStr.Itoa ShellMain.Port) w4) as Hdial.
  destruct (DialTLS _ w4) as [[?|?] w5]; [|done]. intros [= -> <-]. simpl in Hdial.
  rewrite main_serves in Hd, Hpem. destruct (ReadFile Auth.Crt (srv w2)).1 as [cert|e] eqn:Hr; [|congruence].
  exists home, cert, w2. split; [done|]. split; [done|]. split; [done|]. by rewrite Hdial, Hl, Hd.
Qed.
End theorems.

(** *** Witnesses: the user's files in memory; the certificate was renewed, or the
    server lost it *)
Record client := Client { ex_disk : gmap string string; ex_crt : result string }.
Definition ex_ReadFile (_ : string) (crt : result string) : result string * result string := (crt, crt).
Definition on_disk (f : gmap string string → gmap string string) (w : client) : client :=
  Client (f (ex_disk w)) (ex_crt w).
#[local] Instance ex_os : Os client := {|
  file := string;
  body := string;
  os_IsDir f w := (match ex_disk w !! f with Some _ => Ok false | None => Err (Errorf "not found") end, w);
  os_MkdirAll _ w := (Ok tt, w);
  os_OpenAppend f w := (Ok f, w);
  os_CreateFile f w := (Ok f, on_disk (insert f "") w);
  WriteString f data w := (Ok tt, on_disk (λ d, <[f := default "" (d !! f) +:+ data]> d) w);
  net_DialClose _ w := (Err (Errorf "connection refused"), w);
  http_Get _ w := (Ok (Cert.main ex_ReadFile "/get_cert" (ex_crt w)).1.2, w);
  body_Read _ _ w := (Ok tt, w);
  io_CopyBody f b w := (Ok tt, on_disk (λ d, <[f := default "" (d !! f) +:+ b]> d) w);
|}.
Definition ex_pem (s : string) : bool := GoStr.HasPrefix s "-----BEGIN".
#[local] Instance ex_tty : Tty client := {|
  user_Current w := (Ok "/home/u", w);
  os_Getpid _ := 4711;
  os_Setenv _ _ w := w;
  os_Environ _ := ∅;
  os_Remove _ w := (Ok tt, w);
  os_RemoveAll _ w := (Ok tt, w);
  net_ListenUnix _ w := (Ok tt, w);
  http_PostUnix _ _ w := (Ok tt, w);
  LoadClientTLS f w :=
    (if ex_pem (default "" (ex_disk w !! f)) then Ok tt else Err (Errorf "failed to append certificates"), w);
  pty_Start _ _ w := (Ok 4712, w);
  pty_Close w := w;
  MakeRaw w := (Ok tt, w);
  Restore w := w;
|}.
#[local] Instance ex_grpc : Grpc client := {|
  conn := unit;
  DialInsecure _ w := (Ok tt, w);
  DialTLS _ w := (Ok tt, w);
  rpc_Search _ _ w := (Err (Errorf "unavailable"), w);
  rpc_Upload _ _ w := (Err (Errorf "unavailable"), w);
  rpc_Login _ _ w := (Err (Errorf "unavailable"), w);
  rpc_Logout _ _ w := (Err (Errorf "unavailable"), w);
  rpc_CleanUidCache _ _ w := (Err (Errorf "unavailable"), w);
  rpc_UidLogout _ _ w := (Err (Errorf "unavailable"), w);
  rpc_Check _ _ w := (Err (Errorf "unavailable"), w);
  rpc_UidEndpoint _ _ w := (Err (Errorf "unavailable"), w);
|}.
#[local] Program Instance ex_laws : DiskLaws client := {|
  disk := ex_disk; content b := b; opened f := f |}.
Solve All Obligations with first [done|intros h b w; simpl; exists b, ""; by rewrite GoStr.sapp_nil_r].
Lemma ex_pem_needed f (w : client) u : (LoadClientTLS f w).1 = Ok u →
  ∃ s, disk w !! f = Some s ∧ ex_pem s = true.
Proof.
  simpl. destruct (ex_disk w !! f) as [s|]; [|done]. simpl.
  destruct (ex_pem s) eqn:Hs; [|done]. by exists s.
Qed.

Lemma ex_front u (w : client) resp :
  (http_Get u w).1 = Ok resp → content resp = (Cert.main ex_ReadFile "/get_cert" (ex_crt w)).1.2.
Proof. by intros [= <-]. Qed.

Definition ex_file : string := "/home/u/mysh/cert/www.myshell.top.crt".
(** The server has lost its file, the user has the certificate. *)
Definition ex_lost : client := Client {[ex_file := "-----BEGIN old"]} (Err (Errorf "no such file")).
(** The server has a new one. *)
Definition ex_renewed : client := Client {[ex_file := "-----BEGIN old"]} (Ok "-----BEGIN new").
Lemma pulled_certificate_witness :
  let '(r, w') := Util.PullCert ex_file ex_lost in
  r = Ok tt ∧ disk w' !! ex_file = Some "load crt error".
Proof.
  destruct (Util.PullCert ex_file ex_lost) as [r w'] eqn:Hp.
  assert (r = Ok tt) as -> by (revert Hp; vm_compute; congruence). split; [done|].
  destruct (pulled_certificate ex_ReadFile ex_crt (ex_front _) ex_file ex_lost (Ok tt) w' Hp) as (Hpage & _ & Hd & _).
  rewrite Hpage in Hd. by apply Hd.
Defined.
Lemma shell_starts_with_served_certificate_witness : ∃ c w',
  ShellMain.init ex_renewed = inl (Ok c, w') ∧
  ∃ home cert w1, (user_Current ex_renewed).1 = Ok home ∧ (ex_ReadFile Auth.Crt (ex_crt w1)).1 = Ok cert ∧
    ex_pem cert = true ∧ disk w' !! ShellMain.UserCrt home = Some cert.
Proof.
  do 2 eexists. split; [vm_compute; reflexivity|].
  eapply (shell_starts_with_served_certificate ex_ReadFile ex_crt (ex_front _) ex_pem
    ex_pem_needed ex_renewed); [done|vm_compute; reflexivity].
Defined.
End CertTheorems.
