(* ===== verification/Cluster.v ===== *)
(** * The search servers of a deployment

    This file composes the components: module [Cluster] is several search server
    processes (Server.v over RecorderMgr.v) that share one etcd and one user
    table, reachable through the grpc clients of Caches.v, with the dash server
    of Dash.v in front of them.  [cok] is the invariant of the deployment: the
    recorder of a user runs at most on the server the map of the dash names, and
    etcd holds the histories of all users whose recorder runs nowhere. *)

From S2P Require Import Prelude GoList GoStr Json Etcd Lru Recorder RecorderMgr HashRing.
From S2P Require Import Auth Proto Caches Server Dash.
Import RMgrSpec ServerSpec.

(** ** State

    What a server process does not share, and the whole. *)
Record node (W : Type) := Node {
  n_cache : Auth.cache;
  n_rm : manager;
  n_heap : gmap nat (precorder W);
  n_next : nat;
}.
Arguments Node {W} _ _ _ _.
Arguments n_cache {W} _.
Arguments n_rm {W} _.
Arguments n_heap {W} _.
Arguments n_next {W} _.
Record cluster (W T : Type) := MkCluster { nodes : gmap string (node W); etcd : W; users : T }.
Arguments MkCluster {W T} _ _ _.
Arguments nodes {W T} _.
Arguments etcd {W T} _.
Arguments users {W T} _.

Module Cluster.
Section cluster.
Context {W T : Type} `{EtcdClient W}.
Variable getter : string → T → result (string * string) * T.
Implicit Types (c : cluster W T) (n : node W).

Definition set_etcd c (w : W) : cluster W T := MkCluster (nodes c) w (users c).
(** The calls of etcd. *)
Definition lift_etcd {A} (f : W → A * W) c : A * cluster W T :=
  ((f (etcd c)).1, set_etcd c (f (etcd c)).2).
#[export] Instance cluster_client : EtcdClient (cluster W T) := {|
  cli_Put k v l := lift_etcd (cli_Put k v l);
  cli_Get k := lift_etcd (cli_Get k);
  cli_GetPrefix p := lift_etcd (cli_GetPrefix p);
  cli_DeletePrefix p := lift_etcd (cli_DeletePrefix p);
  cli_Txn cond ops := lift_etcd (cli_Txn cond ops);
  cli_Grant ttl := lift_etcd (cli_Grant ttl);
  cli_Revoke id := lift_etcd (cli_Revoke id);
  cli_KeepAlive id := lift_etcd (cli_KeepAlive id);
  cli_Sleep c := set_etcd c (cli_Sleep (etcd c));
|}.

(** A call of a handler of the server at [addr]; [None]: no server answers. *)
Definition state_of n c : sstate (rmgr_state (W := W)) T :=
  SS (n_cache n) (n_rm n, RS (n_heap n) (n_next n) (etcd c)) (users c).
Definition put_node (addr : string) (s : sstate (rmgr_state (W := W)) T) c : cluster W T :=
  let rs := (recorders s).2 in
  MkCluster (<[addr := Node (loginCache s) (recorders s).1 (heap rs) (Recorder.next rs)]> (nodes c))
    (world rs) (table s).
Definition on_node {R} (addr : string) (f : io (sstate (rmgr_state (W := W)) T) R) c
    : option (R * cluster W T) :=
  match nodes c !! addr with
  | None => None
  | Some n =>
    match f (state_of n c) with
    | Done (r, s) => Some (r, put_node addr s c)
    | _ => None
    end
  end.

(** What the client of a grpc call gets for what the handler returned. *)
Definition client_sees {R} (r : reply R) : result R :=
  match r with
  | (_, Some e) => Err (Errorf ("rpc error: code = Unknown desc = " +:+ error_text e))
  | (Some a, None) => Ok a
  | (None, None) => Err (Errorf "rpc error: code = Internal desc = grpc: error while marshaling: proto: Marshal called with nil")
  end.
Definition rpc_to {R} (addr : string) (f : io (sstate (rmgr_state (W := W)) T) (reply R)) c
    : result R * cluster W T :=
  match on_node addr f c with
  | Some (r, c) => (client_sees r, c)
  | None => (Err (Errorf "rpc error: code = Unavailable desc = all SubConns are in TransientFailure, latest connection error"), c)
  end.
(** The connections are the addresses; the other services are not here. *)
Definition elsewhere {R} (c : cluster W T) : result R * cluster W T :=
  (Err (Errorf "rpc error: code = Unimplemented"), c).
#[export] Instance cluster_grpc : Grpc (cluster W T) := {|
  conn := string;
  DialInsecure a c := (Ok a, c);
  DialTLS a c := (Ok a, c);
  rpc_Search a q := rpc_to a (Server.Search q);
  rpc_Upload a q := rpc_to a (Server.Upload q);
  rpc_Login a q := rpc_to a (Server.Login (Some getter) q);
  rpc_Logout a q := rpc_to a (Server.Logout q);
  rpc_CleanUidCache _ _ := elsewhere;
  rpc_UidLogout a q := rpc_to a (Server.UidLogout q);
  rpc_Check a q := rpc_to a Server.Check;
  rpc_UidEndpoint _ _ := elsewhere;
|}.

(** A server process that starts: [init] makes its recorder manager. *)
Definition start (addr : string) c : outcome (cluster W T) :=
  run rm <- RMgr.defaultRecorderManager ;;
  Done (MkCluster (<[addr := Node ∅ rm ∅ 0]> (nodes c)) (etcd c) (users c)).
(** The goroutine of a recorder: a tick, or the end. *)
Definition background (addr : string) (o : RMgr.mop) c : option (cluster W T) :=
  match nodes c !! addr with
  | None => None
  | Some n =>
    match RMgr.exec (n_rm n) o (RS (n_heap n) (n_next n) (etcd c)) with
    | Done ((_, rm), s) =>
      Some (MkCluster (<[addr := Node (n_cache n) rm (heap s) (Recorder.next s)]> (nodes c)) (world s) (users c))
    | _ => None
    end
  end.
End cluster.
End Cluster.

(** ** The invariant *)
Module ClusterFacts.
Import Cluster RMgr RMgrRefine LruRefine PRecFacts.

(** What the deployment promises: the sessions of each server, a history per
    user wherever the user is served, the user table. *)
Record cspec (T : Type) := CSpec { c_sess : string → sessions; c_hist : hists; c_users : T }.
Arguments CSpec {T} _ _ _.
Arguments c_sess {T} _.
Arguments c_hist {T} _.
Arguments c_users {T} _.

Lemma path_not_dash id : GoStr.name_ok id = true → ¬ DashFacts.dash_key (path id).
Proof. intros Hid. by rewrite path_eq. Qed.

Section facts.
Context {W T : Type} `{EtcdLaws W}.
Variable getter : string → T → result (string * string) * T.
Hypothesis salted : ∀ uid t salt p t', getter uid t = (Ok (salt, p), t') → salt ≠ "".
Implicit Types (c : cluster W T) (n : node W) (x : cspec T) (w : W).

(** The users whom the dash's map sends to [addr]. *)
Definition home (w : W) (uid : string) : option string := DashFacts.endpoint_of (kvs w) uid.
Definition mine (w : W) (addr uid : string) : Prop := home w uid = Some addr.

(** The recorders of a node represent the histories of its users. *)
Definition node_ok (w : W) (addr : string) (h : hists) n : Prop :=
  msim ∅ (mine w addr) (kvs w) (n_rm n) (RS (n_heap n) (n_next n) w) h.
Definition runs n (uid : string) : Prop := uid ∈ (abs (recorderSet (n_rm n))).*1.
Record cok c x : Prop := {
  cok_healthy : healthy (etcd c);
  cok_nodes addr n : nodes c !! addr = Some n → node_ok (etcd c) addr (c_hist x) n;
  cok_sess addr n uid a : nodes c !! addr = Some n → AuthFacts.token_of (n_cache n) uid a = c_sess x addr uid a;
  cok_stored id : GoStr.name_ok id = true →
    (∀ addr n, home (etcd c) id = Some addr → nodes c !! addr = Some n → ¬ runs n id) →
    data_of (c_hist x id) (etcd_stored (etcd c) (path id));
  cok_good id : History.good size (c_hist x id);
  cok_valid id : Forall (λ s : string, Json.ValidString s = true) (c_hist x id);
  cok_users : users c = c_users x;
}.

(** The same recorders over another state of etcd, for other users. *)
Lemma node_rebase w w' addr h h' n :
  node_ok w addr h n → healthy w' →
  (∀ id, runs n id → home w' id = Some addr ∧ h' id = h id) →
  (∀ id, GoStr.name_ok id = true → home w' id = Some addr → ¬ runs n id →
     data_of (h' id) (etcd_stored w' (path id))) →
  (∀ id, History.good size (h' id)) →
  (∀ id, Forall (λ s : string, Json.ValidString s = true) (h' id)) →
  node_ok w' addr h' n.
Proof.
  intros [Hwf Hs] Hw Hruns Hst Hg Hv. split; [done|]. destruct Hs as [Hnd Hlive Hmine _ _ _ _ _ Hheap Hstale].
  split; simpl; try done.
  - intros id p Hp. destruct (Hlive id p Hp) as (Hid & o & Ho & Hr). split; [done|]. exists o.
    destruct (Hruns id) as [_ ->]; [|done]. by apply (list_elem_of_fmap_2 fst _ (id, p)).
  - intros id p Hp. destruct (Hruns id) as [? _]; [|done]. by apply (list_elem_of_fmap_2 fst _ (id, p)).
Qed.

(** Two histories of the users of other servers do not meet. *)
Lemma runs_home w addr h n id : node_ok w addr h n → runs n id → home w id = Some addr ∧ GoStr.name_ok id = true.
Proof.
  intros [_ Hs] ([i p] & -> & Hp)%list_elem_of_fmap. split; [by apply (sim_mine _ _ _ _ _ _ Hs i p)|].
  by destruct (sim_live _ _ _ _ _ _ Hs i p Hp).
Qed.
Lemma runs_once c x id : cok c x → GoStr.name_ok id = true →
  (∀ addr n, home (etcd c) id = Some addr → nodes c !! addr = Some n → ¬ runs n id) ↔
  (∀ addr n, nodes c !! addr = Some n → ¬ runs n id).
Proof.
  intros Hc Hid. split; intros Hno addr n.
  - intros Hn Hr. destruct (runs_home _ _ _ _ _ (cok_nodes _ _ Hc addr n Hn) Hr) as [Hh _].
    by apply (Hno addr n).
  - intros _. apply Hno.
Qed.

(** Keys that no recorder of the node writes. *)
Lemma foreign_dash w addr k : DashFacts.dash_key k → foreign (mine w addr) k.
Proof. intros Hk id Hid _ ->. by apply (path_not_dash id). Qed.
Lemma foreign_path w addr id : GoStr.name_ok id = true → home w id ≠ Some addr → foreign (mine w addr) (path id).
Proof. intros Hid Hne id' Hid' Hm Heq. apply path_inj in Heq; [|done..]. by subst. Qed.
Lemma home_same w w' : (∀ k, DashFacts.dash_key k → kvs w' !! k = kvs w !! k) → ∀ id, home w' id = home w id.
Proof. intros Hs id. by apply DashFacts.endpoint_of_same. Qed.

(** A server did something about its users. *)
Lemma cok_step c x addr n n' w' h' sess' t' :
  cok c x → nodes c !! addr = Some n →
  msim ∅ (mine (etcd c) addr) (kvs (etcd c)) (n_rm n') (RS (n_heap n') (n_next n') w') h' →
  (∀ id, home (etcd c) id ≠ Some addr → h' id = c_hist x id) →
  (∀ uid a, AuthFacts.token_of (n_cache n') uid a = sess' uid a) →
  DashFacts.same (etcd c) w' ∧
  cok (MkCluster (<[addr := n']> (nodes c)) w' t')
      (CSpec (λ b, if decide (b = addr) then sess' else c_sess x b) h' t').
Proof.
  intros Hc Hn Hs Hh Hse. destruct Hs as [Hwf Hs]. pose proof (sim_healthy _ _ _ _ _ _ Hs) as Hw. simpl in Hw.
  assert (Hfr : ∀ k, foreign (mine (etcd c) addr) k → kvs w' !! k = kvs (etcd c) !! k)
    by (intros k; apply (sim_frame _ _ _ _ _ _ Hs)).
  assert (Hsame : ∀ k, DashFacts.dash_key k → kvs w' !! k = kvs (etcd c) !! k)
    by (intros k Hk; apply Hfr; by apply foreign_dash).
  pose proof (home_same _ _ Hsame) as Hhome. split; [done|].
  assert (Hst : ∀ id, GoStr.name_ok id = true → home (etcd c) id ≠ Some addr →
    data_of (c_hist x id) (etcd_stored (etcd c) (path id)) → data_of (h' id) (etcd_stored w' (path id))).
  { intros id Hid Hne Hd. rewrite (Hh id Hne), (etcd_stored_ext (etcd c)); [done|].
    by apply Hfr, foreign_path. }
  split; simpl.
  - done.
  - intros b m [[<- <-]|[Hne Hm]]%lookup_insert_Some.
    + apply (node_rebase w' _ _ h'); [|done|..| |apply Hs|apply Hs].
      * split; [done|]. destruct Hs. split; simpl in *; try done.
        -- intros id p Hp. unfold mine. rewrite Hhome. by eapply sim_mine0.
        -- intros id Hid Hm. apply sim_stored0; [done|]. unfold mine. by rewrite <- Hhome.
      * intros id ([i p] & -> & Hp)%list_elem_of_fmap. split; [|done]. rewrite Hhome.
        by apply (sim_mine _ _ _ _ _ _ Hs i p).
      * intros id Hid Hm Hnr. apply (sim_stored _ _ _ _ _ _ Hs); [done| |done].
        unfold mine. by rewrite <- Hhome.
    + pose proof (cok_nodes _ _ Hc b m Hm) as Hb.
      apply (node_rebase (etcd c) _ _ (c_hist x)); [done|done|..| |apply Hs|apply Hs].
      * intros id Hr. rewrite Hhome. destruct (runs_home _ _ _ _ _ Hb Hr) as [Hhb _]. split; [done|].
        apply Hh. congruence.
      * intros id Hid Hhb Hnr. rewrite Hhome in Hhb. apply Hst; [done|congruence|].
        destruct Hb as [_ Hb]. by apply (sim_stored _ _ _ _ _ _ Hb).
  - intros b m uid a [[<- <-]|[Hne Hm]]%lookup_insert_Some; [by rewrite decide_True|].
    rewrite decide_False by done. by apply (cok_sess _ _ Hc).
  - intros id Hid Hno. destruct (decide (home (etcd c) id = Some addr)) as [He|Hne].
    + apply (sim_stored _ _ _ _ _ _ Hs); [done|done|].
      apply (Hno addr n'); [by rewrite Hhome|by apply lookup_insert_eq].
    + apply Hst; [done|done|]. apply (cok_stored _ _ Hc); [done|]. intros b m Hb Hm.
      apply (Hno b m); [by rewrite Hhome|]. rewrite lookup_insert_ne; [done|congruence].
  - apply Hs.
  - apply Hs.
  - done.
Qed.

(** *** Requests *)
Definition spec_at (addr : string) (q : Server.request) x : Server.response * cspec T :=
  let '(a, sp) := spec_handle getter (Spec (c_sess x addr) (c_hist x) (c_users x)) q in
  (a, CSpec (λ b, if decide (b = addr) then sess sp else c_sess x b) (hist_of sp) (ServerSpec.users sp)).
Definition about (q : Server.request) (P : string → Prop) : Prop :=
  match q with Server.QSearch r => P (se_Uid r) | Server.QUpload r => P (up_Uid r) | _ => True end.
Lemma spec_others (sp : spec T) q P id : about q P → ¬ P id →
  hist_of (spec_handle getter sp q).2 id = hist_of sp id.
Proof.
  intros Hq Hid. destruct q as [r|r|r|r| |r]; simpl in *; try first [done|by case_decide].
  - case_decide; [|done]. case_decide; [done|]. simpl. unfold upd. rewrite decide_False; [done|].
    by intros ->.
  - by destruct (accepts getter _ _ _) as [[] ?].
Qed.

(** The server at [addr] as a process with a recorder manager. *)
Abbreviation laws_at c addr := (RMgr_laws_for (mine (etcd c) addr) (λ b, b = kvs (etcd c))).
Lemma state_sim c x addr n : cok c x → nodes c !! addr = Some n →
  ServerRefine.sim (H0 := laws_at c addr) (state_of n c) (Spec (c_sess x addr) (c_hist x) (c_users x)).
Proof.
  intros Hc Hn. split; simpl; [intros uid a; by apply (cok_sess _ _ Hc)| |apply Hc].
  exists (kvs (etcd c)). split; [done|]. by apply (cok_nodes _ _ Hc).
Qed.
Lemma put_sim c x addr n s sp : cok c x → nodes c !! addr = Some n →
  ServerRefine.sim (H0 := laws_at c addr) s sp →
  (∀ id, home (etcd c) id ≠ Some addr → hist_of sp id = c_hist x id) →
  DashFacts.same (etcd c) (etcd (put_node addr s c)) ∧
  cok (put_node addr s c)
    (CSpec (λ b, if decide (b = addr) then sess sp else c_sess x b) (hist_of sp) (ServerSpec.users sp)).
Proof.
  intros Hc Hn [Hse (b & -> & Hm) Hu] Hh. unfold put_node. rewrite Hu.
  apply (cok_step c x addr n); [done|done| |done|done]. simpl. by destruct s as [ca [rm []] t].
Qed.

Lemma request_ok c x addr n q : cok c x → nodes c !! addr = Some n → req_ok q →
  about q (λ id, home (etcd c) id = Some addr) →
  ∃ c', on_node addr (Server.handle (Some getter) q) c = Some ((spec_at addr q x).1, c') ∧
    cok c' (spec_at addr q x).2 ∧ DashFacts.same (etcd c) (etcd c') ∧
    dom (nodes c') = dom (nodes c).
Proof.
  intros Hc Hn Hq Ha. pose proof (state_sim c x addr n Hc Hn) as Hs.
  destruct (ServerRefine.handle_sim (H0 := laws_at c addr) getter salted _ _ q Hs Hq) as (s' & He & Hs').
  { by destruct q. }
  exists (put_node addr s' c). unfold on_node, spec_at. rewrite Hn, He.
  pose proof (spec_others (Spec (c_sess x addr) (c_hist x) (c_users x)) q (λ id, home (etcd c) id = Some addr))
    as Hoth.
  destruct (spec_handle getter _ q) as [a sp]. simpl in *.
  destruct (put_sim c x addr n s' sp Hc Hn Hs') as [Hsame Hc']; [auto|].
  split_and!; [done|done|done|]. apply dom_insert_lookup_L. by eexists.
Qed.

(** [UidLogout] of any user, on any server. *)
Definition drop_at (addr uid : string) x : cspec T :=
  CSpec (λ b, if decide (b = addr) then drop_all (c_sess x b) uid else c_sess x b) (c_hist x) (c_users x).
Definition released (addr uid : string) c : Prop := ∀ n, nodes c !! addr = Some n → ¬ runs n uid.
Lemma cok_ext c x x' : cok c x → (∀ b u a, c_sess x' b u a = c_sess x b u a) →
  c_hist x' = c_hist x → c_users x' = c_users x → cok c x'.
Proof.
  intros [Hw Hnodes Hse ????] Hs Hh Hu. split; rewrite ?Hh, ?Hu; try done.
  intros b n uid a Hn. rewrite Hs. by apply Hse.
Qed.
Lemma UidLogout_at c x addr n uid : cok c x → nodes c !! addr = Some n →
  ∃ c', on_node addr (Server.UidLogout (MkUidLogoutRequest uid)) c =
      Some ((Some (MkUidLogoutResponse 200), None), c') ∧
    cok c' (drop_at addr uid x) ∧ DashFacts.same (etcd c) (etcd c') ∧ released addr uid c' ∧
    dom (nodes c') = dom (nodes c).
Proof.
  intros Hc Hn. pose proof (state_sim c x addr n Hc Hn) as Hs.
  destruct (ServerRefine.UidLogout_gone (H0 := laws_at c addr) getter _ _ uid Hs) as (s' & He & Hs' & Hg).
  exists (put_node addr s' c). unfold on_node. rewrite Hn, He.
  destruct (put_sim c x addr n s' _ Hc Hn Hs') as [Hsame Hc']; [done|].
  split_and!; [done| |done| |].
  - eapply cok_ext; [exact Hc'|..]; [|done|done]. intros b u a. simpl. case_decide; [by subst|done].
  - intros m Hm. simpl in Hm. rewrite lookup_insert_eq in Hm. injection Hm as <-. exact Hg.
  - apply dom_insert_lookup_L. by eexists.
Qed.

(** The goroutines of the recorders: ticks, and ends after a stop. *)
Lemma background_ok c x addr n o : cok c x → nodes c !! addr = Some n →
  match o with MTick _ | MRecv _ => True | _ => False end →
  ∃ c', background addr o c = Some c' ∧ cok c' x ∧ DashFacts.same (etcd c) (etcd c') ∧
    dom (nodes c') = dom (nodes c).
Proof.
  intros Hc Hn Ho. unfold background. rewrite Hn.
  destruct (exec_sim ∅ (mine (etcd c) addr) (kvs (etcd c)) (n_rm n) _ (c_hist x) o
    (cok_nodes _ _ Hc addr n Hn)) as (rm & s' & He & Hs'); [destruct o; done..|].
  rewrite He. eexists. split; [done|].
  assert (msim ∅ (mine (etcd c) addr) (kvs (etcd c)) rm s' (c_hist x)) as Hs by (by destruct o).
  destruct (cok_step c x addr n (Node (n_cache n) rm (heap s') (Recorder.next s')) (world s') (c_hist x)
    (c_sess x addr) (users c)) as [Hsame Hc']; [done|done|by destruct s'|done|..].
  { intros uid a. exact (cok_sess _ _ Hc addr n uid a Hn). }
  split_and!; [|done|apply dom_insert_lookup_L; by eexists].
  eapply cok_ext; [exact Hc'|..]; [|done|symmetry; apply Hc].
  intros b u a. simpl. case_decide; [by subst|done].
Qed.

(** A server that starts at an address where none runs. *)
Lemma start_ok c x addr : cok c x → nodes c !! addr = None →
  ∃ c', start addr c = Done c' ∧ etcd c' = etcd c ∧ dom (nodes c') = {[addr]} ∪ dom (nodes c) ∧
    cok c' (CSpec (λ b, if decide (b = addr) then (λ _ _, None) else c_sess x b) (c_hist x) (c_users x)).
Proof.
  intros Hc Hn. unfold start, defaultRecorderManager, Lru.NewLRU. simpl.
  eexists. split; [done|]. split; [done|]. split; [apply dom_insert_L|].
  split; simpl; try apply Hc.
  - intros b m [[<- <-]|[Hne Hm]]%lookup_insert_Some; [|exact (cok_nodes _ _ Hc b m Hm)].
    split; simpl; [by apply wf_new|]. split; simpl; try done; try apply Hc.
    + by apply NoDup_nil_2.
    + by intros id p ?%not_elem_of_nil.
    + by intros id p ?%not_elem_of_nil.
    + intros id Hid Hm _. apply (cok_stored _ _ Hc); [done|]. intros b n Hb Hbn.
      unfold mine in Hm. congruence.
    + intros p [o Ho]. by rewrite lookup_empty in Ho.
  - intros b m uid a [[<- <-]|[Hne Hm]]%lookup_insert_Some.
    + rewrite decide_True by done. unfold AuthFacts.token_of. simpl. by rewrite lookup_empty.
    + rewrite decide_False by done. by apply (cok_sess _ _ Hc).
  - intros id Hid Hno. apply (cok_stored _ _ Hc); [done|]. intros b m Hb Hm.
    apply (Hno b m); [done|]. rewrite lookup_insert_ne; [done|congruence].
Qed.
End facts.

(** *** The deployment as the services around a dash server *)
Section services.
Context {W T : Type} `{EtcdLaws W}.
Variable getter : string → T → result (string * string) * T.
Hypothesis salted : ∀ uid t salt p t', getter uid t = (Ok (salt, p), t') → salt ≠ "".
(** Waiting changes nothing in etcd. *)
Hypothesis quiet : ∀ w : W, cli_Sleep w = w.
Implicit Types (c : cluster W T) (x : cspec T).

#[local] Obligation Tactic := idtac.
#[export] Program Instance cluster_laws : EtcdLaws (cluster W T) := {|
  kvs c := kvs (etcd c); live c := live (etcd c); healthy c := healthy (etcd c) |}.
Next Obligation. intros k v l c. pose proof (law_Put k v l (etcd c)) as L. simpl. by destruct (cli_Put k v l (etcd c)). Qed.
Next Obligation. intros k c. pose proof (law_Get k (etcd c)) as L. simpl. by destruct (cli_Get k (etcd c)). Qed.
Next Obligation. intros p c. pose proof (law_GetPrefix p (etcd c)) as L. simpl. by destruct (cli_GetPrefix p (etcd c)). Qed.
Next Obligation. intros cond ops c. pose proof (law_Txn cond ops (etcd c)) as L. simpl. by destruct (cli_Txn cond ops (etcd c)). Qed.
Next Obligation.
  intros cond k v l c Hl Hnl Hcond. pose proof (law_Txn_lease cond k v l (etcd c) Hl Hnl Hcond) as L.
  simpl. by destruct (cli_Txn cond [OpPut k v l] (etcd c)).
Qed.
Next Obligation. intros id c. pose proof (law_KeepAlive id (etcd c)) as L. simpl. by destruct (cli_KeepAlive id (etcd c)). Qed.
Next Obligation. intros ttl c. pose proof (law_Grant ttl (etcd c)) as L. simpl. by destruct (cli_Grant ttl (etcd c)). Qed.
Next Obligation. intros id c. pose proof (law_Revoke id (etcd c)) as L. simpl. by destruct (cli_Revoke id (etcd c)). Qed.

(** The functions of lib/etcd on a deployment are those on its etcd. *)
Lemma cluster_GetKV k c : Etcd.GetKV k c = lift_etcd (Etcd.GetKV k) c.
Proof.
  unfold Etcd.GetKV, lift_etcd. simpl. unfold lift_etcd.
  by destruct (cli_Get k (etcd c)) as [[[v|]|e] w].
Qed.
Lemma cluster_List p c : Etcd.ListKeyByPrefix p c = lift_etcd (Etcd.ListKeyByPrefix p) c.
Proof.
  unfold Etcd.ListKeyByPrefix, lift_etcd. simpl. unfold lift_etcd.
  by destruct (cli_GetPrefix p (etcd c)) as [[l|e] w].
Qed.
Definition only_etcd c c' : Prop := nodes c' = nodes c ∧ users c' = users c.
Lemma cluster_lock_loop fuel l k : ∀ c r c',
  Etcd.lock_loop fuel l k c = Some (r, c') → only_etcd c c'.
Proof.
  induction fuel as [|fuel IH]; intros c r c'; simpl; [done|].
  unfold Etcd.tryLock. simpl. unfold lift_etcd.
  destruct (cli_Txn _ _ (etcd c)) as [[b|e] w]; simpl; [|by intros [= _ <-]].
  destruct b; [by intros [= _ <-]|]. intros He. by apply IH in He.
Qed.
Lemma cluster_UnLock k rec c r rec' c' : Etcd.UnLock k rec c = (r, rec', c') → only_etcd c c'.
Proof.
  unfold Etcd.UnLock. destruct (rec !! k) as [id|]; [|by intros [= _ _ <-]]. simpl. unfold lift_etcd.
  destruct (cli_Revoke id (etcd c)) as [[u|e] w]; simpl; by intros [= _ _ <-].
Qed.
Lemma cluster_Lock fuel k rec c r rec' c' : Etcd.Lock fuel k rec c = Some (r, rec', c') → only_etcd c c'.
Proof.
  unfold Etcd.Lock. simpl. unfold lift_etcd.
  destruct (cli_Grant 10 (etcd c)) as [[id|e] w]; simpl; [|by intros [= _ _ <-]].
  destruct (Etcd.lock_loop _ _ _ _) as [[[u|e] c1]|] eqn:Hl; [..|done];
    apply cluster_lock_loop in Hl as []; by intros [= _ _ <-].
Qed.
Lemma cluster_Atomic fuel k kvl rec c r rec' c' :
  Etcd.AtomicMultiKVOp fuel k kvl rec c = Some (r, rec', c') → only_etcd c c'.
Proof.
  unfold Etcd.AtomicMultiKVOp. destruct (Etcd.Lock _ _ _ _) as [[[u rec1] c1]|] eqn:Hl; [|done].
  apply cluster_Lock in Hl as [Hl1 Hl2]. simpl. unfold lift_etcd.
  destruct (cli_Txn None _ (etcd c1)) as [b w]. simpl.
  destruct (Etcd.UnLock _ _ _) as [[u2 rec2] c2] eqn:Hu. apply cluster_UnLock in Hu as [Hu1 Hu2].
  simpl in *. unfold only_etcd. destruct b; intros [= _ _ <-]; by rewrite Hu1, Hu2, Hl1, Hl2.
Qed.

(** The keys of the homes and of the histories are as they were. *)
Lemma cok_same_keys c c' x : cok c x → only_etcd c c' → healthy (etcd c') →
  (∀ id, home (etcd c') id = home (etcd c) id) →
  (∀ id, GoStr.name_ok id = true → kvs (etcd c') !! path id = kvs (etcd c) !! path id) → cok c' x.
Proof.
  intros Hc [Hn Hu] Hw Hhome Hk.
  assert (Hst : ∀ id, GoStr.name_ok id = true →
    etcd_stored (etcd c') (path id) = etcd_stored (etcd c) (path id))
    by (intros id Hid; by apply etcd_stored_ext, Hk).
  split; rewrite ?Hn, ?Hu; try done; try apply Hc.
  - intros addr n Hno. pose proof (cok_nodes _ _ Hc addr n Hno) as Hok.
    apply (node_rebase (etcd c) _ _ (c_hist x)); [done|done|..|apply Hc|apply Hc].
    + intros id Hr. destruct (runs_home _ _ _ _ _ Hok Hr) as [Hh _]. by rewrite Hhome.
    + intros id Hid Hh Hnr. rewrite Hst by done. rewrite Hhome in Hh. apply (cok_stored _ _ Hc); [done|].
      intros b m Hb Hm. congruence.
  - intros id Hid Hno. rewrite Hst by done. apply (cok_stored _ _ Hc); [done|]. intros b m Hb.
    apply Hno. by rewrite Hhome.
Qed.
(** Etcd answered. *)
Lemma cok_etcd c c' x : cok c x → only_etcd c c' → healthy (etcd c') → kvs (etcd c') = kvs (etcd c) → cok c' x.
Proof.
  intros Hc Ho Hw Hk. apply (cok_same_keys c); [done..| |].
  - intros id. unfold home. by rewrite Hk.
  - intros id _. by rewrite Hk.
Qed.

(** The map names another server for a user whom the old one has released. *)
Lemma moved_other m uid old ep k : ¬ DashFacts.dash_key k → DashFacts.moved m uid old ep !! k = m !! k.
Proof.
  intros Hk. unfold DashFacts.moved.
  assert (∀ e u, Dash.uids_key e u ≠ k) as Hu by (intros e u <-; apply Hk, DashFacts.uids_dash).
  assert (∀ u, Dash.ep_key u ≠ k) as He by (intros u <-; apply Hk, DashFacts.ep_dash).
  rewrite lookup_insert_ne by done.
  destruct old; unfold id; [rewrite lookup_delete_ne by done|]; by rewrite lookup_insert_ne.
Qed.
Lemma cok_moved c c' x uid ep : cok c x → only_etcd c c' → healthy (etcd c') →
  kvs (etcd c') = DashFacts.moved (kvs (etcd c)) uid (home (etcd c) uid) ep →
  (∀ old, home (etcd c) uid = Some old → released old uid c) → cok c' x.
Proof.
  intros Hc [Hn Hu] Hw Hk Hrel.
  assert (Hhome : ∀ id, home (etcd c') id = if decide (id = uid) then Some ep else home (etcd c) id)
    by (intros id; unfold home; rewrite Hk; apply DashFacts.moved_endpoint).
  assert (Hst : ∀ id, GoStr.name_ok id = true →
    etcd_stored (etcd c') (path id) = etcd_stored (etcd c) (path id)).
  { intros id Hid. apply etcd_stored_ext. rewrite Hk. by apply moved_other, path_not_dash. }
  assert (Hnone : ∀ addr n, nodes c !! addr = Some n → ¬ runs n uid).
  { intros addr n Hno Hr. destruct (runs_home _ _ _ _ _ (cok_nodes _ _ Hc addr n Hno) Hr) as [Hh _].
    by apply (Hrel addr Hh n Hno). }
  assert (Hstored : ∀ id, GoStr.name_ok id = true →
    (∀ addr n, home (etcd c') id = Some addr → nodes c !! addr = Some n → ¬ runs n id) →
    data_of (c_hist x id) (etcd_stored (etcd c') (path id))).
  { intros id Hid Hno. rewrite Hst by done. apply (cok_stored _ _ Hc); [done|]. intros b m Hb Hm.
    destruct (decide (id = uid)) as [->|Hne]; [by apply (Hnone b)|].
    apply (Hno b m); [|done]. by rewrite Hhome, decide_False. }
  split; rewrite ?Hn, ?Hu; try done; try apply Hc.
  intros addr n Hno. pose proof (cok_nodes _ _ Hc addr n Hno) as Hok.
  apply (node_rebase (etcd c) _ _ (c_hist x)); [done|done|..|apply Hc|apply Hc].
  - intros id Hr. destruct (runs_home _ _ _ _ _ Hok Hr) as [Hh _]. split; [|done]. rewrite Hhome.
    rewrite decide_False; [done|]. intros ->. by apply (Hnone addr n).
  - intros id Hid Hh Hnr. apply Hstored; [done|]. intros b m Hb Hm. congruence.
Qed.

(** What stays while a dash server works: the histories, the users, the servers
    there are; sessions may end. *)
Definition within (h : hists) (u : T) (s0 : string → sessions) (d : gset string) c : Prop :=
  ∃ s1, cok c (CSpec s1 h u) ∧ dom (nodes c) = d ∧
    ∀ b uid a t, s1 b uid a = Some t → s0 b uid a = Some t.

Lemma Check_at addr c : (rpc_to addr Server.Check c).2 = c.
Proof.
  unfold rpc_to, on_node. destruct (nodes c !! addr) as [n|] eqn:Hn; [|done]. simpl.
  destruct c as [ns w t], n as [ca rm hp nx]. simpl in *. unfold put_node. simpl. by rewrite insert_id.
Qed.
Lemma within_UidLogout h u s0 d addr q c : within h u s0 d c →
  DashFacts.same c (rpc_to addr (Server.UidLogout q) c).2 ∧
  within h u s0 d (rpc_to addr (Server.UidLogout q) c).2 ∧
  released addr (ul_Uid q) (rpc_to addr (Server.UidLogout q) c).2.
Proof.
  intros (s1 & Hc & Hd & Hs). destruct q as [uid]. unfold rpc_to.
  destruct (nodes c !! addr) as [n|] eqn:Hn.
  - destruct (UidLogout_at getter c _ addr n uid Hc Hn) as (c' & -> & Hc' & Hsame & Hrel & Hdom).
    simpl. split; [exact Hsame|]. split; [|done]. eexists. split; [exact Hc'|]. split; [congruence|].
    simpl. intros b uid' a t. unfold drop_all. repeat case_decide; [done|by apply Hs..].
  - unfold on_node. rewrite Hn. simpl. split; [split; [apply Hc|done]|]. split; [by exists s1|].
    intros n Hno. congruence.
Qed.
Lemma within_etcd h u s0 d c c' : within h u s0 d c → only_etcd c c' → healthy (etcd c') →
  kvs (etcd c') = kvs (etcd c) → within h u s0 d c'.
Proof.
  intros (s1 & Hc & Hd & Hs) Ho Hw Hk. exists s1. split; [by apply (cok_etcd c)|]. split; [|done].
  destruct Ho as [Hn _]. by rewrite Hn.
Qed.

Program Definition cluster_services h u s0 d : DashFacts.DashServices (cluster W T)
    (H1 := cluster_grpc getter) := {|
  DashFacts.ds_good := within h u s0 d;
  DashFacts.ds_released := released;
  DashFacts.ds_conn a cn := a = cn;
|}.
Next Obligation. intros h u s0 d [ns w t]. simpl. unfold set_etcd. simpl. by rewrite quiet. Qed.
Next Obligation. intros h u s0 d a c Hw Hg. by exists a, c. Qed.
Next Obligation.
  intros h u s0 d a cn q c <- Hw Hg. cbn [rpc_Check cluster_grpc]. by rewrite Check_at.
Qed.
Next Obligation. intros h u s0 d a cn q c <- Hw Hg. by apply within_UidLogout. Qed.
Next Obligation.
  intros h u s0 d k c Hw Hg. rewrite cluster_GetKV. simpl.
  destruct (EtcdFacts.GetKV_healthy k (etcd c)) as (w' & He & Hw' & Hk & _); [done|].
  rewrite He. by apply (within_etcd _ _ _ _ c).
Qed.
Next Obligation.
  intros h u s0 d p c Hw Hg. rewrite cluster_List. simpl.
  pose proof (law_GetPrefix p (etcd c)) as L. unfold Etcd.ListKeyByPrefix.
  destruct (cli_GetPrefix p (etcd c)) as [r w']. destruct L as (_ & Hk & _ & Hh).
  destruct (Hh Hw) as [Hw' _]. by destruct r; apply (within_etcd _ _ _ _ c).
Qed.
Next Obligation.
  intros h u s0 d fuel k kvl rec c r rec' c' uid ep Hw (s1 & Hc & Hd & Hs) Ha Hw' Hk Hrel.
  apply cluster_Atomic in Ha. exists s1. split; [by apply (cok_moved c c' _ uid ep)|].
  destruct Ha as [Hn _]. by rewrite Hn.
Qed.
End services.
End ClusterFacts.

(** ** The deployment: a dash server in front of the search servers *)
Module Deployment.
Import Cluster ClusterFacts.
Inductive event :=
  | ERequest (uid : string) (q : Server.request)  (* ask the dash, then the server it names *)
  | ERing (r : hashRing)                          (* the controller changed the ring *)
  | EStart (addr : string)                        (* a server process starts *)
  | EBackground (addr : string) (o : RMgr.mop).   (* a goroutine of a recorder *)

Section deployment.
Context {W T : Type} `{EtcdClient W}.
Variable getter : string → T → result (string * string) * T.
Variable fuel : nat.
Definition dep_state : Type := dstate (cluster W T) string.
Implicit Types s : dep_state.

Definition with_cluster s (c : cluster W T) : dep_state :=
  DS (hr s) (pauses s) (lockRecord s) (scClientCache s) (pcClientCache s) c.
Definition with_ring s (r : hashRing) : dep_state :=
  DS r (pauses s) (lockRecord s) (scClientCache s) (pcClientCache s) (services s).
Definition uid_endpoint (uid : string) : io dep_state (reply CommonQueryResponse) :=
  Dash.UidEndpoint (W := cluster W T) (H0 := cluster_grpc getter) fuel uid.
(** [None]: the dash returned an error, or no server answers. *)
Definition routed (uid : string) (q : Server.request) : io dep_state (option Server.response) :=
  do a <- uid_endpoint uid ;;
  match a with
  | (Some resp, None) => λ s,
    match on_node (q_Resp resp) (Server.handle (Some getter) q) (services s) with
    | Some (r, c) => Done (Some r, with_cluster s c)
    | None => Done (None, s)
    end
  | _ => mret None
  end.
Definition do_event (e : event) : io dep_state (option Server.response) :=
  match e with
  | ERequest uid q => routed uid q
  | ERing r => λ s, Done (None, with_ring s r)
  | EStart addr => λ s,
    match nodes (services s) !! addr with
    | Some _ => Done (None, s)
    | None => run c <- start addr (services s) ;; Done (None, with_cluster s c)
    end
  | EBackground addr o => λ s,
    match background addr o (services s) with
    | Some c => Done (None, with_cluster s c)
    | None => Done (None, s)
    end
  end.
Fixpoint do_events (es : list event) : io dep_state (list (option Server.response)) :=
  match es with
  | [] => mret []
  | e :: es => do o <- do_event e ;; do os <- do_events es ;; mret (o :: os)
  end.

(** What the deployment promises: one history per user.  Sessions are those of
    the servers; while a request is routed sessions may end. *)
Definition fewer (x x' : cspec T) : Prop :=
  c_hist x' = c_hist x ∧ c_users x' = c_users x ∧
  ∀ b uid a t, c_sess x' b uid a = Some t → c_sess x b uid a = Some t.
Inductive spec_event : cspec T → event → option Server.response → cspec T → Prop :=
  | sp_answered x x1 uid q addr :
      fewer x x1 →
      spec_event x (ERequest uid q) (Some (spec_at getter addr q x1).1) (spec_at getter addr q x1).2
  | sp_unanswered x x1 uid q : fewer x x1 → spec_event x (ERequest uid q) None x1
  | sp_other x x1 e : fewer x x1 → (∀ uid q, e ≠ ERequest uid q) → spec_event x e None x1.
Inductive spec_events : cspec T → list event → list (option Server.response) → cspec T → Prop :=
  | sp_nil x : spec_events x [] [] x
  | sp_cons x e o x1 es os x2 :
      spec_event x e o x1 → spec_events x1 es os x2 → spec_events x (e :: es) (o :: os) x2.

(** Requests of the user the dash is asked about, with plain names; rings as the
    ring's operations leave them; goroutine steps. *)
Definition of_user (uid : string) (q : Server.request) : Prop :=
  match q with
  | Server.QSearch r => se_Uid r = uid
  | Server.QUpload r => up_Uid r = uid
  | _ => True
  end.
Definition event_ok (e : event) : Prop :=
  match e with
  | ERequest uid q => DashFacts.plain_uid uid = true ∧ of_user uid q ∧ req_ok q
  | ERing r => RingFacts.ok r ∧ addedNode r ≠ ∅ ∧ (0 < vNodeNum r)%Z ∧
      ∀ a, a ∈ addedNode r → GoStr.name_ok a = true
  | EStart _ => True
  | EBackground _ o => match o with RMgr.MTick _ | RMgr.MRecv _ => True | _ => False end
  end.
End deployment.

Section facts.
Context {W T : Type} `{EtcdLaws W}.
Variable getter : string → T → result (string * string) * T.
Hypothesis salted : ∀ uid t salt p t', getter uid t = (Ok (salt, p), t') → salt ≠ "".
Hypothesis quiet : ∀ w : W, cli_Sleep w = w.
Variable fuel : nat.
Implicit Types (s : dep_state (W := W) (T := T)) (x : cspec T).

Abbreviation services_of x d := (cluster_services getter quiet (c_hist x) (c_users x) (c_sess x) d).
(** The invariant of a deployment that stands for [x]. *)
Record dok s x : Prop := {
  dok_dash : @DashFacts.dash_ok (cluster W T) _ _ (cluster_grpc getter)
    (services_of x (dom (nodes (services s)))) s;
  dok_free uid : Suspend.uidSuspensive (pauses s) uid = false;
}.
Lemma dok_intro s x : healthy (etcd (services s)) → kvs (etcd (services s)) !! DashEpLock = None →
  DashFacts.index_ok (kvs (etcd (services s))) →
  RingFacts.ok (hr s) → addedNode (hr s) ≠ ∅ → (∀ a, a ∈ addedNode (hr s) → GoStr.name_ok a = true) →
  (0 < vNodeNum (hr s))%Z → cok (services s) x →
  (∀ ep c, scClientCache s !! ep = Some c → ep = c) →
  (∀ uid, Suspend.uidSuspensive (pauses s) uid = false) → dok s x.
Proof.
  intros ??????? Hc ??. split; [|done]. split; try done. exists (c_sess x).
  split; [by destruct x|done].
Qed.
Lemma dok_cok s x : dok s x → ∃ x1, fewer x x1 ∧ cok (services s) x1.
Proof.
  intros [Hd _]. destruct (DashFacts.do_good _ Hd) as (s1 & Hc & _ & Hs).
  by exists (CSpec s1 (c_hist x) (c_users x)).
Qed.
(** Other servers, the same keys of the dash. *)
Lemma dok_cluster s x c' x' : dok s x → DashFacts.same (etcd (services s)) (etcd c') → cok c' x' →
  dok (with_cluster s c') x'.
Proof.
  intros [Hd Hf] [Hw Hk] Hc. apply dok_intro; try done; simpl.
  - rewrite Hk; [apply (DashFacts.do_lock _ Hd)|done].
  - by eapply DashFacts.index_same, (DashFacts.do_index _ Hd).
  - apply (DashFacts.do_ring _ Hd).
  - apply (DashFacts.do_nodes _ Hd).
  - apply (DashFacts.do_plain _ Hd).
  - apply (DashFacts.do_vnodes _ Hd).
  - intros ep cn. apply (DashFacts.do_conns _ Hd).
Qed.

(** Where the dash sent a user, and what that changed. *)
Record sent s (uid ep : string) s' : Prop := {
  st_home u : home (etcd (services s')) u = if decide (u = uid) then Some ep else home (etcd (services s)) u;
  st_ring : hr s' = hr s;
  st_from : ring_GetNode (hr s) uid = Done (Ok ep) ∨ home (etcd (services s)) uid = Some ep;
  st_nodes : dom (nodes (services s')) = dom (nodes (services s));
  st_unmapped k : DashFacts.unmapped k → kvs (etcd (services s')) !! k = kvs (etcd (services s)) !! k;
}.
Lemma UidEndpoint_routes s x uid : dok s x → DashFacts.plain_uid uid = true →
  ∃ ep s' x1, uid_endpoint getter (S fuel) uid s = Done ((Some (MkCommonQueryResponse ep), None), s') ∧
    dok s' x1 ∧ fewer x x1 ∧ cok (services s') x1 ∧ sent s uid ep s'.
Proof.
  intros [Hd Hf] Hu.
  destruct (@DashFacts.UidEndpoint_ok (cluster W T) _ _ (cluster_grpc getter) _ fuel s uid Hd Hu (Hf uid)) as (ep & node & s' & He & Ha & Hnode & Hor).
  pose proof (DashFacts.an_ok _ _ _ _ Ha) as Hd'.
  destruct (DashFacts.do_good _ Hd') as (s1 & Hc & Hdom & Hs).
  exists ep, s', (CSpec s1 (c_hist x) (c_users x)). split; [exact He|]. split; [|split_and!; [done..| ]].
  - apply dok_intro; [apply (DashFacts.do_healthy _ Hd')|apply (DashFacts.do_lock _ Hd')|
      apply (DashFacts.do_index _ Hd')|apply (DashFacts.do_ring _ Hd')|apply (DashFacts.do_nodes _ Hd')|
      apply (DashFacts.do_plain _ Hd')|apply (DashFacts.do_vnodes _ Hd')|done|apply (DashFacts.do_conns _ Hd')|].
    intros u. assert (Hpa : @pauses (cluster W T) string s' = pauses s ∨
      @pauses (cluster W T) string s' = delete uid (pauses s)) by exact (DashFacts.an_pauses _ _ _ _ Ha).
    destruct Hpa as [-> | ->]; [done|].
    unfold Suspend.uidSuspensive. rewrite lookup_delete. case_decide; [done|]. apply Hf.
  - split; [exact (DashFacts.an_endpoint _ _ _ _ Ha)|exact (DashFacts.an_ring _ _ _ _ Ha)| |exact Hdom|
      exact (DashFacts.an_unmapped _ _ _ _ Ha)].
    destruct Hor as [-> | ?]; [by left|by right].
Qed.

Lemma routed_ok s x uid q : dok s x → event_ok (ERequest uid q) →
  ∃ o s' x', routed getter (S fuel) uid q s = Done (o, s') ∧
    spec_event getter x (ERequest uid q) o x' ∧ dok s' x'.
Proof.
  intros Hs (Hu & Hof & Hq). destruct (UidEndpoint_routes s x uid Hs Hu) as (ep & s1 & x1 & He & Hs1 & Hf & Hc & Hsent).
  pose proof (st_home _ _ _ _ Hsent uid) as Hh. rewrite decide_True in Hh by done.
  unfold routed. rewrite (io_bind_Done _ _ _ _ _ He). simpl.
  destruct (nodes (services s1) !! ep) as [n|] eqn:Hn.
  - destruct (request_ok getter salted _ x1 ep n q Hc Hn Hq) as (c' & -> & Hc' & Hsame & _).
    { by destruct q; simpl in *; subst. }
    do 3 eexists. split; [done|]. split; [by apply sp_answered|]. by eapply dok_cluster.
  - unfold on_node. rewrite Hn. do 3 eexists. split; [done|]. split; [by apply sp_unanswered|done].
Qed.
Lemma fewer_refl x : fewer x x.
Proof. done. Qed.
Lemma do_event_ok s x e : dok s x → event_ok e →
  ∃ o s' x', do_event getter (S fuel) e s = Done (o, s') ∧ spec_event getter x e o x' ∧ dok s' x'.
Proof.
  intros Hs He. destruct e as [uid q|r|addr|addr o]; [by apply routed_ok|..];
    destruct (dok_cok _ _ Hs) as (x1 & Hf & Hc).
  - destruct He as (Hr & Hne & Hv & Hp). simpl. do 3 eexists. split; [done|].
    split; [by apply (sp_other _ _ x)|]. destruct Hs as [[] Hfr]. split; [by split|done].
  - unfold do_event. destruct (nodes (services s) !! addr) eqn:Hn.
    { do 3 eexists. split; [done|]. split; [by apply (sp_other _ _ x)|done]. }
    destruct (start_ok (services s) x1 addr Hc Hn) as (c' & Hst & Hetcd & _ & Hc'). rewrite Hst.
    do 3 eexists. split; [done|]. split; cycle 1.
    { eapply dok_cluster; [done| |exact Hc']. rewrite Hetcd. split; [apply Hc|done]. }
    apply sp_other; [|done]. destruct Hf as (Hh & Hu & Hse). split_and!; [done|done|].
    simpl. intros b u a t. case_decide; [done|apply Hse].
  - simpl. destruct (nodes (services s) !! addr) as [n|] eqn:Hn.
    + destruct (background_ok (services s) x1 addr n o Hc Hn) as (c' & -> & Hc' & Hsame & _); [done|].
      do 3 eexists. split; [done|]. split; [by apply (sp_other _ _ x1)|]. by eapply dok_cluster.
    + unfold background. rewrite Hn. do 3 eexists. split; [done|]. split; [by apply (sp_other _ _ x)|done].
Qed.
Lemma do_events_ok es : ∀ s x, dok s x → Forall event_ok es →
  ∃ os s' x', do_events getter (S fuel) es s = Done (os, s') ∧ spec_events getter x es os x' ∧ dok s' x'.
Proof.
  induction es as [|e es IH]; intros s x Hs Hes.
  { exists [], s, x. split; [done|]. split; [constructor|done]. }
  apply Forall_cons in Hes as [He Hes].
  destruct (do_event_ok s x e Hs He) as (o & s1 & x1 & Hd & Hsp & Hs1).
  destruct (IH s1 x1 Hs1 Hes) as (os & s2 & x2 & Hd2 & Hsp2 & Hs2).
  exists (o :: os), s2, x2. split; [|split; [by econstructor|done]]. cbn [do_events].
  rewrite (io_bind_Done _ _ _ _ _ Hd). by rewrite (io_bind_Done _ _ _ _ _ Hd2).
Qed.
End facts.
End Deployment.

(** ** Theorems about a deployment *)
Module DeploymentTheorems.
Import Cluster ClusterFacts Deployment.
Section theorems.
Context {W T : Type} `{EtcdLaws W}.
Variable getter : string → T → result (string * string) * T.
Hypothesis salted : ∀ uid t salt p t', getter uid t = (Ok (salt, p), t') → salt ≠ "".
Hypothesis quiet : ∀ w : W, cli_Sleep w = w.
Implicit Types (s : dep_state (W := W) (T := T)) (x : cspec T).

(** C1. A deployment of several search servers is one server.  Whatever
    requests are routed through the dash, in whatever order, while the ring
    changes, servers start and the goroutines of the recorders run, every answer
    is the answer of some server's login states and of one history per user; the
    history follows the user from server to server, and no call panics or
    blocks. *)
Theorem deployment_refines fuel s x es :
  dok getter quiet s x → Forall event_ok es →
  ∃ os s' x', do_events getter (S fuel) es s = Done (os, s') ∧ spec_events getter x es os x'.
Proof.
  intros Hs Hes. destruct (do_events_ok getter salted quiet fuel es s x Hs Hes) as (os & s' & x' & ? & ? & _).
  by exists os, s', x'.
Qed.

(** Requests of other users leave the history of a user alone. *)
Definition not_of (uid : string) (e : event) : Prop :=
  match e with ERequest u _ => u ≠ uid | _ => True end.
Lemma spec_event_others x e o x' uid : spec_event getter x e o x' → event_ok e → not_of uid e →
  c_hist x' uid = c_hist x uid.
Proof.
  intros He Hok Hno. destruct He as [x x1 u q addr (Hh & _)|x x1 u q (Hh & _)|x x1 e (Hh & _)];
    [|by rewrite Hh..].
  unfold spec_at.
  pose proof (spec_others getter (Spec (c_sess x1 addr) (c_hist x1) (c_users x1)) q (λ v, v ≠ uid) uid) as Hq.
  destruct (spec_handle getter _ q) as [a sp]. simpl in *. rewrite Hq, Hh; [done| |naive_solver].
  destruct Hok as (_ & Hof & _). by destruct q; simpl in *; subst.
Qed.
Lemma spec_events_others uid es : ∀ x os x', spec_events getter x es os x' → Forall event_ok es →
  Forall (not_of uid) es → c_hist x' uid = c_hist x uid.
Proof.
  induction es as [|e es IH]; intros x os x' Hs Hes Hno; inversion Hs; subst; [done|].
  apply Forall_cons in Hes as [He Hes]. apply Forall_cons in Hno as [Hn Hno].
  rewrite (IH x1 os0 x') by done. by eapply spec_event_others.
Qed.
Lemma spec_events_app es1 es2 : ∀ x os x', spec_events getter x (es1 ++ es2) os x' →
  ∃ os1 os2 x1, os = os1 ++ os2 ∧ length os1 = length es1 ∧
    spec_events getter x es1 os1 x1 ∧ spec_events getter x1 es2 os2 x'.
Proof.
  induction es1 as [|e es1 IH]; intros x os x' Hs; simpl in *.
  - exists [], os, x. split_and!; [done|done|constructor|done].
  - inversion Hs as [|? ? o x1 ? os' ? He Hr]; subst.
    destruct (IH _ _ _ Hr) as (os1 & os2 & x2 & -> & Hl & H1 & H2).
    exists (o :: os1), os2, x2. split_and!; [done|simpl; congruence|by econstructor|done].
Qed.

End theorems.

(** *** Witnesses: one server that runs, another one that starts *)
Import MemEtcd.
Definition ex_mem : mem := Mem ∅ ∅ [].
Definition ex_rm : manager := RM (MkLru ∅ GoList.New RMgr.defaultRecorderNum) RMgr.zero.
Definition ex_addr : string := "[::]:8083".
(** Alice is logged in. *)
Definition ex_cluster : cluster mem nat :=
  MkCluster {[ex_addr := Node {["alice" := {["1.2.3.4:5" := "t0"]}]} ex_rm ∅ 0]} ex_mem 0.
Definition ex_x : cspec nat :=
  CSpec (λ b u a, if decide (b = ex_addr ∧ u = "alice" ∧ a = "1.2.3.4:5") then Some "t0" else None) (λ _, []) 0.
Definition ex_empty : cluster mem nat := MkCluster ∅ ex_mem 0.
Lemma ex_empty_ok : cok ex_empty (CSpec (λ _ _ _, None) (λ _, []) 0).
Proof.
  split; simpl; try done; [by left|]. intros id. by repeat constructor.
Qed.
Lemma ex_cluster_ok : cok ex_cluster ex_x.
Proof.
  destruct (start_ok _ _ ex_addr ex_empty_ok) as (c & Hst & _ & _ & Hc); [done|].
  injection Hst as <-.
  destruct (cok_step _ _ ex_addr (Node ∅ ex_rm ∅ 0) (Node {["alice" := {["1.2.3.4:5" := "t0"]}]} ex_rm ∅ 0)
    ex_mem (λ _, []) (λ u a, if decide (u = "alice" ∧ a = "1.2.3.4:5") then Some "t0" else None) 0 Hc)
    as [_ Hc']; [by apply lookup_insert_eq|exact (cok_nodes _ _ Hc _ _ (lookup_insert_eq _ _ _))|done|..].
  - intros u a. unfold AuthFacts.token_of. simpl. rewrite lookup_singleton.
    repeat case_decide; subst; simpl; rewrite ?lookup_singleton; repeat case_decide; naive_solver.
  - simpl in Hc'. rewrite insert_insert_eq in Hc'. refine (cok_ext _ _ _ Hc' _ _ _); [|done|done].
    intros b u a. simpl. repeat case_decide; naive_solver.
Qed.
Lemma mem_quiet (w : mem) : cli_Sleep w = w.
Proof. done. Qed.
Definition ex_getter : string → nat → result (string * string) * nat := AuthTheorems.ex_table.
Lemma ex_deployment : ∃ s : dep_state (W := mem) (T := nat),
  services s = ex_cluster ∧ dok ex_getter mem_quiet s ex_x.
Proof.
  destruct RingTheorems.ex_add as (r & _ & Hok & Hin & Hv & _).
  exists (DS r ∅ ∅ ∅ ∅ ex_cluster). split; [done|].
  apply dok_intro; simpl; try done; [|by rewrite Hin; apply non_empty_singleton_L|..].
  - split.
    + intros uid ep _ _. unfold DashFacts.endpoint_of. rewrite !lookup_empty. split; [done|by intros []].
    + intros uid ep _. unfold DashFacts.endpoint_of. by rewrite lookup_empty.
    + intros k [? Hk]. by rewrite lookup_empty in Hk.
  - intros a. rewrite Hin. by intros ->%elem_of_singleton.
  - by rewrite Hv.
  - exact ex_cluster_ok.
Qed.
Definition ex_up : UploadRequest := MkUploadRequest "alice" "ls -la" "t0" "1.2.3.4:5".
Definition ex_se : SearchRequest := MkSearchRequest "alice" "ls" "t0" "1.2.3.4:5".
Definition ex_between : list event :=
  [EStart "[::]:8090"; EBackground ex_addr (RMgr.MTick "alice");
   ERequest "bob" (Server.QLogin (MkLoginRequest "bob" "pw" "6.6.6.6:6"))].
Lemma ex_between_ok : Forall event_ok ex_between.
Proof. by repeat constructor. Qed.
Lemma deployment_refines_witness :
  ∃ s : dep_state (W := mem) (T := nat), services s = ex_cluster ∧
  ∃ os s' x', do_events ex_getter 1 (ERequest "alice" (Server.QUpload ex_up) :: ex_between) s = Done (os, s') ∧
    spec_events ex_getter ex_x (ERequest "alice" (Server.QUpload ex_up) :: ex_between) os x'.
Proof.
  destruct ex_deployment as (s & Hs & Hok). exists s. split; [exact Hs|].
  apply (deployment_refines ex_getter ServerTheorems.ex_salted mem_quiet 0 s ex_x); [exact Hok|].
  constructor; [|exact ex_between_ok]. by repeat constructor.
Defined.
End DeploymentTheorems.
