(* ===== verification/System.v ===== *)
(** * The whole system

    Proxies in front of the deployment of Cluster.v: module [System] connects
    Proxy.v, Dash.v and the search servers.  The proxies ask the leader in etcd for
    the dash, the dash for the server of a user, and forward the request there.
    While the ring does not change, a proxy adds nothing to what the deployment
    promises; after a change of the ring, a proxy that still has the old server in
    its cache loses commands. *)

From S2P Require Import Prelude GoList GoStr Json JsonObj Etcd Elect Lru Recorder RecorderMgr HashRing.
From S2P Require Import Auth Proto Caches Server Dash Proxy ProxyConc Cluster.
Import RMgrSpec ServerSpec ClusterFacts Deployment.
#[local] Open Scope Z_scope.

(** A proxy process, without the network it shares with the others. *)
Record proxy := MkProxy {
  p_cache : gmap string scNode;
  p_count : Z;
  p_eps : gmap string string;
  p_dashes : gmap string string;
}.
Record system (W T : Type) := Sys { world_of : dep_state (W := W) (T := T); proxies : gmap string proxy }.
Arguments Sys {W T} _ _.
Arguments world_of {W T} _.
Arguments proxies {W T} _.

Module System.
Import Cluster.
Section system.
Context {W T : Type} `{EtcdClient W} `{Clock W}.
Variable getter : string → T → result (string * string) * T.
(** How many times the dash tries its lock. *)
Variable fuel : nat.
Abbreviation world := (dep_state (W := W) (T := T)).
Implicit Types s : world.

(** Calls of etcd and of the search servers. *)
Definition lift_cluster {A} (f : cluster W T → A * cluster W T) s : A * world :=
  ((f (services s)).1, with_cluster s (f (services s)).2).
#[export] Instance world_client : EtcdClient world := {|
  cli_Put k v l := lift_cluster (cli_Put k v l);
  cli_Get k := lift_cluster (cli_Get k);
  cli_GetPrefix p := lift_cluster (cli_GetPrefix p);
  cli_DeletePrefix p := lift_cluster (cli_DeletePrefix p);
  cli_Txn cond ops := lift_cluster (cli_Txn cond ops);
  cli_Grant ttl := lift_cluster (cli_Grant ttl);
  cli_Revoke id := lift_cluster (cli_Revoke id);
  cli_KeepAlive id := lift_cluster (cli_KeepAlive id);
  cli_Sleep s := with_cluster s (cli_Sleep (services s));
|}.
#[export] Instance world_clock : Clock world := {|
  Now s := Now (etcd (services s));
  Sleep d s := with_cluster s (set_etcd (services s) (Sleep d (etcd (services s))));
|}.

(** The dash process behind "www.myshell.top", with the interceptor of its
    [Run]; a handler that does not return is a call that does not succeed. *)
Definition dash_addr : string := "www.myshell.top:8082".
Definition unavailable : error :=
  Errorf "rpc error: code = Unavailable desc = all SubConns are in TransientFailure, latest connection error".
Definition dash_handler (q : CommonQueryRequest) : io world (reply CommonQueryResponse) :=
  Dash.intercept (W := cluster W T) (H0 := cluster_grpc getter) DashAddr
    (uid_endpoint getter fuel (q_Req q)).
Definition rpc_dash (a : string) (q : CommonQueryRequest) s : result CommonQueryResponse * world :=
  if decide (a = dash_addr) then
    match dash_handler q s with
    | Done (r, s') => (client_sees r, s')
    | _ => (Err (Errorf "rpc error: code = Unavailable desc = transport is closing"), s)
    end
  else (Err unavailable, s).
(** The network of the proxies; the dash is no client of this network, and calls
    the proxies' [CleanUidCache] never ([DashTheorems.users_of_endpoint_not_found]). *)
#[export] Instance world_grpc : Grpc world := {|
  conn := string;
  DialInsecure a s := (Ok a, s);
  DialTLS a s := (Ok a, s);
  rpc_Search a q := lift_cluster (rpc_to a (Server.Search q));
  rpc_Upload a q := lift_cluster (rpc_to a (Server.Upload q));
  rpc_Login a q := lift_cluster (rpc_to a (Server.Login (Some getter) q));
  rpc_Logout a q := lift_cluster (rpc_to a (Server.Logout q));
  rpc_CleanUidCache _ _ s := (Err unavailable, s);
  rpc_UidLogout a q := lift_cluster (rpc_to a (Server.UidLogout q));
  rpc_Check a q := lift_cluster (rpc_to a Server.Check);
  rpc_UidEndpoint := rpc_dash;
|}.

(** A handler of a proxy, run for a client at [peer]. *)
Definition to_pstate (p : proxy) s : pstate world string :=
  PS (p_cache p) (p_count p) (p_eps p) (p_dashes p) s.
Definition of_pstate (t : pstate world string) : proxy :=
  MkProxy (cache t) (reqCount t) (endpointClis t) (dashClis t).
Definition proxy_handle (pfuel : nat) (peer : string) (q : ProxyConc.request)
    : io (pstate world string) Server.response :=
  match q with
  | ProxyConc.QSearch q => do a <- Proxy.Search pfuel (Some peer) q ;; mret (Server.ASearch a)
  | ProxyConc.QUpload q => do a <- Proxy.Upload pfuel (Some peer) q ;; mret (Server.AUpload a)
  | ProxyConc.QLogin q => do a <- Proxy.Login pfuel (Some peer) q ;; mret (Server.ALogin a)
  | ProxyConc.QLogout q => do a <- Proxy.Logout pfuel (Some peer) q ;; mret (Server.ALogout a)
  end.

(** What happens: a client sends a request to a proxy, a proxy starts, time
    passes, or an event of the deployment. *)
Inductive sevent :=
  | SRequest (name peer : string) (q : ProxyConc.request)
  | SProxy (name : string)
  | STime (d : Z)
  | SDeploy (e : Deployment.event).
Implicit Types y : system W T.
Definition do_sevent (pfuel : nat) (e : sevent) y : outcome (option Server.response * system W T) :=
  match e with
  | SRequest name peer q =>
    match proxies y !! name with
    | None => Done (None, y)
    | Some p =>
      run (a, t) <- proxy_handle pfuel peer q (to_pstate p (world_of y)) ;;
      Done (Some a, Sys (net t) (<[name := of_pstate t]> (proxies y)))
    end
  | SProxy name => Done (None, Sys (world_of y) (<[name := MkProxy ∅ 0 ∅ ∅]> (proxies y)))
  | STime d => Done (None, Sys (Sleep d (world_of y)) (proxies y))
  | SDeploy e =>
    run (_, s) <- Deployment.do_event getter fuel e (world_of y) ;; Done (None, Sys s (proxies y))
  end.
Fixpoint do_sevents (pfuel : nat) (es : list sevent) y
    : outcome (list (option Server.response) * system W T) :=
  match es with
  | [] => Done ([], y)
  | e :: es =>
    run (o, y) <- do_sevent pfuel e y ;;
    run (os, y) <- do_sevents pfuel es y ;; Done (o :: os, y)
  end.

(** *** What the system promises: what the deployment does, seen through a grpc
    client and a proxy *)
Definition through {R} (r : reply R) : reply R :=
  match client_sees r with Ok a => (Some a, None) | Err e => (None, Some e) end.
Definition through_response (a : Server.response) : Server.response :=
  match a with
  | Server.ASearch r => Server.ASearch (through r)
  | Server.AUpload r => Server.AUpload (through r)
  | Server.ALogin r => Server.ALogin (through r)
  | Server.ALogout r => Server.ALogout (through r)
  | a => a
  end.
(** The request a search server gets. *)
Definition forwarded (peer : string) (q : ProxyConc.request) : Server.request :=
  match q with
  | ProxyConc.QSearch q => Server.QSearch (set_se_CliAddr q peer)
  | ProxyConc.QUpload q => Server.QUpload (set_up_CliAddr q peer)
  | ProxyConc.QLogin q => Server.QLogin (set_li_CliAddr q peer)
  | ProxyConc.QLogout q => Server.QLogout (set_lo_CliAddr q peer)
  end.
Inductive spec_sevent : cspec T → sevent → option Server.response → cspec T → Prop :=
  | ss_answered x x1 name peer q addr :
      fewer x x1 →
      spec_sevent x (SRequest name peer q)
        (Some (through_response (spec_at getter addr (forwarded peer q) x1).1))
        (spec_at getter addr (forwarded peer q) x1).2
  | ss_nobody x name peer q : spec_sevent x (SRequest name peer q) None x
  | ss_other x x1 e : fewer x x1 → (∀ name peer q, e ≠ SRequest name peer q) → spec_sevent x e None x1.
Inductive spec_sevents : cspec T → list sevent → list (option Server.response) → cspec T → Prop :=
  | ss_nil x : spec_sevents x [] [] x
  | ss_cons x e o x1 es os x2 :
      spec_sevent x e o x1 → spec_sevents x1 es os x2 → spec_sevents x (e :: es) (o :: os) x2.
End system.
End System.

(** ** While the ring does not change *)
Module SystemFacts.
Import Cluster System.
Section facts.
Context {W T : Type} `{EtcdLaws W} `{Clock W}.
Variable getter : string → T → result (string * string) * T.
Hypothesis salted : ∀ uid t salt p t', getter uid t = (Ok (salt, p), t') → salt ≠ "".
Hypothesis quiet : ∀ w : W, cli_Sleep w = w.
(** Waiting on the clock changes nothing in etcd. *)
Hypothesis time_only : ∀ d (w : W), kvs (Sleep d w) = kvs w ∧ (healthy w → healthy (Sleep d w)).
Variable fuel : nat.
Abbreviation world := (dep_state (W := W) (T := T)).
Implicit Types (s : world) (x : cspec T) (y : system W T).

Definition homes s : string → option string := home (etcd (services s)).
(** The world of the proxies: a deployment whose users are where the ring wants
    them, whose ring names running servers, and whose dash leads. *)
Record wok s x : Prop := {
  w_dep : dok getter quiet s x;
  w_leader : ∃ e l, kvs (etcd (services s)) !! DashLeaderKey = Some (Elect.info_String e, l) ∧
    ElectorID e = DashAddr ∧ JsonObj.year_ok (ElectTime e) = true;
  w_settled uid ep : DashFacts.plain_uid uid = true → homes s uid = Some ep →
    ring_GetNode (hr s) uid = Done (Ok ep);
  w_running a : a ∈ addedNode (hr s) → a ∈ dom (nodes (services s));
}.
(** Nobody is moved. *)
Definition later s s' : Prop := ∀ uid ep, homes s uid = Some ep → homes s' uid = Some ep.
Record proxy_ok s (p : proxy) : Prop := {
  pk_cache uid n : DashFacts.plain_uid uid = true → p_cache p !! uid = Some n →
    homes s uid = Some (Caches.val n);
  pk_eps a c : p_eps p !! a = Some c → c = a;
  pk_dash c : p_dashes p !! DashAddr = Some c → c = dash_addr;
  pk_count : in_int32 (p_count p);
}.
Record sysok y x : Prop := {
  so_world : wok (world_of y) x;
  so_proxy name p : proxies y !! name = Some p → proxy_ok (world_of y) p;
}.

Lemma fewer_trans x x1 x2 : fewer x x1 → fewer x1 x2 → fewer x x2.
Proof. intros (Hh1 & Hu1 & Hs1) (Hh2 & Hu2 & Hs2). split_and!; [congruence|congruence|auto]. Qed.
Lemma later_refl s : later s s.
Proof. by intros uid ep. Qed.
Lemma later_trans s s1 s2 : later s s1 → later s1 s2 → later s s2.
Proof. intros Hl Hl' uid ep Hh. auto. Qed.
Lemma later_same s s' : (∀ uid, homes s' uid = homes s uid) → later s s'.
Proof. intros Hs uid ep. by rewrite Hs. Qed.
Lemma proxy_later s s' p : later s s' → proxy_ok s p → proxy_ok s' p.
Proof. intros Hl [Hc He Hd Hn]. split; try done. intros uid n Hu Hp. by apply Hl, (Hc uid n). Qed.

Lemma fresh_proxy s : proxy_ok s (MkProxy ∅ 0 ∅ ∅).
Proof. split; try done; intros ? ?; simpl; by rewrite lookup_empty. Qed.

(** The servers did something. *)
Lemma wok_cluster s x c' x' : wok s x → DashFacts.same (etcd (services s)) (etcd c') → cok c' x' →
  dom (nodes (services s)) ⊆ dom (nodes c') →
  wok (with_cluster s c') x' ∧ later s (with_cluster s c').
Proof.
  intros [Hd (e & l & Hk & He) Hse Hr] Hsame Hc Hdom.
  assert (Hh : ∀ uid, homes (with_cluster s c') uid = homes s uid)
    by (intros uid; apply home_same, Hsame).
  split; [|by apply later_same]. split.
  - by eapply dok_cluster.
  - exists e, l. split; [|done]. simpl. rewrite (proj2 Hsame) by apply DashFacts.leader_unmapped. done.
  - intros uid ep Hu. rewrite Hh. by apply Hse.
  - intros a Ha. by apply Hdom, Hr.
Qed.
(** Etcd answered. *)
Lemma wok_etcd s x c' : wok s x → only_etcd (services s) c' → healthy (etcd c') →
  kvs (etcd c') = kvs (etcd (services s)) →
  ∃ x1, fewer x x1 ∧ wok (with_cluster s c') x1 ∧ later s (with_cluster s c').
Proof.
  intros Hs Ho Hw Hk. destruct (dok_cok _ _ _ _ (w_dep _ _ Hs)) as (x1 & Hf & Hc). exists x1. split; [done|].
  apply (wok_cluster s x); [done| |by apply (cok_etcd (services s))|].
  - split; [done|]. intros k _. by rewrite Hk.
  - by rewrite (proj1 Ho).
Qed.
Lemma wok_healthy s x : wok s x → healthy (etcd (services s)).
Proof. intros Hs. destruct (dok_cok _ _ _ _ (w_dep _ _ Hs)) as (x1 & _ & Hc). apply Hc. Qed.

(** *** The dash, through grpc *)
Lemma world_Get k s : Etcd.GetKV k s = lift_cluster (Etcd.GetKV k) s.
Proof.
  unfold Etcd.GetKV, lift_cluster. cbn [cli_Get world_client]. unfold lift_cluster.
  by destruct (cli_Get k (services s)) as [[[v|]|e] c].
Qed.
Lemma elector_ok s x : wok s x →
  ∃ s' x', Elect.GetElectorID DashLeaderKey s = (Ok DashAddr, s') ∧ fewer x x' ∧ wok s' x' ∧ later s s'.
Proof.
  intros Hs. destruct (w_leader s x Hs) as (e & l & Hk & He & Hy).
  destruct (EtcdFacts.GetKV_healthy DashLeaderKey (etcd (services s))) as (w & Hget & Hw & Hkw & _);
    [by eapply wok_healthy|].
  destruct (wok_etcd s x (set_etcd (services s) w) Hs) as (x1 & Hf & Hs1 & Hl); [done|done|done|].
  exists (with_cluster s (set_etcd (services s) w)), x1. split; [|done].
  unfold Elect.GetElectorID. rewrite world_Get. unfold lift_cluster. rewrite cluster_GetKV. unfold lift_etcd.
  rewrite Hget, Hk. cbn [fst snd]. by rewrite ElectFacts.leader_ID_String, He.
Qed.
Lemma dash_answers s x uid : wok s x → DashFacts.plain_uid uid = true →
  ∃ ep s' x', rpc_dash getter (S fuel) dash_addr (MkCommonQueryRequest uid) s =
      (Ok (MkCommonQueryResponse ep), s') ∧
    fewer x x' ∧ wok s' x' ∧ later s s' ∧ homes s' uid = Some ep.
Proof.
  intros Hs Hu. pose proof (w_leader s x Hs) as (e & l & Hk & He & Hy).
  destruct (@DashFacts.intercept_eq (cluster W T) _ _ (cluster_grpc getter) _ s DashAddr e l (dok_dash _ _ _ _ (w_dep _ _ Hs)) Hk Hy)
    as (c & _ & Hkc & Hd & Hi).
  change (DS (hr s) (pauses s) (lockRecord s) (scClientCache s) (pcClientCache s) c) with (with_cluster s c) in Hd, Hi.
  change (kvs (etcd c) = kvs (etcd (services s))) in Hkc.
  destruct (DashFacts.do_good _ Hd) as (_ & _ & Hdom & _). change (dom (nodes c) = dom (nodes (services s))) in Hdom.
  assert (Hd' : dok getter quiet (with_cluster s c) x).
  { split; [|apply (w_dep _ _ Hs)]. cbn [services with_cluster]. by rewrite Hdom. }
  destruct (UidEndpoint_routes getter quiet fuel _ x uid Hd' Hu) as (ep & s' & x1 & Huid & Hd1 & Hf & _ & Hsent).
  exists ep, s', x1. split.
  - unfold rpc_dash, dash_handler. rewrite decide_True by done. rewrite Hi, He, decide_True by done.
    cbn [q_Req]. by rewrite Huid.
  - assert (Hh : ∀ u, homes s' u = if decide (u = uid) then Some ep else homes s u).
    { intros u. unfold homes. rewrite (st_home _ _ _ _ Hsent). unfold home. simpl. rewrite Hkc.
      reflexivity. }
    assert (Hring : ring_GetNode (hr s) uid = Done (Ok ep)).
    { destruct (st_from _ _ _ _ Hsent) as [Hn|Hhome]; [exact Hn|].
      apply (w_settled _ _ Hs); [done|]. unfold homes, home. by rewrite <- Hkc. }
    split; [done|]. split; [|split; [|rewrite Hh; by rewrite decide_True]].
    + split; [done|..].
      * exists e, l. rewrite (st_unmapped _ _ _ _ Hsent) by apply DashFacts.leader_unmapped.
        simpl. by rewrite Hkc.
      * intros u ep' Hu'. rewrite (st_ring _ _ _ _ Hsent), Hh. simpl.
        destruct (decide (u = uid)) as [->|]; [by intros [= <-]|]. exact (w_settled s x Hs u ep' Hu').
      * intros a. rewrite (st_ring _ _ _ _ Hsent), (st_nodes _ _ _ _ Hsent).
        change (nodes (services (with_cluster s c))) with (nodes c). rewrite Hdom. exact (w_running s x Hs a).
    + intros u ep' Hhome. rewrite Hh. destruct (decide (u = uid)) as [->|]; [|done].
      pose proof (w_settled _ _ Hs uid ep' Hu Hhome). congruence.
Qed.

(** *** A request, from the proxy to the server *)
#[local] Instance net_grpc : Grpc world := world_grpc getter (S fuel).
Lemma ask_ok s x p uid : wok s x → proxy_ok s p → DashFacts.plain_uid uid = true →
  ∃ ep p' s' x', Proxy.dsm_UidEndpoint (MkCommonQueryRequest uid) (to_pstate p s) =
      Done (Ok (MkCommonQueryResponse ep), to_pstate p' s') ∧
    fewer x x' ∧ wok s' x' ∧ later s s' ∧ proxy_ok s' p' ∧ homes s' uid = Some ep.
Proof.
  intros Hs Hp Hu. destruct (elector_ok s x Hs) as (s1 & x1 & He & Hf1 & Hs1 & Hl1).
  destruct (dash_answers s1 x1 uid Hs1 Hu) as (ep & s2 & x2 & Hd & Hf2 & Hs2 & Hl2 & Hh).
  destruct (CliManager.method_calls (H := net_grpc) rpc_UidEndpoint CliManager.newDSServerCli DashAddr (MkCommonQueryRequest uid)
    (p_dashes p) s1 dash_addr) as (m & Hm & Hor); [done|apply Hp|].
  exists ep, (MkProxy (p_cache p) (p_count p) (p_eps p) m), s2, x2. split.
  - unfold Proxy.dsm_UidEndpoint. rewrite (io_bind_Done _ _ _ (Ok DashAddr) (to_pstate p s1)).
    + cbn [dashClis net to_pstate]. rewrite Hm. cbn [rpc_UidEndpoint net_grpc world_grpc]. by rewrite Hd.
    + unfold Proxy.svc. cbn [net to_pstate]. by rewrite He.
  - split; [by eapply fewer_trans|]. split; [done|]. split; [by eapply later_trans|]. split; [|done].
    apply (proxy_later s); [by eapply later_trans|]. destruct Hp as [Hc Hep Hda Hn]. split; try done.
    intros c. simpl. destruct Hor as [-> | ->]; [apply Hda|]. rewrite lookup_insert_eq. congruence.
Qed.
Lemma lookup_ok s x p uid : wok s x → proxy_ok s p → DashFacts.plain_uid uid = true →
  ∃ ep p' s' x', Proxy.uidEndpoint uid (to_pstate p s) = Done (Ok ep, to_pstate p' s') ∧
    fewer x x' ∧ wok s' x' ∧ later s s' ∧ proxy_ok s' p' ∧ homes s' uid = Some ep.
Proof.
  intros Hs Hp Hu. unfold Proxy.uidEndpoint. rewrite (io_bind_Done _ _ _ (to_pstate p s) (to_pstate p s)) by done.
  cbn [net cache to_pstate].
  destruct (StalingCache.Get (Now s) (p_cache p) uid) as [r c] eqn:Hget.
  set (p1 := MkProxy c (p_count p) (p_eps p) (p_dashes p)).
  assert (Hp1 : proxy_ok s p1 ∧ ∀ ep, r = Some ep → homes s uid = Some ep).
  { revert Hget. unfold StalingCache.Get. destruct Hp as [Hc Hep Hda Hn].
    destruct (p_cache p !! uid) as [n|] eqn:Hn1; [destruct (_ <? _)|]; intros [= <- <-];
      (split; [split; try done|try done]).
    - intros ep [= <-]. by apply (Hc uid n).
    - intros u n1 Hu1. simpl. intros [_ ?]%lookup_delete_Some. by apply (Hc u n1). }
  destruct Hp1 as [Hp1 Hr].
  rewrite (io_bind_Done _ _ _ tt (to_pstate p1 s)) by done. destruct r as [ep|].
  { exists ep, p1, s, x. do 2 (split; [done|]). split; [done|]. split; [apply later_refl|]. split; [done|by apply Hr]. }
  destruct (ask_ok s x p1 uid Hs Hp1 Hu) as (ep & p2 & s2 & x2 & Hask & Hf & Hs2 & Hl & Hp2 & Hh).
  rewrite (io_bind_Done _ _ _ _ _ Hask). rewrite (io_bind_Done _ _ _ (to_pstate p2 s2) (to_pstate p2 s2)) by done.
  exists ep, (MkProxy (StalingCache.Put (Now s2) (p_cache p2) uid ep) (p_count p2) (p_eps p2) (p_dashes p2)), s2, x2.
  do 4 (split; [done|]). split; [|done]. destruct Hp2 as [Hc2 Hep2 Hda2 Hn2]. split; try done.
  intros u n Hu1. unfold StalingCache.Put. simpl.
  intros [[<- <-]|[_ ?]]%lookup_insert_Some; [done|by apply (Hc2 u n)].
Qed.

(** The server of the user. *)
Lemma server_answers s x uid ep q : wok s x → DashFacts.plain_uid uid = true → homes s uid = Some ep →
  of_user uid q → req_ok q →
  ∃ x1 c', fewer x x1 ∧
    on_node ep (Server.handle (Some getter) q) (services s) = Some ((spec_at getter ep q x1).1, c') ∧
    wok (with_cluster s c') (spec_at getter ep q x1).2 ∧ later s (with_cluster s c').
Proof.
  intros Hs Hu Hh Hof Hq. destruct (dok_cok _ _ _ _ (w_dep _ _ Hs)) as (x1 & Hf & Hc).
  assert (is_Some (nodes (services s) !! ep)) as [n Hn].
  { apply elem_of_dom, (w_running _ _ Hs). pose proof (w_settled _ _ Hs uid ep Hu Hh) as Hr.
    pose proof (dok_dash _ _ _ _ (w_dep _ _ Hs)) as Hd. unfold ring_GetNode in Hr.
    destruct (RingTheorems.GetNode_owner (hr s) uid) as (v & Hg & Hin);
      [apply (DashFacts.do_ring _ Hd)|by intros ->|apply (DashFacts.do_nodes _ Hd)|apply (DashFacts.do_vnodes _ Hd)|].
    rewrite Hg in Hr. by injection Hr as <-. }
  destruct (request_ok getter salted _ x1 ep n q Hc Hn Hq) as (c' & He & Hc' & Hsame & Hdom).
  { destruct q; simpl in *; subst; done. }
  exists x1, c'. do 2 (split; [done|]). apply (wok_cluster s x); [done|done|done|by rewrite Hdom].
Qed.
Lemma on_node_handle {R} addr (f : io (sstate (rmgr_state (W := W)) T) (reply R))
    (inj : reply R → Server.response) c r c' :
  on_node addr (do a <- f ;; mret (inj a)) c = Some (r, c') →
  ∃ a, r = inj a ∧ on_node addr f c = Some (a, c').
Proof.
  unfold on_node. destruct (nodes c !! addr) as [n|]; [|done].
  destruct ((do a <- f ;; mret (inj a)) (state_of n c)) as [[r1 s1]| |] eqn:Hb; [|done|done].
  apply io_bind_inv in Hb as (a & s2 & -> & Hk). injection Hk as <- <-. intros [= <- <-]. by exists a.
Qed.
(** None of the servers' answers is taken for a failed connection. *)
Definition delivered {R} (r : reply R) : Prop := ∀ e, client_sees r = Err e → Proxy.checkConnErr e = false.
Lemma forward_ok {Q R} (f : Q → io (sstate (rmgr_state (W := W)) T) (reply R)) (inj : reply R → Server.response)
    (rpc : conn → Q → world → result R * world) set_addr (q : Q) (sq : Server.request) peer pfuel uid s x p :
  (∀ a q s, rpc a q s = lift_cluster (rpc_to a (f q)) s) →
  Server.handle (Some getter) sq = (do a <- f (set_addr q peer) ;; mret (inj a)) →
  (∀ x addr r, (spec_at getter addr sq x).1 = inj r → delivered r) →
  wok s x → proxy_ok s p → DashFacts.plain_uid uid = true → of_user uid sq → req_ok sq →
  ∃ r ep p' s' x1, Proxy.handler (S pfuel) (Some peer) uid rpc set_addr q (to_pstate p s) =
      Done (through r, to_pstate p' s') ∧
    (spec_at getter ep sq x1).1 = inj r ∧ fewer x x1 ∧ wok s' (spec_at getter ep sq x1).2 ∧
    later s s' ∧ proxy_ok s' p'.
Proof.
  intros Hrpc Hhandle Hdel Hs Hp Hu Hof Hq.
  destruct (lookup_ok s x p uid Hs Hp Hu) as (ep & p1 & s1 & x1 & Hlook & Hf1 & Hs1 & Hl1 & Hp1 & Hh).
  destruct (server_answers s1 x1 uid ep sq Hs1 Hu Hh Hof Hq) as (x2 & c & Hf2 & Hon & Hs2 & Hl2).
  rewrite Hhandle in Hon. apply on_node_handle in Hon as (r & Hr & Hon).
  destruct (CliManager.method_calls (H := net_grpc) rpc CliManager.newSearchServerCli ep (set_addr q peer)
    (p_eps p1) s1 ep) as (m & Hm & Hor); [done|apply Hp1|].
  set (s2 := with_cluster s1 c).
  assert (Hcall : rpc ep (set_addr q peer) s1 = (client_sees r, s2)).
  { rewrite Hrpc. unfold lift_cluster, rpc_to. by rewrite Hon. }
  exists r, ep, (MkProxy (p_cache p1) (p_count p1) m (p_dashes p1)), s2, x2. split.
  - assert (Hwait : Proxy.wait_endpoint (S pfuel) uid (to_pstate p s) = Done (Ok ep, to_pstate p1 s1)).
    { cbn [Proxy.wait_endpoint]. by rewrite (io_bind_Done _ _ _ _ _ Hlook). }
    rewrite (ProxyFacts.handler_once pfuel peer uid rpc set_addr q _ ep _ (client_sees r) m s2 Hwait).
    + unfold through. by destruct (client_sees r).
    + cbn [endpointClis net to_pstate]. by rewrite Hm, Hcall.
    + by apply (Hdel x2 ep).
    + apply Hp1.
  - split; [done|]. split; [by eapply fewer_trans|]. split; [done|]. split; [by eapply later_trans|].
    apply (proxy_later s1 s2) in Hp1; [|done]. destruct Hp1 as [Hc He Hd Hn]. split; try done.
    intros a cn. simpl. destruct Hor as [-> | ->]; [apply He|].
    intros [[<- <-]|[_ ?]]%lookup_insert_Some; [done|by apply He].
Qed.

(** Requests of plain users with plain names, and commands in UTF-8. *)
Definition request_plain (q : ProxyConc.request) : Prop :=
  DashFacts.plain_uid (ProxyConc.req_Uid q) = true ∧
  match q with ProxyConc.QUpload q => Json.ValidString (up_Record q) = true | _ => True end.
Lemma forwarded_delivered x addr peer q :
  match (spec_at getter addr (forwarded peer q) x).1 with
  | Server.ASearch r => delivered r
  | Server.AUpload r => delivered r
  | Server.ALogin r => delivered r
  | Server.ALogout r => delivered r
  | _ => True
  end.
Proof.
  unfold spec_at. destruct q as [q|q|q|q]; simpl.
  - by case_decide.
  - repeat case_decide; intros e; simpl; try done. by intros [= <-].
  - destruct (accepts getter _ _ _) as [[] t]; intros e; simpl; try done. by intros [= <-].
  - done.
Qed.
Ltac forward f inj rpc set_addr q fq peer pfuel s x p :=
  let r := fresh "r" in let He := fresh in let Hr := fresh in
  destruct (forward_ok f inj rpc set_addr q (forwarded peer fq) peer pfuel (ProxyConc.req_Uid fq) s x p)
    as (r & ep & p' & s' & x1 & He & Hr & ?);
  [done|done|intros x1 addr r Hr; pose proof (forwarded_delivered x1 addr peer fq) as He; by rewrite Hr in He|done..|];
  exists ep, (inj r), p', s', x1; split; [|by rewrite Hr];
  cbn [proxy_handle]; unfold Proxy.Search, Proxy.Upload, Proxy.Login, Proxy.Logout;
  by rewrite (io_bind_Done _ _ _ _ _ He).
Lemma proxied_ok s x p peer pfuel q : wok s x → proxy_ok s p → request_plain q →
  ∃ ep a p' s' x1, proxy_handle getter (S fuel) (S pfuel) peer q (to_pstate p s) =
      Done (through_response a, to_pstate p' s') ∧
    a = (spec_at getter ep (forwarded peer q) x1).1 ∧ fewer x x1 ∧
    wok s' (spec_at getter ep (forwarded peer q) x1).2 ∧ later s s' ∧ proxy_ok s' p'.
Proof.
  intros Hs Hp [Hu Hq].
  assert (Hname : GoStr.name_ok (ProxyConc.req_Uid q) = true) by (unfold DashFacts.plain_uid in Hu; by bool_prop).
  destruct q as [q|q|q|q].
  - forward (Server.Search (M := rmgr_state (W := W)) (W := T)) Server.ASearch rpc_Search set_se_CliAddr q
      (ProxyConc.QSearch q) peer pfuel s x p.
  - forward (Server.Upload (M := rmgr_state (W := W)) (W := T)) Server.AUpload rpc_Upload set_up_CliAddr q
      (ProxyConc.QUpload q) peer pfuel s x p.
  - forward (Server.Login (M := rmgr_state (W := W)) (Some getter)) Server.ALogin rpc_Login set_li_CliAddr q
      (ProxyConc.QLogin q) peer pfuel s x p.
  - forward (Server.Logout (M := rmgr_state (W := W)) (W := T)) Server.ALogout rpc_Logout set_lo_CliAddr q
      (ProxyConc.QLogout q) peer pfuel s x p.
Qed.

(** *** Events *)
Definition sevent_ok (e : sevent) : Prop :=
  match e with
  | SRequest _ _ q => request_plain q
  | SProxy _ | STime _ | SDeploy (EStart _) => True
  | SDeploy (EBackground _ o) => match o with RMgr.MTick _ | RMgr.MRecv _ => True | _ => False end
  | SDeploy _ => False
  end.
Lemma sysok_later y s x x' : sysok y x → later (world_of y) s → wok s x' → sysok (Sys s (proxies y)) x'.
Proof. intros [_ Hp] Hl Hs. split; [done|]. intros name p Hn. by eapply proxy_later, Hp. Qed.
Lemma do_deploy_ok y x pfuel e : sysok y x → sevent_ok (SDeploy e) →
  ∃ o y' x', do_sevent getter (S fuel) (S pfuel) (SDeploy e) y = Done (o, y') ∧
    spec_sevent getter x (SDeploy e) o x' ∧ sysok y' x'.
Proof.
  intros Hy He. pose proof (so_world _ _ Hy) as Hs. destruct (dok_cok _ _ _ _ (w_dep _ _ Hs)) as (x1 & Hf & Hc).
  destruct e as [? ?|?|addr|addr o]; [done|done|..]; cbn [do_sevent do_event].
  - destruct (nodes (services (world_of y)) !! addr) eqn:Hn.
    { exists None, y, x. split; [by destruct y|]. split; [by apply (ss_other _ _ x)|done]. }
    destruct (start_ok (services (world_of y)) x1 addr Hc Hn) as (c' & -> & Hetcd & Hdom & Hc').
    assert (Hsame : DashFacts.same (etcd (services (world_of y))) (etcd c'))
      by (rewrite Hetcd; split; [apply Hc|done]).
    destruct (wok_cluster _ x c' _ Hs Hsame Hc') as [Hs' Hl]; [rewrite Hdom; set_solver|].
    do 3 eexists. split; [done|]. split; [|eapply sysok_later; [exact Hy|exact Hl|eassumption]].
    apply ss_other; [|done]. destruct Hf as (Hh & Hu & Hse). split_and!; [done|done|].
    simpl. intros b u a t. case_decide; [done|apply Hse].
  - destruct (nodes (services (world_of y)) !! addr) as [n|] eqn:Hn.
    + destruct (background_ok (services (world_of y)) x1 addr n o Hc Hn He) as (c' & -> & Hc' & Hsame & Hdom).
      destruct (wok_cluster _ x c' _ Hs Hsame Hc') as [Hs' Hl]; [by rewrite Hdom|].
      do 3 eexists. split; [done|]. split; [by apply (ss_other _ _ x1)|eapply sysok_later; [exact Hy|exact Hl|eassumption]].
    + unfold background. rewrite Hn. exists None, y, x.
      split; [by destruct y|]. split; [by apply (ss_other _ _ x)|done].
Qed.
Lemma do_sevent_ok y x pfuel e : sysok y x → sevent_ok e →
  ∃ o y' x', do_sevent getter (S fuel) (S pfuel) e y = Done (o, y') ∧
    spec_sevent getter x e o x' ∧ sysok y' x'.
Proof.
  intros Hy He. destruct e as [name peer q|name|d|e]; [..|by apply do_deploy_ok]; cbn [do_sevent].
  - destruct (proxies y !! name) as [p|] eqn:Hn; [|by exists None, y, x; split_and!; [|constructor|]].
    destruct (proxied_ok (world_of y) x p peer pfuel q (so_world _ _ Hy) (so_proxy _ _ Hy _ _ Hn) He)
      as (ep & a & p' & s' & x1 & Hd & -> & Hf & Hs' & Hl & Hp').
    rewrite Hd. do 3 eexists. split; [done|]. split; [by apply ss_answered|]. split; [done|]. simpl.
    intros n1 p1 [[<- <-]|[_ Hn1]]%lookup_insert_Some; [by destruct p'|]. by eapply proxy_later, Hy.
  - do 3 eexists. split; [done|]. split; [by apply (ss_other _ _ x)|]. split; [apply Hy|]. simpl.
    intros n1 p1 [[<- <-]|[_ Hn1]]%lookup_insert_Some; [apply fresh_proxy|by eapply Hy].
  - pose proof (wok_healthy _ _ (so_world _ _ Hy)) as Hh.
    destruct (time_only d (etcd (services (world_of y)))) as [Hk Hw].
    destruct (wok_etcd _ _ (set_etcd (services (world_of y)) (Sleep d (etcd (services (world_of y)))))
      (so_world _ _ Hy)) as (x1 & Hf & Hs1 & Hl); [done|by apply Hw|done|].
    do 3 eexists. split; [done|]. split; [by apply (ss_other _ _ x1)|eapply sysok_later; [exact Hy|exact Hl|eassumption]].
Qed.
Lemma do_sevents_ok pfuel es : ∀ y x, sysok y x → Forall sevent_ok es →
  ∃ os y' x', do_sevents getter (S fuel) (S pfuel) es y = Done (os, y') ∧
    spec_sevents getter x es os x' ∧ sysok y' x'.
Proof.
  induction es as [|e es IH]; intros y x Hy Hes.
  { exists [], y, x. split; [done|]. split; [constructor|done]. }
  apply Forall_cons in Hes as [He Hes].
  destruct (do_sevent_ok y x pfuel e Hy He) as (o & y1 & x1 & Hd & Hsp & Hy1).
  destruct (IH y1 x1 Hy1 Hes) as (os & y2 & x2 & Hd2 & Hsp2 & Hy2).
  exists (o :: os), y2, x2. split; [|split; [by econstructor|done]]. cbn [do_sevents]. rewrite Hd. simpl.
  by rewrite Hd2.
Qed.
End facts.
End SystemFacts.

(** ** Theorems about the whole system *)
Module SystemTheorems.
Import Cluster System SystemFacts.
Section theorems.
Context {W T : Type} `{EtcdLaws W} `{Clock W}.
Variable getter : string → T → result (string * string) * T.
Hypothesis salted : ∀ uid t salt p t', getter uid t = (Ok (salt, p), t') → salt ≠ "".
Hypothesis quiet : ∀ w : W, cli_Sleep w = w.
Hypothesis time_only : ∀ d (w : W), kvs (Sleep d w) = kvs w ∧ (healthy w → healthy (Sleep d w)).

(** C3. Proxies are transparent while the ring stands still.  In front of a
    deployment whose users are where the ring wants them, whose ring names servers
    that run and whose dash is the leader, any number of proxies with whatever they
    have cached answer every request with the answer of a search server for the
    client's real address, over one history per user, while servers and proxies
    start, time passes and the recorders' goroutines run; every call returns. *)
Theorem proxies_are_transparent fuel pfuel y (x : cspec T) es :
  sysok getter quiet y x → Forall sevent_ok es →
  ∃ os y' x', do_sevents getter (S fuel) (S pfuel) es y = Done (os, y') ∧ spec_sevents getter x es os x'.
Proof.
  intros Hy Hes.
  destruct (do_sevents_ok getter salted quiet time_only fuel pfuel es y x Hy Hes) as (os & y' & x' & ? & ? & _).
  by exists os, y', x'.
Qed.
End theorems.

(** *** A system in which it holds *)
Import MemEtcd.
#[local] Existing Instance ProxyTheorems.still_clock.
Definition ex_server : string := "[::]:8083".
Definition ex_etcd : mem := Mem {[DashLeaderKey := (Elect.info_String Elect.ex_info, 0)]} ∅ [].
Definition ex_bare : cluster mem nat := MkCluster ∅ ex_etcd 0%nat.
Lemma ex_bare_ok : cok ex_bare (CSpec (λ _ _ _, None) (λ _, []) 0%nat).
Proof.
  split; simpl; try done; [|by intros id; repeat constructor].
  intros id Hid _. rewrite (etcd_stored_ext DeploymentTheorems.ex_mem); [by left|].
  trans (None : option (string * Z)); [|done]. apply lookup_singleton_ne. intros Heq.
  apply (path_not_dash id Hid). rewrite <- Heq. by vm_compute.
Qed.
Definition ex_proxies : gmap string proxy := {["p1" := MkProxy ∅ 0 ∅ ∅; "p2" := MkProxy ∅ 0 ∅ ∅]}.
Lemma ex_system : ∃ y : system mem nat, proxies y = ex_proxies ∧
  ∃ x : cspec nat, (∀ uid, c_hist x uid = []) ∧ sysok AuthTheorems.ex_table DeploymentTheorems.mem_quiet y x.
Proof.
  destruct (start_ok _ _ ex_server ex_bare_ok) as (c & Hst & Hetcd & Hdom & Hc); [done|].
  destruct RingTheorems.ex_add as (r & _ & Hok & Hin & Hv & _).
  exists (Sys (DS r ∅ ∅ ∅ ∅ c) ex_proxies). split; [done|]. eexists. split; cycle 1.
  - split; cycle 1.
    + intros name p. unfold ex_proxies. simpl.
      intros [[_ <-]|[_ [_ <-]%lookup_singleton_Some]]%lookup_insert_Some; apply fresh_proxy.
    + assert (Hh : ∀ uid, DashFacts.endpoint_of (kvs (etcd c)) uid = None).
      { intros uid. rewrite Hetcd. unfold DashFacts.endpoint_of. simpl.
        rewrite lookup_singleton_ne; [done|]. rewrite DashFacts.ep_key_eq. discriminate. }
      split; simpl.
      * apply dok_intro; simpl; try done; [by rewrite Hetcd|by rewrite Hetcd| |
          by rewrite Hin; apply non_empty_singleton_L|..].
        -- split.
           ++ intros uid ep _ _. rewrite Hh. rewrite Hetcd. simpl.
              rewrite lookup_singleton_ne; [split; [done|by intros []]|].
              rewrite DashFacts.uids_key_eq. discriminate.
           ++ intros uid ep _. by rewrite Hh.
           ++ intros k. rewrite Hetcd. simpl. intros [? [<- _]%lookup_singleton_Some]. by vm_compute.
        -- intros a. rewrite Hin. by intros ->%elem_of_singleton.
        -- by rewrite Hv.
      * exists Elect.ex_info, 0. rewrite Hetcd. simpl. split; [apply lookup_singleton_eq|done].
      * intros uid ep _. unfold homes, home. simpl. by rewrite Hh.
      * intros a. rewrite Hin, Hdom. set_solver.
  - done.
Qed.
Definition ex_login : ProxyConc.request := ProxyConc.QLogin (MkLoginRequest "alice" "secret" "").
Definition ex_peer : string := "1.2.3.4:5".
Definition ex_token : string := Auth.genToken "alice" [ex_peer].
Definition ex_upload (c : string) : ProxyConc.request := ProxyConc.QUpload (MkUploadRequest "alice" c ex_token "").
Definition ex_search (c : string) : ProxyConc.request := ProxyConc.QSearch (MkSearchRequest "alice" c ex_token "").
Definition ex_events : list sevent :=
  [SRequest "p1" ex_peer ex_login; SRequest "p2" ex_peer (ex_upload "ls -la"); SProxy "p3"; STime 31000000000;
   SDeploy (EStart "[::]:8090"); SDeploy (EBackground ex_server (RMgr.MTick "alice"));
   SRequest "p3" ex_peer (ex_search "ls")].
Lemma mem_time d (w : mem) : kvs (Sleep d w) = kvs w ∧ (healthy w → healthy (Sleep d w)).
Proof. done. Qed.
Lemma proxies_are_transparent_witness :
  ∃ y : system mem nat, proxies y = ex_proxies ∧ ∃ x : cspec nat, (∀ uid, c_hist x uid = []) ∧
  ∃ os y' x', do_sevents AuthTheorems.ex_table 1 1 ex_events y = Done (os, y') ∧
    spec_sevents AuthTheorems.ex_table x ex_events os x'.
Proof.
  destruct ex_system as (y & Hp & x & Hx & Hy). exists y. split; [exact Hp|]. exists x. split; [exact Hx|].
  apply (proxies_are_transparent AuthTheorems.ex_table ServerTheorems.ex_salted DeploymentTheorems.mem_quiet
    mem_time 0 0 y x); [exact Hy|]. by repeat constructor.
Defined.

(** *** A system in which the ring changes *)
Definition ex_ring (a : string) : hashRing :=
  match HashRing.NewHashRing 4 1 with
  | Ok r => match HashRing.AddNode 10 r a with Some (_, r) => r | None => r end
  | Err _ => HR ∅ [] ∅ 0 0
  end.
Definition ex_node : node mem := Node ∅ (RM (MkLru ∅ GoList.New RMgr.defaultRecorderNum) RMgr.zero) ∅ 0.
Definition ex_other : string := "[::]:8090".
Definition ex_two : system mem nat :=
  Sys (DS (ex_ring ex_server) ∅ ∅ ∅ ∅ (MkCluster {[ex_server := ex_node; ex_other := ex_node]} ex_etcd 0%nat))
    ex_proxies.
(** The ring moves alice to the other server; "p2" learns it, "p1" has the old
    server in its cache. *)
Definition ex_moved : list sevent :=
  [SRequest "p1" ex_peer ex_login; SRequest "p1" ex_peer (ex_upload "ls -la"); SDeploy (ERing (ex_ring ex_other));
   SRequest "p2" ex_peer ex_login; SRequest "p2" ex_peer (ex_upload "pwd");
   SRequest "p1" ex_peer ex_login; SRequest "p1" ex_peer (ex_upload "make install");
   SDeploy (EBackground ex_server (RMgr.MTick "alice")); SDeploy (EBackground ex_other (RMgr.MTick "alice"));
   SRequest "p2" ex_peer (ex_search "make"); SRequest "p2" ex_peer (ex_search "pwd")].

(** What the clients see of a run, and what is stored of alice's history in the
    end. *)
Definition stored_history (y : system mem nat) : option (list string) :=
  Json.Unmarshal (etcd_stored (etcd (services (world_of y))) (RMgrRefine.path "alice")).
Definition observed (r : outcome (list (option Server.response) * system mem nat)) :=
  match r with Done (os, y) => Some (os !! 6%nat, os !! 9%nat, os !! 10%nat, stored_history y) | _ => None end.
Lemma ex_observed : observed (do_sevents AuthTheorems.ex_table 1 1 ex_moved ex_two) =
  Some (Some (Some (Server.AUpload (Some (MkUploadResponse "" 200), None))),
        Some (Some (Server.ASearch (Some (MkSearchResponse [] 200), None))),
        Some (Some (Server.ASearch (Some (MkSearchResponse ["pwd"] 200), None))),
        Some ["pwd"; "ls -la"]).
Proof. vm_compute. reflexivity. Qed.

End SystemTheorems.
