(* ===== verification/Boot.v ===== *)
(** * From an empty etcd to a system that serves

    The processes of the system start in any order, with the functions of Start.v:
    search servers and proxies listen, register and serve; a dash makes its ring,
    reads the registry and watches it, and elects itself.  Module [Boot] is that; the
    theorem is that once the dash leads and has handled what it was told of the
    registry, the system serves as System.v promises, over empty histories. *)

From S2P Require Import Prelude GoStr Json JsonObj Etcd Elect Lru Recorder RecorderMgr HashRing.
From S2P Require Import EventCtl Auth Proto Caches Server Dash Registry Proxy ProxyConc Start Cluster System.
Import JsonObj RMgrSpec ServerSpec ClusterFacts Deployment.
#[local] Open Scope Z_scope.

(** The processes; what the controller of the dash, once it runs, has been sent and
    has not handled; the lease of its elector. *)
Record boot (W T : Type) := MkBoot {
  sys : system W T;
  queue : option (list (Event Sucker.EtcdSuckerEventObj));
  lease : option Z;
}.
Arguments MkBoot {W T} _ _ _.
Arguments sys {W T} _.
Arguments queue {W T} _.
Arguments lease {W T} _.

Module Boot.
Import Cluster System Sucker.
Section boot.
Context {W T : Type} `{EtcdClient W} `{Clock W} `{Net W}.
Implicit Types (y : system W T) (b : boot W T).

Definition etcd_of y : W := etcd (services (world_of y)).
Definition servers y : gset string := dom (nodes (services (world_of y))).
Definition with_services y (c : cluster W T) : system W T := Sys (with_cluster (world_of y) c) (proxies y).
Definition with_etcd y (w : W) : system W T := with_services y (set_etcd (services (world_of y)) w).
Definition lift_system {A} (f : W → A * W) y : A * system W T :=
  ((f (etcd_of y)).1, with_etcd y (f (etcd_of y)).2).
#[export] Instance system_client : EtcdClient (system W T) := {|
  cli_Put k v l := lift_system (cli_Put k v l);
  cli_Get k := lift_system (cli_Get k);
  cli_GetPrefix p := lift_system (cli_GetPrefix p);
  cli_DeletePrefix p := lift_system (cli_DeletePrefix p);
  cli_Txn cond ops := lift_system (cli_Txn cond ops);
  cli_Grant ttl := lift_system (cli_Grant ttl);
  cli_Revoke id := lift_system (cli_Revoke id);
  cli_KeepAlive id := lift_system (cli_KeepAlive id);
  cli_Sleep y := with_etcd y (cli_Sleep (etcd_of y));
|}.

(** A proxy's variables at its start: those of the package and its two managers. *)
Definition NewProxyServer : proxy := MkProxy ∅ 0 ∅ ∅.
(** Those of a dash process, with the ring [init] makes. *)
Definition NewDashServer (r : hashRing) (c : cluster W T) : dep_state := DS r ∅ ∅ ∅ ∅ c.
(** [s.Serve(lis)]: from now on a new process answers at the address.  What [Serve]
    returns, when the process ends, is not looked at. *)
Definition serve (addr : string) (ss : list service) y : system W T :=
  match ss with
  | [SearchService; ServerController] =>
    match Cluster.start addr (services (world_of y)) with Done c => with_services y c | _ => y end
  | [ProxyController; SearchService] => Sys (world_of y) (<[addr := NewProxyServer]> (proxies y))
  | _ => y
  end.
#[export] Instance system_net : Net (system W T) := {|
  listener := listener (W := W);
  net_Listen port := lift_system (net_Listen port);
  Addr := Addr;
  LoadTLS crt key := lift_system (LoadTLS crt key);
  Serve lis ss y := (Ok tt, serve (Addr lis) ss y);
|}.

(** What the sucker reads, and what the watch of etcd adds when the content of the
    registry changed from that of [y] to that of [y']: the new keys. *)
Definition registry y : list EtcdSuckerEventObj :=
  match (cli_GetPrefix ServerRegistryPrefix y).1 with
  | Ok l => (λ kv, MkObj kv.1 kv.2) <$> l
  | Err _ => []
  end.
Definition watch y y' : list WatchEvent :=
  MkWatch 0 true <$> filter (λ o, Sucker.Key o ∉ (Sucker.Key <$> registry y)) (registry y').

(** [main] of mysh-dash: [NewDashController], [DashServer.Run] with its goroutine
    [Elect], up to where each waits. *)
Definition start_dash b : outcome (boot W T) :=
  run r <- DashController.init ;;
  let y := Sys (NewDashServer r (services (world_of (sys b)))) (proxies (sys b)) in
  match Start.main_dash y with
  | (Err _, y) => Done (MkBoot y None None)
  | (Ok _, y) =>
    let '(l, y) := cli_Grant Start.dash_ttl y in
    Done (MkBoot y (Some (GetSucker (Ok (registry y)) [])) (match l with Ok l => Some l | Err _ => None end))
  end.

(** What happens while the system comes up.  All events of the registry are
    additions, so the controller handles them in order. *)
Inductive bevent :=
  | BServer (port : Z)        (* a search server starts *)
  | BProxy (port : Z)
  | BDash                     (* a dash starts, in place of the one before *)
  | BElect (now : time)       (* a round of its election *)
  | BHandle                   (* its controller handles an event *)
  | BTime (d : Z).
Definition do_bevent (e : bevent) b : outcome (boot W T) :=
  let y := sys b in
  match e with
  | BServer port =>
    let y' := (Start.RunSearchService port y).2 in
    Done (MkBoot y' ((λ q, q ++ (of_watch <$> watch y y')) <$> queue b) (lease b))
  | BProxy port => Done (MkBoot (Start.RunProxyService port y).2 (queue b) (lease b))
  | BDash => start_dash b
  | BElect now =>
    match lease b with
    | None => Done b
    | Some l =>
      match Elect.elect_round DashLeaderKey DashAddr Start.dash_ttl l now y with
      | (Ok _, y') => Done (MkBoot y' (queue b) (Some l))
      | (Err _, y') => Done (MkBoot y' (queue b) None)
      end
    end
  | BHandle =>
    match queue b with
    | Some (e :: q) =>
      match DashController.deal RingProbe.probe_bound e (hr (world_of y)) with
      | Some r => Done (MkBoot (Sys (with_ring (world_of y) r) (proxies y)) (Some q) (lease b))
      | None => Block
      end
    | _ => Done b
    end
  | BTime d => Done (MkBoot (with_etcd y (Sleep d (etcd_of y))) (queue b) (lease b))
  end.
Fixpoint do_bevents (es : list bevent) b : outcome (boot W T) :=
  match es with [] => Done b | e :: es => run b <- do_bevent e b ;; do_bevents es b end.
(** Nothing runs. *)
Definition nothing (r : hashRing) (w : W) (t : T) : boot W T :=
  MkBoot (Sys (NewDashServer r (MkCluster ∅ w t)) ∅) None None.
End boot.

Definition ports (es : list bevent) : list Z := omap (λ e, match e with BServer p => Some p | _ => None end) es.
(** The dash has handled what it was sent and a leader is in etcd; a server runs. *)
Definition ready {W T} `{EtcdLaws W} (b : boot W T) : Prop :=
  queue b = Some [] ∧ is_Some (kvs (etcd_of (sys b)) !! DashLeaderKey) ∧ servers (sys b) ≠ ∅.
(** What the network promises: it leaves etcd alone, and the port determines
    the address of a listener, a plain name. *)
Class NetLaws (W : Type) `{EtcdLaws W} `{Net W} := {
  address : string → string;
  address_plain port : GoStr.name_ok (address (Start.colon port)) = true;
  law_Listen port (w : W) : let '(r, w') := net_Listen port w in
    kvs w' = kvs w ∧ (healthy w → healthy w') ∧ ∀ lis, r = Ok lis → Addr lis = address port;
  law_LoadTLS crt key (w : W) : let '(_, w') := LoadTLS crt key w in
    kvs w' = kvs w ∧ (healthy w → healthy w');
}.
End Boot.

(** ** What is in etcd meanwhile *)
Module BootKeys.
(** The keys that are written under /mysh/. *)
Definition boot_key (k : string) : Prop :=
  (∃ a, k = ServerRegistryPrefix +:+ a) ∨ (∃ a, k = ProxyRegistryPrefix +:+ a) ∨ k = DashLeaderKey ∨
  GoStr.HasPrefix k "/mysh/" = false.
Lemma mysh_key r : GoStr.HasPrefix ("/mysh/" +:+ r) "/mysh/" = true.
Proof. apply GoStr.HasPrefix_app. Qed.
Ltac not_boot := intros [[? Heq]|[[? Heq]|[Heq|Heq]]]; [discriminate..|by rewrite mysh_key in Heq].
Lemma ep_not_boot uid : ¬ boot_key (Dash.ep_key uid).
Proof. rewrite DashFacts.ep_key_eq. change (?a +:+ ?b) with ("/mysh/" +:+ ("dash/uid/" +:+ uid +:+ "/endpoint")). not_boot. Qed.
Lemma uids_not_boot ep uid : ¬ boot_key (Dash.uids_key ep uid).
Proof. rewrite DashFacts.uids_key_eq. change (?a +:+ ?b) with ("/mysh/" +:+ ("dash/endpoint/" +:+ ep +:+ "/uids/" +:+ uid)). not_boot. Qed.
Lemma path_not_boot id : GoStr.name_ok id = true → ¬ boot_key (RMgrRefine.path id).
Proof. intros Hid. rewrite RMgrRefine.path_eq by done. change (?a +:+ ?b) with ("/mysh/" +:+ ("data/" +:+ id)). not_boot. Qed.
Lemma lock_not_boot : ¬ boot_key DashEpLock.
Proof. change DashEpLock with ("/mysh/" +:+ "dash/eplock"). not_boot. Qed.
Lemma endpoint_not_boot k : GoStr.HasPrefix k "/mysh/dash/endpoint/" = true → ¬ boot_key k.
Proof.
  intros [r ->]%GoStr.HasPrefix_spec. change (?a +:+ ?b) with ("/mysh/" +:+ ("dash/endpoint/" +:+ r)). not_boot.
Qed.

(** The servers [S] are registered, and if there is a leader it is the dash. *)
Record content (m : gmap string (string * Z)) (S : gset string) : Prop := {
  ct_keys k : is_Some (m !! k) → boot_key k;
  ct_registered a : is_Some (m !! (ServerRegistryPrefix +:+ a)) ↔ a ∈ S;
  ct_plain a : a ∈ S → GoStr.name_ok a = true;
  ct_leader v l : m !! DashLeaderKey = Some (v, l) →
    ∃ e, v = Elect.info_String e ∧ ElectorID e = DashAddr ∧ year_ok (ElectTime e) = true;
}.
Lemma content_empty m : (∀ k, is_Some (m !! k) → GoStr.HasPrefix k "/mysh/" = false) → content m ∅.
Proof.
  intros Hm. split; [by right; right; right; apply Hm| | |].
  - intros a. split; [|set_solver]. intros Hs%Hm.
    change (GoStr.HasPrefix ("/mysh/" +:+ ("server/" +:+ a)) "/mysh/" = false) in Hs. by rewrite mysh_key in Hs.
  - set_solver.
  - intros v l Hl. by specialize (Hm DashLeaderKey (mk_is_Some _ _ Hl)).
Qed.
Lemma content_insert m S S' k v : content m S → boot_key k →
  (∀ a, a ∈ S' ↔ a ∈ S ∨ k = ServerRegistryPrefix +:+ a) → (∀ a, a ∈ S' → GoStr.name_ok a = true) →
  (k = DashLeaderKey →
    ∃ e, v.1 = Elect.info_String e ∧ ElectorID e = DashAddr ∧ year_ok (ElectTime e) = true) →
  content (<[k := v]> m) S'.
Proof.
  intros [Hk Hr Hp Hl] Hb HS Hp' Hl'. split; [|..|done|].
  - intros k' [? [[<- _]|[_ ?]]%lookup_insert_Some]; [done|by apply Hk].
  - intros a. rewrite HS, <- Hr. destruct (decide (k = ServerRegistryPrefix +:+ a)) as [->|Hne].
    + rewrite lookup_insert_eq. split; [by right|by eexists].
    + rewrite lookup_insert_ne by done. naive_solver.
  - intros w l [[-> ->]|[_ ?]]%lookup_insert_Some; [by apply Hl'|by eapply Hl].
Qed.
Lemma content_server m S a v : content m S → GoStr.name_ok a = true →
  content (<[ServerRegistryPrefix +:+ a := v]> m) ({[a]} ∪ S).
Proof.
  intros Hm Ha. apply (content_insert m S); [done|left; by eexists| | |done].
  - intros b. rewrite elem_of_union, elem_of_singleton. split; [intros [->|?]; auto|].
    intros [?|Heq]; [by right|]. apply (inj (String.append _)) in Heq. by left.
  - intros b [->%elem_of_singleton|?]%elem_of_union; [done|by apply (ct_plain _ _ Hm)].
Qed.
Lemma content_proxy m S a v : content m S → content (<[ProxyRegistryPrefix +:+ a := v]> m) S.
Proof.
  intros Hm. apply (content_insert m S); [done|right; left; by eexists| |apply Hm|done].
  intros b. split; [by left|]. by intros [?|?].
Qed.
Lemma content_elected m S t ttl l : content m S → year_ok t = true →
  content (<[DashLeaderKey := (Elect.info_String (MkElector DashAddr ttl t l), l)]> m) S.
Proof.
  intros Hm Ht. apply (content_insert m S); [done|by right; right; left| |apply Hm|].
  - intros b. split; [by left|]. by intros [?|?].
  - intros _. by eexists.
Qed.
Lemma content_none m S k : content m S → ¬ boot_key k → m !! k = None.
Proof. intros Hm Hk. apply eq_None_not_Some. by intros ?%(ct_keys _ _ Hm). Qed.
Lemma content_home m S uid : content m S → DashFacts.endpoint_of m uid = None.
Proof.
  intros Hm. unfold DashFacts.endpoint_of. by rewrite (content_none _ _ _ Hm (ep_not_boot uid)).
Qed.
Lemma content_index m S : content m S → DashFacts.index_ok m.
Proof.
  intros Hm. split.
  - intros uid ep _ _. rewrite (content_home m S) by done.
    rewrite (content_none _ _ _ Hm (uids_not_boot ep uid)). split; [done|]. by intros [].
  - intros uid ep _. by rewrite (content_home m S).
  - intros k Hs Hk. by apply endpoint_not_boot in Hk as []; apply (ct_keys _ _ Hm).
Qed.
End BootKeys.

(** ** What the controller of the dash has been sent *)
Module BootQueue.
Import Cluster System Sucker Registry RegistryRing Boot BootKeys.
Section queue.
Context {W T : Type} `{EtcdLaws W} `{Clock W} `{Net W}.
Implicit Types (y : system W T) (S : gset string) (q : list (Event EtcdSuckerEventObj)).
Abbreviation content_of y S := (content (kvs (etcd_of y)) S).

Lemma in_registry y o : healthy (etcd_of y) →
  o ∈ registry y ↔ ∃ a v l, o = server_kv a v ∧ kvs (etcd_of y) !! (ServerRegistryPrefix +:+ a) = Some (v, l).
Proof.
  intros Hh. unfold registry. simpl. pose proof (law_GetPrefix ServerRegistryPrefix (etcd_of y)) as L.
  destruct (cli_GetPrefix ServerRegistryPrefix (etcd_of y)) as [[l|e] w]; destruct L as (_ & _ & Hl & Ho); simpl.
  2:{ by destruct (Ho Hh). }
  destruct (Hl l eq_refl) as [_ Hin]. split.
  - intros ([k v] & -> & Hkv%Hin)%list_elem_of_fmap. destruct Hkv as [[a ->]%GoStr.HasPrefix_spec [n Hn]].
    by exists a, v, n.
  - intros (a & v & n & -> & Hn). apply list_elem_of_fmap. exists (ServerRegistryPrefix +:+ a, v).
    split; [done|]. apply Hin. split; [apply GoStr.HasPrefix_app|by exists n].
Qed.
Lemma registry_about y S t o : healthy (etcd_of y) → content_of y S → o ∈ registry y →
  ∃ a, about (MkEvent t o) a ∧ a ∈ S.
Proof.
  intros Hh Hc (a & v & l & -> & Ha)%in_registry; [|done].
  assert (a ∈ S) as Hin by (apply (ct_registered _ _ Hc); by eexists).
  exists a. split; [|done]. split; [by apply (ct_plain _ _ Hc)|by exists v].
Qed.
Lemma registry_has y S a : healthy (etcd_of y) → content_of y S → a ∈ S → ∃ v, server_kv a v ∈ registry y.
Proof.
  intros Hh Hc Ha. apply (ct_registered _ _ Hc) in Ha as [[v l] Hv].
  exists v. apply in_registry; [done|]. by exists a, v, l.
Qed.

(** Each server is in the ring or will be, and nobody else. *)
Record queue_ok S hr q : Prop := {
  q_fits : fits S hr;
  q_about e : e ∈ q → OPType e = op_add ∧ ∃ a, about e a ∧ a ∈ S;
  q_all a : a ∈ S → a ∈ addedNode hr ∨ ∃ e, e ∈ q ∧ about e a;
}.
Lemma queue_start y S : healthy (etcd_of y) → content_of y S →
  ∃ r, DashController.init = Done r ∧ queue_ok S r (GetSucker (Ok (registry y)) []).
Proof.
  intros Hh Hc.
  destruct (RingFacts.new_ok HashRingSlotNum HashRingVNodeNum) as (r & Hnew & Hok & Hs & Hv & Ha); [done|done|].
  exists r. unfold DashController.init. rewrite Hnew. split; [done|].
  unfold GetSucker. rewrite fmap_nil, app_nil_r. split.
  - split_and!; [done..|]. rewrite Ha. set_solver.
  - intros e (o & -> & Ho)%list_elem_of_fmap. split; [done|]. by apply (registry_about y).
  - intros a HaS. right. destruct (registry_has y S a Hh Hc HaS) as [v Hv'].
    exists (MkEvent op_add (server_kv a v)). split; [by apply list_elem_of_fmap_2|].
    split; [by apply (ct_plain _ _ Hc)|by exists v].
Qed.
Lemma queue_watch y y' S S' hr q : healthy (etcd_of y) → healthy (etcd_of y') → content_of y S →
  content_of y' S' → S ⊆ S' → queue_ok S hr q → queue_ok S' hr (q ++ (of_watch <$> watch y y')).
Proof.
  intros Hh Hh' Hc Hc' Hsub [(Hok & Hs & Hv & Ha) Hab Hall]. split.
  - split_and!; [done..|]. set_solver.
  - intros e [He|He]%elem_of_app; [destruct (Hab e He) as (? & a & ? & ?); set_solver|].
    unfold watch in He. apply list_elem_of_fmap in He as (we & -> & (o & -> & [_ Ho]%list_elem_of_filter)%list_elem_of_fmap).
    split; [done|]. by apply (registry_about y').
  - intros a HaS. destruct (decide (a ∈ S)) as [Hold|Hnew].
    { destruct (Hall a Hold) as [?|(e & ? & ?)]; [by left|]. right. exists e. split; [|done]. set_solver. }
    destruct (registry_has y' S' a Hh' Hc' HaS) as [v Hv']. right.
    exists (of_watch (MkWatch 0 true (server_kv a v))). split.
    + apply elem_of_app. right. unfold watch. do 2 apply list_elem_of_fmap_2. apply list_elem_of_filter. split; [|done].
      intros ([k w] & Hk & (b & v' & l & Ho & Hb)%in_registry)%list_elem_of_fmap; [|done]. simpl in Hk.
      injection Ho as -> ->. apply (inj (String.append _)) in Hk as <-.
      apply Hnew, (ct_registered _ _ Hc). by eexists.
    + split; [by apply (ct_plain _ _ Hc')|by exists v].
Qed.
Lemma queue_handle S hr e q : (base.size S ≤ 128)%nat → queue_ok S hr (e :: q) →
  ∃ hr', DashController.deal RingProbe.probe_bound e hr = Some hr' ∧ queue_ok S hr' q.
Proof.
  intros Hsz [Hf Hab Hall]. destruct (Hab e) as (Ht & a & Hea & Ha); [by left|].
  destruct (deal_ok S hr e a Hsz Hf Hea Ha) as (hr' & Hd & Hf' & Hadd). exists hr'. split; [done|]. split.
  - done.
  - intros e' He'. apply Hab. by right.
  - rewrite Ht in Hadd. simpl in Hadd. rewrite Hadd. intros b Hb.
    destruct (Hall b Hb) as [?|(e' & [->|He']%elem_of_cons & Hb')]; [left; set_solver|left|right; by exists e'].
    rewrite (RegistryEvents.about_unique e b a) by done. set_solver.
Qed.
Lemma queue_done S hr : queue_ok S hr [] → addedNode hr = S.
Proof.
  intros [(_ & _ & _ & Hsub) _ Hall]. apply set_eq. intros a. split; [apply Hsub|].
  intros Ha. destruct (Hall a Ha) as [?|(e & ?%not_elem_of_nil & _)]; done.
Qed.
End queue.
End BootQueue.

(** ** The invariant while the system comes up *)
Module BootFacts.
Import Cluster System Sucker Boot BootKeys BootQueue.
Section facts.
Context {W T : Type} `{HL : EtcdLaws W} `{Clock W} `{HN : Net W} `{!NetLaws W}.
Hypothesis quiet : ∀ w : W, cli_Sleep w = w.
Hypothesis time_only : ∀ d (w : W), kvs (Sleep d w) = kvs w ∧ (healthy w → healthy (Sleep d w)).
Variable t : T.
Implicit Types (y : system W T) (b : boot W T) (w : W).

(** Every port is free. *)
Definition opens : Prop := ∀ port (w : W), is_ok (net_Listen port w).1 = true.
(** No sessions, no commands. *)
Definition empty_spec : cspec T := CSpec (λ _ _ _, None) (λ _, []) t.
Record up y : Prop := {
  up_healthy : healthy (etcd_of y);
  up_content : content (kvs (etcd_of y)) (servers y);
  up_cluster : cok (services (world_of y)) empty_spec;
  up_dash : world_of y = NewDashServer (hr (world_of y)) (services (world_of y));
  up_proxies n p : proxies y !! n = Some p → p = NewProxyServer;
}.
Record booting b : Prop := {
  bo_up : up (sys b);
  bo_queue q : queue b = Some q → queue_ok (servers (sys b)) (hr (world_of (sys b))) q;
  bo_lease l : lease b = Some l → l ≠ 0;
}.

Lemma cok_boot c c' S S' : cok c empty_spec → only_etcd c c' → healthy (etcd c') →
  content (kvs (etcd c)) S → content (kvs (etcd c')) S' → cok c' empty_spec.
Proof.
  intros Hc Ho Hw Hk Hk'. apply (cok_same_keys c); [done..| |].
  - intros id. unfold home. by rewrite (content_home _ S'), (content_home _ S).
  - intros id Hid. by rewrite (content_none _ S'), (content_none _ S) by (done || by apply path_not_boot).
Qed.
Lemma up_with y c : up y → healthy (etcd c) → content (kvs (etcd c)) (dom (nodes c)) → cok c empty_spec →
  up (with_services y c).
Proof.
  intros [] Hh Hk Hc. split; [done..| |done]. simpl. by rewrite up_dash0.
Qed.
Lemma up_etcd y w : up y → healthy w → content (kvs w) (servers y) → up (with_etcd y w).
Proof.
  intros Hy Hw Hk. apply up_with; [done..|].
  by apply (cok_boot (services (world_of y)) _ (servers y) (servers y)); [apply Hy|done..|apply Hy|].
Qed.
Lemma up_kvs y w : up y → healthy w → kvs w = kvs (etcd_of y) → up (with_etcd y w).
Proof. intros Hy Hw Hk. apply up_etcd; [done..|]. rewrite Hk. apply Hy. Qed.
Lemma up_serve_proxy y a : up y → up (serve a [ProxyController; SearchService] y).
Proof.
  intros []. split; try done. simpl. by intros n p [[_ <-]|[_ ?%up_proxies0]]%lookup_insert_Some.
Qed.
Lemma up_ring y r : up y → up (Sys (with_ring (world_of y) r) (proxies y)).
Proof. intros []. split; try done. simpl. by rewrite up_dash0. Qed.
(** A registered server that begins to serve. *)
Lemma up_serve_server y w a v : up y → a ∉ servers y → GoStr.name_ok a = true → healthy w →
  kvs w = <[ServerRegistryPrefix +:+ a := v]> (kvs (etcd_of y)) →
  ∃ y', serve a [SearchService; ServerController] (with_etcd y w) = y' ∧ up y' ∧
    servers y' = {[a]} ∪ servers y ∧ hr (world_of y') = hr (world_of y).
Proof.
  intros Hy Ha Hp Hw Hk. pose proof (content_server _ _ a v (up_content _ Hy) Hp) as Hc'. rewrite <- Hk in Hc'.
  assert (Hc : cok (set_etcd (services (world_of y)) w) empty_spec)
    by (eapply (cok_boot (services (world_of y))); [apply Hy|done|done|apply Hy|exact Hc']).
  destruct (start_ok _ _ a Hc) as (c' & Hst & He & Hd & Hc1); [by apply not_elem_of_dom|].
  unfold serve. change (services (world_of (with_etcd y w))) with (set_etcd (services (world_of y)) w).
  rewrite Hst.
  eexists. split; [done|]. split; [|by split].
  change (with_services (with_etcd y w) c') with (with_services y c'). apply up_with; [done|by rewrite He|..].
  - rewrite He, Hd. exact Hc'.
  - eapply cok_ext; [exact Hc1| |done|done]. intros b u d. simpl. by case_decide.
Qed.

(** *** The functions of Start.v *)
Lemma Serve_eq lis ss y : Serve lis ss y = (Ok tt, serve (Addr (W := system W T) lis) ss y).
Proof. done. Qed.
Lemma system_Register dir k y : Etcd.Register dir k y = lift_system (Etcd.Register dir k) y.
Proof.
  unfold Etcd.Register, lift_system. simpl. unfold lift_system. simpl.
  destruct (cli_Grant Etcd.LeaseTTL (etcd_of y)) as [[id|e] w1]; [|done]. simpl.
  change (etcd_of (with_etcd y w1)) with w1. destruct (cli_Put _ _ _ w1) as [r w2]. simpl.
  change (etcd_of (with_etcd (with_etcd y w1) w2)) with w2. by destruct (cli_KeepAlive id w2).
Qed.
Lemma listen_up port y : up y →
  let r := Start.listen port y in up r.2 ∧ r.2 = with_etcd y (etcd_of r.2) ∧
    (∀ lis, r.1 = Ok lis → Addr lis = address port) ∧ (opens → is_ok r.1 = true).
Proof.
  intros Hy. unfold Start.listen. simpl. unfold lift_system.
  pose proof (law_Listen port (etcd_of y)) as L. pose proof (λ Ho : opens, Ho port (etcd_of y)) as Ho.
  destruct (net_Listen port (etcd_of y)) as [[lis|e] w]; destruct L as (Hk & Hh & Ha); simpl in *;
    (split; [apply up_kvs; [done|by apply Hh, Hy|done]|]); (split; [done|]); (split; [|done]); [|done].
  intros l [= ->]. by apply Ha.
Qed.
Lemma Register_up dir y a : up y → GoStr.name_ok a = true →
  dir = ["mysh"; "server"] ∨ dir = ["mysh"; "proxy"] →
  ∃ w v, Etcd.Register (GoStr.absdir dir) a y = (Ok tt, with_etcd y w) ∧ healthy w ∧
    kvs w = <[GoStr.absdir dir +:+ a := v]> (kvs (etcd_of y)).
Proof.
  intros Hy Ha Hdir.
  destruct (StartFacts.Register_healthy dir a (etcd_of y)) as (id & w & Hr & Hh & _ & Hk);
    [by destruct Hdir as [-> | ->]|destruct Hdir as [-> | ->]; by repeat constructor|done|apply Hy|].
  exists w, (GoStr.Itoa id, id). rewrite system_Register. unfold lift_system. rewrite Hr. by split.
Qed.
Lemma server_starts y port : up y → address (Start.colon port) ∉ servers y →
  let y' := (Start.RunSearchService port y).2 in up y' ∧ hr (world_of y') = hr (world_of y) ∧
    (servers y' = servers y ∨ servers y' = {[address (Start.colon port)]} ∪ servers y) ∧
    (opens → servers y' = {[address (Start.colon port)]} ∪ servers y).
Proof.
  intros Hy Ha. unfold Start.RunSearchService.
  destruct (listen_up (Start.colon port) y Hy) as (Hy1 & He & Hlis & Hopen).
  destruct (Start.listen (Start.colon port) y) as [[lis|e] y1]; cbn [fst snd] in *;
    [|split; [done|]; rewrite He; split; [done|]; split; [by left|by intros ?%Hopen]].
  specialize (Hlis lis eq_refl). unfold Start.register_and_serve. rewrite Hlis.
  pose proof (address_plain port) as Hp.
  destruct (Register_up ["mysh"; "server"] y1 _ Hy1 Hp) as (w & v & Hr & Hh & Hk); [by left|].
  change (GoStr.absdir ["mysh"; "server"]) with ServerRegistryPrefix in *. rewrite Hr.
  assert (Hs : servers y1 = servers y) by (by rewrite He).
  destruct (up_serve_server y1 w _ v Hy1 ltac:(by rewrite Hs) Hp Hh Hk) as (y2 & Hsv & Hy2 & Hs2 & Hhr).
  rewrite Serve_eq, Hlis. cbn [snd]. rewrite Hsv. split; [done|].
  rewrite Hs2, Hhr, Hs, He. split; [done|]. by split; [right|].
Qed.
Lemma proxy_starts y port : up y →
  let y' := (Start.RunProxyService port y).2 in
  up y' ∧ hr (world_of y') = hr (world_of y) ∧ servers y' = servers y.
Proof.
  intros Hy. unfold Start.RunProxyService.
  destruct (listen_up (Start.colon port) y Hy) as (Hy1 & He & Hlis & Hopen).
  destruct (Start.listen (Start.colon port) y) as [[lis|e] y1]; cbn [fst snd] in *;
    [|split; [done|]; by rewrite He].
  unfold Start.with_tls. simpl. unfold lift_system. simpl.
  pose proof (law_LoadTLS Auth.Crt Start.Key (etcd_of y1)) as L.
  destruct (LoadTLS Auth.Crt Start.Key (etcd_of y1)) as [r w]. destruct L as [Hk Hh]. simpl.
  assert (Hy2 : up (with_etcd y1 w)) by (apply up_kvs; [done|by apply Hh, Hy1|done]).
  assert (Hs : hr (world_of (with_etcd y1 w)) = hr (world_of y) ∧ servers (with_etcd y1 w) = servers y)
    by (by rewrite He).
  revert Hy2 Hs. generalize (with_etcd y1 w). intros y2 Hy2 [Hhr Hs]. destruct r as [[]|e]; [|done].
  unfold Start.register_and_serve. rewrite (Hlis lis eq_refl).
  destruct (Register_up ["mysh"; "proxy"] y2 (address (Start.colon port)) Hy2) as (w2 & v & Hr & Hh2 & Hk2);
    [apply address_plain|by right|].
  change (GoStr.absdir ["mysh"; "proxy"]) with ProxyRegistryPrefix in *. rewrite Hr.
  rewrite Serve_eq, (Hlis lis eq_refl). split; [|by split]. apply up_serve_proxy, up_etcd; [done..|].
  rewrite Hk2. apply content_proxy, Hy2.
Qed.

(** *** The dash *)
Lemma system_elect key id ttl l now y :
  Elect.elect_round key id ttl l now y = lift_system (Elect.elect_round key id ttl l now) y.
Proof.
  unfold Elect.elect_round, lift_system. simpl. unfold lift_system. simpl.
  change (etcd_of (with_etcd y (cli_Sleep (etcd_of y)))) with (cli_Sleep (etcd_of y)).
  destruct (cli_KeepAlive l (cli_Sleep (etcd_of y))) as [r1 w1]. simpl.
  change (etcd_of (with_etcd (with_etcd y _) w1)) with w1. by destruct (cli_Txn _ _ w1) as [[c|e] w2].
Qed.
Lemma round_healthy key id ttl l now w : healthy w → healthy (Elect.elect_round key id ttl l now w).2.
Proof.
  intros Hw. unfold Elect.elect_round. rewrite quiet. pose proof (law_KeepAlive l w) as L.
  destruct (cli_KeepAlive l w) as [r1 w1]. destruct L as (_ & _ & Hh1). destruct (Hh1 Hw) as [Hw1 _].
  set (ops := [_]). pose proof (law_Txn (Some key) ops w1) as L.
  destruct (cli_Txn (Some key) ops w1) as [r2 w2]. destruct L as (_ & _ & Hh2).
  destruct (Hh2 Hw1) as [Hw2 _]. by destruct r2.
Qed.
Lemma elect_up y l now : up y → l ≠ 0 → year_ok now = true →
  let r := Elect.elect_round DashLeaderKey DashAddr Start.dash_ttl l now y in
  up r.2 ∧ hr (world_of r.2) = hr (world_of y) ∧ servers r.2 = servers y ∧
  (l ∈ live (etcd_of y) → is_Some (kvs (etcd_of r.2) !! DashLeaderKey)).
Proof.
  intros Hy Hl Hnow. rewrite system_elect. unfold lift_system. cbn [fst snd].
  pose proof (round_healthy DashLeaderKey DashAddr Start.dash_ttl l now _ (up_healthy _ Hy)) as Hh.
  pose proof (Electors.round_spec DashLeaderKey Start.dash_ttl quiet DashAddr l now (etcd_of y)) as Hr.
  pose proof (Electors.round_wins DashLeaderKey Start.dash_ttl quiet DashAddr l now (etcd_of y) (up_healthy _ Hy)) as Hwin.
  destruct (Elect.elect_round _ _ _ _ _ (etcd_of y)) as [r w]. cbn [snd] in *.
  destruct (Hr r w eq_refl Hl) as [_ Hk]. split_and!; [|done|done|].
  - apply up_etcd; [done..|]. destruct Hk as [-> | (_ & _ & ->)]; [apply Hy|].
    by apply content_elected, Hnow; apply Hy.
  - intros Hlive. change (etcd_of (with_etcd y w)) with w.
    destruct (kvs (etcd_of y) !! DashLeaderKey) as [v|] eqn:Hv.
    + destruct Hk as [-> | (? & _)]; [by eexists|congruence].
    + destruct Hwin as (w' & [= _ <-] & _ & _ & ->); [done..|]. by rewrite lookup_insert_eq.
Qed.
Lemma dash_starts b : booting b →
  ∃ b', start_dash b = Done b' ∧ booting b' ∧ servers (sys b') = servers (sys b) ∧
    (opens → ∃ q l, queue b' = Some q ∧ lease b' = Some l ∧ l ∈ live (etcd_of (sys b'))).
Proof.
  intros [Hy _ _]. unfold start_dash.
  destruct (queue_start (sys b) (servers (sys b)) (up_healthy _ Hy) (up_content _ Hy)) as (r & Hr0 & _). rewrite Hr0.
  cbn [mbind outcome_bind]. set (y0 := Sys _ _).
  assert (Hy0 : up y0) by (destruct Hy; by split).
  unfold Start.main_dash, Start.DashServer_Run.
  destruct (listen_up DashAddr y0 Hy0) as (Hy1 & He & Hlis & Hopen).
  destruct (Start.listen DashAddr y0) as [[lis|e] y1]; cbn [fst snd] in *.
  2:{ eexists. split; [done|]. split; [by split|]. split; [by rewrite He|]. by intros ?%Hopen. }
  rewrite Serve_eq. unfold serve. simpl (cli_Grant Start.dash_ttl y1). unfold lift_system.
  pose proof (law_Grant Start.dash_ttl (etcd_of y1)) as L.
  destruct (cli_Grant Start.dash_ttl (etcd_of y1)) as [l w]. destruct L as (Hk & Hlive & _ & Hok).
  destruct (Hok (up_healthy _ Hy1)) as [Hw Hl]. cbn [fst snd].
  assert (Hy2 : up (with_etcd y1 w)) by (by apply up_kvs).
  assert (Hs : servers (with_etcd y1 w) = servers (sys b)) by (by rewrite He).
  destruct (queue_start (with_etcd y1 w) _ (up_healthy _ Hy2) (up_content _ Hy2)) as (r2 & Hr2 & Hq).
  eexists. split; [done|]. split; [|split; [done|]].
  - split; cbn [sys queue lease]; [done| |].
    + intros q [= <-].
      assert (hr (world_of (with_etcd y1 w)) = r2) as ->; [|done].
      assert (hr (world_of (with_etcd y1 w)) = r) as -> by (by rewrite He). congruence.
    + intros l' Hl'. destruct l as [l0|]; [|done]. injection Hl' as <-. by destruct (Hlive l0 eq_refl).
  - intros _. destruct l as [l0|]; [|done]. eexists _, l0. split; [done|]. split; [done|].
    destruct (Hlive l0 eq_refl) as (_ & _ & Hl0 & _). cbn [sys]. change (etcd_of (with_etcd y1 w)) with w.
    rewrite Hl0. set_solver.
Qed.

(** *** Events *)
Abbreviation taken es := ((λ p, address (Start.colon p)) <$> ports es).
Definition bevent_ok (e : bevent) : Prop := match e with BElect now => year_ok now = true | _ => True end.
Lemma booting_up y' b : booting b → up y' → hr (world_of y') = hr (world_of (sys b)) →
  servers y' = servers (sys b) → booting (MkBoot y' (queue b) (lease b)).
Proof. intros [_ Hq Hl] Hy' Hhr Hs. split; cbn [sys queue lease]; [done| |done]. by rewrite Hs, Hhr. Qed.
Lemma server_event b port : booting b → address (Start.colon port) ∉ servers (sys b) →
  ∃ b', do_bevent (BServer port) b = Done b' ∧ booting b' ∧
    servers (sys b') ⊆ {[address (Start.colon port)]} ∪ servers (sys b) ∧
    (opens → servers (sys b') = {[address (Start.colon port)]} ∪ servers (sys b)).
Proof.
  intros [Hy Hq Hl] Ha. destruct (server_starts _ port Hy Ha) as (Hy' & Hhr & Hs & Ho).
  cbn [do_bevent]. eexists. split; [done|]. cbn [sys].
  assert (servers (sys b) ⊆ servers (Start.RunSearchService port (sys b)).2) by (destruct Hs as [-> | ->]; set_solver).
  split; [|split; [destruct Hs as [-> | ->]; set_solver|done]]. split; cbn [sys queue lease]; [done| |done].
  intros q (q0 & Hq0 & ->)%fmap_Some. rewrite Hhr.
  apply (queue_watch _ _ (servers (sys b))); [apply Hy|apply Hy'|apply Hy|apply Hy'|done|by apply Hq].
Qed.
Lemma handle_event b : booting b → (base.size (servers (sys b)) ≤ 128)%nat →
  ∃ b', do_bevent BHandle b = Done b' ∧ booting b' ∧ servers (sys b') = servers (sys b) ∧
    queue b' = tail <$> queue b ∧ etcd_of (sys b') = etcd_of (sys b).
Proof.
  intros Hb Hsz. cbn [do_bevent]. destruct (queue b) as [[|e q]|] eqn:Hq; [| |].
  1, 3: exists b; rewrite Hq; by split_and!.
  destruct (queue_handle _ _ e q Hsz (bo_queue _ Hb _ Hq)) as (r & -> & Hq'). eexists. split; [done|].
  split; [|done]. destruct Hb as [Hy _ Hl]. split; cbn [sys queue lease]; [by apply up_ring| |done].
  by intros q' [= <-].
Qed.
Lemma elect_event b now : booting b → year_ok now = true →
  ∃ b', do_bevent (BElect now) b = Done b' ∧ booting b' ∧ servers (sys b') = servers (sys b) ∧
    queue b' = queue b ∧
    ∀ l, lease b = Some l → l ∈ live (etcd_of (sys b)) → is_Some (kvs (etcd_of (sys b')) !! DashLeaderKey).
Proof.
  intros Hb Hnow. cbn [do_bevent]. destruct (lease b) as [l|] eqn:Hl; [|by exists b].
  destruct (elect_up (sys b) l now (bo_up _ Hb) (bo_lease _ Hb _ Hl) Hnow) as (Hy' & Hhr & Hs & Hlead).
  destruct (Elect.elect_round _ _ _ _ _ (sys b)) as [[u|e] y']; cbn [fst snd] in *;
    (eexists; split; [done|]; split; [|split; [done|]; split; [done|by intros ? [= <-]]]);
    (split; cbn [sys queue lease]; [done| |]).
  - rewrite Hs, Hhr. apply Hb.
  - intros l' [= <-]. by apply (bo_lease _ Hb).
  - rewrite Hs, Hhr. apply Hb.
  - done.
Qed.
Lemma do_bevent_ok b e : booting b → bevent_ok e → (base.size (servers (sys b)) ≤ 128)%nat →
  (∀ a, a ∈ taken [e] → a ∉ servers (sys b)) →
  ∃ b', do_bevent e b = Done b' ∧ booting b' ∧ servers (sys b') ⊆ list_to_set (taken [e]) ∪ servers (sys b) ∧
    (opens → servers (sys b') = list_to_set (taken [e]) ∪ servers (sys b)).
Proof.
  intros Hb He Hsz Ha. destruct e as [port|port| |now| |d].
  - destruct (server_event b port Hb) as (b' & Hd & Hb' & Hs & Ho); [by apply Ha; left|].
    exists b'. split; [done|]. split; [done|]. simpl. split; [set_solver|]. intros ->%Ho. by rewrite (right_id_L ∅ (∪)).
  - destruct (proxy_starts _ port (bo_up _ Hb)) as (Hy' & Hhr & Hs). cbn [do_bevent]. eexists.
    split; [done|]. split; [by apply booting_up|]. simpl. rewrite Hs, (left_id_L ∅ (∪)). done.
  - destruct (dash_starts b Hb) as (b' & Hd & Hb' & Hs & _). exists b'. rewrite Hs. simpl. by rewrite (left_id_L ∅ (∪)).
  - destruct (elect_event b now Hb He) as (b' & Hd & Hb' & Hs & _). exists b'. rewrite Hs. simpl. by rewrite (left_id_L ∅ (∪)).
  - destruct (handle_event b Hb Hsz) as (b' & Hd & Hb' & Hs & _). exists b'. rewrite Hs. simpl. by rewrite (left_id_L ∅ (∪)).
  - cbn [do_bevent]. eexists. split; [done|]. split; [|simpl; by rewrite (left_id_L ∅ (∪))].
    destruct (time_only d (etcd_of (sys b))) as [Hk Hh].
    apply booting_up; [done| |done..]. apply up_kvs; [apply Hb|by apply Hh, Hb|done].
Qed.
Lemma size_added (l : list string) (X : gset string) :
  (base.size (list_to_set l ∪ X) ≤ length l + base.size X)%nat.
Proof.
  induction l as [|a l IH]; simpl; [by rewrite (left_id_L ∅ (∪))|].
  rewrite <- (assoc_L (∪)), size_union_alt, size_singleton.
  assert (base.size ((list_to_set l ∪ X) ∖ {[a]}) ≤ base.size (list_to_set l ∪ X))%nat
    by (apply subseteq_size; set_solver). lia.
Qed.
Lemma do_bevents_ok es : ∀ b, booting b → Forall bevent_ok es → NoDup (taken es) →
  (∀ a, a ∈ taken es → a ∉ servers (sys b)) → (base.size (servers (sys b)) + length (ports es) ≤ 128)%nat →
  ∃ b', do_bevents es b = Done b' ∧ booting b' ∧ (base.size (servers (sys b')) ≤ 128)%nat ∧
    (opens → servers (sys b') = list_to_set (taken es) ∪ servers (sys b)).
Proof.
  induction es as [|e es IH]; intros b Hb Hes Hnd Ha Hsz.
  { exists b. split; [done|]. split; [done|]. split; [lia|]. simpl. by rewrite (left_id_L ∅ (∪)). }
  apply Forall_cons in Hes as [He Hes].
  assert (Hports : ports (e :: es) = ports [e] ++ ports es) by (by destruct e).
  rewrite Hports, ?fmap_app, ?length_app in *. apply NoDup_app in Hnd as (_ & Hnew & Hnd).
  destruct (do_bevent_ok b e Hb He) as (b1 & Hd & Hb1 & Hs & Ho); [lia|set_solver|].
  assert (Hsize : (base.size (servers (sys b1)) ≤ length (ports [e]) + base.size (servers (sys b)))%nat).
  { rewrite <- (length_fmap (λ p, address (Start.colon p))). etrans; [by apply subseteq_size|apply size_added]. }
  destruct (IH b1 Hb1 Hes Hnd) as (b2 & Hd2 & Hb2 & Hsz2 & Ho2); [set_solver|lia|].
  exists b2. cbn [do_bevents]. rewrite Hd. split_and!; [done..|].
  intros Hop. rewrite (Ho2 Hop), (Ho Hop), list_to_set_app_L. set_solver.
Qed.
Lemma booting_nothing r w : healthy w → (∀ k, is_Some (kvs w !! k) → GoStr.HasPrefix k "/mysh/" = false) →
  booting (nothing r w t).
Proof.
  intros Hw Hk. pose proof (content_empty (kvs w) Hk) as Hc. split; [|done|done]. split; simpl; try done.
  split; simpl; try done; [|by intros id; repeat constructor].
  intros id Hid _. left. split; [|done]. unfold etcd_stored. by rewrite (content_none _ _ _ Hc (path_not_boot id Hid)).
Qed.

(** *** A system that is ready *)
Lemma handle_events q : ∀ b, booting b → (base.size (servers (sys b)) ≤ 128)%nat → queue b = Some q →
  ∃ b', do_bevents (replicate (length q) BHandle) b = Done b' ∧ booting b' ∧ queue b' = Some [] ∧
    servers (sys b') = servers (sys b) ∧ etcd_of (sys b') = etcd_of (sys b).
Proof.
  induction q as [|e q IH]; intros b Hb Hsz Hq; [by exists b|].
  destruct (handle_event b Hb Hsz) as (b1 & Hd & Hb1 & Hs & Hq1 & He). rewrite Hq in Hq1.
  destruct (IH b1 Hb1) as (b2 & Hd2 & Hb2 & Hq2 & Hs2 & He2); [by rewrite Hs|done|].
  exists b2. cbn [length replicate do_bevents]. rewrite Hd. simpl. split; [done|]. by rewrite Hs2, He2, Hs, He.
Qed.
Lemma gets_ready b now : booting b → (base.size (servers (sys b)) ≤ 128)%nat → servers (sys b) ≠ ∅ →
  year_ok now = true → opens →
  ∃ n b', do_bevents (BDash :: BElect now :: replicate n BHandle) b = Done b' ∧ ready b'.
Proof.
  intros Hb Hsz Hne Hnow Hopen.
  destruct (dash_starts b Hb) as (b1 & Hd1 & Hb1 & Hs1 & Hq1). destruct (Hq1 Hopen) as (q & l & Hq & Hl & Hlive).
  destruct (elect_event b1 now Hb1 Hnow) as (b2 & Hd2 & Hb2 & Hs2 & Hq2 & Hlead). rewrite Hq in Hq2.
  destruct (handle_events q b2 Hb2) as (b3 & Hd3 & _ & Hq3 & Hs3 & He3); [by rewrite Hs2, Hs1|done|].
  exists (length q), b3. cbn [do_bevents do_bevent] in *. rewrite Hd1. cbn [mbind outcome_bind]. rewrite Hd2.
  cbn [mbind outcome_bind]. split; [done|]. split; [done|]. rewrite He3, Hs3, Hs2, Hs1. split; [|done]. by apply (Hlead l).
Qed.
Variable getter : string → T → result (string * string) * T.
Lemma ready_sysok b : booting b → ready b → SystemFacts.sysok getter quiet (sys b) empty_spec.
Proof.
  intros [[Hh Hc Hk Hd Hp] Hq _] (Hdone & Hlead & Hne). specialize (Hq _ Hdone).
  pose proof (queue_done _ _ Hq) as Hadd. destruct (q_fits _ _ _ Hq) as (Hring & _ & Hv & _).
  split; [|intros n p ->%Hp; apply SystemFacts.fresh_proxy].
  assert (Hhome : ∀ uid, SystemFacts.homes (world_of (sys b)) uid = None)
    by (intros uid; by apply (content_home _ (servers (sys b)))).
  split.
  - apply dok_intro; [done| |by eapply content_index|done|by rewrite Hadd| |by rewrite Hv|done| |].
    + by apply (content_none _ (servers (sys b))), lock_not_boot.
    + rewrite Hadd. apply (ct_plain _ _ Hc).
    + rewrite Hd. intros ep c. simpl. by rewrite lookup_empty.
    + rewrite Hd. intros uid. unfold Suspend.uidSuspensive. simpl. by rewrite lookup_empty.
  - destruct Hlead as [[v l] Hl]. destruct (ct_leader _ _ Hc v l Hl) as (e & -> & ? & ?). by exists e, l.
  - intros uid ep _. by rewrite Hhome.
  - intros a. by rewrite Hadd.
Qed.
End facts.
End BootFacts.

(** ** The theorem *)
Module BootTheorems.
Import Cluster System Boot BootKeys BootFacts.
Section theorems.
Context {W T : Type} `{HL : EtcdLaws W} `{Clock W} `{HN : Net W} `{!NetLaws W}.
Variable getter : string → T → result (string * string) * T.
Hypothesis salted : ∀ uid t salt p t', getter uid t = (Ok (salt, p), t') → salt ≠ "".
Hypothesis quiet : ∀ w : W, cli_Sleep w = w.
Hypothesis time_only : ∀ d (w : W), kvs (Sleep d w) = kvs w ∧ (healthy w → healthy (Sleep d w)).

(** C4. The system comes up by itself.  Over an etcd that holds nothing of mysh, let
    up to 128 search servers at different addresses, proxies and dashes start in any
    order, with the election and the controller of the dash in between; nothing
    blocks or panics.  Whenever a leader is in etcd, the dash has handled what it
    was told of the registry and a server runs, the system answers as one search
    server with empty histories, through every proxy.  When ports are free, all servers run, and if there is one, a
    dash that starts brings the system there with its first round of the election. *)
Theorem cold_start fuel pfuel es r (w : W) (t : T) now :
  healthy w → (∀ k, is_Some (kvs w !! k) → GoStr.HasPrefix k "/mysh/" = false) →
  Forall bevent_ok es → NoDup ((λ p, address (Start.colon p)) <$> ports es) → (length (ports es) ≤ 128)%nat →
  year_ok now = true →
  ∃ b, do_bevents es (nothing r w t) = Done b ∧
    (ready b → ∀ qs, Forall SystemFacts.sevent_ok qs →
      ∃ os y' x', do_sevents getter (S fuel) (S pfuel) qs (sys b) = Done (os, y') ∧
        spec_sevents getter (empty_spec t) qs os x') ∧
    (opens (W := W) → servers (sys b) = list_to_set ((λ p, address (Start.colon p)) <$> ports es)) ∧
    (opens (W := W) → ports es ≠ [] →
      ∃ n b', do_bevents (BDash :: BElect now :: replicate n BHandle) b = Done b' ∧ ready b').
Proof.
  intros Hw Hk Hes Hnd Hsz Hnow.
  destruct (do_bevents_ok quiet time_only t es _ (booting_nothing t r w Hw Hk) Hes Hnd)
    as (b & Hd & Hb & Hs); [set_solver|done|].
  destruct Hs as [Hs Ho]. exists b. split; [done|]. split; [|split].
  - intros Hr qs Hqs.
    destruct (SystemFacts.do_sevents_ok getter salted quiet time_only fuel pfuel qs _ _
      (ready_sysok quiet t getter b Hb Hr) Hqs) as (os & y' & x' & ? & ? & _). by exists os, y', x'.
  - intros Hop. rewrite (Ho Hop). set_solver.
  - intros Hop Hne. apply (gets_ready quiet time_only t); try done. rewrite (Ho Hop).
    destruct (ports es); [done|set_solver].
Qed.
End theorems.

(** *** Witness: etcd in memory, and a network that listens everywhere; a search
    server, a proxy and a dash start, then another server joins *)
Import MemEtcd.
#[local] Existing Instances StartTheorems.mem_net ProxyTheorems.still_clock.
#[local] Program Instance mem_net_laws : NetLaws mem := {| address port := "[::]" +:+ port |}.
Next Obligation.
  intros port. unfold Start.colon. simpl. unfold GoStr.name_ok. rewrite bool_decide_eq_false_2 by naive_solver.
  simpl. by rewrite GoStr.sapp_nil_r, GoStr.has_char_Itoa_slash.
Qed.
Next Obligation. intros port w. simpl. split_and!; [done..|]. by intros lis [= <-]. Qed.
Next Obligation. done. Qed.
Definition ex_boot : list bevent :=
  [BServer 8083; BProxy Start.Port; BDash; BElect ElectTheorems.ex_now; BHandle; BServer Start.search_server_port;
   BTime Second; BHandle].
Lemma cold_start_witness : ∃ b : boot mem nat,
  do_bevents ex_boot (nothing RingTheorems.ex_ring StartTheorems.ex_w 0%nat) = Done b ∧
  servers (sys b) = {["[::]:8083"; "[::]:8084"]} ∧
  (ready b → ∀ qs, Forall SystemFacts.sevent_ok qs →
    ∃ os y' x', do_sevents AuthTheorems.ex_table 1 1 qs (sys b) = Done (os, y') ∧
      spec_sevents AuthTheorems.ex_table (empty_spec 0%nat) qs os x') ∧
  ∃ n b', do_bevents (BDash :: BElect ElectTheorems.ex_now :: replicate n BHandle) b = Done b' ∧ ready b'.
Proof.
  destruct (cold_start AuthTheorems.ex_table ServerTheorems.ex_salted DeploymentTheorems.mem_quiet
    SystemTheorems.mem_time 0 0 ex_boot RingTheorems.ex_ring StartTheorems.ex_w 0%nat ElectTheorems.ex_now)
    as (b & Hd & Hserves & Hall & Hready); [done| |by repeat constructor| |simpl; lia|done|].
  - intros k. simpl. rewrite lookup_empty. by intros [].
  - vm_compute. repeat constructor; set_solver.
  - assert (Hopen : opens (W := mem)) by (intros port w; reflexivity).
    exists b. split; [exact Hd|]. split; [|split; [exact Hserves|exact (Hready Hopen ltac:(discriminate))]].
    rewrite (Hall Hopen). vm_compute. reflexivity.
Defined.
End BootTheorems.
